(* ===== verification/_CoqProject ===== *)
-Q . S2P
Prelude.v
GoIO.v
GoNet.v
GoStrings.v
NetText.v
HostPort.v
Keys.v
Tls.v
ConfigTypes.v
Split.v
CacheApi.v
LruCache.v
TtlCache.v
ConnRegistry.v
Sniffer.v
Bpf.v
CaptureHandle.v
Writer.v
Desync.v
DomainTrie.v
CidrTrie.v
RuleSet.v
Socks5Proto.v
NetIP.v
AddrSelect.v
Dns.v
ConfigParse.v
RuleJson.v
ConfigToml.v
ConfigLoad.v
Cli.v
NetUtil.v
Conns.v
HttpProto.v
HttpWire.v
TcpHandlers.v
Routing.v
HttpServer.v
HttpRead.v
UdpHeader.v
SocksServer.v
UdpAssociate.v
UdpSession.v
TunServer.v
Session.v
Contract.v
EndToEnd.v
TunPump.v
Jobs.v
SysNet.v
TunSys.v
TunNet.v
Discover.v
ProxySys.v
Logging.v
Tui.v
TuiShell.v
App.v
