(* ===== verification/Prelude.v ===== *)
(** * SpoofDPI: a verification library

    A model of the proxy in Rocq, translated from the Go sources, with the
    theorems that make its parts correct. SpoofDPI accepts connections (as an
    HTTP proxy, as a SOCKS5 proxy, or from a TUN device), decides by rules what
    becomes of each, resolves names, dials, and sends the first TLS record in a
    way that inspection boxes do not reassemble.

    ** The parts and their files (sources under [internal/] unless given)

    - Go itself. [Prelude]: outcomes of Go code ([Ok], [Err], [Panic],
      [Diverge]), integers at their width, slices, checked indexing, the tactics
      and the hint database [spoof]. [GoIO]: error values, byte readers.
      [GoNet], [NetIP]: addresses. [GoStrings]: [strings]. [NetText]: the class
      of what the program relies on of [net.ParseIP], [IP.String] and
      [net.ParseCIDR], with an instance. [HostPort]: host and port texts.
    - The record: [Tls] ([proto/tls.go]); [Split] and [Desync]
      ([desync/tls.go], [desync/udp.go]): splitting a Client Hello, sending
      segments with changed TTLs, fakes.
    - Caches: [Keys] ([netutil/key.go]); [CacheApi] (the class [Cache], its laws
      and the hash, [cache/cache.go], [hash.go]); [LruCache] and [TtlCache]
      (instances); [ConnRegistry] ([netutil/conn_registry.go]), proved against
      the class.
    - Packets: [Sniffer] ([packet/*_sniffer.go], against the class [Cache]);
      [Bpf] (the capture filters, with an interpreter); [CaptureHandle]
      ([packet/handle_*.go], raw sockets as a table of descriptors); [Writer]
      ([packet/*_writer.go]); [Discover] ([packet/discover.go]).
    - Rules: [DomainTrie], [CidrTrie] ([trie/]; the Patricia tree is the class
      [Patricia]); [RuleSet] ([rule/]).
    - Names: [AddrSelect] ([dns/addrselect]); [Dns] ([dns/]).
    - Configuration: [ConfigTypes], [ConfigParse], [ConfigToml], [ConfigLoad]
      ([config/]); [Cli] (the flags one by one, the places of the file, the exit
      status, [config/cli.go]); [RuleJson] (a rule in the trace log).
    - Connections: [NetUtil] ([netutil/{dial,conn,dst,error}.go]); [Conns] (the
      rest of [conn.go]: buffered connections over the network's chunks, the copy
      of a tunnel, byte counters); [HttpProto], [HttpRead] (a request head, line by
      line through the buffer), [HttpWire], [Socks5Proto], [UdpHeader] (messages); [TcpHandlers] (the handlers of HTTP, HTTPS and
      CONNECT); [Routing] (the rule of a request, shared by the proxies);
      [HttpServer] ([server/http/http.go]); [SocksServer]
      ([server/socks5/socks5.go], BIND, the set-up of UDP ASSOCIATE);
      [UdpAssociate] (its relay, on a [ConnRegistry]) and [UdpSession] (the end
      of an association); [TunServer] and [TunPump] ([server/tun/]); [Contract]
      (the automaton of a connection's life, which every server refines);
      [EndToEnd] (the contract with the desyncer and the copy of a tunnel).
    - The machine: [Jobs] ([netutil/network_job.go], [executil]); [SysNet]
      ([netutil/system.go], [BindDialer]); [TunNet] (the jobs of each system);
      [TunSys] and [ProxySys] (the system networks as classes with an instance
      per system, the start of the servers, the PAC server).
    - The program: [Session] ([session/], [server/server.go], the accept
      loops); [Logging] ([logging/]); [Tui] and [TuiShell]
      ([cmd/spoofdpi/tui.go]: the log view; rates, footer, start); [App]
      ([cmd/spoofdpi/main.go]).

    ** How state and effects are modelled

    A function that returns [(T, error)] is an [outcome]; out-of-range accesses
    are [Panic]; a loop with too little fuel is [Diverge], so that a theorem
    that excludes [Diverge] is a termination theorem. Data structures are
    records passed along. A connection handler is a computation that appends to
    a trace of effects (dial, reply, desync, tunnel, close), with the answers of
    the environment (the network, the resolver, the client's bytes) as a record
    [*_env] the theorems quantify over. Goroutines that share state are step
    relations or lists of events: [NetUtil.dial_step] (the workers and the
    collector of [DialFastest]), [UdpAssociate.relay_step], [UdpSession.own] (the
    loop and the monitor of an association), [TunPump.pump_step],
    [TtlCache] (operations split at their locks), [Discover.arp_step],
    [Tui.reachable], the steps of [TuiShell] that start the interface. Commands run on a [Jobs.host] of files and a history of
    commands, whose answers may depend on that history.

    ** What the theorems show

    - The contract: whatever a client sends and the network answers, the trace
      of each server is a run of one automaton: one remote at most, always let
      go of, nothing sent before it is open, no reply once the client's bytes
      went out, the tunnel starting where they end, the client closed last
      ([Contract], by a calculus of weakest preconditions for handlers); with the
      desyncer and the tunnel's copy put in, what the origin receives is a
      stretch of the client's stream, whatever is split, faked or fails, and
      what the client receives after the replies is the origin's
      ([EndToEnd]).
    - Delivery: every split mode cuts the record without losing a byte; what is
      sent is the record, whatever fails; fakes are sent as configured, with a
      TTL one hop short of the server.
    - Parsers: no input of a peer makes TLS, SOCKS5 or UDP header parsing panic
      or run forever, and each is exact on well-formed input.
    - Routing: the tries and the rule set find the most specific pattern; both
      proxies serve a request by the best rule; a blocked HTTP request is never
      dialed, nor a blocked CONNECT.
    - Streams: a buffered connection refines the byte reader however the network
      cuts the stream, a request head is found in any chunks (with the bytes
      that are lost after it), and a tunnel copies the stream it buffered from its first
      byte.
    - Stores: the LRU shard refines a recency list, an entry of the TTL cache
      lives exactly its time, the connection registry loses no open connection,
      UDP sessions do not mix, and an association ends with both its goroutines.
    - Capture: a handle owns its descriptor, reads what its filter accepts, and
      a failed start leaves nothing open.
    - Resolution and dialing: answers are gathered, sorted by RFC 6724 and
      cached for their TTL; at most ten dials run, the race ends, and its winner
      is open.
    - Configuration: loading never panics, gives options in range, and rules
      inherit what they leave out; the flags have names of their own; the JSON of
      a rule is one line that reads back to its settings.
    - The machine: jobs are applied in order and undone in reverse, whatever
      fails no state file outlives the program, and TUN mode takes addresses and
      a table that are free, and its dials are tied to the default interface.

    Lemmas about behaviour that looks unintended are stated as what the code
    does ([HttpServer.forbidden_then_dials], [TunServer.tun_ignores_block],
    [Bpf.synack_filter_leaks], [NetUtil.DialFastest_leaks] and others).

    ** Fuel and bounds

    [Tls.ext_loop] gets one step more than the record has bytes and each
    extension takes at least four; [Split.chunk_loop] one step per byte;
    [HostPort] and [NetText] digits are bounded by the 64-bit range;
    [Conns.peek_loop] gets a step per byte of the buffer, [Conns.read_full_loop]
    one per byte asked for and [Conns.copy_loop] one more than the bytes that are
    left, since the network's chunks are not empty; [HttpRead.read_line] gets two
    per byte to come, since each round moves bytes into the buffer or out of it;
    [RuleJson.parse] gets the
    length of the text; an association makes at most seven steps besides its
    work;
    [Discover.arp_run] runs over the list of steps taken, and ends when the
    context's deadline is one of them. Everything else is structural.

    ** Not modelled

    The user-space network stack and the TUN device behind it, libpcap (the calls
    made of it are), the serialization of crafted packets, the meaning of the lines
    of an HTTP head, the TOML parser, parsing arguments, colours and layout of the terminal: their
    results are parameters. Read and write deadlines only appear as the errors
    they cause. Locks make operations atomic; where the code unlocks in between,
    the operation is split.

    ** Plan

    Left: the fields of an HTTP request head; the transport of the
    DNS-over-HTTPS client. *)

From stdpp Require Export base tactics numbers list strings gmap sorting.
From Stdlib Require Export ZArith Lia.

#[global] Open Scope Z_scope.

(** ** Outcomes of Go code

    A Go function that returns [(T, error)] yields [Ok] or [Err]; an index or
    slice expression out of range, or an explicit [panic], yields [Panic]; a
    loop that exceeds the fuel it was given yields [Diverge], so a theorem that
    excludes [Diverge] is a termination theorem. *)
Inductive outcome (E A : Type) : Type :=
| Ok (a : A)
| Err (e : E)
| Panic
| Diverge.
Arguments Ok {E A} _.
Arguments Err {E A} _.
Arguments Panic {E A}.
Arguments Diverge {E A}.

#[export] Instance outcome_ret E : MRet (outcome E) := λ A a, Ok a.
#[export] Instance outcome_bind E : MBind (outcome E) := λ A B f m,
  match m with
  | Ok a => f a
  | Err e => Err e
  | Panic => Panic
  | Diverge => Diverge
  end.
#[export] Instance outcome_fmap E : FMap (outcome E) := λ A B f m,
  match m with
  | Ok a => Ok (f a)
  | Err e => Err e
  | Panic => Panic
  | Diverge => Diverge
  end.

(** [defined m]: the computation returned, with a value or with an error. *)
Definition defined {E A} (m : outcome E A) : Prop :=
  match m with Ok _ | Err _ => True | Panic | Diverge => False end.

(** [returns m Q]: the computation returned, and a value it returned satisfies
    [Q]. The rules below drive the symbolic execution of checked code. *)
Definition returns {E A} (m : outcome E A) (Q : A → Prop) : Prop :=
  match m with Ok a => Q a | Err _ => True | Panic | Diverge => False end.

(** Early return of an error: [if err != nil { return err }]. *)
Definition guard_err {E} (b : bool) (e : E) : outcome E unit :=
  if b then Err e else Ok tt.

(** ** Machine integers at their width *)
Definition u8 (z : Z) : Z := z mod 2 ^ 8.
Definition u16 (z : Z) : Z := z mod 2 ^ 16.
Definition u32 (z : Z) : Z := z mod 2 ^ 32.
Definition u64 (z : Z) : Z := z mod 2 ^ 64.

(** [int64] conversion of a 64-bit pattern (two's complement). *)
Definition i64 (z : Z) : Z := (z + 2 ^ 63) mod 2 ^ 64 - 2 ^ 63.

(** [bits.RotateLeft8] and [bits.RotateLeft64]: the count is taken modulo the
    width ([k & 7], [k & 63]), so negative counts rotate right. *)
Definition RotateLeft8 (x k : Z) : Z :=
  let s := k mod 8 in Z.lor (u8 (Z.shiftl x s)) (Z.shiftr x (8 - s)).
Definition RotateLeft64 (x k : Z) : Z :=
  let s := k mod 64 in Z.lor (u64 (Z.shiftl x s)) (Z.shiftr x (64 - s)).

(** ** Byte slices *)
Abbreviation bytes := (list Z) (only parsing).

Definition byte_ok (b : Z) : Prop := 0 <= b < 256.
Definition bytes_ok (l : bytes) : Prop := Forall byte_ok l.

Definition len {A} (l : list A) : Z := Z.of_nat (length l).

(** [l[a:b]] for indices already known to be in range. *)
Definition slice {A} (l : list A) (a b : Z) : list A :=
  take (Z.to_nat (b - a)) (drop (Z.to_nat a) l).

(** [l[a:b]] and [l[i]] with Go's bounds checks. *)
Definition slice_chk {E A} (l : list A) (a b : Z) : outcome E (list A) :=
  if (0 <=? a) && (a <=? b) && (b <=? len l) then Ok (slice l a b) else Panic.

Definition index {E A} (l : list A) (i : Z) : outcome E A :=
  if (0 <=? i) then
    match l !! Z.to_nat i with Some x => Ok x | None => Panic end
  else Panic.

(** [binary.BigEndian.Uint16] and [PutUint16]. *)
Definition be16 (hi lo : Z) : Z := Z.lor (Z.shiftl hi 8) lo.
Definition put_be16 (v : Z) : bytes := [Z.land (Z.shiftr v 8) 255; Z.land v 255].

(** [int(binary.BigEndian.Uint16(raw[i:i+2]))], slice bounds included. *)
Definition read_be16 {E} (raw : bytes) (i : Z) : outcome E Z :=
  s ← slice_chk raw i (i + 2);
  match s with
  | [hi; lo] => Ok (be16 hi lo)
  | _ => Panic
  end.

(** The bytes of a Go string and back. *)
Definition byte_of_ascii (a : Ascii.ascii) : Z := Z.of_N (Ascii.N_of_ascii a).
Definition ascii_of_byte (b : Z) : Ascii.ascii := Ascii.ascii_of_N (Z.to_N b).

Fixpoint bytes_of_string (s : string) : bytes :=
  match s with
  | EmptyString => []
  | String c s' => byte_of_ascii c :: bytes_of_string s'
  end.

Fixpoint string_of_bytes (l : bytes) : string :=
  match l with
  | [] => EmptyString
  | b :: l' => String (ascii_of_byte b) (string_of_bytes l')
  end.

(** [cursor rw i l]: position [i] of [rw] is where the rest [l] starts. *)
Definition cursor {A} (rw : list A) (i : Z) (l : list A) : Prop :=
  ∃ p, rw = p ++ l ∧ i = len p.

(** A sequence of operations on a state, with the results in order. *)
Fixpoint run_ops {S O R} (step : O → S → R * S) (ops : list O) (s : S) : list R * S :=
  match ops with
  | [] => ([], s)
  | o :: ops =>
    let '(r, s) := step o s in
    let '(rs, s) := run_ops step ops s in
    (r :: rs, s)
  end.

#[global] Arguments len : simpl never.
#[global] Arguments put_be16 : simpl never.
#[global] Arguments be16 : simpl never.
#[global] Arguments read_be16 : simpl never.
#[global] Arguments index : simpl never.
#[global] Arguments slice : simpl never.
#[global] Arguments slice_chk : simpl never.

(** ** Tactics *)

(** Solves linear goals that mention [len] and machine-word constants. *)
Ltac len_lia :=
  unfold len, byte_ok in *;
  repeat first
    [ rewrite length_app in * | rewrite length_take in *
    | rewrite length_drop in * | rewrite length_cons in * ];
  cbn [length] in *; lia.

(** Linear goals with division and modulo by constants. *)
Ltac dm_lia := Z.to_euclidean_division_equations; lia.

(** Splits every boolean test and [match] scrutinee of the hypothesis or goal. *)
Ltac case_bool :=
  repeat match goal with
  | H : (_ && _) = true |- _ => apply andb_true_iff in H; destruct H
  | H : (_ || _) = false |- _ => apply orb_false_iff in H; destruct H
  | H : negb _ = true |- _ => apply negb_true_iff in H
  | H : negb _ = false |- _ => apply negb_false_iff in H
  | H : (_ =? _) = true |- _ => apply Z.eqb_eq in H
  | H : (_ =? _) = false |- _ => apply Z.eqb_neq in H
  | H : (_ <? _) = true |- _ => apply Z.ltb_lt in H
  | H : (_ <? _) = false |- _ => apply Z.ltb_ge in H
  | H : (_ <=? _) = true |- _ => apply Z.leb_le in H
  | H : (_ <=? _) = false |- _ => apply Z.leb_gt in H
  end.

(** ** Lists and slices *)
Create HintDb spoof.

Lemma filter_all {A} (P : A → Prop) `{∀ x, Decision (P x)} (l : list A) :
  Forall P l → filter P l = l.
Proof.
  induction 1 as [| x l Hx _ IH]; [done |]. by rewrite filter_cons_True, IH.
Qed.

Lemma len_nonneg {A} (l : list A) : 0 <= len l.
Proof. unfold len. lia. Qed.

Lemma len_app {A} (l k : list A) : len (l ++ k) = len l + len k.
Proof. len_lia. Qed.

Lemma len_cons {A} (x : A) l : len (x :: l) = 1 + len l.
Proof. len_lia. Qed.

Lemma len_nil_inv {A} (l : list A) : len l = 0 → l = [].
Proof. destruct l; unfold len; simpl; [done | lia]. Qed.

Lemma len_slice {A} (l : list A) a b :
  0 <= a <= b → b <= len l → len (slice l a b) = b - a.
Proof. intros. unfold slice. len_lia. Qed.

Lemma slice_glue {A} (l : list A) a b c :
  0 <= a <= b → b <= c → slice l a b ++ slice l b c = slice l a c.
Proof.
  intros. unfold slice.
  replace (Z.to_nat (c - a)) with (Z.to_nat (b - a) + Z.to_nat (c - b))%nat by lia.
  replace (Z.to_nat b) with (Z.to_nat a + Z.to_nat (b - a))%nat by lia.
  rewrite <- drop_drop.
  symmetry. rewrite <- (take_drop (Z.to_nat (b - a)) (drop (Z.to_nat a) l)) at 1.
  destruct (decide (length (drop (Z.to_nat a) l) <= Z.to_nat (b - a))%nat).
  - rewrite (drop_ge (drop _ _)) by lia. rewrite take_nil, !app_nil_r.
    rewrite !take_ge; try done; rewrite ?length_take; lia.
  - rewrite take_app, length_take, (Nat.min_l (Z.to_nat (b - a))) by lia.
    f_equal.
    + rewrite take_take. f_equal. lia.
    + f_equal. lia.
Qed.

Lemma slice_full {A} (l : list A) : slice l 0 (len l) = l.
Proof. unfold slice, len. rewrite drop_0, take_ge; [done | lia]. Qed.

Lemma slice_empty {A} (l : list A) a : slice l a a = [].
Proof. unfold slice. rewrite Z.sub_diag. done. Qed.

Lemma slice_app_l {A} (l k : list A) : slice (l ++ k) 0 (len l) = l.
Proof.
  unfold slice, len. rewrite drop_0, take_app_le by lia. apply take_ge. lia.
Qed.

Lemma slice_app_mid {A} (p l s : list A) :
  slice (p ++ l ++ s) (len p) (len p + len l) = l.
Proof.
  unfold slice, len. rewrite drop_app_ge by lia.
  replace (Z.to_nat (Z.of_nat (length p)) - length p)%nat with 0%nat by lia.
  rewrite drop_0, take_app_le by lia. apply take_ge. lia.
Qed.

Lemma slice_single {A} (l : list A) i x :
  0 <= i → l !! Z.to_nat i = Some x → slice l i (i + 1) = [x].
Proof.
  intros Hi Hx. unfold slice. replace (Z.to_nat (i + 1 - i)) with 1%nat by lia.
  rewrite (drop_S _ _ _ Hx). done.
Qed.

Lemma index_ok {E A} (l : list A) i :
  0 <= i < len l → ∃ x, l !! Z.to_nat i = Some x ∧ index (E:=E) l i = Ok x.
Proof.
  intros Hi. unfold index. destruct (lookup_lt_is_Some_2 l (Z.to_nat i)) as [x Hx].
  { len_lia. }
  exists x. rewrite Hx. by replace (0 <=? i) with true by lia.
Qed.

Lemma slice_chk_ok {E A} (l : list A) a b :
  0 <= a <= b → b <= len l → slice_chk (E:=E) l a b = Ok (slice l a b).
Proof.
  intros. unfold slice_chk.
  by replace ((0 <=? a) && (a <=? b) && (b <=? len l)) with true by lia.
Qed.

Lemma index_app_mid {E A} (p : list A) x s i :
  i = len p → index (E:=E) (p ++ x :: s) i = Ok x.
Proof.
  intros ->. unfold index. replace (0 <=? len p) with true by (pose proof (len_nonneg p); lia).
  unfold len. rewrite Nat2Z.id, list_lookup_middle; done.
Qed.

Lemma Ok_pair {E A B} (a c : A) (b d : B) :
  a = c → b = d → Ok (E:=E) (a, b) = Ok (c, d).
Proof. congruence. Qed.

(** [index] and [slice_chk] at a known split of the list. *)
Lemma index_split {E A} (rw p s : list A) x i :
  rw = p ++ x :: s → i = len p → index (E:=E) rw i = Ok x.
Proof. intros -> ->. by apply index_app_mid. Qed.

(** ** Bits *)

(** A property of the integers below [n] checked by computation. *)
Lemma range_check (n : Z) (P : Z → bool) :
  forallb P (seqZ 0 n) = true → ∀ k, 0 <= k < n → P k = true.
Proof.
  intros H k Hk. rewrite forallb_forall in H. apply H.
  apply list_elem_of_In, elem_of_seqZ. lia.
Qed.

Lemma land_pow2_test m k :
  0 <= k → (Z.land m (2 ^ k) =? 2 ^ k) = Z.testbit m k.
Proof.
  intros Hk. destruct (Z.testbit m k) eqn:Hb.
  - apply Z.eqb_eq. apply Z.bits_inj'. intros i Hi.
    rewrite Z.land_spec, Z.pow2_bits_eqb by lia.
    destruct (Z.eqb_spec k i) as [-> |]; [by rewrite Hb | by rewrite andb_false_r].
  - apply Z.eqb_neq. intros H.
    apply (f_equal (λ z, Z.testbit z k)) in H.
    rewrite Z.land_spec, Z.pow2_bits_true, Hb in H by lia. done.
Qed.

(** The power-of-two test [n & (n-1) == 0]. *)
Lemma land_pred_pow2 n : 0 < n → Z.land n (n - 1) = 0 ↔ n = 2 ^ Z.log2 n.
Proof.
  intros Hn. pose proof (Z.log2_spec n Hn) as [Hlo Hhi].
  pose proof (Z.log2_nonneg n) as Hj. rewrite Z.pow_succ_r in Hhi by done. split.
  - intros H0. destruct (decide (n = 2 ^ Z.log2 n)) as [| Hne]; [done |]. exfalso.
    apply (f_equal (λ z, Z.testbit z (Z.log2 n))) in H0.
    rewrite Z.land_spec, Z.bits_0, Z.bit_log2 in H0 by done.
    assert (Z.log2 (n - 1) = Z.log2 n) as He by (apply Z.log2_unique; rewrite ?Z.pow_succ_r by done; lia).
    rewrite <- He, Z.bit_log2 in H0 by lia. done.
  - intros He. rewrite He at 2. rewrite He at 1.
    replace (2 ^ Z.log2 n - 1) with (Z.ones (Z.log2 n)) by (rewrite Z.ones_equiv; lia).
    rewrite Z.land_ones by done. by apply Z.mod_same; lia.
Qed.

Lemma lor_range n a b :
  0 <= n → 0 <= a < 2 ^ n → 0 <= b < 2 ^ n → 0 <= Z.lor a b < 2 ^ n.
Proof.
  intros Hn Ha Hb. split; [apply Z.lor_nonneg; lia |].
  destruct (decide (Z.lor a b = 0)) as [-> | Hne]; [lia |].
  pose proof (proj2 (Z.lor_nonneg a b)) as Hnn.
  apply Z.log2_lt_pow2; [lia |]. rewrite Z.log2_lor by lia.
  assert (Hlog : ∀ z, 0 <= z < 2 ^ n → z ≠ 0 → Z.log2 z < n)
    by (intros z ? ?; apply Z.log2_lt_pow2; lia).
  destruct (decide (a = 0)) as [-> |], (decide (b = 0)) as [-> |];
    [done | | | apply Z.max_lub_lt; auto].
  - rewrite Z.max_r by apply Z.log2_nonneg. auto.
  - rewrite Z.max_l by apply Z.log2_nonneg. auto.
Qed.

Lemma u64_range z : 0 <= u64 z < 2 ^ 64.
Proof. unfold u64. apply Z.mod_pos_bound. lia. Qed.

Lemma u64_pow2_bit j k :
  0 <= j → 0 <= k → j + k < 64 → Z.testbit (u64 (Z.shiftl (2 ^ j) k)) (j + k) = true.
Proof.
  intros. rewrite Z.shiftl_mul_pow2, <- Z.pow_add_r by lia. unfold u64.
  rewrite Z.mod_small, Z.pow2_bits_true by lia || (split; [lia | apply Z.pow_lt_mono_r; lia]).
  done.
Qed.

Lemma RotateLeft8_mod x s : RotateLeft8 x s = RotateLeft8 x (s mod 8).
Proof. unfold RotateLeft8. by rewrite Z.mod_mod. Qed.

Lemma RotateLeft8_one s : RotateLeft8 0x01 s = 2 ^ (s mod 8).
Proof.
  rewrite RotateLeft8_mod. apply Z.eqb_eq.
  apply (range_check 8 (λ k, RotateLeft8 1 k =? 2 ^ k)); [done |].
  apply Z.mod_pos_bound. lia.
Qed.

Lemma RotateLeft8_msb s : ∃ j, 0 <= j < 8 ∧ RotateLeft8 0x80 s = 2 ^ j.
Proof.
  exists ((s mod 8 + 7) mod 8). split; [apply Z.mod_pos_bound; lia |].
  rewrite RotateLeft8_mod. apply Z.eqb_eq.
  apply (range_check 8 (λ k, RotateLeft8 0x80 k =? 2 ^ ((k + 7) mod 8))); [done |].
  apply Z.mod_pos_bound. lia.
Qed.

Lemma RotateLeft64_pow2 k :
  0 <= k < 64 → RotateLeft64 (2 ^ k) 1 = 2 ^ ((k + 1) mod 64).
Proof.
  intros Hk. apply Z.eqb_eq.
  by apply (range_check 64 (λ k, RotateLeft64 (2 ^ k) 1 =? 2 ^ ((k + 1) mod 64))).
Qed.

(** ** Symbolic execution of checked code *)
Lemma defined_bind {E A B} (m : outcome E A) (f : A → outcome E B) :
  defined m → (∀ a, m = Ok a → defined (f a)) → defined (m ≫= f).
Proof. destruct m; simpl; auto. Qed.

Lemma returns_defined {E A} (m : outcome E A) Q : returns m Q → defined m.
Proof. by destruct m. Qed.

Lemma returns_Ok {E A} (m : outcome E A) Q a : returns m Q → m = Ok a → Q a.
Proof. by intros H ->. Qed.

Lemma returns_bind {E A B} (m : outcome E A) (f : A → outcome E B) P Q :
  returns m P → (∀ a, P a → returns (f a) Q) → returns (m ≫= f) Q.
Proof. destruct m; simpl; auto. Qed.

Lemma returns_weaken {E A} (m : outcome E A) (P Q : A → Prop) :
  returns m P → (∀ a, P a → Q a) → returns m Q.
Proof. destruct m; simpl; auto. Qed.

Lemma returns_err {E A} (b : bool) e (m : outcome E A) Q :
  (b = false → returns m Q) → returns (if b then Err e else m) Q.
Proof. destruct b; simpl; auto. Qed.

Lemma returns_index {E} (l : bytes) i :
  bytes_ok l → 0 <= i < len l → returns (index (E:=E) l i) byte_ok.
Proof.
  intros Hok Hi. destruct (index_ok (E:=E) l i Hi) as (x & Hx & ->). simpl.
  by eapply Forall_lookup_1.
Qed.

(** ** Big-endian 16-bit fields *)
Lemma be16_val hi lo : 0 <= lo < 256 → be16 hi lo = hi * 256 + lo.
Proof.
  intros Hlo. unfold be16. rewrite Z.shiftl_mul_pow2 by lia.
  change (2 ^ 8) with 256.
  rewrite <- Z.add_lor_land by idtac.
  assert (Z.land (hi * 256) lo = 0) as ->; [| lia].
  apply Z.bits_inj'. intros n Hn. rewrite Z.land_spec, Z.bits_0.
  change 256 with (2 ^ 8). destruct (Z.ltb_spec n 8).
  - rewrite Z.mul_pow2_bits_low by lia. done.
  - rewrite (Z.bits_above_log2 lo n); [by rewrite andb_false_r | lia |].
    destruct (decide (lo = 0)) as [->|]; [cbn; lia |].
    apply Z.log2_lt_pow2; [lia |].
    apply Z.lt_le_trans with (2 ^ 8); [lia | apply Z.pow_le_mono_r; lia].
Qed.

Lemma be16_range hi lo :
  byte_ok hi → byte_ok lo → 0 <= be16 hi lo < 65536.
Proof. unfold byte_ok. intros. rewrite be16_val by lia. lia. Qed.

Lemma land_255 z : Z.land z 255 = z mod 256.
Proof. change 255 with (Z.ones 8). by rewrite Z.land_ones by lia. Qed.

Lemma put_be16_val v : 0 <= v < 65536 → put_be16 v = [v / 256; v mod 256].
Proof.
  intros. unfold put_be16. rewrite !land_255, Z.shiftr_div_pow2 by lia.
  change (2 ^ 8) with 256.
  rewrite (Z.mod_small (v / 256)); [done |].
  dm_lia.
Qed.

Lemma put_be16_ok v : bytes_ok (put_be16 v).
Proof.
  unfold put_be16, bytes_ok, byte_ok. rewrite !land_255.
  repeat constructor; apply Z.mod_pos_bound; lia.
Qed.

Lemma len_put_be16 v : len (put_be16 v) = 2.
Proof. done. Qed.

Lemma read_be16_ok {E} raw i :
  0 <= i → i + 2 <= len raw → bytes_ok raw →
  ∃ v, read_be16 (E:=E) raw i = Ok v ∧ 0 <= v < 65536.
Proof.
  intros Hi Hlen Hok. unfold read_be16. rewrite slice_chk_ok by lia. simpl.
  assert (Hl : len (slice raw i (i + 2)) = 2) by (rewrite len_slice; lia).
  assert (Hb : bytes_ok (slice raw i (i + 2)))
    by (unfold bytes_ok, slice in *; auto using Forall_take, Forall_drop).
  destruct (slice raw i (i + 2)) as [| a [| b [| c s]]];
    rewrite ?len_cons in Hl; change (len (@nil Z)) with 0 in Hl; try lia.
  - exists (be16 a b). split; [done |].
    apply Forall_cons in Hb as [Ha Hb]. apply Forall_cons in Hb as [Hb _].
    by apply be16_range.
  - pose proof (len_nonneg s). lia.
Qed.

Lemma returns_read_be16 {E} raw i :
  bytes_ok raw → 0 <= i → i + 2 <= len raw →
  returns (read_be16 (E:=E) raw i) (λ v, 0 <= v < 65536).
Proof. intros Hok Hi Hl. by destruct (read_be16_ok (E:=E) raw i) as (v & -> & ?). Qed.

Lemma read_be16_put {E} p v s i :
  i = len p → 0 <= v < 65536 → read_be16 (E:=E) (p ++ put_be16 v ++ s) i = Ok v.
Proof.
  intros -> Hv. unfold read_be16. rewrite slice_chk_ok.
  2: { len_lia. }
  2: { rewrite !len_app, len_put_be16. pose proof (len_nonneg s). lia. }
  replace (len p + 2) with (len p + len (put_be16 v)) by done.
  rewrite slice_app_mid, put_be16_val by done. simpl.
  rewrite be16_val by dm_lia. f_equal. dm_lia.
Qed.

Lemma read_be16_split {E} rw p v s i :
  rw = p ++ put_be16 v ++ s → i = len p → 0 <= v < 65536 →
  read_be16 (E:=E) rw i = Ok v.
Proof. intros -> -> ?. by apply read_be16_put. Qed.

(** One step of symbolic execution: a guard, an index or a 16-bit read, with
    its bounds left to [lia]. *)
Ltac run_step :=
  match goal with
  | |- returns (if _ then Err _ else _) _ => apply returns_err; intros; case_bool
  | |- returns (index _ _ ≫= _) _ =>
      eapply returns_bind; [apply returns_index; [done | lia] |];
      intros ?; unfold byte_ok; cbv beta zeta; intros ?
  | |- returns (read_be16 _ _ ≫= _) _ =>
      eapply returns_bind; [apply returns_read_be16; [done | lia | lia] |];
      intros ?; cbv beta zeta; intros ?
  end.

(** ** Reading with a cursor *)
Lemma cursor_start {A} (rw : list A) : cursor rw 0 rw.
Proof. by exists []. Qed.

Lemma cursor_eq {A} (rw : list A) i j l : cursor rw i l → i = j → cursor rw j l.
Proof. by intros ? <-. Qed.

Lemma cursor_app {A} (rw : list A) i a l :
  cursor rw i (a ++ l) → cursor rw (i + len a) l.
Proof.
  intros (p & -> & ->). exists (p ++ a). by rewrite <- app_assoc, len_app.
Qed.

Lemma cursor_index {E A} (rw : list A) i x l :
  cursor rw i (x :: l) → index (E:=E) rw i = Ok x.
Proof. intros (p & Hrw & Hi). by eapply index_split. Qed.

Lemma cursor_be16 {E} (rw : bytes) i v l :
  cursor rw i (put_be16 v ++ l) → 0 <= v < 65536 → read_be16 (E:=E) rw i = Ok v.
Proof. intros (p & Hrw & Hi) ?. by eapply read_be16_split. Qed.

Lemma cursor_slice {A} (rw : list A) i a l :
  cursor rw i (a ++ l) → slice rw i (i + len a) = a.
Proof. intros (p & -> & ->). apply slice_app_mid. Qed.

Lemma cursor_len {A} (rw : list A) i l : cursor rw i l → len rw = i + len l.
Proof. intros (p & -> & ->). by rewrite len_app. Qed.

(** ** Go strings and their bytes *)
Lemma bytes_of_string_ok s : bytes_ok (bytes_of_string s).
Proof.
  induction s as [| c s IH]; simpl; constructor; [| done].
  unfold byte_ok, byte_of_ascii. pose proof (Ascii.N_ascii_bounded c). lia.
Qed.

Lemma string_of_bytes_of_string s : string_of_bytes (bytes_of_string s) = s.
Proof.
  induction s as [| c s IH]; simpl; [done |]. unfold ascii_of_byte, byte_of_ascii.
  by rewrite N2Z.id, Ascii.ascii_N_embedding, IH.
Qed.

Lemma bytes_of_string_of_bytes l : bytes_ok l → bytes_of_string (string_of_bytes l) = l.
Proof.
  induction 1 as [| b l Hb _ IH]; simpl; [done |]. unfold byte_of_ascii, ascii_of_byte.
  unfold byte_ok in Hb. rewrite Ascii.N_ascii_embedding by lia. rewrite Z2N.id by lia.
  by rewrite IH.
Qed.

#[export] Hint Resolve len_nonneg put_be16_ok bytes_of_string_ok : spoof.

(** ** Forward simulation along a sequence of operations *)
Lemma run_ops_refines {S T O R} (step : O → S → R * S) (spec : O → T → R * T)
    (I : S → Prop) (α : S → T) :
  (∀ o s, I s → I (step o s).2 ∧ ((step o s).1, α (step o s).2) = spec o (α s)) →
  ∀ ops s, I s →
    I (run_ops step ops s).2 ∧
    ((run_ops step ops s).1, α (run_ops step ops s).2) = run_ops spec ops (α s).
Proof.
  intros Hstep ops. induction ops as [| o ops IH]; intros s Hs; simpl; [done |].
  destruct (Hstep o s Hs) as [Hs' Heq]. rewrite <- Heq.
  destruct (step o s) as [r s1]. simpl in *. destruct (IH s1 Hs') as [Hs2 Heq2].
  rewrite <- Heq2. by destruct (run_ops step ops s1).
Qed.
