(* ===== verification/GoIO.v ===== *)
(** * Errors and byte readers

    The part of Go's [io] package the program reads through: an [io.Reader] is
    the list of bytes it has still to deliver and the error it reports once
    they are used up ([EOF] for a stream closed by its peer, another error for
    a connection that fails). *)

From S2P Require Import Prelude.

(** The error values the program tells apart. [ErrText] is any other error,
    with its message; [ErrWrap] wraps an error, which [errors.Is] still finds. *)
Inductive error : Type :=
| EOF
| ErrUnexpectedEOF
| ErrClosed
| ErrTimeout
| ErrBrokenPipe
| ErrConnReset
| ErrCanceled
| ErrBlocked
| ErrText (msg : string)
| ErrWrap (prefix : string) (e : error).   (* fmt.Errorf("prefix%w", e) *)

#[export] Instance error_eq_dec : EqDecision error.
Proof. solve_decision. Defined.

(** [err.Error()] *)
Fixpoint Error (e : error) : string :=
  match e with
  | EOF => "EOF"
  | ErrUnexpectedEOF => "unexpected EOF"
  | ErrClosed => "use of closed network connection"
  | ErrTimeout => "i/o timeout"
  | ErrBrokenPipe => "broken pipe"
  | ErrConnReset => "connection reset by peer"
  | ErrCanceled => "context canceled"
  | ErrBlocked => "request blocked"
  | ErrText msg => msg
  | ErrWrap p e => p +:+ Error e
  end%string.

(** [errors.Is(err, target)] *)
Fixpoint Is (e target : error) : bool :=
  bool_decide (e = target) ||
  match e with ErrWrap _ e => Is e target | _ => false end.

Record reader : Type := mkReader { pending : bytes; final : error }.

(** [io.ReadFull(r, buf)] with [len(buf) = n]. *)
Definition ReadFull (n : Z) (r : reader) : outcome error (bytes * reader) :=
  if n <=? len (pending r) then
    Ok (take (Z.to_nat n) (pending r),
        mkReader (drop (Z.to_nat n) (pending r)) (final r))
  else if len (pending r) =? 0 then Err (final r)
  else Err (if decide (final r = EOF) then ErrUnexpectedEOF else final r).

Lemma ReadFull_app l s f :
  ReadFull (len l) (mkReader (l ++ s) f) = Ok (l, mkReader s f).
Proof.
  unfold ReadFull; simpl.
  assert (len l <= len (l ++ s)) as Hle
    by (rewrite len_app; pose proof (len_nonneg s); lia).
  apply Z.leb_le in Hle as ->. unfold len.
  rewrite Nat2Z.id, take_app_length, drop_app_length. done.
Qed.

Lemma ReadFull_app_n n l s f :
  n = len l → ReadFull n (mkReader (l ++ s) f) = Ok (l, mkReader s f).
Proof. intros ->. apply ReadFull_app. Qed.

(** What a successful read returns is exactly the front of the stream. *)
Lemma ReadFull_inv n r l r' :
  0 <= n → ReadFull n r = Ok (l, r') →
  pending r = l ++ pending r' ∧ len l = n ∧ final r' = final r.
Proof.
  intros Hn. unfold ReadFull. destruct (n <=? len (pending r)) eqn:Hle.
  2: { destruct (len (pending r) =? 0); done. }
  intros [= <- <-]. simpl. rewrite take_drop. split; [done |].
  split; [| done]. case_bool. unfold len in *. rewrite length_take. lia.
Qed.

Lemma ReadFull_defined n r : defined (ReadFull n r).
Proof. unfold ReadFull. by repeat case_match. Qed.

Lemma ReadFull_short n l f :
  len l < n → ReadFull n (mkReader l f) =
    Err (if decide (l = []) then f
         else if decide (f = EOF) then ErrUnexpectedEOF else f).
Proof.
  intros Hlt. unfold ReadFull; simpl.
  destruct (n <=? len l) eqn:Hle; [case_bool; lia |].
  destruct (len l =? 0) eqn:H0; case_bool.
  - apply len_nil_inv in H0 as ->. done.
  - rewrite (decide_False (P := l = [])); [done |]. by intros ->.
Qed.
