(* ===== verification/GoNet.v ===== *)
(** * Addresses of Go's [net] package

    [net.IP] is a byte slice; the nil slice is the empty list. Only what the
    program uses of it is defined, the way the standard library documents it:
    a 4-byte address and its 16-byte IPv4-mapped form denote the same
    address. *)

From S2P Require Import Prelude.

Abbreviation IP := (list Z) (only parsing).

Definition v4InV6Prefix : bytes := replicate 10 0 ++ [255; 255].
#[global] Arguments v4InV6Prefix : simpl never.

Definition To4 (ip : IP) : option IP :=
  if len ip =? 4 then Some ip
  else if (len ip =? 16) && bool_decide (take 12 ip = v4InV6Prefix)
  then Some (drop 12 ip)
  else None.

Definition To16 (ip : IP) : option IP :=
  if len ip =? 4 then Some (v4InV6Prefix ++ ip)
  else if len ip =? 16 then Some ip
  else None.

(** [net.IPv4(a, b, c, d)]: the 16-byte form. *)
Definition IPv4 (a b c d : Z) : IP := v4InV6Prefix ++ [a; b; c; d].
Definition IPv4zero : IP := IPv4 0 0 0 0.
Definition IPv6unspecified : IP := replicate 16 0.
Definition IPv6loopback : IP := replicate 15 0 ++ [1].

Definition IP_Equal (ip x : IP) : bool :=
  if len ip =? len x then bool_decide (ip = x)
  else if (len ip =? 4) && (len x =? 16) then
    bool_decide (take 12 x = v4InV6Prefix) && bool_decide (ip = drop 12 x)
  else if (len ip =? 16) && (len x =? 4) then
    bool_decide (take 12 ip = v4InV6Prefix) && bool_decide (drop 12 ip = x)
  else false.

Definition IsLoopback (ip : IP) : bool :=
  match To4 ip with
  | Some (b0 :: _) => b0 =? 127
  | Some [] => false
  | None => IP_Equal ip IPv6loopback
  end.

Definition IsUnspecified (ip : IP) : bool :=
  IP_Equal ip IPv4zero || IP_Equal ip IPv6unspecified.

(** [net.TCPAddr] and [net.UDPAddr]: the same pair, the network told apart by
    the type. *)
Record TCPAddr : Type := mkTCPAddr { addr_IP : IP; addr_Port : Z }.

Inductive Addr : Type :=
| ATCP (a : TCPAddr)
| AUDP (a : TCPAddr).

#[export] Instance TCPAddr_eq_dec : EqDecision TCPAddr.
Proof. solve_decision. Defined.
#[export] Instance Addr_eq_dec : EqDecision Addr.
Proof. solve_decision. Defined.

(** An address the library accepts: 4 or 16 bytes. *)
Definition ip_wf (ip : IP) : Prop := (len ip = 4 ∨ len ip = 16).

Lemma To16_wf ip : ip_wf ip → ∃ x, To16 ip = Some x ∧ len x = 16.
Proof.
  unfold To16. intros [H | H]; rewrite H; cbn [Z.eqb Pos.eqb].
  - exists (v4InV6Prefix ++ ip). split; [done |]. rewrite len_app, H. done.
  - by exists ip.
Qed.

Lemma To16_inv ip x : To16 ip = Some x → ip_wf ip ∧ len x = 16.
Proof.
  unfold To16, ip_wf. destruct (len ip =? 4) eqn:H4; case_bool.
  - intros <-%(inj Some). rewrite len_app, H4. split; [by left | done].
  - destruct (len ip =? 16) eqn:H16; case_bool; [| done]. intros [= <-]. auto.
Qed.

Lemma mapped_split (x : IP) :
  len x = 16 → take 12 x = v4InV6Prefix → x = v4InV6Prefix ++ drop 12 x.
Proof. intros _ <-. by rewrite take_drop. Qed.

(** The 16-byte form decides equality of addresses. *)
Lemma IP_Equal_To16 a b :
  ip_wf a → ip_wf b → IP_Equal a b = true ↔ To16 a = To16 b.
Proof.
  unfold ip_wf, IP_Equal, To16. intros [Ha | Ha] [Hb | Hb]; rewrite Ha, Hb;
    cbn [Z.eqb Pos.eqb andb].
  - rewrite bool_decide_eq_true. split; [by intros -> |].
    intros H%(inj Some)%(inj _). done.
  - rewrite andb_true_iff, !bool_decide_eq_true. split.
    + intros [H1 H2]. by rewrite H2, <- mapped_split.
    + intros <-%(inj Some). done.
  - rewrite andb_true_iff, !bool_decide_eq_true. split.
    + intros [H1 H2]. by rewrite <- H2, <- mapped_split.
    + intros ->%(inj Some). done.
  - rewrite bool_decide_eq_true. split; [by intros -> | congruence].
Qed.

Lemma To4_To16 ip ip4 : To4 ip = Some ip4 → To16 ip = Some (v4InV6Prefix ++ ip4).
Proof.
  unfold To4, To16. destruct (len ip =? 4); [by intros [= <-] |].
  destruct (len ip =? 16) eqn:H; simpl; [| done].
  case_bool_decide as Hp; [| done]. intros [= <-]. f_equal.
  case_bool. by apply mapped_split.
Qed.

Lemma To4_len ip ip4 : To4 ip = Some ip4 → len ip4 = 4.
Proof.
  unfold To4. destruct (len ip =? 4) eqn:H; [case_bool; congruence |].
  destruct (len ip =? 16) eqn:H'; simpl; [| done].
  case_bool_decide; [| done]. intros [= <-]. case_bool. len_lia.
Qed.

Lemma To4_None_len ip : ip_wf ip → To4 ip = None → len ip = 16.
Proof. intros [Hl | Hl] H; [| done]. unfold To4 in H. by rewrite Hl in H. Qed.

(** Two names of one address have one 4-byte form. *)
Lemma To4_mapped x : len x = 4 → To4 (v4InV6Prefix ++ x) = Some x.
Proof.
  intros Hl. unfold To4. rewrite len_app, Hl. change (len v4InV6Prefix + 4) with 16.
  cbn [Z.eqb Pos.eqb andb]. rewrite bool_decide_true; [done |]. done.
Qed.

Lemma To16_To4 a b : ip_wf a → ip_wf b → To16 a = To16 b → To4 a = To4 b.
Proof.
  intros Ha Hb H.
  destruct (To4 a) as [y |] eqn:Ea, (To4 b) as [z |] eqn:Eb; [| | | done].
  - apply To4_To16 in Ea, Eb. rewrite Ea, Eb in H. by apply (inj Some), (inj _) in H as ->.
  - pose proof (To4_None_len b Hb Eb) as Hl. pose proof (To4_len _ _ Ea).
    apply To4_To16 in Ea. unfold To16 in H at 2. rewrite Ea, Hl in H. cbn [Z.eqb Pos.eqb] in H.
    apply (inj Some) in H as <-. by rewrite To4_mapped in Eb.
  - pose proof (To4_None_len a Ha Ea) as Hl. pose proof (To4_len _ _ Eb).
    apply To4_To16 in Eb. unfold To16 in H at 1. rewrite Eb, Hl in H. cbn [Z.eqb Pos.eqb] in H.
    apply (inj Some) in H as ->. by rewrite To4_mapped in Ea.
Qed.
