(* ===== verification/GoStrings.v ===== *)
(** * The part of Go's [strings] package the program uses

    Strings are sequences of bytes; the functions below look for ASCII
    characters only, so multi-byte runes need no special care. *)

From S2P Require Import Prelude.

Definition ascii_eqb (a b : Ascii.ascii) : bool := Ascii.eqb a b.

(** [strings.Split(s, sep)] for a one-byte separator: never empty. *)
Fixpoint Split (sep : Ascii.ascii) (s : string) : list string :=
  match s with
  | EmptyString => [EmptyString]
  | String c s' =>
    if ascii_eqb c sep then EmptyString :: Split sep s'
    else
      match Split sep s' with
      | p :: ps => String c p :: ps
      | [] => [String c EmptyString]
      end
  end.

(** [strings.Join] with a one-byte separator. *)
Fixpoint Join (sep : Ascii.ascii) (ps : list string) : string :=
  match ps with
  | [] => EmptyString
  | [p] => p
  | p :: ps => (p +:+ String sep (Join sep ps))
  end.

(** [strings.TrimSuffix(s, suffix)] for a one-byte suffix: at most one is cut. *)
Fixpoint TrimSuffix1 (c : Ascii.ascii) (s : string) : string :=
  match s with
  | EmptyString => EmptyString
  | String a EmptyString => if ascii_eqb a c then EmptyString else s
  | String a s' => String a (TrimSuffix1 c s')
  end.

(** [strings.TrimPrefix] and [strings.HasPrefix]. *)
Fixpoint HasPrefix (s pre : string) : bool :=
  match pre, s with
  | EmptyString, _ => true
  | String a pre', String b s' => ascii_eqb a b && HasPrefix s' pre'
  | _, _ => false
  end.

Fixpoint drop_prefix (s pre : string) : string :=
  match pre, s with
  | String _ pre', String _ s' => drop_prefix s' pre'
  | _, _ => s
  end.

Definition TrimPrefix (s pre : string) : string :=
  if HasPrefix s pre then drop_prefix s pre else s.

Fixpoint Contains1 (c : Ascii.ascii) (s : string) : bool :=
  match s with
  | EmptyString => false
  | String a s' => ascii_eqb a c || Contains1 c s'
  end.

(** [strings.ToLower] on ASCII letters. *)
Definition lower_ascii (c : Ascii.ascii) : Ascii.ascii :=
  let n := Ascii.nat_of_ascii c in
  if ((65 <=? n) && (n <=? 90))%nat then Ascii.ascii_of_nat (n + 32) else c.
Fixpoint ToLower (s : string) : string :=
  match s with
  | EmptyString => EmptyString
  | String c s' => String (lower_ascii c) (ToLower s')
  end.

(** [strings.TrimSpace] for ASCII white space. *)
Definition is_space (c : Ascii.ascii) : bool :=
  let n := Ascii.nat_of_ascii c in
  ((n =? 32) || ((9 <=? n) && (n <=? 13)))%nat.
Fixpoint TrimLeft (s : string) : string :=
  match s with
  | String c s' => if is_space c then TrimLeft s' else s
  | EmptyString => EmptyString
  end.
Fixpoint TrimRight (s : string) : string :=
  match s with
  | EmptyString => EmptyString
  | String c s' =>
    match TrimRight s' with
    | EmptyString => if is_space c then EmptyString else String c EmptyString
    | t => String c t
    end
  end.
Definition TrimSpace (s : string) : string := TrimLeft (TrimRight s).

(** [fmt]'s [%x] and [%02x] on a byte: lower-case hexadecimal digits. *)
Definition hex_digit (d : Z) : Ascii.ascii :=
  Ascii.ascii_of_N (Z.to_N (if d <? 10 then 48 + d else 87 + d)).
Definition fmt_02x (b : Z) : string :=
  String (hex_digit (b / 16)) (String (hex_digit (b mod 16)) EmptyString).
Definition fmt_x (b : Z) : string :=
  if b <? 16 then String (hex_digit b) EmptyString else fmt_02x b.

(** The value of a hexadecimal digit, either case. *)
Definition hex_val (c : Ascii.ascii) : option Z :=
  let n := Z.of_N (Ascii.N_of_ascii c) in
  if (48 <=? n) && (n <=? 57) then Some (n - 48)
  else if (97 <=? n) && (n <=? 102) then Some (n - 87)
  else if (65 <=? n) && (n <=? 70) then Some (n - 55)
  else None.

(** [%q] of a text without characters to escape. *)
Definition Quote (s : string) : string :=
  let q := String (Ascii.ascii_of_nat 34) EmptyString in q +:+ s +:+ q.

(** [strings.Contains(s, sub)] *)
Fixpoint Contains (s sub : string) : bool :=
  HasPrefix s sub || match s with String _ s' => Contains s' sub | EmptyString => false end.

(** [strings.Fields] for ASCII white space. *)
Fixpoint fields_from (s word : string) : list string :=
  match s with
  | EmptyString => if decide (word = EmptyString) then [] else [word]
  | String c s' =>
    if is_space c
    then (if decide (word = EmptyString) then [] else [word]) ++ fields_from s' EmptyString
    else fields_from s' (word +:+ String c EmptyString)
  end.
Definition Fields (s : string) : list string := fields_from s EmptyString.

(** ** Laws *)
Lemma ascii_eqb_spec a b : ascii_eqb a b = true ↔ a = b.
Proof. apply Ascii.eqb_eq. Qed.

Lemma ascii_eqb_refl a : ascii_eqb a a = true.
Proof. by apply ascii_eqb_spec. Qed.

#[export] Instance string_app_assoc : Assoc (=) String.append.
Proof. intros a b c. induction a as [| x a IH]; [done |].
  change (String x (a +:+ (b +:+ c)) = String x ((a +:+ b) +:+ c)). by f_equal.
Qed.

Lemma Split_nonempty sep s : Split sep s ≠ [].
Proof.
  destruct s as [| c s]; simpl; [done |]. destruct (ascii_eqb c sep); [done |].
  by destruct (Split sep s).
Qed.

Lemma Contains1_app c s t : Contains1 c (s +:+ t) = Contains1 c s || Contains1 c t.
Proof. induction s as [| a s IH]; simpl; [done |]. by rewrite IH, orb_assoc. Qed.

Lemma Split_plain sep s : Contains1 sep s = false → Split sep s = [s].
Proof.
  induction s as [| a s IH]; simpl; [done |]. intros [-> H]%orb_false_iff. by rewrite IH.
Qed.

Lemma Split_app sep p s :
  Contains1 sep p = false → Split sep (p +:+ String sep s) = p :: Split sep s.
Proof.
  induction p as [| a p IH]; simpl; [by rewrite ascii_eqb_refl |].
  intros [-> H]%orb_false_iff. by rewrite IH.
Qed.

Lemma Split_Join sep ps :
  ps ≠ [] → Forall (λ p, Contains1 sep p = false) ps → Split sep (Join sep ps) = ps.
Proof.
  intros Hne. induction 1 as [| p ps Hp Hps IH]; [done |].
  destruct ps as [| q ps]; [by apply Split_plain |].
  change (Join sep (p :: q :: ps)) with (p +:+ String sep (Join sep (q :: ps))).
  by rewrite Split_app, IH.
Qed.

Lemma TrimSuffix1_app c p a s :
  TrimSuffix1 c (p +:+ String a s) = p +:+ TrimSuffix1 c (String a s).
Proof.
  induction p as [| b p IH]; [done |]. change (String b p +:+ ?x) with (String b (p +:+ x)).
  cbn [TrimSuffix1]. rewrite IH. by destruct (p +:+ String a s) eqn:E; [destruct p |].
Qed.

(** A string that does not end with [c] is left alone. *)
Lemma TrimSuffix1_plain c s : Contains1 c s = false → TrimSuffix1 c s = s.
Proof.
  induction s as [| a s IH]; [done |]. cbn [Contains1]. intros [Ha Hs]%orb_false_iff.
  cbn [TrimSuffix1]. rewrite Ha, IH by done. by destruct s.
Qed.

Lemma TrimSuffix1_Join sep ps :
  Forall (λ p, Contains1 sep p = false ∧ p ≠ EmptyString) ps →
  TrimSuffix1 sep (Join sep ps) = Join sep ps.
Proof.
  induction 1 as [| p ps [Hp Hne] Hps IH]; [done |].
  destruct ps as [| q ps]; [by apply TrimSuffix1_plain |].
  change (Join sep (p :: q :: ps)) with (p +:+ String sep (Join sep (q :: ps))).
  rewrite TrimSuffix1_app. f_equal. cbn [TrimSuffix1]. rewrite IH.
  apply Forall_cons in Hps as [[_ Hq] _].
  destruct (Join sep (q :: ps)) eqn:E; [| done]. destruct q, ps; done.
Qed.

(** [Join] undoes [Split]. *)
Lemma Join_cons_ne sep p ps : ps ≠ [] → Join sep (p :: ps) = p +:+ String sep (Join sep ps).
Proof. by destruct ps. Qed.

Lemma Join_Split sep s : Join sep (Split sep s) = s.
Proof.
  induction s as [| c s IH]; [done |]. simpl. destruct (ascii_eqb c sep) eqn:Hc.
  - apply ascii_eqb_spec in Hc as ->. rewrite Join_cons_ne by apply Split_nonempty. by rewrite IH.
  - pose proof (Split_nonempty sep s) as Hne. destruct (Split sep s) as [| p ps]; [done |].
    destruct ps as [| q ps].
    + simpl in *. by rewrite IH.
    + rewrite Join_cons_ne in * by done. rewrite <- IH. done.
Qed.

#[export] Instance Split_inj sep : Inj (=) (=) (Split sep).
Proof. intros s t H. by rewrite <- (Join_Split sep s), H, Join_Split. Qed.

Lemma hex_val_digit d : 0 <= d < 16 → hex_val (hex_digit d) = Some d.
Proof.
  intros Hd. assert (bool_decide (hex_val (hex_digit d) = Some d) = true) as H;
    [| by apply bool_decide_eq_true in H].
  revert d Hd. by apply range_check.
Qed.
