(* ===== verification/NetText.v ===== *)
(** * Textual addresses and networks of Go's [net] package

    [NetText] is what the program relies on of [net.ParseIP], [IP.String] and
    [net.ParseCIDR]: which byte strings they return, not which texts they
    accept. An instance that reads dotted quads shows the laws can hold. *)

From S2P Require Import Prelude GoNet GoStrings.
From Stdlib Require Import Ascii.

(** The bits of a byte string, most significant first. *)
Definition byte_bits (b : Z) : list bool := Z.testbit b <$> [7; 6; 5; 4; 3; 2; 1; 0].
Definition bits_of (l : bytes) : list bool := mjoin (byte_bits <$> l).

(** [net.IPNet]: the base address, of which only the masked bits matter, and the
    length of the mask. *)
Record IPNet : Type := mkIPNet { net_IP : IP; ones : Z }.

Definition net_bits (n : IPNet) : list bool := take (Z.to_nat (ones n)) (bits_of (net_IP n)).

Definition ipnet_wf (n : IPNet) : Prop :=
  bytes_ok (net_IP n) ∧ ip_wf (net_IP n) ∧ 0 <= ones n <= 8 * len (net_IP n).

(** [(n *IPNet) Contains(ip)]: [networkNumberAndMask] reduces the base to four
    bytes when it can; then the lengths must agree and the masked bits too. *)
Definition Contains (n : IPNet) (ip : IP) : bool :=
  let ip := match To4 ip with Some x => x | None => ip end in
  match To4 (net_IP n) with
  | Some base =>
    let m := if len (net_IP n) =? 4 then ones n else ones n - 96 in
    (len ip =? 4) &&
    bool_decide (take (Z.to_nat m) (bits_of ip) = take (Z.to_nat m) (bits_of base))
  | None =>
    (len ip =? len (net_IP n)) &&
    bool_decide (take (Z.to_nat (ones n)) (bits_of ip) = take (Z.to_nat (ones n)) (bits_of (net_IP n)))
  end.

Class NetText : Type := {
  ParseIP : string → option IP;
  IP_String : IP → string;
  ParseCIDR : string → option (IP * IPNet);
  ParseIP_wf s ip : ParseIP s = Some ip → len ip = 16 ∧ bytes_ok ip;
  ParseIP_String ip : ip_wf ip → bytes_ok ip → ParseIP (IP_String ip) = To16 ip;
  IP_String_To16 a b : To16 a = To16 b → ip_wf a → IP_String a = IP_String b;
  ParseCIDR_wf s ip n : ParseCIDR s = Some (ip, n) → ipnet_wf n ∧ ip_wf ip ∧ bytes_ok ip;
  ParseCIDR_contains s ip n : ParseCIDR s = Some (ip, n) → Contains n ip = true;
}.

Lemma bits_of_cons b l : bits_of (b :: l) = byte_bits b ++ bits_of l.
Proof. done. Qed.

Lemma bits_of_app l k : bits_of (l ++ k) = bits_of l ++ bits_of k.
Proof. unfold bits_of. by rewrite fmap_app, join_app. Qed.

Lemma length_bits_of l : length (bits_of l) = (8 * length l)%nat.
Proof.
  induction l as [| b l IH]; [done |]. rewrite bits_of_cons, length_app, IH. simpl. lia.
Qed.

(** ** Decimal numbers: [strconv.Itoa] and [strconv.Atoi] on digits *)
Definition digit (d : Z) : ascii := ascii_of_nat (Z.to_nat (48 + d)).

Fixpoint itoa_loop (fuel : nat) (z : Z) (acc : string) : string :=
  match fuel with
  | O => acc
  | S fuel =>
    let acc := String (digit (z mod 10)) acc in
    if z / 10 =? 0 then acc else itoa_loop fuel (z / 10) acc
  end.

(** Twenty digits cover every 64-bit integer. *)
Definition Itoa (z : Z) : string :=
  if z <? 0 then String "-"%char (itoa_loop 20 (- z) "") else itoa_loop 20 z "".

Definition digit_val (c : ascii) : option Z :=
  let n := Z.of_nat (nat_of_ascii c) in
  if (48 <=? n) && (n <=? 57) then Some (n - 48) else None.

Fixpoint atoi_loop (s : string) (acc : Z) : option Z :=
  match s with
  | EmptyString => Some acc
  | String c s => d ← digit_val c; atoi_loop s (acc * 10 + d)
  end.

Definition atoi_digits (s : string) : option Z :=
  match s with EmptyString => None | _ => atoi_loop s 0 end.

(** [strconv.Atoi]: an optional sign, then digits; out of the range of a
    64-bit [int] it fails. *)
Definition Atoi (s : string) : option Z :=
  z ← match s with
      | String c s' =>
        if ascii_eqb c "-"%char then Z.opp <$> atoi_digits s'
        else if ascii_eqb c "+"%char then atoi_digits s'
        else atoi_digits s
      | EmptyString => None
      end;
  if (- 2 ^ 63 <=? z) && (z <? 2 ^ 63) then Some z else None.

Lemma digit_val_digit d : 0 <= d < 10 → digit_val (digit d) = Some d.
Proof.
  intros Hd. unfold digit_val, digit. rewrite nat_ascii_embedding by lia.
  rewrite Z2Nat.id by lia. replace ((48 <=? 48 + d) && (48 + d <=? 57)) with true by lia.
  f_equal. lia.
Qed.

(** Appending digits on the left. *)
Lemma atoi_itoa_loop fuel z acc a :
  0 <= z < 10 ^ Z.of_nat fuel → (1 <= fuel)%nat →
  ∃ k, (0 < k)%Z ∧ atoi_loop (itoa_loop fuel z acc) a = atoi_loop acc (a * 10 ^ k + z).
Proof.
  revert z acc a. induction fuel as [| fuel IH]; intros z acc a Hz Hf; [lia |]. simpl.
  assert (0 <= z mod 10 < 10) as Hd by (apply Z.mod_pos_bound; lia).
  destruct (Z.eqb_spec (z / 10) 0) as [H0 | H0].
  - exists 1. split; [lia |]. simpl. rewrite digit_val_digit by done. simpl. f_equal.
    rewrite Z.pow_1_r. dm_lia.
  - destruct fuel as [| fuel].
    { change (10 ^ Z.of_nat 1) with 10 in Hz. exfalso. apply H0, Z.div_small. lia. }
    destruct (IH (z / 10) (String (digit (z mod 10)) acc) a) as (k & Hk & ->); [| lia |].
    { rewrite (Nat2Z.inj_succ (S fuel)), Z.pow_succ_r in Hz by lia.
      split; [apply Z.div_pos; lia | apply Z.div_lt_upper_bound; lia]. }
    exists (k + 1). split; [lia |]. simpl. rewrite digit_val_digit by done. simpl.
    f_equal. rewrite Z.pow_add_r by lia. change (10 ^ 1) with 10. dm_lia.
Qed.

Lemma itoa_loop_nonempty fuel z acc : acc ≠ ""%string ∨ (1 <= fuel)%nat → itoa_loop fuel z acc ≠ ""%string.
Proof.
  revert z acc. induction fuel as [| fuel IH]; intros z acc H; simpl; [by destruct H; [| lia] |].
  destruct (_ =? 0); [done |]. apply IH. by left.
Qed.

Lemma itoa_head fuel z acc :
  (1 <= fuel)%nat → ∃ d s, 0 <= d < 10 ∧ itoa_loop fuel z acc = String (digit d) s.
Proof.
  revert z acc. induction fuel as [| fuel IH]; intros z acc Hf; [lia |]. simpl.
  pose proof (Z.mod_pos_bound z 10 ltac:(lia)).
  destruct (_ =? 0); [eauto |]. destruct fuel; [simpl; eauto | apply IH; lia].
Qed.

Lemma digit_not_sign d c : 0 <= d < 10 → (c = "-"%char ∨ c = "+"%char) → ascii_eqb (digit d) c = false.
Proof.
  intros Hd Hc. apply not_true_is_false. intros He%ascii_eqb_spec.
  apply digit_val_digit in Hd. rewrite He in Hd. by destruct Hc as [-> | ->].
Qed.

(** Numbers survive printing and parsing. *)
Lemma Atoi_Itoa z : - 2 ^ 63 <= z < 2 ^ 63 → Atoi (Itoa z) = Some z.
Proof.
  intros Hz. unfold Itoa, Atoi.
  assert (∀ n, 0 <= n <= 2 ^ 63 → atoi_digits (itoa_loop 20 n "") = Some n) as Hd.
  { intros n Hn. destruct (itoa_head 20 n "" ltac:(lia)) as (d & s & _ & He).
    unfold atoi_digits. rewrite He, <- He.
    destruct (atoi_itoa_loop 20 n "" 0) as (k & Hk & ->); [| lia | simpl; f_equal; lia].
    assert (2 ^ 63 < 10 ^ Z.of_nat 20) by by vm_compute. lia. }
  destruct (Z.ltb_spec z 0) as [Hneg | Hpos].
  - rewrite ascii_eqb_refl, Hd by lia. simpl. rewrite Z.opp_involutive.
    replace ((_ <=? _) && _) with true by lia. done.
  - destruct (itoa_head 20 z "" ltac:(lia)) as (d & s & Hr & He).
    pose proof (Hd z ltac:(lia)) as Hz'. rewrite He in *.
    rewrite !digit_not_sign by auto. rewrite Hz'. simpl.
    replace ((_ <=? _) && _) with true by lia. done.
Qed.

(** ** An instance *)
Definition parse_quad (s : string) : option IP :=
  match Split "."%char s with
  | [a; b; c; d] =>
    a ← atoi_digits a; b ← atoi_digits b; c ← atoi_digits c; d ← atoi_digits d;
    if forallb (λ x, (0 <=? x) && (x <? 256)) [a; b; c; d] then Some (IPv4 a b c d) else None
  | _ => None
  end.

Definition raw_or_quad (s : string) : option IP :=
  if decide (len (bytes_of_string s) = 16) then Some (bytes_of_string s) else parse_quad s.

Definition quad_cidr (s : string) : option (IP * IPNet) :=
  match Split "/"%char s with
  | [a; n] =>
    ip ← parse_quad a; n ← atoi_digits n;
    ip4 ← To4 ip;
    if (0 <=? n) && (n <=? 32) then Some (ip, mkIPNet ip4 n) else None
  | _ => None
  end.

Lemma parse_quad_wf s ip : parse_quad s = Some ip → len ip = 16 ∧ bytes_ok ip.
Proof.
  unfold parse_quad. intros H.
  destruct (Split _ s) as [| a [| b [| c [| d []]]]]; try done.
  apply bind_Some in H as (a' & _ & H). apply bind_Some in H as (b' & _ & H).
  apply bind_Some in H as (c' & _ & H). apply bind_Some in H as (d' & _ & H).
  destruct (forallb _ _) eqn:Hf; [| done]. injection H as <-. split; [done |].
  unfold IPv4, v4InV6Prefix. apply Forall_app. split; [by repeat constructor |].
  simpl in Hf. unfold bytes_ok, byte_ok. repeat constructor; lia.
Qed.

#[export] Program Instance quad_NetText : NetText := {
  ParseIP := raw_or_quad;
  IP_String ip := string_of_bytes (default ip (To16 ip));
  ParseCIDR := quad_cidr;
}.
Next Obligation.
  intros s ip. unfold raw_or_quad. case_decide; [| apply parse_quad_wf].
  intros [= <-]. split; [done | apply bytes_of_string_ok].
Qed.
Next Obligation.
  intros ip Hw Hok. destruct (To16_wf ip Hw) as (x & Hx & Hl). rewrite Hx. simpl.
  assert (bytes_ok x) as Hxok.
  { unfold To16 in Hx. repeat case_match; simplify_eq; [| done].
    apply Forall_app. split; [by repeat constructor | done]. }
  unfold raw_or_quad. rewrite bytes_of_string_of_bytes by done. by rewrite decide_True.
Qed.
Next Obligation.
  intros a b H Hw. destruct (To16_wf a Hw) as (x & Hx & _). by rewrite <- H, Hx.
Qed.
Next Obligation.
  intros s ip n. unfold quad_cidr. destruct (Split _ s) as [| a [| m []]]; try done.
  intros (ip' & Hq & (m' & _ & (ip4 & H4 & H)%bind_Some)%bind_Some)%bind_Some.
  destruct (_ && _) eqn:Hm; [| done]. injection H as <- <-.
  apply parse_quad_wf in Hq as [Hl Hok]. pose proof (To4_len _ _ H4) as Hl4.
  assert (bytes_ok ip4) as Hok4.
  { unfold To4 in H4. repeat case_match; simplify_eq; [done |]. by apply Forall_drop. }
  split; [split; [done |]; split; [by left |]; simpl; lia |]. split; [by right | done].
Qed.
Next Obligation.
  intros s ip n. unfold quad_cidr. destruct (Split _ s) as [| a [| m []]]; try done.
  intros (ip' & Hq & (m' & _ & (ip4 & H4 & H)%bind_Some)%bind_Some)%bind_Some.
  destruct (_ && _) eqn:Hm; [| done]. injection H as <- <-.
  unfold Contains. cbn [net_IP ones]. rewrite H4. pose proof (To4_len _ _ H4) as Hl4.
  assert (To4 ip4 = Some ip4) as -> by (unfold To4; by rewrite Hl4). simpl. rewrite Hl4. simpl.
  by apply bool_decide_eq_true.
Qed.
