(* ===== verification/HostPort.v ===== *)
(** * [net.SplitHostPort], [net.JoinHostPort] and the text of an address *)

From S2P Require Import Prelude GoNet GoStrings NetText.
From Stdlib Require Import Ascii.

(** The text before and after the last occurrence of a character. *)
Fixpoint cut_last (c : ascii) (s : string) : option (string * string) :=
  match s with
  | EmptyString => None
  | String a s' =>
    match cut_last c s' with
    | Some (p, q) => Some (String a p, q)
    | None => if ascii_eqb a c then Some (EmptyString, s') else None
    end
  end.

(** The text before and after the first occurrence. *)
Fixpoint cut_first (c : ascii) (s : string) : option (string * string) :=
  match s with
  | EmptyString => None
  | String a s' =>
    if ascii_eqb a c then Some (EmptyString, s')
    else match cut_first c s' with Some (p, q) => Some (String a p, q) | None => None end
  end.

Definition no_brackets (s : string) : bool :=
  negb (Contains1 "["%char s) && negb (Contains1 "]"%char s).

(** [net.SplitHostPort]: the port follows the last colon; a host in brackets
    ends at the first closing one, which must be next to that colon, and any
    other host has no colon; no bracket may be left elsewhere. *)
Definition SplitHostPort (hostport : string) : option (string * string) :=
  '(before, port) ← cut_last ":"%char hostport;
  match hostport with
  | String "[" rest =>
    '(host, after) ← cut_first "]"%char rest;
    if bool_decide (after = String ":"%char port) &&
       negb (Contains1 "["%char host) && no_brackets port
    then Some (host, port) else None
  | _ =>
    if negb (Contains1 ":"%char before) && no_brackets before && no_brackets port
    then Some (before, port) else None
  end.

Definition JoinHostPort (host port : string) : string :=
  if Contains1 ":"%char host
  then String "["%char (host +:+ String "]"%char (String ":"%char port))
  else host +:+ String ":"%char port.

(** [(a *TCPAddr) String()]: the nil address is the empty text. *)
Definition TCPAddr_String `{!NetText} (a : TCPAddr) : string :=
  JoinHostPort (if decide (addr_IP a = []) then EmptyString else IP_String (addr_IP a))
    (Itoa (addr_Port a)).

Lemma cut_last_app c p q :
  Contains1 c q = false → cut_last c (p +:+ String c q) = Some (p, q).
Proof.
  intros Hq. assert (cut_last c q = None) as Hn.
  { induction q as [| a q IH]; [done |]. cbn [Contains1] in Hq.
    apply orb_false_iff in Hq as [Ha Hq]. simpl. by rewrite IH, Ha. }
  induction p as [| a p IH].
  - change ("" +:+ ?s) with s. cbn [cut_last]. by rewrite Hn, ascii_eqb_refl.
  - change (String a p +:+ ?s) with (String a (p +:+ s)). cbn [cut_last]. by rewrite IH.
Qed.

Lemma cut_first_app c p q :
  Contains1 c p = false → cut_first c (p +:+ String c q) = Some (p, q).
Proof.
  induction p as [| a p IH].
  - intros _. change ("" +:+ ?s) with s. cbn [cut_first]. by rewrite ascii_eqb_refl.
  - cbn [Contains1]. intros [Ha Hp]%orb_false_iff.
    change (String a p +:+ ?s) with (String a (p +:+ s)). cbn [cut_first]. by rewrite Ha, IH.
Qed.

(** Round trip, for hosts without brackets. *)
Lemma SplitHostPort_Join host port :
  no_brackets host = true → no_brackets port = true → Contains1 ":"%char port = false →
  SplitHostPort (JoinHostPort host port) = Some (host, port).
Proof.
  intros Hh Hp Hc. pose proof Hh as Hh'. unfold no_brackets in Hh'.
  apply andb_true_iff in Hh' as [Ho%negb_true_iff Hcl%negb_true_iff].
  unfold JoinHostPort. destruct (Contains1 ":"%char host) eqn:E.
  - unfold SplitHostPort.
    change (String "["%char (host +:+ String "]"%char ?s)) with
      ((String "["%char host) +:+ String "]"%char s).
    assert ((String "["%char host) +:+ String "]"%char (String ":"%char port) =
      ((String "["%char host) +:+ String "]"%char EmptyString) +:+ String ":"%char port) as He.
    { change (String "["%char host +:+ ?s) with (String "["%char (host +:+ s)).
      change (String "["%char ?t +:+ ?s) with (String "["%char (t +:+ s)). f_equal.
      clear. induction host as [| a h IH]; [done |].
      change (String a h +:+ ?s) with (String a (h +:+ s)). by rewrite IH. }
    rewrite He at 1. rewrite cut_last_app by done. cbn [mbind option_bind].
    change (String "["%char host +:+ ?s) with (String "["%char (host +:+ s)). cbv iota.
    rewrite cut_first_app by done. cbn [mbind option_bind].
    rewrite bool_decide_true by done. by rewrite Ho, Hp.
  - unfold SplitHostPort. rewrite cut_last_app by done. cbn [mbind option_bind].
    rewrite E, Hh, Hp. cbn [negb andb].
    destruct host as [| a host]; [done |].
    change (String a host +:+ ?s) with (String a (host +:+ s)).
    cbn [Contains1] in Ho. apply orb_false_iff in Ho as [Ha _].
    destruct a as [[] [] [] [] [] [] [] []]; done.
Qed.
