(* ===== verification/Keys.v ===== *)
(** * Cache keys: [internal/netutil/key.go]

    The fixed-size keys under which connections and hop counts are cached. *)

From S2P Require Import Prelude GoNet.

(** [isIPv4Mapped]: the loop over the first ten bytes, then the two [0xff]. *)
Definition isIPv4Mapped (ip : bytes) : bool :=
  forallb (λ b, b =? 0) (take 10 ip) &&
  match drop 10 ip with
  | a :: b :: _ => (a =? 0xff) && (b =? 0xff)
  | _ => false
  end.

(** [IPKey], a [16]byte array. *)
Abbreviation IPKey := (list Z) (only parsing).

(** [copy(k[:], ip16)] over the zero value when [To16] succeeds. *)
Definition key_of_ip (ip : IP) : IPKey :=
  match To16 ip with
  | Some ip16 => ip16
  | None => replicate 16 0
  end.

Definition NewIPKey (ip : IP) : IPKey := key_of_ip ip.
Definition IPKey_Bytes (k : IPKey) : bytes := k.

(** The address [IPKey.String] renders. *)
Definition IPKey_String_ip (k : IPKey) : IP :=
  if isIPv4Mapped k then slice k 12 16 else k.

Record NATKey : Type := mkNATKey {
  SrcIP : bytes;
  SrcPort : Z;
  DstIP : bytes;
  DstPort : Z;
}.

#[export] Instance NATKey_eq_dec : EqDecision NATKey.
Proof. solve_decision. Defined.

#[export] Program Instance NATKey_countable : Countable NATKey :=
  inj_countable'
    (λ k, (SrcIP k, SrcPort k, DstIP k, DstPort k))
    (λ '(a, b, c, d), mkNATKey a b c d) _.
Next Obligation. by intros []. Qed.

Definition NewNATKey (srcIP : IP) (srcPort : Z) (dstIP : IP) (dstPort : Z) : NATKey :=
  mkNATKey (key_of_ip srcIP) (u16 srcPort) (key_of_ip dstIP) (u16 dstPort).

Definition NATKey_Bytes (k : NATKey) : bytes :=
  SrcIP k ++ put_be16 (SrcPort k) ++ DstIP k ++ put_be16 (DstPort k).

(** The two addresses and ports [NATKey.String] renders. *)
Definition NATKey_String_parts (k : NATKey) : IP * Z * IP * Z :=
  (IPKey_String_ip (SrcIP k), SrcPort k, IPKey_String_ip (DstIP k), DstPort k).

Definition NATKey_wf (k : NATKey) : Prop :=
  len (SrcIP k) = 16 ∧ len (DstIP k) = 16 ∧
  0 <= SrcPort k < 65536 ∧ 0 <= DstPort k < 65536.

Lemma key_of_ip_len ip : len (key_of_ip ip) = 16.
Proof.
  unfold key_of_ip. destruct (To16 ip) eqn:E; [| done].
  by apply To16_inv in E as [_ ?].
Qed.

Lemma NewNATKey_wf a b c d : NATKey_wf (NewNATKey a b c d).
Proof.
  unfold NATKey_wf, u16; simpl. rewrite !key_of_ip_len.
  split_and!; try done; apply Z.mod_pos_bound; lia.
Qed.

(** Two addresses get the same cache key exactly when they denote the same
    host, in whichever of the two forms the library hands them over. *)
Theorem NewIPKey_canonical a b :
  ip_wf a → ip_wf b → NewIPKey a = NewIPKey b ↔ IP_Equal a b = true.
Proof.
  intros Ha Hb. rewrite IP_Equal_To16 by done.
  unfold NewIPKey, key_of_ip.
  destruct (To16_wf a Ha) as (x & -> & _), (To16_wf b Hb) as (y & -> & _).
  split; congruence.
Qed.

Lemma put_be16_inj v w :
  0 <= v < 65536 → 0 <= w < 65536 → put_be16 v = put_be16 w → v = w.
Proof. intros. rewrite !put_be16_val in H1 by done. simplify_eq. dm_lia. Qed.

(** The byte encoding of NAT keys, which selects the cache shard and
    stands for the whole 4-tuple, is injective: two sessions with the same
    bytes have the same addresses and ports. *)
Theorem NATKey_Bytes_injective k1 k2 :
  NATKey_wf k1 → NATKey_wf k2 → NATKey_Bytes k1 = NATKey_Bytes k2 → k1 = k2.
Proof.
  intros (A1 & B1 & C1 & D1) (A2 & B2 & C2 & D2). unfold NATKey_Bytes.
  intros H. apply app_inj_1 in H as [H1 H]; [| unfold len in *; lia].
  apply app_inj_1 in H as [H2 H]; [| done].
  apply app_inj_1 in H as [H3 H4]; [| unfold len in *; lia].
  apply put_be16_inj in H2, H4; [| done..].
  destruct k1, k2; simpl in *; congruence.
Qed.

Lemma NATKey_Bytes_injective_witness :
  NewNATKey [10; 0; 0; 1] 5 [8; 8; 8; 8] 53 =
  NewNATKey (IPv4 10 0 0 1) 5 [8; 8; 8; 8] 65589.
Proof.
  apply NATKey_Bytes_injective; [apply NewNATKey_wf | apply NewNATKey_wf | reflexivity].
Defined.
