(* ===== verification/Tls.v ===== *)
(** * TLS records: [internal/proto/tls.go]

    The record reader, the Client Hello test and the extraction of the server
    name's offsets, with every index and slice expression checked. *)

From S2P Require Import Prelude GoIO.

Definition TLSMaxPayloadLen : Z := 16384.
Definition TLSHeaderLen : Z := 5.
Definition TLSHandshake : Z := 0x16.

Record TLSHeader : Type := mkTLSHeader {
  Type_ : Z;          (* TLSMessageType, a byte *)
  ProtoVersion : Z;   (* uint16 *)
  PayloadLen : Z;     (* uint16 *)
}.

Record TLSMessage : Type := mkTLSMessage {
  kind : string;
  header : TLSHeader;
  raw : bytes;
  rawHeader : bytes;
  rawPayload : bytes;
}.

Definition zero_header : TLSHeader := mkTLSHeader 0 0 0.

(** [(h *TLSHeader) Bytes] *)
Definition header_Bytes (h : TLSHeader) : bytes :=
  [u8 (Type_ h)] ++ put_be16 (ProtoVersion h) ++ put_be16 (PayloadLen h).

Definition Kind (m : TLSMessage) : string := kind m.
Definition Len (m : TLSMessage) : Z := len (raw m).
Definition Raw (m : TLSMessage) : bytes := raw m.

Definition IsClientHello (m : TLSMessage) : outcome error bool :=
  if negb (TLSHeaderLen <? len (raw m)) then Ok false
  else if negb (Type_ (header m) =? TLSHandshake) then Ok false
  else b ← index (raw m) 5; Ok (b =? 0x01).

(** The loop over the extensions; [break] and the loop's normal exit both fall
    through to the final "sni not found". *)
Fixpoint ext_loop (fuel : nat) (rw : bytes) (extensionsEnd curr : Z)
    : outcome string (Z * Z) :=
  match fuel with
  | O => Diverge
  | S fuel' =>
    if negb (curr <? extensionsEnd) then Err "sni not found"%string
    else if extensionsEnd <? curr + 4 then Err "sni not found"%string
    else
      extType ← read_be16 rw curr;
      extLen ← read_be16 rw (curr + 2);
      let curr := curr + 4 in
      if extensionsEnd <? curr + extLen then Err "sni not found"%string
      else if extType =? 0x0000 then
        let sniDataStart := curr in
        if extLen <? 5 then Err "malformed sni extension"%string
        else
          nameLen ← read_be16 rw (sniDataStart + 3);
          let realStart := sniDataStart + 5 in
          let realEnd := realStart + nameLen in
          if curr + extLen <? realEnd then Err "malformed sni length"%string
          else Ok (realStart, realEnd)
      else ext_loop fuel' rw extensionsEnd (curr + extLen)
  end.

(** [(m *TLSMessage) ExtractSNIOffset]. Every iteration of the extension loop
    advances by at least four bytes, so [S (length raw)] steps are enough. *)
Definition ExtractSNIOffset (m : TLSMessage) : outcome string (Z * Z) :=
  let rw := raw m in
  if len rw <? 43 then Err "packet too short"%string else
  let curr := 0 in
  b ← index rw curr;
  if negb (b =? 0x16) then Err "not a handshake packet"%string else
  let curr := curr + 5 in
  b ← index rw curr;
  if negb (b =? 0x01) then Err "not a client hello"%string else
  let curr := curr + 4 in
  let curr := curr + 34 in
  if len rw <=? curr then Err "packet too short after random"%string else
  sessionIDLen ← index rw curr;
  let curr := curr + (1 + sessionIDLen) in
  if len rw <=? curr then Err "packet too short after session id"%string else
  if len rw <? curr + 2 then
    Err "packet too short for cipher suites len"%string else
  cipherSuitesLen ← read_be16 rw curr;
  let curr := curr + (2 + cipherSuitesLen) in
  if len rw <=? curr then
    Err "packet too short after cipher suites"%string else
  if len rw <? curr + 1 then
    Err "packet too short for compression len"%string else
  compressionMethodsLen ← index rw curr;
  let curr := curr + (1 + compressionMethodsLen) in
  if len rw <=? curr then Err "packet too short after compression"%string else
  if len rw <? curr + 2 then Err "no extensions"%string else
  extensionsLen ← read_be16 rw curr;
  let curr := curr + 2 in
  let extensionsEnd := curr + extensionsLen in
  if len rw <? extensionsEnd then Err "extensions length overflow"%string else
  ext_loop (S (length rw)) rw extensionsEnd curr.

Definition NewFakeTLSMessage (rw : bytes) : TLSMessage :=
  mkTLSMessage "fake" zero_header rw [] [].

Definition ReadTLSMessage (r : reader) : outcome error (TLSMessage * reader) :=
  '(rawHeader, r) ← ReadFull TLSHeaderLen r;
  match rawHeader with
  | [b0; b1; b2; b3; b4] =>
    let header := mkTLSHeader b0 (be16 b1 b2) (be16 b3 b4) in
    if TLSMaxPayloadLen <? PayloadLen header then
      Err (ErrText "invalid TLS header")
    else
      let size := u16 (PayloadLen header + TLSHeaderLen) in
      '(payload, r) ← ReadFull (size - TLSHeaderLen) r;
      Ok (mkTLSMessage "real" header (rawHeader ++ payload) rawHeader payload, r)
  | _ => Panic
  end.

(** ** A reference encoder of Client Hello records, for the specification *)
Record ClientHello : Type := mkClientHello {
  ch_record : bytes;      (* record version and length: 4 bytes *)
  ch_length : bytes;      (* handshake length: 3 bytes *)
  ch_head : bytes;        (* version and random: 34 bytes *)
  ch_session : bytes;
  ch_suites : bytes;
  ch_compression : bytes;
  ch_before : list (Z * bytes);  (* extensions before the server name *)
  ch_host : bytes;
  ch_after : list (Z * bytes);   (* extensions after it *)
}.

Definition encode_ext (e : Z * bytes) : bytes :=
  put_be16 e.1 ++ put_be16 (len e.2) ++ e.2.

Definition encode_exts (l : list (Z * bytes)) : bytes :=
  concat (encode_ext <$> l).

Definition sni_body (host : bytes) : bytes :=
  put_be16 (3 + len host) ++ [0] ++ put_be16 (len host) ++ host.

Definition all_exts (c : ClientHello) : bytes :=
  encode_exts (ch_before c) ++ encode_ext (0, sni_body (ch_host c)) ++
  encode_exts (ch_after c).

(** Everything up to the length of the extension block. *)
Definition encode_front (c : ClientHello) : bytes :=
  ([0x16] ++ ch_record c ++ [0x01] ++ ch_length c ++ ch_head c) ++
  [len (ch_session c)] ++ ch_session c ++
  put_be16 (len (ch_suites c)) ++ ch_suites c ++
  [len (ch_compression c)] ++ ch_compression c.

Definition encode_hello (c : ClientHello) : bytes :=
  encode_front c ++ put_be16 (len (all_exts c)) ++ all_exts c.

(** Where the host name starts in [encode_hello c]. *)
Definition host_offset (c : ClientHello) : Z :=
  len (encode_front c) + 2 + len (encode_exts (ch_before c)) + 4 + 5.

Definition ext_wf (e : Z * bytes) : Prop :=
  0 < e.1 < 65536 ∧ len e.2 < 65536.

Record hello_wf (c : ClientHello) : Prop := {
  wf_record : len (ch_record c) = 4;
  wf_length : len (ch_length c) = 3;
  wf_head : len (ch_head c) = 34;
  wf_session : len (ch_session c) < 256;
  wf_suites : len (ch_suites c) < 65536;
  wf_compression : len (ch_compression c) < 256;
  wf_before : Forall ext_wf (ch_before c);
  wf_host : len (ch_host c) < 65000;
  wf_exts : len (all_exts c) < 65536;
}.

#[global] Arguments encode_ext : simpl never.
#[global] Arguments encode_exts : simpl never.
#[global] Arguments sni_body : simpl never.

(** ** Safety of the server-name extraction *)
Lemma ext_loop_returns fuel rw e curr :
  bytes_ok rw → 0 <= curr → e <= len rw → Z.max 0 (e - curr) < Z.of_nat fuel →
  returns (ext_loop fuel rw e curr)
    (λ '(s, t), curr + 9 <= s <= t ∧ t <= e).
Proof.
  intros Hok Hc He. revert curr Hc.
  induction fuel as [| fuel IH]; intros curr Hc Hf; [lia |].
  simpl. repeat run_step. destruct (_ =? 0).
  - repeat run_step. simpl. lia.
  - eapply returns_weaken; [apply IH; lia |]. intros [s t]. lia.
Qed.

Lemma extract_returns m :
  bytes_ok (raw m) →
  returns (ExtractSNIOffset m) (λ '(s, t), 58 <= s <= t ∧ t <= len (raw m)).
Proof.
  intros Hok. unfold ExtractSNIOffset. cbv zeta. repeat run_step.
  eapply returns_weaken; [apply ext_loop_returns; unfold len in *; [done | lia ..] |].
  intros [s t]; simpl. lia.
Qed.

(** C10. Whatever bytes a peer sends, the server-name extraction terminates
    without an out-of-range access, and the offsets it returns lie inside the
    record, behind the fixed headers and in order. *)
Theorem ExtractSNIOffset_safe m :
  bytes_ok (raw m) →
  defined (ExtractSNIOffset m) ∧
  ∀ s t, ExtractSNIOffset m = Ok (s, t) → 58 <= s <= t ∧ t <= len (raw m).
Proof.
  intros Hok. pose proof (extract_returns m Hok) as H. split.
  - by eapply returns_defined.
  - intros s t E. by apply (returns_Ok _ _ _ H E).
Qed.

(** ** Completeness on well-formed Client Hellos *)
Lemma len_encode_ext e : len (encode_ext e) = 4 + len e.2.
Proof. unfold encode_ext. rewrite !len_app, !len_put_be16. lia. Qed.

Lemma len_sni_body h : len (sni_body h) = 5 + len h.
Proof. unfold sni_body. rewrite !len_app, !len_put_be16. len_lia. Qed.

Lemma encode_exts_cons e l : encode_exts (e :: l) = encode_ext e ++ encode_exts l.
Proof. done. Qed.

(** The two reads of an extension header. *)
Lemma read_ext_header rw i e s :
  cursor rw i (encode_ext e ++ s) → 0 <= e.1 < 65536 → len e.2 < 65536 →
  read_be16 (E:=string) rw i = Ok e.1 ∧
  read_be16 (E:=string) rw (i + 2) = Ok (len e.2) ∧
  cursor rw (i + 4) (e.2 ++ s).
Proof.
  intros Hc H1 H2. unfold encode_ext in Hc. rewrite <- !app_assoc in Hc.
  pose proof (cursor_app _ _ _ _ Hc) as Hc2. rewrite len_put_be16 in Hc2.
  pose proof (cursor_app _ _ _ _ Hc2) as Hc4. rewrite len_put_be16 in Hc4.
  pose proof (len_nonneg e.2). split_and!.
  - by eapply cursor_be16.
  - by eapply cursor_be16.
  - by replace (i + 4) with (i + 2 + 2) by lia.
Qed.

Lemma ext_loop_finds before h after i fuel rw e :
  cursor rw i (encode_exts before ++ encode_ext (0, sni_body h) ++ after) →
  e = len rw → Forall ext_wf before → len h < 65000 →
  (length before < fuel)%nat →
  ext_loop fuel rw e i =
    Ok (i + len (encode_exts before) + 9,
        i + len (encode_exts before) + 9 + len h).
Proof.
  revert i fuel. induction before as [| x before IH];
    intros i fuel Hc He Hwf Hh Hfuel; destruct fuel as [| fuel]; simpl in Hfuel;
    try lia; pose proof (len_nonneg after); pose proof (len_nonneg h);
    pose proof (cursor_len _ _ _ Hc) as Hl.
  - change (cursor rw i (encode_ext (0, sni_body h) ++ after)) in Hc.
    apply cursor_len in Hc as Hl'. rewrite len_app, len_encode_ext in Hl'.
    destruct (read_ext_header rw i _ _ Hc) as (E1 & E2 & Hb);
      [simpl; lia | simpl; rewrite len_sni_body; lia |].
    cbn [fst snd] in *. rewrite len_sni_body in *.
    unfold sni_body in Hb. rewrite <- !app_assoc in Hb.
    apply cursor_app, cursor_app in Hb. rewrite len_put_be16 in Hb.
    replace (i + 4 + 2 + len [0]) with (i + 4 + 3) in Hb by (unfold len; simpl; lia).
    apply (cursor_be16 (E:=string)) in Hb; [| lia].
    simpl. rewrite E1, E2. cbn [mbind outcome_bind].
    replace (i <? e) with true by lia.
    replace (e <? i + 4) with false by lia.
    replace (e <? i + 4 + (5 + len h)) with false by lia.
    replace (5 + len h <? 5) with false by lia. simpl.
    rewrite Hb. cbn [mbind outcome_bind].
    replace (i + 4 + (5 + len h) <? i + 4 + 5 + len h) with false by lia.
    change (len (encode_exts [])) with 0. apply Ok_pair; lia.
  - inversion Hwf as [| ?? [Hx1 Hx2] Hwf']; subst x0 l.
    rewrite encode_exts_cons, <- app_assoc in Hc.
    rewrite 2!len_app, encode_exts_cons, len_app, !len_encode_ext in Hl.
    cbn [snd] in Hl. rewrite len_sni_body in Hl.
    pose proof (len_nonneg x.2). pose proof (len_nonneg (encode_exts before)).
    destruct (read_ext_header rw i x _ Hc) as (E1 & E2 & Hb); [lia | lia |].
    apply cursor_app in Hb.
    simpl. rewrite E1, E2. cbn [mbind outcome_bind].
    replace (i <? e) with true by lia.
    replace (e <? i + 4) with false by lia.
    replace (e <? i + 4 + len x.2) with false by lia.
    replace (x.1 =? 0) with false by lia. simpl.
    rewrite (IH _ fuel Hb He Hwf' Hh) by lia.
    rewrite encode_exts_cons, len_app, len_encode_ext. apply Ok_pair; lia.
Qed.

Lemma len_encode_front c :
  hello_wf c →
  len (encode_front c) =
    47 + len (ch_session c) + len (ch_suites c) + len (ch_compression c).
Proof.
  intros []. unfold encode_front. rewrite !len_app, len_put_be16. unfold len in *.
  cbn [length]. lia.
Qed.

Lemma length_exts_le l : Z.of_nat (length l) <= len (encode_exts l).
Proof.
  induction l as [| e l IH]; [done |].
  rewrite encode_exts_cons, len_app, len_encode_ext.
  pose proof (len_nonneg e.2). cbn [length]. lia.
Qed.

(** Where each length field of the front part lies. *)
Lemma hello_cursors c :
  hello_wf c →
  let rw := encode_hello c in
  let i1 := 44 + len (ch_session c) in
  let i2 := i1 + 2 + len (ch_suites c) in
  let tail := put_be16 (len (all_exts c)) ++ all_exts c in
  cursor rw 0 (0x16 :: ch_record c ++ [0x01] ++ ch_length c ++ ch_head c ++
    [len (ch_session c)] ++ ch_session c ++ put_be16 (len (ch_suites c)) ++
    ch_suites c ++ [len (ch_compression c)] ++ ch_compression c ++ tail) ∧
  (∃ l, cursor rw 5 (0x01 :: l)) ∧
  (∃ l, cursor rw 43 (len (ch_session c) :: l)) ∧
  (∃ l, cursor rw i1 (put_be16 (len (ch_suites c)) ++ l)) ∧
  (∃ l, cursor rw i2 (len (ch_compression c) :: l)) ∧
  cursor rw (i2 + 1 + len (ch_compression c)) tail.
Proof.
  intros []. cbv zeta. set (tail := put_be16 (len (all_exts c)) ++ all_exts c).
  assert (C0 : cursor (encode_hello c) 0
    ([0x16] ++ ch_record c ++ [0x01] ++ ch_length c ++ ch_head c ++
     [len (ch_session c)] ++ ch_session c ++ put_be16 (len (ch_suites c)) ++
     ch_suites c ++ [len (ch_compression c)] ++ ch_compression c ++ tail)).
  { exists []. split; [| done]. unfold encode_hello, encode_front.
    by rewrite <- !app_assoc. }
  pose proof C0 as C1. do 2 apply cursor_app in C1.
  pose proof C1 as C2. do 3 apply cursor_app in C2.
  pose proof C2 as C3. do 2 apply cursor_app in C3.
  pose proof C3 as C4. do 2 apply cursor_app in C4.
  pose proof C4 as C5. do 2 apply cursor_app in C5.
  rewrite ?len_put_be16, wf_record0, wf_length0, wf_head0 in *.
  change (len [22]) with 1 in *. change (len [1]) with 1 in *.
  change (len [len (ch_session c)]) with 1 in *.
  change (len [len (ch_compression c)]) with 1 in *.
  split_and!; [done | eexists .. |].
  - exact C1.
  - exact C2.
  - eapply cursor_eq; [exact C3 | lia].
  - eapply cursor_eq; [exact C4 | lia].
  - eapply cursor_eq; [exact C5 | lia].
Qed.

(** Where the extensions of a Client Hello start. *)
Definition exts_offset (c : ClientHello) : Z :=
  49 + len (ch_session c) + len (ch_suites c) + len (ch_compression c).

(** The walk over the fields before the extensions arrives there, and the
    extensions reach to the end of the record. *)
Lemma walk_to_exts m c :
  hello_wf c → raw m = encode_hello c →
  ExtractSNIOffset m = ext_loop (S (length (raw m))) (raw m) (len (raw m)) (exts_offset c) ∧
  cursor (raw m) (exts_offset c) (all_exts c).
Proof.
  intros Hwf Hraw. destruct (hello_cursors c Hwf) as (C0 & [? C1] & [? C2] & [? C3] & [? C4] & C5).
  rewrite <- Hraw in C0, C1, C2, C3, C4, C5. pose proof Hwf as [].
  pose proof (len_nonneg (ch_session c)). pose proof (len_nonneg (ch_suites c)).
  pose proof (len_nonneg (ch_compression c)). pose proof (len_nonneg (all_exts c)).
  pose proof (cursor_len _ _ _ C5) as Hlen. rewrite len_app, len_put_be16 in Hlen.
  pose proof (cursor_app _ _ _ _ C5) as C6. rewrite len_put_be16 in C6.
  split; [| eapply cursor_eq; [exact C6 | unfold exts_offset; lia]].
  unfold ExtractSNIOffset. cbv zeta.
  apply (cursor_index (E:=string)) in C0, C1, C2, C4.
  apply (cursor_be16 (E:=string)) in C3, C5; [| lia..].
  change (0 + 5) with 5. change (5 + 4 + 34) with 43.
  set (i1 := 44 + len (ch_session c)) in *. set (i2 := i1 + 2 + len (ch_suites c)) in *.
  replace (len (raw m) <? 43) with false by lia. rewrite C0. cbn [mbind outcome_bind negb Z.eqb Pos.eqb].
  rewrite C1. cbn [mbind outcome_bind negb Z.eqb Pos.eqb]. replace (len (raw m) <=? 43) with false by lia.
  rewrite C2. cbn [mbind outcome_bind]. replace (43 + (1 + len (ch_session c))) with i1 by lia.
  replace (len (raw m) <=? i1) with false by lia. replace (len (raw m) <? i1 + 2) with false by lia.
  rewrite C3. cbn [mbind outcome_bind]. replace (i1 + (2 + len (ch_suites c))) with i2 by lia.
  replace (len (raw m) <=? i2) with false by lia. replace (len (raw m) <? i2 + 1) with false by lia.
  rewrite C4. cbn [mbind outcome_bind].
  replace (i2 + (1 + len (ch_compression c))) with (i2 + 1 + len (ch_compression c)) by lia.
  set (i3 := i2 + 1 + len (ch_compression c)) in *.
  replace (len (raw m) <=? i3) with false by lia. replace (len (raw m) <? i3 + 2) with false by lia.
  rewrite C5. cbn [mbind outcome_bind].
  replace (len (raw m) <? i3 + 2 + len (all_exts c)) with false by lia.
  f_equal; unfold exts_offset; lia.
Qed.

Lemma host_offset_exts c : hello_wf c →
  host_offset c = exts_offset c + len (encode_exts (ch_before c)) + 9.
Proof. intros Hwf. unfold host_offset, exts_offset. rewrite (len_encode_front c Hwf). lia. Qed.

(** C11. Completeness: in every well-formed Client Hello whose first server-name
    extension carries the host [h], whatever the session id, cipher suites,
    compression methods and other extensions are, the extraction returns
    exactly the offsets of [h]. *)
Theorem ExtractSNIOffset_complete m c :
  hello_wf c → raw m = encode_hello c →
  ExtractSNIOffset m =
    Ok (host_offset c, host_offset c + len (ch_host c)) ∧
  slice (raw m) (host_offset c) (host_offset c + len (ch_host c)) = ch_host c.
Proof.
  intros Hwf Hraw. destruct (walk_to_exts m c Hwf Hraw) as [-> Hc]. pose proof Hwf as [].
  rewrite (host_offset_exts c Hwf). split.
  - rewrite (ext_loop_finds (ch_before c) (ch_host c) _ _ _ _ _ Hc); [done | done | done | lia |].
    pose proof (cursor_len _ _ _ Hc) as Hlen. pose proof (length_exts_le (ch_before c)).
    unfold all_exts in Hlen. rewrite len_app in Hlen.
    pose proof (len_nonneg (encode_ext (0, sni_body (ch_host c)) ++ encode_exts (ch_after c))).
    assert (0 <= exts_offset c) by (unfold exts_offset, len; lia). unfold len in *. lia.
  - unfold all_exts, encode_ext in Hc. apply cursor_app in Hc. cbn [fst snd] in Hc.
    unfold sni_body in Hc. rewrite <- !app_assoc in Hc. do 5 apply cursor_app in Hc.
    rewrite !len_put_be16 in Hc. change (len [0]) with 1 in Hc. apply cursor_slice in Hc.
    replace (exts_offset c + len (encode_exts (ch_before c)) + 9) with
      (exts_offset c + len (encode_exts (ch_before c)) + 2 + 2 + 2 + 1 + 2) by lia. exact Hc.
Qed.

(** ** Reading a record *)
Lemma five_bytes (l : bytes) :
  len l = 5 → ∃ a b c d e, l = [a; b; c; d; e].
Proof.
  unfold len. destruct l as [| a [| b [| c [| d [| e [| ? ?]]]]]]; cbn [length];
    intros; try lia. by exists a, b, c, d, e.
Qed.

Lemma payload_size n : 0 <= n <= TLSMaxPayloadLen → u16 (n + TLSHeaderLen) = n + 5.
Proof.
  unfold u16, TLSMaxPayloadLen, TLSHeaderLen. intros. apply Z.mod_small. lia.
Qed.

Lemma ReadTLSMessage_returns r :
  bytes_ok (pending r) →
  returns (ReadTLSMessage r) (λ '(m, r'),
    pending r = raw m ++ pending r' ∧ final r' = final r ∧
    raw m = rawHeader m ++ rawPayload m ∧ header_Bytes (header m) = rawHeader m ∧
    len (rawPayload m) = PayloadLen (header m) ∧
    PayloadLen (header m) <= TLSMaxPayloadLen).
Proof.
  intros Hok. unfold ReadTLSMessage, TLSHeaderLen.
  destruct (ReadFull 5 r) as [[hd r1] | | |] eqn:E1; simpl;
    try (pose proof (ReadFull_defined 5 r) as D; by rewrite E1 in D).
  apply ReadFull_inv in E1 as (Hp1 & Hl1 & Hf1); [| lia].
  destruct (five_bytes hd Hl1) as (b0 & b1 & b2 & b3 & b4 & ->).
  rewrite Hp1 in Hok. apply Forall_app in Hok as [Hhd Hrest].
  repeat (apply Forall_cons in Hhd as [? Hhd]).
  pose proof (be16_range b1 b2) as Hv. pose proof (be16_range b3 b4) as Hn.
  unfold byte_ok in *.
  destruct (TLSMaxPayloadLen <? be16 b3 b4) eqn:Hmax; [done |]. case_bool.
  rewrite payload_size by lia.
  replace (be16 b3 b4 + 5 - 5) with (be16 b3 b4) by lia.
  destruct (ReadFull (be16 b3 b4) r1) as [[pl r2] | | |] eqn:E2; simpl;
    try (pose proof (ReadFull_defined (be16 b3 b4) r1) as D; by rewrite E2 in D).
  apply ReadFull_inv in E2 as (Hp2 & Hl2 & Hf2); [| lia].
  split_and!; [by rewrite Hp1, Hp2 | congruence | done | | done | done].
  unfold header_Bytes; cbn [header rawHeader Type_ ProtoVersion PayloadLen].
  rewrite !put_be16_val, !be16_val by lia. unfold u8. rewrite Z.mod_small by lia.
  replace ((b1 * 256 + b2) / 256) with b1 by dm_lia.
  replace ((b3 * 256 + b4) / 256) with b3 by dm_lia.
  replace ((b1 * 256 + b2) mod 256) with b2 by dm_lia.
  by replace ((b3 * 256 + b4) mod 256) with b4 by dm_lia.
Qed.

(** Reading a record is total and lossless: for every stream, the reader
    returns a message or an error (it never panics), and a returned message
    holds exactly the bytes consumed, split into a header that re-encodes to
    the same five bytes and a payload of the announced, bounded length. *)
Theorem ReadTLSMessage_lossless r :
  bytes_ok (pending r) →
  defined (ReadTLSMessage r) ∧
  ∀ m r', ReadTLSMessage r = Ok (m, r') →
    pending r = raw m ++ pending r' ∧ final r' = final r ∧
    raw m = header_Bytes (header m) ++ rawPayload m ∧
    len (rawPayload m) = PayloadLen (header m) ∧
    PayloadLen (header m) <= TLSMaxPayloadLen.
Proof.
  intros Hok. pose proof (ReadTLSMessage_returns r Hok) as H. split.
  - by eapply returns_defined.
  - intros m r' E. rewrite E in H. simpl in H.
    destruct H as (H1 & H2 & H3 & H4 & H5 & H6).
    rewrite H3 in H1 |- *. rewrite H4. by split_and!.
Qed.

(** Round trip: a record written as header and payload is read back as the
    same header and payload, leaving the rest of the stream untouched. *)
Theorem ReadTLSMessage_roundtrip h payload rest f :
  0 <= Type_ h < 256 → 0 <= ProtoVersion h < 65536 →
  PayloadLen h = len payload → len payload <= TLSMaxPayloadLen →
  ReadTLSMessage (mkReader (header_Bytes h ++ payload ++ rest) f) =
    Ok (mkTLSMessage "real" h (header_Bytes h ++ payload) (header_Bytes h) payload,
        mkReader rest f).
Proof.
  intros Ht Hv Hp Hmax. unfold ReadTLSMessage.
  assert (Hh : header_Bytes h = [Type_ h; ProtoVersion h / 256; ProtoVersion h mod 256;
    PayloadLen h / 256; PayloadLen h mod 256]).
  { unfold header_Bytes. unfold TLSMaxPayloadLen in Hmax.
    pose proof (len_nonneg payload).
    rewrite !put_be16_val by lia. unfold u8. simpl. rewrite Z.mod_small by lia. done. }
  pose proof (len_nonneg payload) as Hnn. unfold TLSMaxPayloadLen in Hmax.
  rewrite ReadFull_app_n by (rewrite Hh; done). rewrite Hh. cbn [mbind outcome_bind].
  rewrite !be16_val by dm_lia.
  replace (ProtoVersion h / 256 * 256 + ProtoVersion h mod 256)
    with (ProtoVersion h) by dm_lia.
  replace (PayloadLen h / 256 * 256 + PayloadLen h mod 256)
    with (PayloadLen h) by dm_lia.
  cbn [PayloadLen]. unfold TLSMaxPayloadLen.
  replace (16384 <? PayloadLen h) with false by lia.
  rewrite payload_size by (unfold TLSMaxPayloadLen; lia).
  rewrite ReadFull_app_n by (unfold TLSHeaderLen; lia). simpl. by destruct h.
Qed.

(** ** Witnesses *)
Definition sample_hello : ClientHello :=
  mkClientHello [3; 1; 0; 71] [0; 0; 67] (replicate 34 7) [1; 2] [0x13; 0x01] [0]
    [(23, [1; 2])] [0x61; 0x2e; 0x62] [(5, [])].

Definition sample_message : TLSMessage := NewFakeTLSMessage (encode_hello sample_hello).

Lemma sample_bytes_ok : bytes_ok (encode_hello sample_hello).
Proof.
  unfold bytes_ok, byte_ok.
  repeat (apply Forall_cons; split; [vm_compute; split; congruence |]).
  apply Forall_nil. done.
Qed.

Lemma sample_hello_wf : hello_wf sample_hello.
Proof.
  split; try done.
  constructor; [| constructor]. split; done.
Qed.

Lemma ExtractSNIOffset_safe_witness :
  bytes_ok (raw sample_message) ∧ defined (ExtractSNIOffset sample_message).
Proof.
  split; [apply sample_bytes_ok |].
  apply (ExtractSNIOffset_safe sample_message), sample_bytes_ok.
Defined.

Lemma ExtractSNIOffset_complete_witness :
  ExtractSNIOffset sample_message = Ok (69, 72).
Proof.
  apply (ExtractSNIOffset_complete sample_message sample_hello);
    [apply sample_hello_wf | reflexivity].
Defined.

Lemma ReadTLSMessage_lossless_witness :
  defined (ReadTLSMessage (mkReader [0x16; 3; 1; 0; 1; 1; 9] EOF)).
Proof.
  apply (ReadTLSMessage_lossless (mkReader [0x16; 3; 1; 0; 1; 1; 9] EOF)).
  repeat constructor; done.
Defined.

Lemma ReadTLSMessage_roundtrip_witness :
  ReadTLSMessage (mkReader [0x16; 3; 1; 0; 2; 1; 9; 4] EOF) =
    Ok (mkTLSMessage "real" (mkTLSHeader 0x16 0x301 2) [0x16; 3; 1; 0; 2; 1; 9]
          [0x16; 3; 1; 0; 2] [1; 9], mkReader [4] EOF).
Proof.
  apply (ReadTLSMessage_roundtrip (mkTLSHeader 0x16 0x301 2) [1; 9] [4] EOF);
    vm_compute; (done || split; congruence).
Defined.
