(* ===== verification/ConfigTypes.v ===== *)
(** * Configuration data: the types of [internal/config/types.go] and
    [internal/config/config.go], and the defaults of [internal/config/cli.go].

    Go's [int]-based enumerations become inductive types with the constants of
    the source as constructors; their [String] methods index the tables of
    accepted spellings. Durations are in nanoseconds, as [time.Duration]. *)

From S2P Require Import Prelude GoNet Tls.

Definition Millisecond : Z := 1000000.
Definition Second : Z := 1000 * Millisecond.

(** ** Application options *)
Definition availableLogLevelValues : list string :=
  ["info"; "warn"; "trace"; "error"; "debug"; "disabled"]%string.

Inductive AppModeType : Type := AppModeHTTP | AppModeSOCKS5 | AppModeTUN.

Definition availableAppModeValues : list string := ["http"; "socks5"; "tun"]%string.

Definition AppMode_index (t : AppModeType) : nat :=
  match t with AppModeHTTP => 0 | AppModeSOCKS5 => 1 | AppModeTUN => 2 end.

Definition AppMode_String (t : AppModeType) : outcome string string :=
  index availableAppModeValues (Z.of_nat (AppMode_index t)).

Record AppOptions : Type := mkAppOptions {
  NoTUI : bool;
  LogLevel : Z;                 (* zerolog.Level *)
  Silent : bool;
  AutoConfigureNetwork : bool;
  Mode : AppModeType;
  ListenAddr : TCPAddr;
  FreebsdFIB : Z;
}.

(** ** Connection options *)
Record ConnOptions : Type := mkConnOptions {
  DefaultFakeTTL : Z;           (* uint8 *)
  DNSTimeout : Z;
  TCPTimeout : Z;
  UDPIdleTimeout : Z;
}.

(** ** DNS options *)
Inductive DNSModeType : Type := DNSModeUDP | DNSModeHTTPS | DNSModeSystem.
Inductive DNSQueryType : Type := DNSQueryIPv4 | DNSQueryIPv6 | DNSQueryAll.

Definition availableDNSModeValues : list string := ["udp"; "https"; "system"]%string.
Definition availableDNSQueryValues : list string := ["ipv4"; "ipv6"; "all"]%string.

Definition DNSMode_index (t : DNSModeType) : nat :=
  match t with DNSModeUDP => 0 | DNSModeHTTPS => 1 | DNSModeSystem => 2 end.
Definition DNSMode_String (t : DNSModeType) : outcome string string :=
  index availableDNSModeValues (Z.of_nat (DNSMode_index t)).

Definition DNSQuery_index (t : DNSQueryType) : nat :=
  match t with DNSQueryIPv4 => 0 | DNSQueryIPv6 => 1 | DNSQueryAll => 2 end.
Definition DNSQuery_String (t : DNSQueryType) : outcome string string :=
  index availableDNSQueryValues (Z.of_nat (DNSQuery_index t)).

Record DNSOptions : Type := mkDNSOptions {
  dns_Mode : DNSModeType;
  dns_Addr : TCPAddr;
  dns_HTTPSURL : string;
  dns_QType : DNSQueryType;
  dns_Cache : bool;
}.

(** ** HTTPS options *)
Inductive HTTPSSplitModeType : Type :=
| HTTPSSplitModeSNI
| HTTPSSplitModeRandom
| HTTPSSplitModeChunk
| HTTPSSplitModeFirstByte
| HTTPSSplitModeCustom
| HTTPSSplitModeNone.

Definition availableHTTPSModeValues : list string :=
  ["sni"; "random"; "chunk"; "first-byte"; "custom"; "none"]%string.

Definition HTTPSSplitMode_index (t : HTTPSSplitModeType) : nat :=
  match t with
  | HTTPSSplitModeSNI => 0
  | HTTPSSplitModeRandom => 1
  | HTTPSSplitModeChunk => 2
  | HTTPSSplitModeFirstByte => 3
  | HTTPSSplitModeCustom => 4
  | HTTPSSplitModeNone => 5
  end.
Definition HTTPSSplitMode_String (t : HTTPSSplitModeType) : outcome string string :=
  index availableHTTPSModeValues (Z.of_nat (HTTPSSplitMode_index t)).

Inductive SegmentFromType : Type := SegmentFromHead | SegmentFromSNI.

Definition availableSegmentFromValues : list string := ["head"; "sni"]%string.

Definition SegmentFrom_index (t : SegmentFromType) : nat :=
  match t with SegmentFromHead => 0 | SegmentFromSNI => 1 end.
Definition SegmentFrom_String (t : SegmentFromType) : outcome string string :=
  index availableSegmentFromValues (Z.of_nat (SegmentFrom_index t)).

Record SegmentPlan : Type := mkSegmentPlan {
  From : SegmentFromType;
  At : Z;
  plan_Lazy : bool;
  Noise : Z;
}.

Record HTTPSOptions : Type := mkHTTPSOptions {
  Disorder : bool;
  https_FakeCount : Z;               (* uint8 *)
  https_FakePacket : option TLSMessage;
  SplitMode : HTTPSSplitModeType;
  ChunkSize : Z;                     (* uint8 *)
  https_Skip : bool;
  CustomSegmentPlans : list SegmentPlan;
}.

(** [fakePacketLen] *)
Definition fakePacketLen (m : option TLSMessage) : Z :=
  match m with None => 0 | Some m => len (Raw m) end.

(** ** UDP options *)
Record UDPOptions : Type := mkUDPOptions {
  udp_Skip : bool;
  udp_FakeCount : Z;                 (* uint8 *)
  udp_FakePacket : bytes;
}.

(** ** Rules and the configuration *)
Record RuntimeConfig : Type := mkRuntimeConfig {
  Conn : ConnOptions;
  DNS : DNSOptions;
  HTTPS : HTTPSOptions;
  UDP : UDPOptions;
}.

Record MatchAttrs : Type := mkMatchAttrs {
  Domains : list string;
  CIDRs : list string;
}.

Record Rule : Type := mkRule {
  Name : string;
  Priority : Z;                      (* uint16 *)
  Block : bool;
  Match : option MatchAttrs;
  rule_Config : RuntimeConfig;
}.

(** [(r *Rule) Clone]: a shallow copy; rules are values here, so the copy of a
    non-nil rule is the rule. *)
Definition Clone (r : option Rule) : option Rule :=
  match r with
  | None => None
  | Some c => Some (mkRule (Name c) (Priority c) (Block c) (Match c) (rule_Config c))
  end.

Record StartupConfig : Type := mkStartupConfig {
  App : AppOptions;
  Rules : list Rule;
}.

Record Config : Type := mkConfig {
  Startup : StartupConfig;
  Runtime : RuntimeConfig;
}.

(** ** What the configuration needs at start-up *)
Definition NeedsPcapTCP (c : Config) : bool :=
  (0 <? https_FakeCount (HTTPS (Runtime c))) ||
  existsb (λ r, 0 <? https_FakeCount (HTTPS (rule_Config r))) (Rules (Startup c)).

Definition NeedsPcapUDP (c : Config) : bool :=
  (0 <? udp_FakeCount (UDP (Runtime c))) ||
  existsb (λ r, 0 <? udp_FakeCount (UDP (rule_Config r))) (Rules (Startup c)).

Definition NeedsPcap (c : Config) : bool := NeedsPcapTCP c || NeedsPcapUDP c.

(** ** Defaults *)

(** The constant [FakeClientHello], byte for byte. *)
Definition FakeClientHello : bytes :=
  [22; 3; 1; 2; 0; 1; 0; 1; 252; 3; 3; 154; 143; 167; 106; 93; 87; 243; 98;
   25; 190; 70; 130; 69; 226; 89; 92; 180; 72; 49; 18; 21; 20; 121; 44; 170;
   205; 234; 218; 240; 225; 253; 187; 32; 244; 131; 42; 148; 241; 72; 59;
   157; 182; 116; 186; 60; 129; 99; 188; 24; 204; 20; 69; 87; 108; 128; 249;
   37; 207; 156; 134; 96; 80; 49; 46; 233; 0; 34; 19; 1; 19; 3; 19; 2; 192;
   43; 192; 47; 204; 169; 204; 168; 192; 44; 192; 48; 192; 10; 192; 9; 192;
   19; 192; 20; 0; 156; 0; 157; 0; 47; 0; 53; 1; 0; 1; 145; 0; 0; 0; 20; 0;
   18; 0; 0; 15; 119; 119; 119; 46; 103; 111; 111; 103; 108; 101; 46; 99;
   111; 109; 0; 23; 0; 0; 255; 1; 0; 1; 0; 0; 10; 0; 14; 0; 12; 0; 29; 0; 23;
   0; 24; 0; 25; 1; 0; 1; 1; 0; 11; 0; 2; 1; 0; 0; 35; 0; 0; 0; 16; 0; 14; 0;
   12; 2; 104; 50; 8; 104; 116; 116; 112; 47; 49; 46; 49; 0; 5; 0; 5; 1; 0;
   0; 0; 0; 0; 13; 0; 24; 0; 22; 4; 3; 5; 3; 6; 3; 8; 4; 8; 5; 8; 6; 4; 1; 5;
   1; 6; 1; 2; 3; 2; 1; 0; 18; 0; 0; 0; 51; 0; 107; 0; 105; 0; 29; 0; 32;
   103; 177; 136; 24; 71; 110; 195; 193; 131; 115; 177; 169; 128; 66; 54;
   182; 225; 102; 110; 182; 108; 50; 155; 195; 243; 24; 41; 124; 255; 193;
   119; 124; 0; 23; 0; 65; 4; 166; 182; 177; 177; 198; 77; 177; 134; 161;
   138; 128; 77; 166; 53; 87; 161; 196; 136; 154; 156; 169; 109; 110; 103;
   166; 71; 89; 198; 130; 16; 6; 201; 155; 18; 145; 108; 161; 196; 141; 177;
   198; 149; 169; 199; 156; 6; 161; 163; 131; 182; 89; 166; 64; 115; 131;
   198; 149; 89; 169; 177; 24; 193; 109; 155; 166; 73; 156; 71; 22; 193; 166;
   89; 169; 24; 199; 156; 24; 77; 166; 155; 77; 109; 87; 22; 22; 149; 166;
   199; 150; 103; 150; 22; 105; 130; 149; 145; 131; 73; 199; 6; 130; 108;
   182; 108; 150; 163; 193; 177; 193; 134; 22; 163; 193; 177; 196; 149; 166;
   103; 177; 134; 163; 193; 166; 22; 166; 196; 6; 110; 109; 153; 71; 108;
   161; 130; 6; 196; 24; 166; 196; 105; 163; 155; 163; 64; 110; 169; 177;
   166; 149; 115; 193; 136; 6; 149; 77; 169; 64; 77; 103; 136; 150; 166; 103;
   24; 6; 105; 153; 163; 136; 136; 169; 110; 161; 153; 6; 149; 6; 169; 131;
   77; 22; 115; 71; 136; 103; 166; 108; 166; 24; 193; 166; 149; 89; 163; 155;
   150; 163; 115; 182; 6; 161; 24; 110; 103; 103; 161; 145; 77; 166; 89; 156;
   130; 134; 149; 22; 163; 71; 149; 24; 150; 149; 6; 166; 199; 71; 199; 130;
   71; 155; 24; 115; 155; 24; 145; 153; 24; 156; 166; 156; 169; 103; 199;
   150; 24; 6; 196; 156; 196; 131; 71; 24; 89; 150; 71; 145; 161; 71; 6; 182;
   105; 108; 153; 77; 105; 161; 89; 24; 193; 71; 108; 110; 145; 155; 110;
   103; 166; 145; 163; 196; 71; 177; 71; 163; 149; 73; 115; 149; 136; 24; 89;
   130; 199; 169; 153; 198; 153; 163; 136; 108; 103; 108; 166; 166; 177; 199;
   103; 89; 153; 6; 77; 163; 149; 73; 196; 105; 110; 77; 150; 71; 77; 161;
   161; 161; 153; 169; 177; 130; 169; 22; 64; 149; 149; 130; 130; 145; 71;
   166; 64; 145; 145; 153; 169; 6; 169; 136; 156; 169; 169; 24; 71; 110; 155;
   155; 163; 169; 199; 110; 163; 163; 199; 177; 71; 77; 131; 169; 196; 73;
   77; 156; 145; 169; 71; 182; 169; 77; 71].

Definition InfoLevel : Z := 1.

(** [DefaultConfig] *)
Definition DefaultConfig : Config :=
  mkConfig
    (mkStartupConfig
       (mkAppOptions false InfoLevel false false AppModeHTTP (mkTCPAddr [] 0) 1) [])
    (mkRuntimeConfig
       (mkConnOptions 8 (5000 * Millisecond) (10000 * Millisecond)
          (25000 * Millisecond))
       (mkDNSOptions DNSModeUDP (mkTCPAddr (IPv4 8 8 8 8) 53)
          "https://dns.google/dns-query" DNSQueryIPv4 false)
       (mkHTTPSOptions false 0 (Some (NewFakeTLSMessage FakeClientHello))
          HTTPSSplitModeSNI 35 false [])
       (mkUDPOptions false 0 (replicate 64 0))).

#[export] Instance AppModeType_eq_dec : EqDecision AppModeType.
Proof. solve_decision. Defined.
#[export] Instance DNSModeType_eq_dec : EqDecision DNSModeType.
Proof. solve_decision. Defined.
#[export] Instance DNSQueryType_eq_dec : EqDecision DNSQueryType.
Proof. solve_decision. Defined.
#[export] Instance HTTPSSplitModeType_eq_dec : EqDecision HTTPSSplitModeType.
Proof. solve_decision. Defined.
#[export] Instance SegmentFromType_eq_dec : EqDecision SegmentFromType.
Proof. solve_decision. Defined.
#[export] Instance TLSHeader_eq_dec : EqDecision TLSHeader.
Proof. solve_decision. Defined.
#[export] Instance TLSMessage_eq_dec : EqDecision TLSMessage.
Proof. solve_decision. Defined.

(** The built-in fake Client Hello is not a well-formed record: its header
    announces 512 payload bytes where 653 follow, and the name field of its
    server-name extension is one byte too long ("www.google.com" and the first
    byte of the next extension). *)
Theorem FakeClientHello_shape :
  len FakeClientHello = 658 ∧
  (len FakeClientHello - TLSHeaderLen) ≠ be16 0x02 0x00 ∧
  ExtractSNIOffset (NewFakeTLSMessage FakeClientHello) = Ok (125, 140) ∧
  slice FakeClientHello 125 140 = bytes_of_string "www.google.com" ++ [0].
Proof. by vm_compute. Qed.
