(* ===== verification/Split.v ===== *)
(** * Splitting the Client Hello: [internal/desync/tls.go], the pure part

    The five split strategies, the pattern mask of the random mode and the
    dispatcher [split]. Two sources of choice the code draws on are arguments:
    [rand.IntN] (for the noise of custom plans) and [rand.Uint] (the seed of
    the mask); the order [slices.SortFunc] leaves equal points in, which the
    library does not specify, is an interface. *)

From S2P Require Import Prelude GoNet Tls ConfigTypes.

Record Segment : Type := mkSegment { Packet : bytes; Lazy : bool }.

#[export] Instance Segment_eq_dec : EqDecision Segment.
Proof. solve_decision. Defined.

(** What is put on the wire, in order. *)
Definition payload (segs : list Segment) : bytes := concat (Packet <$> segs).

(** ** [splitChunks] *)
Fixpoint chunk_loop (fuel : nat) (rw : bytes) (size : Z) (disorder curDisorder : bool)
    : outcome string (list Segment) :=
  if negb (0 <? len rw) then Ok []
  else match fuel with
  | O => Diverge
  | S fuel' =>
    let n := Z.min (len rw) size in
    p ← slice_chk rw 0 n;
    rest ← slice_chk rw n (len rw);
    segs ← chunk_loop fuel' rest size disorder (negb curDisorder);
    Ok (mkSegment p (curDisorder && disorder) :: segs)
  end.

Definition splitChunks (rw : bytes) (size : Z) (disorder : bool)
    : outcome string (list Segment) :=
  if len rw =? 0 then Err "empty data"%string
  else if size =? 0 then Err "size == 0"%string
  else chunk_loop (length rw) rw size disorder true.

(** ** [splitFirstByte] *)
Definition splitFirstByte (rw : bytes) (disorder : bool)
    : outcome string (list Segment) :=
  if len rw <? 2 then Err "len(raw) is less than 2"%string
  else
    a ← slice_chk rw 0 1;
    b ← slice_chk rw 1 (len rw);
    Ok [mkSegment a (disorder && true); mkSegment b false].

(** ** [splitSNI] *)

(** [for i := range end - start]: [n] iterations from [i]. *)
Fixpoint sni_loop (n : nat) (i : Z) (rw : bytes) (start : Z)
    (disorder curDisorder : bool) : outcome string (list Segment * bool) :=
  match n with
  | O => Ok ([], curDisorder)
  | S n' =>
    b ← index rw (start + i);
    '(segs, d) ← sni_loop n' (i + 1) rw start disorder (negb curDisorder);
    Ok (mkSegment [b] (curDisorder && disorder) :: segs, d)
  end.

Definition splitSNI (rw : bytes) (start en : Z) (disorder : bool)
    : outcome string (list Segment) :=
  let lenRaw := len rw in
  if lenRaw =? 0 then Err "empty data"%string
  else if en <? start then Err "invalid start, end pos (start > end)"%string
  else if (start <? 0) || (lenRaw <=? start) || (en <? 0) || (lenRaw <=? en) then
    Err "invalid start, end pos (out of range)"%string
  else
    front ← slice_chk rw 0 start;
    '(segs, curDisorder) ← sni_loop (Z.to_nat (en - start)) 0 rw start disorder true;
    back ← slice_chk rw en lenRaw;
    Ok (mkSegment front false :: segs ++ [mkSegment back (curDisorder && disorder)]).

(** ** [splitMask] *)
Fixpoint mask_loop (n : nat) (i : Z) (rw : bytes) (mask : Z) (disorder : bool)
    (start : Z) (curDisorder : bool) (curBit : Z)
    : outcome string (list Segment * Z * bool) :=
  match n with
  | O => Ok ([], start, curDisorder)
  | S n' =>
    let curBit' := RotateLeft64 curBit 1 in
    if Z.land mask curBit =? curBit then
      '(before, curDisorder) ←
        (if start <? i then
           p ← slice_chk rw start i;
           Ok ([mkSegment p (curDisorder && disorder)], negb curDisorder)
         else Ok ([], curDisorder));
      one ← slice_chk rw i (i + 1);
      let s := mkSegment one (curDisorder && disorder) in
      '(segs, start, d) ←
        mask_loop n' (i + 1) rw mask disorder (i + 1) (negb curDisorder) curBit';
      Ok (before ++ s :: segs, start, d)
    else mask_loop n' (i + 1) rw mask disorder start curDisorder curBit'
  end.

Definition splitMask (rw : bytes) (mask : Z) (disorder : bool)
    : outcome string (list Segment) :=
  let lenRaw := len rw in
  if lenRaw =? 0 then Err "empty data"%string
  else
    '(segs, start, curDisorder) ← mask_loop (length rw) 0 rw mask disorder 0 true 1;
    if start <? lenRaw then
      p ← slice_chk rw start lenRaw;
      Ok (segs ++ [mkSegment p (curDisorder && disorder)])
    else Ok segs.

(** ** [genPatternMask]

    [seed] is the 64-bit value of [rand.Uint()]; [xorshift_r] and [xorshift_l]
    are the two forms of seed update. *)
Definition xorshift_r (seed k : Z) : Z := Z.lxor seed (Z.shiftr seed k).
Definition xorshift_l (seed k : Z) : Z := Z.lxor seed (u64 (Z.shiftl seed k)).

Definition or_at (ret block k : Z) : Z := Z.lor ret (u64 (Z.shiftl block k)).

Definition genPatternMask (seed : Z) : Z :=
  let ret := 0 in
  (* block 0 *)
  let ret := Z.lor ret 0xa9 in
  (* block 1 *)
  let seed := xorshift_r seed 13 in
  let ret := or_at ret (RotateLeft8 0x80 (i64 seed)) 8 in
  let seed := xorshift_l seed 11 in
  let ret := or_at ret (RotateLeft8 0x80 (- (seed mod 7) + 1)) 8 in
  (* block 2 *)
  let seed := xorshift_r seed 17 in
  let ret := or_at ret (RotateLeft8 0x01 (i64 seed)) 16 in
  (* block 3 *)
  let seed := xorshift_l seed 5 in
  let ret := or_at ret (RotateLeft8 0x01 (i64 seed)) 24 in
  (* block 4 *)
  let seed := xorshift_r seed 12 in
  let ret := or_at ret (RotateLeft8 0x01 (seed mod 2)) 32 in
  let ret := or_at ret (RotateLeft8 0x01 (seed mod 3 + 2)) 32 in
  let ret := or_at ret (RotateLeft8 0x01 (seed mod 3 + 5)) 32 in
  (* block 5 *)
  let seed := xorshift_l seed 25 in
  let ret := or_at ret (RotateLeft8 0x01 (i64 seed)) 40 in
  (* block 6 *)
  let seed := xorshift_r seed 27 in
  let ret := or_at ret (RotateLeft8 0x01 (i64 seed)) 48 in
  (* block 7 *)
  let seed := xorshift_l seed 13 in
  let ret := or_at ret (RotateLeft8 0x01 (i64 seed)) 56 in
  ret.

(** ** [applySegmentPlans] *)
Record splitPoint : Type := mkSplitPoint { at_ : Z; lazy : bool }.

Definition point_le (a b : splitPoint) : Prop := at_ a <= at_ b.

(** What the program relies on of [slices.SortFunc] with the comparison of
    [at]: a sorted rearrangement, with equal points in any order. *)
Class PointSort : Type := {
  SortFunc : list splitPoint → list splitPoint;
  SortFunc_perm l : Permutation (SortFunc l) l;
  SortFunc_sorted l : Sorted point_le (SortFunc l);
}.

(** [rand.IntN(n)] panics unless [n] is positive; [draw] is its result. *)
Definition IntN (draw : Z → Z) (n : Z) : outcome string Z :=
  if n <=? 0 then Panic else Ok (draw n).

Definition int (z : Z) : Z := i64 z.

(** The position of one plan, clamped to the record. *)
Definition plan_point (draw : Z → Z) (sniStart lenRaw : Z) (s : SegmentPlan)
    : outcome string splitPoint :=
  let base := if decide (From s = SegmentFromSNI) then sniStart else 0 in
  let at1 := int (base + At s) in
  at2 ← (if 0 <? Noise s then
           r ← IntN draw (int (int (Noise s * 2) + 1));
           Ok (int (at1 + int (r - Noise s)))
         else Ok at1);
  Ok (mkSplitPoint (Z.max 0 (Z.min at2 lenRaw)) (plan_Lazy s)).

(** [draws k] is the generator at the [k]-th plan. *)
Fixpoint plan_points (draws : nat → Z → Z) (k : nat) (sniStart lenRaw : Z)
    (plans : list SegmentPlan) : outcome string (list splitPoint) :=
  match plans with
  | [] => Ok []
  | s :: plans' =>
    p ← plan_point (draws k) sniStart lenRaw s;
    ps ← plan_points draws (S k) sniStart lenRaw plans';
    Ok (p :: ps)
  end.

Fixpoint cut_at (points : list splitPoint) (rw : bytes) (prvAt : Z)
    : outcome string (list Segment) :=
  match points with
  | [] =>
    if prvAt <? len rw then
      p ← slice_chk rw prvAt (len rw); Ok [mkSegment p false]
    else Ok []
  | p :: points' =>
    if at_ p =? prvAt then cut_at points' rw prvAt
    else
      s ← slice_chk rw prvAt (at_ p);
      segs ← cut_at points' rw (at_ p);
      Ok (mkSegment s (lazy p) :: segs)
  end.

Definition applySegmentPlans `{PointSort} (draws : nat → Z → Z)
    (msg : TLSMessage) (plans : list SegmentPlan) : outcome string (list Segment) :=
  let rw := Raw msg in
  '(sniStart, _) ← ExtractSNIOffset msg;
  points ← plan_points draws 0 sniStart (len rw) plans;
  cut_at (SortFunc points) rw 0.

(** ** [split]

    An error of a strategy is logged and replaced by the whole message. *)
Record Choices : Type := mkChoices { seed : Z; draws : nat → Z → Z }.

Definition split_strategy `{PointSort} (ch : Choices) (msg : TLSMessage)
    (opts : HTTPSOptions) : outcome string (list Segment) :=
  let rw := Raw msg in
  match SplitMode opts with
  | HTTPSSplitModeSNI =>
    '(start, en) ← ExtractSNIOffset msg;
    match splitSNI rw start en (Disorder opts) with
    | Ok segs => _ ← slice_chk rw start en; Ok segs
    | Err e => _ ← slice_chk rw start en; Err e
    | Panic => Panic
    | Diverge => Diverge
    end
  | HTTPSSplitModeRandom =>
    splitMask rw (genPatternMask (seed ch)) (Disorder opts)
  | HTTPSSplitModeChunk => splitChunks rw (ChunkSize opts) (Disorder opts)
  | HTTPSSplitModeFirstByte => splitFirstByte rw (Disorder opts)
  | HTTPSSplitModeCustom =>
    applySegmentPlans (draws ch) msg (CustomSegmentPlans opts)
  | HTTPSSplitModeNone => Ok [mkSegment rw false]
  end.

Definition split `{PointSort} (ch : Choices) (msg : TLSMessage) (opts : HTTPSOptions)
    : outcome string (list Segment) :=
  match split_strategy ch msg opts with
  | Err _ => Ok [mkSegment (Raw msg) false]
  | r => r
  end.

#[global] Arguments payload : simpl never.

(** ** The pattern mask *)

(** Some bit of the 8-bit block starting at [k] is set. *)
Definition block_hit (ret k : Z) : Prop :=
  ∃ j, 0 <= j < 8 ∧ Z.testbit ret (k + j) = true.

Lemma or_at_keep ret b k i : Z.testbit ret i = true → Z.testbit (or_at ret b k) i = true.
Proof. intros H. unfold or_at. by rewrite Z.lor_spec, H. Qed.

Lemma block_keep ret b k k' : block_hit ret k → block_hit (or_at ret b k') k.
Proof.
  intros (j & Hj & Hb). exists j. split; [done |]. by apply or_at_keep.
Qed.

Lemma block_pow2 ret j k :
  0 <= j < 8 → 0 <= k <= 56 → block_hit (or_at ret (2 ^ j) k) k.
Proof.
  intros Hj Hk. exists j. split; [done |]. unfold or_at.
  rewrite Z.lor_spec, (Z.add_comm k j), u64_pow2_bit by lia. apply orb_true_r.
Qed.

Lemma block_one ret s k : 0 <= k <= 56 → block_hit (or_at ret (RotateLeft8 0x01 s) k) k.
Proof.
  intros. rewrite RotateLeft8_one. apply block_pow2; [| done].
  apply Z.mod_pos_bound. lia.
Qed.

Lemma block_msb ret s k : 0 <= k <= 56 → block_hit (or_at ret (RotateLeft8 0x80 s) k) k.
Proof.
  intros. destruct (RotateLeft8_msb s) as (j & Hj & ->). by apply block_pow2.
Qed.

Lemma or_at_range ret b k : 0 <= ret < 2 ^ 64 → 0 <= or_at ret b k < 2 ^ 64.
Proof. intros. apply lor_range; [lia | done | apply u64_range]. Qed.

#[export] Hint Resolve or_at_range : spoof.

Ltac mask_blocks :=
  repeat first
    [ apply block_one; lia | apply block_msb; lia | apply block_keep ].

(** The random split mask always has a bit set in each of its eight 8-bit
    blocks and its lowest bit set, whatever the seed, and fits 64 bits. *)
Theorem genPatternMask_blocks s :
  0 <= genPatternMask s < 2 ^ 64 ∧
  Z.testbit (genPatternMask s) 0 = true ∧
  ∀ b, 0 <= b < 8 → block_hit (genPatternMask s) (8 * b).
Proof.
  unfold genPatternMask. cbv zeta. split; [| split].
  - change (Z.lor 0 169) with 169. do 10 apply or_at_range. lia.
  - do 10 apply or_at_keep. done.
  - intros b Hb.
    assert (b = 0 ∨ b = 1 ∨ b = 2 ∨ b = 3 ∨ b = 4 ∨ b = 5 ∨ b = 6 ∨ b = 7) as Hc by lia.
    destruct Hc as [-> | [-> | [-> | [-> | [-> | [-> | [-> | ->]]]]]]];
      cbn [Z.mul Pos.mul]; mask_blocks.
    exists 0. done.
Qed.

(** ** Payload and shape of the strategies *)
Lemma payload_cons s l : payload (s :: l) = Packet s ++ payload l.
Proof. done. Qed.

Lemma payload_app l k : payload (l ++ k) = payload l ++ payload k.
Proof. unfold payload. by rewrite fmap_app, concat_app. Qed.

(** A segmentation of [rw] into non-empty pieces that spell [rw]. *)
Definition segments_of (rw : bytes) (segs : list Segment) : Prop :=
  payload segs = rw ∧ Forall (λ s, Packet s ≠ []) segs.

Lemma slice_ne {A} (l : list A) a b : 0 <= a < b → b <= len l → slice l a b ≠ [].
Proof.
  intros ? ? E. pose proof (len_slice l a b) as Hl. rewrite E in Hl.
  change (len (@nil A)) with 0 in Hl. lia.
Qed.

(** *** The mask *)
Definition mask_bit (mask i : Z) : bool := Z.testbit mask (i mod 64).

Lemma curbit_test mask i :
  0 <= i → (Z.land mask (2 ^ (i mod 64)) =? 2 ^ (i mod 64)) = mask_bit mask i.
Proof. intros. apply land_pow2_test, Z.mod_pos_bound. lia. Qed.

Lemma curbit_next i :
  RotateLeft64 (2 ^ (i mod 64)) 1 = 2 ^ ((i + 1) mod 64).
Proof.
  rewrite RotateLeft64_pow2 by (apply Z.mod_pos_bound; lia).
  by rewrite Zplus_mod_idemp_l.
Qed.

(** Pieces cut out of [rw] between [a] and [b], none of them longer than a run
    of positions without a set bit allows. *)
Definition no_bit (mask a b : Z) : Prop := ∀ j, a <= j < b → mask_bit mask j = false.

Definition piece_ok (mask : Z) (s : Segment) : Prop :=
  Packet s ≠ [] ∧
  (len (Packet s) = 1 ∨ ∃ a, 0 <= a ∧ no_bit mask a (a + len (Packet s))).

Lemma mask_loop_ok n i rw mask disorder start cur :
  0 <= start <= i → i + Z.of_nat n = len rw → no_bit mask start i →
  ∃ segs start' d,
    mask_loop n i rw mask disorder start cur (2 ^ (i mod 64)) = Ok (segs, start', d) ∧
    start <= start' <= len rw ∧ payload segs = slice rw start start' ∧
    no_bit mask start' (len rw) ∧ Forall (piece_ok mask) segs.
Proof.
  revert i start cur. induction n as [| n IH]; intros i start cur Hs Hn Hno.
  - exists [], start, cur. simpl. split_and!; try lia; try done.
    + by rewrite slice_empty.
    + intros j Hj. apply Hno. lia.
  - cbn [mask_loop]. cbv zeta. rewrite curbit_test, curbit_next by lia.
    destruct (mask_bit mask i) eqn:Hb.
    + set (cur' := if start <? i then negb cur else cur).
      destruct (IH (i + 1) (i + 1) (negb cur')) as
        (segs & st & d & E & Hst & Hp & Hn' & Hf); [lia | lia | intros j ?; lia |].
      rewrite (slice_chk_ok _ i (i + 1)) by lia.
      assert (Hone : piece_ok mask (mkSegment (slice rw i (i + 1)) (cur' && disorder))).
      { split; simpl; [apply slice_ne; lia |]. left. rewrite len_slice; lia. }
      unfold cur' in *. clear cur'. destruct (start <? i) eqn:Hlt; case_bool.
      * rewrite slice_chk_ok by lia. simpl. rewrite E. simpl.
        eexists _, _, _. split_and!; [done | lia | lia | | done |].
        -- rewrite !payload_cons, Hp. simpl. rewrite !slice_glue by lia. done.
        -- constructor; [| by constructor].
           split; simpl; [apply slice_ne; lia |].
           right. exists start. split; [lia |]. rewrite len_slice by lia.
           by replace (start + (i - start)) with i by lia.
      * assert (start = i) as -> by lia. simpl. rewrite E. simpl.
        eexists _, _, _. split_and!; [done | lia | lia | | done |].
        -- rewrite payload_cons, Hp. simpl. by rewrite slice_glue by lia.
        -- by constructor.
    + destruct (IH (i + 1) start cur) as (segs & st & d & E & ?); [lia | lia | |].
      * intros j Hj. destruct (decide (j = i)) as [-> |]; [done | apply Hno; lia].
      * by exists segs, st, d.
Qed.

Lemma splitMask_pieces rw mask disorder :
  rw ≠ [] →
  ∃ segs, splitMask rw mask disorder = Ok segs ∧ payload segs = rw ∧
    Forall (piece_ok mask) segs.
Proof.
  intros Hne. unfold splitMask.
  destruct (len rw =? 0) eqn:H0; [case_bool; by apply len_nil_inv in H0 |].
  destruct (mask_loop_ok (length rw) 0 rw mask disorder 0 true) as
    (segs & st & d & E & Hst & Hp & Hno & Hf);
    [lia | unfold len; lia | intros j ?; lia |].
  change (2 ^ (0 mod 64)) with 1 in E. rewrite E. simpl.
  destruct (st <? len rw) eqn:Hlt; case_bool.
  - rewrite slice_chk_ok by lia. simpl. eexists; split_and!; [done | |].
    + rewrite payload_app, Hp. unfold payload at 1. simpl. rewrite app_nil_r.
      rewrite slice_glue by lia. apply slice_full.
    + apply Forall_app. split; [done |]. constructor; [| constructor].
      split; simpl; [apply slice_ne; lia |]. right. exists st. split; [lia |].
      rewrite len_slice by lia. by replace (st + (len rw - st)) with (len rw) by lia.
  - eexists; split_and!; [done | | done]. rewrite Hp.
    replace st with (len rw) by lia. apply slice_full.
Qed.

(** Fifteen consecutive positions contain a whole aligned block. *)
Lemma masked_run_short mask a n :
  (∀ b, 0 <= b < 8 → block_hit mask (8 * b)) → 0 <= a → no_bit mask a (a + n) →
  n <= 14.
Proof.
  intros Hb Ha Hno. destruct (decide (n <= 14)); [done |]. exfalso.
  set (q := (a + 7) / 8).
  destruct (Hb (q mod 8)) as (j & Hj & Ht); [apply Z.mod_pos_bound; lia |].
  assert (Hr : a <= 8 * q + j < a + n) by (unfold q; dm_lia).
  apply Hno in Hr. unfold mask_bit in Hr.
  replace ((8 * q + j) mod 64) with (8 * (q mod 8) + j) in Hr by dm_lia.
  congruence.
Qed.

(** In random mode the Client Hello is cut into non-empty pieces that spell
    it exactly, none longer than 14 bytes. *)
Theorem random_pieces_short rw s disorder :
  rw ≠ [] →
  ∃ segs, splitMask rw (genPatternMask s) disorder = Ok segs ∧
    segments_of rw segs ∧ Forall (λ g, 1 <= len (Packet g) <= 14) segs.
Proof.
  intros Hne. destruct (splitMask_pieces rw (genPatternMask s) disorder Hne)
    as (segs & E & Hp & Hf).
  destruct (genPatternMask_blocks s) as (_ & _ & Hb).
  exists segs. split; [done |]. split; [split; [done |] |].
  - eapply Forall_impl; [exact Hf |]. by intros ? [? _].
  - eapply Forall_impl; [exact Hf |]. intros g [Hg Hc]. simpl.
    assert (1 <= len (Packet g)).
    { destruct (Packet g) as [| x l]; [done |]. rewrite len_cons.
      pose proof (len_nonneg l). lia. }
    split; [done |]. destruct Hc as [-> | (a & Ha & Hno)]; [lia |].
    by eapply masked_run_short.
Qed.

(** *** Chunks *)
Lemma slice_tail {A} (l : list A) a : 0 <= a → slice l a (len l) = drop (Z.to_nat a) l.
Proof.
  intros. unfold slice, len. rewrite take_ge; [done |]. rewrite length_drop. lia.
Qed.

Lemma chunk_loop_spec fuel rw size disorder cur :
  0 < size → (length rw <= fuel)%nat →
  ∃ segs, chunk_loop fuel rw size disorder cur = Ok segs ∧ payload segs = rw ∧
    len segs = (len rw + size - 1) / size ∧
    ∀ k s, segs !! k = Some s →
      len (Packet s) = Z.min size (len rw - Z.of_nat k * size) ∧
      0 < len (Packet s) ∧ Lazy s = xorb cur (Nat.odd k) && disorder.
Proof.
  intros Hsz. revert rw cur. induction fuel as [| fuel IH]; intros rw cur Hf.
  - destruct rw; simpl in Hf; [| lia]. exists []. split_and!; [done | done | | done].
    change (len (@nil Z)) with 0. change (len (@nil Segment)) with 0.
    symmetry. apply Z.div_small. lia.
  - cbn [chunk_loop]. destruct (0 <? len rw) eqn:Hl; simpl; case_bool.
    2: { exists []. pose proof (len_nonneg rw). assert (len rw = 0) as H0 by lia.
         apply len_nil_inv in H0 as ->. split_and!; [done | done | | done].
         change (len (@nil Z)) with 0. change (len (@nil Segment)) with 0.
         symmetry. apply Z.div_small. lia. }
    set (n := Z.min (len rw) size).
    rewrite !slice_chk_ok by lia. simpl.
    assert (Hdrop : len (slice rw n (len rw)) = len rw - n) by (apply len_slice; lia).
    destruct (IH (slice rw n (len rw)) (negb cur)) as (segs & E & Hp & Hc & Hk).
    { unfold len in *. lia. }
    rewrite E. simpl. eexists. split_and!; [done | | |].
    + rewrite payload_cons, Hp. simpl. rewrite slice_glue by lia. apply slice_full.
    + rewrite len_cons, Hc, Hdrop. unfold n.
      destruct (Z.min_spec (len rw) size) as [[? ->] | [? ->]].
      * replace (len rw - len rw + size - 1) with (size - 1) by lia.
        rewrite Z.div_small by lia. apply (Z.div_unique _ _ _ (len rw - 1)); lia.
      * replace (len rw + size - 1) with (len rw - size + size - 1 + 1 * size) by lia.
        rewrite Z.div_add by lia. lia.
    + intros [| k] s Hs; simpl in Hs.
      * injection Hs as <-. simpl. rewrite len_slice by lia. unfold n.
        rewrite xorb_false_r. split_and!; [lia | lia | done].
      * destruct (Hk k s Hs) as (H1 & H2 & H3). rewrite Hdrop in H1. split_and!.
        -- rewrite H1. unfold n. rewrite Nat2Z.inj_succ. lia.
        -- done.
        -- rewrite H3, Nat.odd_succ, <- Nat.negb_odd. by destruct cur, (Nat.odd k).
Qed.

(** Chunk mode: with a positive chunk size the record is cut into
    ceil(n/size) chunks, each of the full size but for the last one, in order,
    and with disorder on every other chunk, starting with the first, is lazy. *)
Theorem splitChunks_spec rw size disorder :
  rw ≠ [] → 0 < size →
  ∃ segs, splitChunks rw size disorder = Ok segs ∧ payload segs = rw ∧
    len segs = (len rw + size - 1) / size ∧
    ∀ k s, segs !! k = Some s →
      len (Packet s) = Z.min size (len rw - Z.of_nat k * size) ∧
      0 < len (Packet s) ∧ Lazy s = Nat.even k && disorder.
Proof.
  intros Hne Hsz. unfold splitChunks.
  destruct (len rw =? 0) eqn:H0; [case_bool; by apply len_nil_inv in H0 |].
  replace (size =? 0) with false by lia.
  destruct (chunk_loop_spec (length rw) rw size disorder true Hsz) as
    (segs & E & Hp & Hc & Hk); [lia |].
  exists segs. split_and!; try done. intros k s Hs.
  destruct (Hk k s Hs) as (? & ? & HL). split_and!; try done.
  rewrite HL, <- Nat.negb_odd. by destruct (Nat.odd k).
Qed.

(** *** The server name *)
Definition sni_segments (disorder cur : bool) (host : bytes) : list Segment :=
  imap (λ k b, mkSegment [b] (xorb cur (Nat.odd k) && disorder)) host.

Lemma payload_singles {f : nat → bool} (l : bytes) :
  payload (imap (λ k b, mkSegment [b] (f k)) l) = l.
Proof.
  revert f. induction l as [| b l IH]; intros f; [done |].
  simpl. rewrite payload_cons. simpl. f_equal.
  unfold compose. apply (IH (λ k, f (S k))).
Qed.

Lemma sni_loop_spec n i rw start disorder cur :
  0 <= start + i → start + i + Z.of_nat n <= len rw →
  sni_loop n i rw start disorder cur =
    Ok (sni_segments disorder cur (slice rw (start + i) (start + i + Z.of_nat n)),
        xorb cur (Nat.odd n)).
Proof.
  revert i cur. induction n as [| n IH]; intros i cur Hi Hn.
  - simpl. rewrite Z.add_0_r, slice_empty, xorb_false_r. done.
  - cbn [sni_loop].
    destruct (index_ok (E:=string) rw (start + i)) as (x & Hx & ->); [lia |].
    cbn [mbind outcome_bind]. rewrite IH by lia. cbn [mbind outcome_bind].
    rewrite <- (slice_glue rw (start + i) (start + i + 1)) by lia.
    rewrite (slice_single _ _ _ Hi Hx). f_equal. f_equal.
    + unfold sni_segments. simpl. rewrite xorb_false_r. f_equal.
      replace (start + (i + 1)) with (start + i + 1) by lia.
      replace (start + i + Z.of_nat (S n)) with (start + i + 1 + Z.of_nat n) by lia.
      apply imap_ext. intros k b _. unfold compose.
      rewrite Nat.odd_succ, <- Nat.negb_odd. by destruct cur, (Nat.odd k).
    + rewrite Nat.odd_succ, <- Nat.negb_odd. by destruct cur, (Nat.odd n).
Qed.

Lemma splitSNI_spec rw start en disorder :
  0 <= start <= en → en < len rw →
  splitSNI rw start en disorder =
    Ok (mkSegment (slice rw 0 start) false ::
        sni_segments disorder true (slice rw start en) ++
        [mkSegment (slice rw en (len rw)) (Z.even (en - start) && disorder)]).
Proof.
  intros H1 H2. unfold splitSNI.
  replace (len rw =? 0) with false by lia. replace (en <? start) with false by lia.
  replace ((start <? 0) || (len rw <=? start) || (en <? 0) || (len rw <=? en))
    with false by lia.
  rewrite slice_chk_ok by lia. simpl.
  rewrite sni_loop_spec by lia. simpl. rewrite slice_chk_ok by lia. simpl.
  rewrite Z.add_0_r. replace (start + Z.of_nat (Z.to_nat (en - start))) with en by lia.
  do 5 f_equal. rewrite <- (Z2Nat.id (en - start)) at 2 by lia.
  rewrite <- Nat.negb_even. generalize (Z.to_nat (en - start)). intros n.
  replace (Z.even (Z.of_nat n)) with (Nat.even n); [by destruct (Nat.even n) |].
  induction n as [| n IH]; [done |].
  rewrite Nat2Z.inj_succ, Z.even_succ, Nat.even_succ, <- Z.negb_even, <- Nat.negb_even.
  by rewrite IH.
Qed.

(** *** Custom plans *)
Lemma i64_small z : - 2 ^ 63 <= z < 2 ^ 63 → i64 z = z.
Proof. intros. unfold i64. rewrite Z.mod_small; lia. Qed.

(** The noise for which [rand.IntN(s.Noise*2+1)] is called with a positive
    bound. *)
Definition plan_wf (s : SegmentPlan) : Prop := Noise s < 2 ^ 62.

Definition point_in (n : Z) (p : splitPoint) : Prop := 0 <= at_ p <= n.

Lemma plan_point_ok draw sni n s :
  0 <= n → plan_wf s →
  ∃ p, plan_point draw sni n s = Ok p ∧ point_in n p ∧ lazy p = plan_Lazy s.
Proof.
  intros Hn Hwf. unfold plan_point, plan_wf, IntN, int in *.
  destruct (0 <? Noise s) eqn:HN; case_bool.
  - rewrite (i64_small (Noise s * 2)), (i64_small (Noise s * 2 + 1)) by lia.
    replace (Noise s * 2 + 1 <=? 0) with false by lia. simpl.
    eexists. split; [done |]. unfold point_in. simpl. split; [lia | done].
  - simpl. eexists. split; [done |]. unfold point_in. simpl. split; [lia | done].
Qed.

Lemma plan_points_ok draws k sni n plans :
  0 <= n → Forall plan_wf plans →
  ∃ ps, plan_points draws k sni n plans = Ok ps ∧ Forall (point_in n) ps ∧
    lazy <$> ps = plan_Lazy <$> plans.
Proof.
  intros Hn Hwf. revert k. induction Hwf as [| s plans Hs _ IH]; intros k; simpl.
  - by exists [].
  - destruct (plan_point_ok (draws k) sni n s Hn Hs) as (p & -> & Hp & Hl). simpl.
    destruct (IH (S k)) as (ps & -> & Hps & Hls). simpl.
    eexists. split_and!; [done | by constructor |].
    by rewrite !fmap_cons, Hl, Hls.
Qed.

(** Absolute end positions of the segments of a stream starting at [a]. *)
Fixpoint ends (a : Z) (segs : list Segment) : list Z :=
  match segs with
  | [] => []
  | s :: segs' => (a + len (Packet s)) :: ends (a + len (Packet s)) segs'
  end.

Lemma ends_after a segs x :
  Forall (λ s, Packet s ≠ []) segs → x ∈ ends a segs → a < x.
Proof.
  intros Hne. revert a. induction Hne as [| s segs Hs _ IH]; intros a; simpl.
  - intros H. inversion H.
  - assert (0 < len (Packet s)).
    { destruct (Packet s) as [| b l]; [done |]. rewrite len_cons.
      pose proof (len_nonneg l). lia. }
    rewrite elem_of_cons. intros [-> | H']; [lia |]. apply IH in H'. lia.
Qed.

Lemma cut_at_ok points rw prv :
  StronglySorted point_le points → Forall (point_in (len rw)) points →
  Forall (λ p, prv <= at_ p) points → 0 <= prv <= len rw →
  ∃ segs, cut_at points rw prv = Ok segs ∧ payload segs = slice rw prv (len rw) ∧
    Forall (λ s, Packet s ≠ []) segs ∧
    ∀ x, prv < x < len rw → x ∈ ends prv segs ↔ x ∈ at_ <$> points.
Proof.
  intros Hsort. revert prv. induction Hsort as [| p points Hsort IH Hle];
    intros prv Hin Hge Hprv; cbn [cut_at].
  - destruct (prv <? len rw) eqn:Hlt; case_bool.
    + rewrite slice_chk_ok by lia. simpl. eexists. split_and!; [done | | |].
      * unfold payload. simpl. by rewrite app_nil_r.
      * constructor; [apply slice_ne; lia | constructor].
      * intros x Hx. simpl. rewrite len_slice by lia.
        rewrite list_elem_of_singleton. split; [lia | intros Hnil; inversion Hnil].
    + exists []. split_and!; [done | | done | done].
      replace prv with (len rw) by lia. by rewrite slice_empty.
  - apply Forall_cons in Hin as [Hp Hin]. apply Forall_cons in Hge as [Hpp Hge].
    unfold point_in in Hp.
    assert (Hge' : Forall (λ q, at_ p <= at_ q) points) by done.
    destruct (at_ p =? prv) eqn:Heq; case_bool.
    + destruct (IH prv Hin Hge Hprv) as (segs & E & H1 & H2 & H3).
      exists segs. split_and!; try done. intros x Hx. rewrite H3 by done.
      simpl. rewrite elem_of_cons. intuition lia.
    + destruct (IH (at_ p) Hin Hge' Hp) as (segs & E & H1 & H2 & H3).
      rewrite slice_chk_ok by lia. simpl. rewrite E. simpl.
      eexists. split_and!; [done | | |].
      * rewrite payload_cons, H1. simpl. by rewrite slice_glue by lia.
      * constructor; [apply slice_ne; lia | done].
      * intros x Hx. simpl. rewrite len_slice by lia.
        replace (prv + (at_ p - prv)) with (at_ p) by lia.
        rewrite !elem_of_cons.
        destruct (decide (x = at_ p)) as [-> | Hne]; [tauto |].
        destruct (decide (at_ p < x)); [rewrite H3 by lia; tauto |].
        split; intros [? | Hx']; try lia; exfalso.
        -- apply ends_after in Hx'; [lia | done].
        -- apply list_elem_of_fmap in Hx' as (q & -> & Hq).
           rewrite Forall_forall in Hge'. apply Hge' in Hq. lia.
Qed.

(** *** The dispatcher *)
Section Dispatch.
Context `{PointSort}.

Lemma point_le_trans : Transitive point_le.
Proof. intros a b c. unfold point_le. lia. Qed.

Lemma applySegmentPlans_cut ds msg plans sni e :
  bytes_ok (raw msg) → ExtractSNIOffset msg = Ok (sni, e) → Forall plan_wf plans →
  ∃ ps segs, plan_points ds 0 sni (len (raw msg)) plans = Ok ps ∧
    applySegmentPlans ds msg plans = Ok segs ∧ segments_of (raw msg) segs ∧
    ∀ x, 0 < x < len (raw msg) → x ∈ ends 0 segs ↔ x ∈ at_ <$> ps.
Proof.
  intros Hok E Hwf. unfold applySegmentPlans, Raw. rewrite E. simpl.
  pose proof (len_nonneg (raw msg)) as Hnn.
  destruct (plan_points_ok ds 0 sni (len (raw msg)) plans Hnn Hwf) as
    (ps & Hps & Hin & _).
  rewrite Hps. simpl. pose proof (SortFunc_perm ps) as Hperm.
  destruct (cut_at_ok (SortFunc ps) (raw msg) 0) as (segs & -> & Hp & Hne & Hx).
  - apply Sorted_StronglySorted; [apply point_le_trans | apply SortFunc_sorted].
  - by rewrite Hperm.
  - rewrite Hperm. eapply Forall_impl; [exact Hin |]. by intros ? [? ?].
  - lia.
  - exists ps, segs. split_and!; try done.
    + split; [by rewrite Hp, slice_full | done].
    + intros x Hx'. rewrite Hx by done. by rewrite Hperm.
Qed.

Lemma segments_whole rw b : rw ≠ [] → segments_of rw [mkSegment rw b].
Proof.
  intros. split; [unfold payload; simpl; apply app_nil_r |]. by constructor.
Qed.

Lemma split_strategy_ok ch msg opts :
  bytes_ok (raw msg) → raw msg ≠ [] → 0 <= ChunkSize opts →
  Forall plan_wf (CustomSegmentPlans opts) →
  returns (split_strategy ch msg opts) (segments_of (raw msg)).
Proof.
  intros Hok Hne Hc Hwf. unfold split_strategy, Raw.
  destruct (SplitMode opts).
  - destruct (ExtractSNIOffset msg) as [[s e] | | |] eqn:E; simpl;
      try (pose proof (extract_returns msg Hok) as Hr; by rewrite E in Hr).
    pose proof (returns_Ok _ _ _ (extract_returns msg Hok) E) as [Hs He].
    simpl in Hs, He. rewrite slice_chk_ok by lia. simpl.
    destruct (decide (e = len (raw msg))) as [-> |].
    + unfold splitSNI. replace (len (raw msg) =? 0) with false by lia.
      replace (len (raw msg) <? s) with false by lia.
      rewrite Z.leb_refl, !orb_true_r. done.
    + rewrite splitSNI_spec by lia. simpl. split.
      * rewrite payload_cons, payload_app. unfold sni_segments.
        rewrite payload_singles. unfold payload. simpl. rewrite app_nil_r.
        rewrite !slice_glue by lia. apply slice_full.
      * constructor; [apply slice_ne; lia |]. apply Forall_app. split.
        -- unfold sni_segments. apply Forall_forall. intros x Hx.
           apply elem_of_lookup_imap in Hx as (k & b & -> & _). done.
        -- constructor; [apply slice_ne; lia | constructor].
  - destruct (random_pieces_short (raw msg) (seed ch) (Disorder opts) Hne) as
      (segs & -> & ? & _). done.
  - destruct (decide (ChunkSize opts = 0)) as [H0 |].
    + unfold splitChunks. rewrite H0. by destruct (len (raw msg) =? 0).
    + destruct (splitChunks_spec (raw msg) (ChunkSize opts) (Disorder opts) Hne)
        as (segs & -> & Hp & _ & Hk); [lia |].
      split; [done |]. apply Forall_lookup. intros k s Hs Hnil.
      apply Hk in Hs as (_ & Hl & _). rewrite Hnil in Hl. done.
  - unfold splitFirstByte. destruct (len (raw msg) <? 2) eqn:Hl; [done |].
    case_bool. rewrite !slice_chk_ok by lia. simpl. split.
    + unfold payload. simpl. rewrite app_nil_r, slice_glue by lia. apply slice_full.
    + repeat constructor; simpl; apply slice_ne; lia.
  - destruct (ExtractSNIOffset msg) as [[s e] | | |] eqn:E.
    + destruct (applySegmentPlans_cut (draws ch) msg _ s e Hok E Hwf) as
        (ps & segs & _ & -> & ? & _). done.
    + unfold applySegmentPlans. by rewrite E.
    + pose proof (extract_returns msg Hok) as Hr. by rewrite E in Hr.
    + pose proof (extract_returns msg Hok) as Hr. by rewrite E in Hr.
  - by apply segments_whole.
Qed.

Lemma split_ok ch msg opts :
  bytes_ok (raw msg) → raw msg ≠ [] → 0 <= ChunkSize opts →
  Forall plan_wf (CustomSegmentPlans opts) →
  ∃ segs, split ch msg opts = Ok segs ∧ segments_of (raw msg) segs.
Proof.
  intros Hok Hne Hc Hwf.
  pose proof (split_strategy_ok ch msg opts Hok Hne Hc Hwf) as Hr. unfold split.
  destruct (split_strategy ch msg opts) as [segs | e | |]; try done.
  - by exists segs.
  - eexists. split; [done |]. by apply segments_whole.
Qed.


(** C8. SNI mode cuts out the server name byte by byte: one segment up to
    it, one segment per byte of the name, one for the rest; with disorder
    the name's bytes are lazy in alternation. When the name ends the record
    the range test rejects it and the record goes out unsplit. *)
Theorem split_sni ch msg opts s e :
  bytes_ok (raw msg) → SplitMode opts = HTTPSSplitModeSNI →
  ExtractSNIOffset msg = Ok (s, e) →
  split ch msg opts =
    Ok (if decide (e = len (raw msg)) then [mkSegment (raw msg) false]
        else mkSegment (slice (raw msg) 0 s) false ::
          sni_segments (Disorder opts) true (slice (raw msg) s e) ++
          [mkSegment (slice (raw msg) e (len (raw msg)))
             (Z.even (e - s) && Disorder opts)]).
Proof.
  intros Hok Hm E. pose proof (returns_Ok _ _ _ (extract_returns msg Hok) E) as H'.
  simpl in H'. unfold split, split_strategy, Raw. rewrite Hm, E. simpl.
  rewrite slice_chk_ok by lia. case_decide as He.
  - subst e. unfold splitSNI. replace (len (raw msg) =? 0) with false by lia.
    replace (len (raw msg) <? s) with false by lia.
    rewrite Z.leb_refl, !orb_true_r. done.
  - rewrite splitSNI_spec by lia. done.
Qed.

(** Custom mode cuts exactly at the configured points: a position
    strictly inside the record ends a segment if and only if some plan, with
    its noise and clamped to the record, falls on it. *)
Theorem split_custom_cuts ch msg opts s e :
  bytes_ok (raw msg) → SplitMode opts = HTTPSSplitModeCustom →
  ExtractSNIOffset msg = Ok (s, e) → Forall plan_wf (CustomSegmentPlans opts) →
  ∃ ps segs,
    plan_points (draws ch) 0 s (len (raw msg)) (CustomSegmentPlans opts) = Ok ps ∧
    split ch msg opts = Ok segs ∧
    ∀ x, 0 < x < len (raw msg) → x ∈ ends 0 segs ↔ x ∈ at_ <$> ps.
Proof.
  intros Hok Hm E Hwf.
  destruct (applySegmentPlans_cut (draws ch) msg _ s e Hok E Hwf) as
    (ps & segs & Hps & Ha & _ & Hx).
  exists ps, segs. split_and!; try done.
  unfold split, split_strategy. by rewrite Hm, Ha.
Qed.
End Dispatch.

(** ** Witnesses *)
Lemma Sorted_point_le_nil : Sorted point_le [].
Proof. constructor. Qed.

(** An instance of the sort: merge sort by position. *)
#[export] Instance point_le_dec : RelDecision point_le.
Proof. intros a b. unfold point_le. apply _. Defined.
#[export] Instance point_le_total : Total point_le.
Proof. intros a b. unfold point_le. lia. Qed.
#[export] Instance point_le_transitive : Transitive point_le.
Proof. apply point_le_trans. Qed.

#[export] Program Instance merge_PointSort : PointSort := {|
  SortFunc := merge_sort point_le;
|}.
Next Obligation. apply merge_sort_Permutation. Qed.
Next Obligation. apply Sorted_merge_sort, _. Qed.

Definition opts_with (m : HTTPSSplitModeType) (plans : list SegmentPlan) : HTTPSOptions :=
  mkHTTPSOptions true 0 None m 35 false plans.

Definition sample_plans : list SegmentPlan :=
  [mkSegmentPlan SegmentFromSNI 1 true 0; mkSegmentPlan SegmentFromHead 5 false 2].

Definition sample_choices : Choices := mkChoices 12345 (λ _ n, n / 2).

Lemma sample_plans_wf : Forall plan_wf sample_plans.
Proof. repeat constructor; unfold plan_wf; simpl; lia. Qed.

Lemma random_pieces_short_witness :
  ∃ segs, splitMask [1; 2; 3] (genPatternMask 7) true = Ok segs ∧
    segments_of [1; 2; 3] segs ∧ Forall (λ g, 1 <= len (Packet g) <= 14) segs.
Proof. by apply (random_pieces_short [1; 2; 3] 7 true). Defined.

Lemma splitChunks_spec_witness :
  ∃ segs, splitChunks [1; 2; 3] 2 true = Ok segs ∧ payload segs = [1; 2; 3] ∧
    len segs = 2.
Proof.
  destruct (splitChunks_spec [1; 2; 3] 2 true) as (segs & ? & ? & ? & _);
    [done | lia | by exists segs].
Defined.


Lemma split_sni_witness :
  split sample_choices sample_message (opts_with HTTPSSplitModeSNI []) =
    Ok (mkSegment (slice (raw sample_message) 0 69) false ::
        sni_segments true true [0x61; 0x2e; 0x62] ++
        [mkSegment (slice (raw sample_message) 72 76) false]).
Proof.
  apply (split_sni sample_choices sample_message (opts_with HTTPSSplitModeSNI []) 69 72);
    [apply sample_bytes_ok | reflexivity | reflexivity].
Defined.

Lemma split_custom_cuts_witness :
  ∃ segs, split sample_choices sample_message
    (opts_with HTTPSSplitModeCustom sample_plans) = Ok segs ∧
    70 ∈ ends 0 segs.
Proof.
  destruct (split_custom_cuts sample_choices sample_message
    (opts_with HTTPSSplitModeCustom sample_plans) 69 72) as (ps & segs & Hps & Hs & Hx);
    [apply sample_bytes_ok | reflexivity | reflexivity | apply sample_plans_wf |].
  exists segs. split; [done |].
  assert (Hr : 0 < 70 < len (raw sample_message)) by (vm_compute; split; reflexivity).
  apply (Hx 70 Hr).
  vm_compute in Hps. injection Hps as <-. vm_compute. constructor.
Defined.
