(* ===== verification/CacheApi.v ===== *)
(** * The cache interface: [internal/cache/cache.go] and [hash.go]

    [Cache] is the Go interface of the same name, with what an implementation
    promises its clients. Clients (the connection registry, the packet
    sniffers, the resolver) are verified against the class; the LRU and TTL
    caches are its two instances. *)

From S2P Require Import Prelude.

(** ** Options of [Set] *)
Record options : Type := mkOptions {
  ttl : Z;                    (* time.Duration, nanoseconds *)
  skipExisting : bool;
  updateExistingOnly : bool;
}.

Definition Options : options := mkOptions 0 false false.
Definition WithTTL (t : Z) (o : options) : options :=
  mkOptions t (skipExisting o) (updateExistingOnly o).
Definition WithUpdateExistingOnly (b : bool) (o : options) : options :=
  mkOptions (ttl o) (skipExisting o) b.
Definition WithSkipExisting (b : bool) (o : options) : options :=
  mkOptions (ttl o) b (updateExistingOnly o).

(** [opts == nil] is replaced by the zero options. *)
Definition opts_or_default (o : option options) : options :=
  match o with Some o => o | None => Options end.

(** Whether [Set] goes through for a key that is, or is not, present. *)
Definition set_allowed (o : options) (present : bool) : bool :=
  negb (present && skipExisting o) && negb (negb present && updateExistingOnly o).

(** ** Keys and shards *)
Class Key (K : Type) : Type := {
  Key_eq_dec :: EqDecision K;
  Key_countable :: Countable K;
  Bytes : K → bytes;
}.
Arguments Key_countable _ : clear implicits.

Definition fnvOffset64 : Z := 14695981039346656037.
Definition fnvPrime64 : Z := 1099511628211.

(** [fnv1aBytes] *)
Definition fnv1aBytes (b : bytes) : Z :=
  fold_left (λ h c, u64 (Z.lxor h c * fnvPrime64)) b fnvOffset64.

(** ** The interface

    [C] is the state of a cache; [peek] is its abstract content. [c_set]
    returns whether the value was stored and the entries it invalidated, in
    the order the callback is called on them. *)
Class Cache (C K V : Type) : Type := {
  c_get : K → C → option V * C;
  c_set : K → V → option options → C → bool * list (K * V) * C;
  c_delete : K → C → list (K * V) * C;
  c_has : K → C → bool;
  c_foreach : C → list (K * V);
  c_size : C → Z;
  c_valid : C → Prop;
  c_accepts : options → Prop;
  c_notifies : Prop;     (* nothing goes away unseen: no entry expires silently *)
  peek : C → K → option V;
}.

(** What clients rely on. *)
Class CacheLaws (C K V : Type) `{Cache C K V} : Prop := {
  get_spec c k : c_valid c →
    fst (c_get k c) = peek c k ∧ c_valid (snd (c_get k c)) ∧
    ∀ k', peek (snd (c_get k c)) k' = peek c k';
  has_spec c k : c_valid c → c_has k c = true ↔ is_Some (peek c k);
  set_refused c k v o b inv c' : c_valid c → c_set k v o c = (b, inv, c') →
    b = false → inv = [] ∧ c' = c;
  set_skip c k v o : c_valid c → is_Some (peek c k) →
    skipExisting (opts_or_default o) = true →
    c_set k v o c = (false, [], c);
  set_stores c k v o b inv c' : c_valid c → c_set k v o c = (b, inv, c') →
    b = true → c_accepts (opts_or_default o) →
    peek c' k = Some v;
  set_allowed_stores c k v o :
    c_valid c → c_accepts (opts_or_default o) →
    set_allowed (opts_or_default o) (c_has k c) = true →
    skipExisting (opts_or_default o) = false ∨ c_notifies →
    ∃ inv c', c_set k v o c = (true, inv, c');
  set_valid c k v o b inv c' : c_valid c → c_set k v o c = (b, inv, c') → c_valid c';
  set_frame c k v o b inv c' k' : c_valid c → c_set k v o c = (b, inv, c') →
    k' ≠ k → peek c' k' = peek c k' ∨
      (peek c' k' = None ∧ ∃ w, peek c k' = Some w ∧ (k', w) ∈ inv);
  set_invalidates c k v o b inv c' k' w : c_valid c → c_set k v o c = (b, inv, c') →
    (k', w) ∈ inv → peek c k' = Some w;
  set_gone c k v o b inv c' k' w : c_valid c → c_set k v o c = (b, inv, c') →
    (k', w) ∈ inv → k' ≠ k → peek c' k' = None;
  set_notifies c k v o inv c' w : c_valid c → c_notifies →
    c_set k v o c = (true, inv, c') → peek c k = Some w → (k, w) ∈ inv;
  delete_notifies c k inv c' w : c_valid c → c_notifies →
    c_delete k c = (inv, c') → peek c k = Some w → (k, w) ∈ inv;
  delete_invalidates c k inv c' k' w : c_valid c → c_delete k c = (inv, c') →
    (k', w) ∈ inv → k' = k ∧ peek c k = Some w;
  delete_spec c k inv c' : c_valid c → c_delete k c = (inv, c') →
    c_valid c' ∧ peek c' k = None ∧ ∀ k', k' ≠ k → peek c' k' = peek c k';
  foreach_spec c k v : c_valid c → peek c k = Some v → (k, v) ∈ c_foreach c;
  foreach_sound c k v : c_valid c → c_notifies → (k, v) ∈ c_foreach c → peek c k = Some v;
}.

(** The selected shard is one of the [n]: [hash & (n-1)] for a power of two. *)
Lemma land_mask_range h m : 0 <= m → 0 <= Z.land h m <= m.
Proof.
  intros Hm. split; [apply Z.land_nonneg; lia |].
  apply Z.ldiff_le; [lia |].
  apply Z.bits_inj'. intros i Hi. rewrite Z.ldiff_spec, Z.land_spec, Z.bits_0.
  by destruct (Z.testbit h i), (Z.testbit m i).
Qed.

Lemma fnv1aBytes_range b : 0 <= fnv1aBytes b < 2 ^ 64.
Proof.
  unfold fnv1aBytes.
  assert (∀ h, 0 <= h < 2 ^ 64 →
    0 <= fold_left (λ h c, u64 (Z.lxor h c * fnvPrime64)) b h < 2 ^ 64) as H.
  { induction b as [| c b IH]; intros h Hh; simpl; [done |]. apply IH, u64_range. }
  apply H. by vm_compute.
Qed.
