(* ===== verification/LruCache.v ===== *)
(** * The sharded LRU cache: [internal/cache/lru_cache.go]

    A shard holds, as the code does, a map from keys to list elements and a
    doubly linked list of elements. Elements are pointers ([nat]) into a heap
    of entries, so an entry updated in place is shared between the map and the
    list. The recency list [view] is the abstract specification. *)

From S2P Require Import Prelude CacheApi.

Section Lru.
Context {K V : Type} `{!Key K}.

Record lruEntry : Type := mkEntry { entry_key : K; entry_value : V }.

Record lruShard : Type := mkShard {
  items : gmap K nat;
  heap : gmap nat lruEntry;
  order : list nat;            (* front first *)
  capacity : Z;
  next : nat;                  (* the next pointer to allocate *)
}.

(** ** [container/list] on elements *)
Definition list_Remove (p : nat) (l : list nat) : list nat := filter (λ q, q ≠ p) l.
Definition MoveToFront (p : nat) (l : list nat) : list nat :=
  if decide (p ∈ l) then p :: list_Remove p l else l.

Definition with_order (l : list nat) (s : lruShard) : lruShard :=
  mkShard (items s) (heap s) l (capacity s) (next s).

(** ** Shard operations *)
Definition shard_Get (key : K) (s : lruShard) : option V * lruShard :=
  match items s !! key with
  | Some elem =>
    (entry_value <$> heap s !! elem, with_order (MoveToFront elem (order s)) s)
  | None => (None, s)
  end.

Definition shard_Has (key : K) (s : lruShard) : bool :=
  match items s !! key with Some _ => true | None => false end.

(** [s.list.Remove(elem); delete(s.items, e.key)] and the callback. *)
Definition shard_remove (elem : nat) (s : lruShard) : list (K * V) * lruShard :=
  match heap s !! elem with
  | Some e =>
    ([(entry_key e, entry_value e)],
     mkShard (delete (entry_key e) (items s)) (heap s)
       (list_Remove elem (order s)) (capacity s) (next s))
  | None => ([], s)
  end.

Definition shard_Set (key : K) (value : V) (o : option options) (s : lruShard)
    : bool * list (K * V) * lruShard :=
  let opts := opts_or_default o in
  match items s !! key with
  | Some elem =>
    if skipExisting opts then (false, [], s)
    else
      match heap s !! elem with
      | Some entry =>
        (true, [(entry_key entry, entry_value entry)],
         mkShard (items s) (<[elem := mkEntry (entry_key entry) value]> (heap s))
           (MoveToFront elem (order s)) (capacity s) (next s))
      | None => (false, [], s)
      end
  | None =>
    if updateExistingOnly opts then (false, [], s)
    else
      let elem := next s in
      let s' := mkShard (<[key := elem]> (items s))
                  (<[elem := mkEntry key value]> (heap s))
                  (elem :: order s) (capacity s) (S (next s)) in
      if capacity s <? len (order s') then
        match last (order s') with
        | Some tail => let '(inv, s'') := shard_remove tail s' in (true, inv, s'')
        | None => (true, [], s')
        end
      else (true, [], s')
  end.

Definition shard_Delete (key : K) (s : lruShard) : list (K * V) * lruShard :=
  match items s !! key with
  | Some elem => shard_remove elem s
  | None => ([], s)
  end.

(** The entries [ForEach] visits; Go leaves the order of a map open. *)
Definition shard_entries (s : lruShard) : list (K * V) :=
  omap (λ kp, (λ e, (entry_key e, entry_value e)) <$> heap s !! kp.2)
    (map_to_list (items s)).

(** ** The cache *)
Record LRUCache : Type := mkLRU { shards : list lruShard; mask : Z }.

Definition empty_shard (cap : Z) : lruShard := mkShard ∅ ∅ [] cap 0.

Definition NewLRUCache (numShards totalCapacity : Z) : outcome string LRUCache :=
  if (numShards <=? 0) || negb (Z.land numShards (numShards - 1) =? 0) then Panic
  else
    let capPerShard := Z.quot totalCapacity numShards in
    let capPerShard := if capPerShard <=? 0 then 1 else capPerShard in
    Ok (mkLRU (replicate (Z.to_nat numShards) (empty_shard capPerShard))
          (u64 (numShards - 1))).

Definition shard_index (c : LRUCache) (key : K) : nat :=
  Z.to_nat (Z.land (fnv1aBytes (Bytes key)) (mask c)).

Definition with_shard (c : LRUCache) (i : nat) (s : lruShard) : LRUCache :=
  mkLRU (<[i := s]> (shards c)) (mask c).

(** Runs a shard operation on the key's shard; an index out of range would
    panic, and never happens on a valid cache. *)
Definition on_shard {A} (key : K) (c : LRUCache) (d : A)
    (f : lruShard → A * lruShard) : A * LRUCache :=
  match shards c !! shard_index c key with
  | Some s => let '(a, s') := f s in (a, with_shard c (shard_index c key) s')
  | None => (d, c)
  end.

Definition Get (key : K) (c : LRUCache) : option V * LRUCache :=
  on_shard key c None (shard_Get key).
Definition Set_ (key : K) (value : V) (o : option options) (c : LRUCache)
    : bool * list (K * V) * LRUCache :=
  on_shard key c (false, []) (shard_Set key value o).
Definition Delete (key : K) (c : LRUCache) : list (K * V) * LRUCache :=
  on_shard key c [] (shard_Delete key).
Definition Has (key : K) (c : LRUCache) : bool :=
  match shards c !! shard_index c key with
  | Some s => shard_Has key s
  | None => false
  end.
Definition ForEach (c : LRUCache) : list (K * V) :=
  mjoin (shard_entries <$> shards c).
Definition Size (c : LRUCache) : Z :=
  fold_left (λ total s, total + len (order s)) (shards c) 0.

(** ** The recency-list specification *)
Definition assoc (k : K) (l : list (K * V)) : option V :=
  snd <$> find (λ e, bool_decide (e.1 = k)) l.
Definition remove (k : K) (l : list (K * V)) : list (K * V) :=
  filter (λ e, e.1 ≠ k) l.

Definition spec_get (k : K) (l : list (K * V)) : option V * list (K * V) :=
  match assoc k l with
  | Some v => (Some v, (k, v) :: remove k l)
  | None => (None, l)
  end.

Definition spec_set (cap : Z) (o : options) (k : K) (v : V) (l : list (K * V))
    : bool * list (K * V) * list (K * V) :=
  match assoc k l with
  | Some w =>
    if skipExisting o then (false, [], l) else (true, [(k, w)], (k, v) :: remove k l)
  | None =>
    if updateExistingOnly o then (false, [], l)
    else
      let l' := (k, v) :: l in
      if cap <? len l' then
        match last l' with
        | Some (k', w) => (true, [(k', w)], remove k' l')
        | None => (true, [], l')
        end
      else (true, [], l')
  end.

Definition spec_delete (k : K) (l : list (K * V)) : list (K * V) * list (K * V) :=
  match assoc k l with
  | Some w => ([(k, w)], remove k l)
  | None => ([], l)
  end.

(** One operation on a shard, in the code and in the specification. *)
Inductive shard_op : Type :=
| OpGet (k : K)
| OpHas (k : K)
| OpSet (k : K) (v : V) (o : option options)
| OpDelete (k : K).

Inductive shard_res : Type :=
| RGet (r : option V)
| RHas (b : bool)
| RSet (b : bool) (invalidated : list (K * V))
| RDelete (invalidated : list (K * V)).

Definition shard_do (op : shard_op) (s : lruShard) : shard_res * lruShard :=
  match op with
  | OpGet k => let '(r, s') := shard_Get k s in (RGet r, s')
  | OpHas k => (RHas (shard_Has k s), s)
  | OpSet k v o => let '(b, inv, s') := shard_Set k v o s in (RSet b inv, s')
  | OpDelete k => let '(inv, s') := shard_Delete k s in (RDelete inv, s')
  end.

Definition spec_do (cap : Z) (op : shard_op) (l : list (K * V))
    : shard_res * list (K * V) :=
  match op with
  | OpGet k => let '(r, l') := spec_get k l in (RGet r, l')
  | OpHas k => (RHas (bool_decide (is_Some (assoc k l))), l)
  | OpSet k v o =>
    let '(b, inv, l') := spec_set cap (opts_or_default o) k v l in (RSet b inv, l')
  | OpDelete k => let '(inv, l') := spec_delete k l in (RDelete inv, l')
  end.

Definition entry_at (h : gmap nat lruEntry) (p : nat) : option (K * V) :=
  (λ e, (entry_key e, entry_value e)) <$> h !! p.

(** The entries in recency order. *)
Definition view_of (h : gmap nat lruEntry) (l : list nat) : list (K * V) :=
  omap (entry_at h) l.
Definition view (s : lruShard) : list (K * V) := view_of (heap s) (order s).

(** The invariant of a shard, without and with its bound. *)
Record shard_inv (s : lruShard) : Prop := {
  wf_nodup : NoDup (order s);
  wf_items : ∀ k p, items s !! k = Some p ↔
    p ∈ order s ∧ ∃ v, heap s !! p = Some (mkEntry k v);
  wf_alive : ∀ p, p ∈ order s → is_Some (heap s !! p);
  wf_next : ∀ p, is_Some (heap s !! p) → (p < next s)%nat;
  wf_pos : 1 <= capacity s;
}.
Definition shard_wf (s : lruShard) : Prop :=
  shard_inv s ∧ len (order s) <= capacity s.

Definition cache_wf (c : LRUCache) : Prop :=
  Forall shard_wf (shards c) ∧ 1 <= len (shards c) ∧ mask c = len (shards c) - 1 ∧
  ∀ i s k, shards c !! i = Some s → is_Some (assoc k (view s)) → shard_index c k = i.

(** The content of a cache: the association list of the key's shard. *)
Definition cache_peek (c : LRUCache) (k : K) : option V :=
  s ← shards c !! shard_index c k; assoc k (view s).

(** ** Pointer lists and their entries *)
Implicit Types (k : K) (v w : V) (p q : nat) (s : lruShard) (c : LRUCache).

(** [p] is the only pointer of [l] whose entry has key [k]. *)
Definition key_at (h : gmap nat lruEntry) (l : list nat) (k : K) (p : nat) : Prop :=
  ∀ q w, q ∈ l → h !! q = Some (mkEntry k w) → q = p.

Lemma elem_of_list_Remove p q l : q ∈ list_Remove p l ↔ q ≠ p ∧ q ∈ l.
Proof. unfold list_Remove. by rewrite list_elem_of_filter. Qed.

Lemma NoDup_list_Remove p l : NoDup l → NoDup (list_Remove p l).
Proof. apply NoDup_filter. Qed.

Lemma list_Remove_notin p l : p ∉ l → list_Remove p l = l.
Proof.
  intros Hp. apply filter_all, Forall_forall. intros x Hx ->. done.
Qed.

Lemma len_list_Remove p l : NoDup l → p ∈ l → len (list_Remove p l) = len l - 1.
Proof.
  intros Hnd (l1 & l2 & ->)%list_elem_of_split.
  apply NoDup_app in Hnd as (_ & Hd & [Hp _]%NoDup_cons).
  unfold list_Remove. rewrite filter_app, filter_cons_False by naive_solver.
  fold (list_Remove p l1) (list_Remove p l2).
  rewrite (list_Remove_notin p l1), (list_Remove_notin p l2)
    by (done || (intros H; by apply (Hd p H); left)).
  rewrite !len_app, len_cons. lia.
Qed.

Lemma view_of_cons h p l :
  view_of h (p :: l) =
  match h !! p with
  | Some e => (entry_key e, entry_value e) :: view_of h l
  | None => view_of h l
  end.
Proof. unfold view_of, entry_at. simpl. by destruct (h !! p). Qed.

Lemma view_of_insert h l p e : p ∉ l → view_of (<[p := e]> h) l = view_of h l.
Proof.
  induction l as [| q l IH]; intros Hp; [done |].
  apply not_elem_of_cons in Hp as [Hq Hp].
  by rewrite !view_of_cons, IH, lookup_insert_ne.
Qed.

Lemma view_of_remove h l k v p :
  h !! p = Some (mkEntry k v) → key_at h l k p →
  view_of h (list_Remove p l) = remove k (view_of h l).
Proof.
  intros Hp. induction l as [| q l IH]; intros Hk; [done |].
  assert (key_at h l k p) as Hk' by (intros ????; eapply Hk; [by right | done]).
  unfold list_Remove in *. rewrite filter_cons, (view_of_cons _ q l).
  destruct (decide (q ≠ p)) as [Hne | ->%dec_stable].
  - rewrite view_of_cons, (IH Hk'). destruct (h !! q) as [[k' w] |] eqn:Hq; [| done].
    unfold remove at 2. rewrite filter_cons_True; [done |]. simpl. intros ->.
    apply Hne. eapply Hk; [by left | done].
  - rewrite Hp, (IH Hk'). unfold remove at 2. by rewrite filter_cons_False by naive_solver.
Qed.

Lemma assoc_view_some h l k v p :
  p ∈ l → h !! p = Some (mkEntry k v) → key_at h l k p → assoc k (view_of h l) = Some v.
Proof.
  induction l as [| q l IH]; intros Hin Hp Hk; [by apply elem_of_nil in Hin |].
  rewrite view_of_cons.
  destruct (h !! q) as [[k' w] |] eqn:Hq; simpl.
  - unfold assoc. simpl. case_bool_decide as Hd; simpl in Hd.
    + subst k'. assert (q = p) as -> by (eapply Hk; [by left | done]). by simplify_eq/=.
    + apply IH; [| done | intros ????; eapply Hk; [by right | done]].
      apply elem_of_cons in Hin as [-> | ?]; [by simplify_eq | done].
  - apply IH; [| done | intros ????; eapply Hk; [by right | done]].
    apply elem_of_cons in Hin as [-> | ?]; [by simplify_eq | done].
Qed.

Lemma assoc_In k v (l : list (K * V)) : assoc k l = Some v → (k, v) ∈ l.
Proof.
  unfold assoc. intros ([k' w] & Hf & ?)%fmap_Some. simpl in *; subst.
  apply find_some in Hf as [Hin Hb]. apply bool_decide_eq_true in Hb. simpl in Hb.
  subst. by apply list_elem_of_In.
Qed.

Lemma assoc_None k (l : list (K * V)) : assoc k l = None → ∀ v, (k, v) ∉ l.
Proof.
  unfold assoc. intros Hf%fmap_None v Hin%list_elem_of_In.
  eapply find_none in Hf; [| done]. by apply bool_decide_eq_false in Hf.
Qed.

Lemma elem_of_view_of h l k v :
  (k, v) ∈ view_of h l ↔ ∃ p, p ∈ l ∧ h !! p = Some (mkEntry k v).
Proof.
  unfold view_of. rewrite list_elem_of_omap. unfold entry_at. split.
  - intros (p & Hp & ([k' w] & Hh & [= -> ->])%fmap_Some). eauto.
  - intros (p & Hp & Hh). exists p. by rewrite Hh.
Qed.

Lemma assoc_remove k k' (l : list (K * V)) :
  assoc k' (remove k l) = if decide (k' = k) then None else assoc k' l.
Proof.
  unfold assoc, remove. induction l as [| [k2 w] l IH]; simpl; [by case_decide |].
  rewrite filter_cons. destruct (decide ((k2, w).1 ≠ k)) as [Hd | Hd]; simpl in *.
  - case_bool_decide; [subst; by rewrite decide_False | done].
  - apply dec_stable in Hd as ->. rewrite IH. case_decide; [done |].
    by rewrite bool_decide_eq_false_2 by done.
Qed.

(** ** A shard refines its recency list *)
Lemma wf_key_at s k p :
  shard_inv s → items s !! k = Some p → key_at (heap s) (order s) k p.
Proof.
  intros Hwf Hp q w Hq Hh. cut (items s !! k = Some q); [congruence |].
  apply (wf_items _ Hwf). eauto.
Qed.

Lemma lookup_wf s k p :
  shard_inv s → items s !! k = Some p →
  ∃ v, heap s !! p = Some (mkEntry k v) ∧ p ∈ order s ∧ assoc k (view s) = Some v.
Proof.
  intros Hwf Hp. pose proof Hp as (Hin & v & Hv)%(wf_items _ Hwf).
  exists v. split_and!; [done | done |].
  by eapply assoc_view_some; eauto using wf_key_at.
Qed.

Lemma lookup_wf_None s k :
  shard_inv s → items s !! k = None → assoc k (view s) = None.
Proof.
  intros Hwf Hn. apply eq_None_not_Some. intros [v (p & Hp & Hh)%assoc_In%elem_of_view_of].
  assert (items s !! k = Some p) by (apply (wf_items _ Hwf); eauto). congruence.
Qed.

Lemma elem_of_MoveToFront p q l : q ∈ MoveToFront p l ↔ q ∈ l.
Proof.
  unfold MoveToFront. case_decide; [| done].
  rewrite elem_of_cons, elem_of_list_Remove. destruct (decide (q = p)); naive_solver.
Qed.

Lemma NoDup_MoveToFront p l : NoDup l → NoDup (MoveToFront p l).
Proof.
  intros Hl. unfold MoveToFront. case_decide; [| done].
  constructor; [rewrite elem_of_list_Remove; naive_solver | by apply NoDup_list_Remove].
Qed.

Lemma len_MoveToFront p l : NoDup l → len (MoveToFront p l) = len l.
Proof.
  intros Hl. unfold MoveToFront. case_decide; [| done].
  rewrite len_cons, len_list_Remove by done. lia.
Qed.

Lemma view_MoveToFront h l k v p :
  p ∈ l → h !! p = Some (mkEntry k v) → key_at h l k p →
  view_of h (MoveToFront p l) = (k, v) :: remove k (view_of h l).
Proof.
  intros Hin Hp Hk. unfold MoveToFront. rewrite decide_True by done.
  rewrite view_of_cons, Hp. simpl.
  by rewrite <- (view_of_remove _ _ _ _ _ Hp Hk).
Qed.

Lemma MoveToFront_inv s p : shard_inv s → shard_inv (with_order (MoveToFront p (order s)) s).
Proof.
  intros [H1 H2 H3 H4 H5]. split; simpl; auto using NoDup_MoveToFront.
  - intros k q. rewrite elem_of_MoveToFront. auto.
  - intros q. rewrite elem_of_MoveToFront. auto.
Qed.

Lemma shard_remove_spec s p k v :
  shard_inv s → p ∈ order s → heap s !! p = Some (mkEntry k v) →
  let '(inv, s') := shard_remove p s in
  inv = [(k, v)] ∧ shard_inv s' ∧ capacity s' = capacity s ∧
  len (order s') = len (order s) - 1 ∧ view s' = remove k (view s).
Proof.
  intros Hwf Hin Hp. assert (items s !! k = Some p) as Hi by (apply (wf_items _ Hwf); eauto).
  pose proof (wf_key_at _ _ _ Hwf Hi) as Hk. unfold shard_remove. rewrite Hp. simpl.
  destruct Hwf as [H1 H2 H3 H4 H5].
  split_and!; [done | | done | by apply len_list_Remove | by eapply view_of_remove].
  split; simpl; auto using NoDup_list_Remove.
  - intros k' q. rewrite elem_of_list_Remove, lookup_delete_Some, H2. split.
    + intros (Hne & Hq & w & Hw). split_and!; [| done | by eauto].
      intros ->. rewrite Hp in Hw. congruence.
    + intros ((Hne & Hq) & w & Hw). split_and!; [| done | by eauto].
      intros <-. apply Hne. by eapply Hk.
  - intros q [_ Hq]%elem_of_list_Remove. auto.
Qed.

Lemma update_inv s p k v w :
  shard_inv s → p ∈ order s → heap s !! p = Some (mkEntry k w) →
  shard_inv (mkShard (items s) (<[p := mkEntry k v]> (heap s))
               (MoveToFront p (order s)) (capacity s) (next s)) ∧
  view_of (<[p := mkEntry k v]> (heap s)) (MoveToFront p (order s)) =
    (k, v) :: remove k (view s).
Proof.
  intros Hwf Hin Hp. assert (items s !! k = Some p) as Hi by (apply (wf_items _ Hwf); eauto).
  pose proof (wf_key_at _ _ _ Hwf Hi) as Hk.
  destruct (MoveToFront_inv s p Hwf) as [H1 H2 H3 H4 H5]; simpl in *. split.
  - split; simpl; auto.
    + intros k' q. rewrite H2. split; intros (Hq & w' & Hw); (split; [done |]).
      * destruct (decide (q = p)) as [-> | ?].
        -- rewrite lookup_insert_eq. simplify_eq. eauto.
        -- rewrite lookup_insert_ne by done. eauto.
      * destruct (decide (q = p)) as [-> | ?].
        -- rewrite lookup_insert_eq in Hw. simplify_eq. eauto.
        -- rewrite lookup_insert_ne in Hw by done. eauto.
    + intros q Hq. apply lookup_insert_is_Some'. eauto.
    + intros q [-> | Hq]%lookup_insert_is_Some'; eauto.
  - unfold MoveToFront. rewrite decide_True, view_of_cons, lookup_insert_eq by done.
    simpl. rewrite view_of_insert by (rewrite elem_of_list_Remove; naive_solver).
    by erewrite view_of_remove.
Qed.

Lemma insert_inv s k v :
  shard_inv s → items s !! k = None →
  let s' := mkShard (<[k := next s]> (items s)) (<[next s := mkEntry k v]> (heap s))
              (next s :: order s) (capacity s) (S (next s)) in
  shard_inv s' ∧ view s' = (k, v) :: view s.
Proof.
  intros Hwf Hn. assert (next s ∉ order s) as Hfresh.
  { intros H%(wf_alive _ Hwf)%(wf_next _ Hwf). lia. }
  pose proof Hwf as [H1 H2 H3 H4 H5]. simpl. split.
  - split; simpl; auto.
    + by constructor.
    + intros k' q. rewrite lookup_insert_Some, H2, elem_of_cons. split.
      * intros [[<- <-] | (Hne & Hq & w & Hw)].
        -- split; [by left |]. rewrite lookup_insert_eq. eauto.
        -- split; [by right |]. rewrite lookup_insert_ne by congruence. eauto.
      * intros [Hq (w & Hw)]. destruct (decide (next s = q)) as [<- | Hne].
        -- rewrite lookup_insert_eq in Hw. naive_solver.
        -- rewrite lookup_insert_ne in Hw by done. right.
           destruct Hq as [| Hq]; [congruence |]. split; [| by eauto].
           intros <-. assert (items s !! k = Some q); [apply H2; eauto | congruence].
    + intros q Hq. apply lookup_insert_is_Some'. apply elem_of_cons in Hq as [-> | ?]; auto.
    + intros q [<- | Hq%H4]%lookup_insert_is_Some'; lia.
  - unfold view. cbn [heap order]. by rewrite view_of_cons, lookup_insert_eq, view_of_insert.
Qed.

Lemma len_view s : shard_inv s → len (view s) = len (order s).
Proof.
  intros Hwf. unfold view. pose proof (wf_alive _ Hwf) as Ha.
  induction (order s) as [| p l IH]; [done |]. rewrite view_of_cons.
  destruct (Ha p) as [e ->]; [by left |]. rewrite !len_cons, IH; [done |].
  intros q Hq. apply Ha. by right.
Qed.

Lemma last_view h l p k v :
  last l = Some p → h !! p = Some (mkEntry k v) → last (view_of h l) = Some (k, v).
Proof.
  intros Hl Hp. apply last_Some in Hl as [l' ->]. unfold view_of, entry_at.
  rewrite omap_app. simpl. rewrite Hp. simpl. by rewrite last_snoc.
Qed.

Lemma shard_Get_refines k s :
  shard_wf s →
  shard_wf (shard_Get k s).2 ∧ capacity (shard_Get k s).2 = capacity s ∧
  ((shard_Get k s).1, view (shard_Get k s).2) = spec_get k (view s).
Proof.
  intros [Hwf Hcap]. unfold shard_Get, spec_get.
  destruct (items s !! k) as [p |] eqn:Hp; simpl.
  - destruct (lookup_wf s k p Hwf Hp) as (v & Hv & Hin & ->). rewrite Hv. simpl.
    split_and!; [split | done |]; simpl.
    + by apply MoveToFront_inv.
    + by rewrite len_MoveToFront by apply Hwf.
    + unfold view at 1. simpl. by erewrite view_MoveToFront by eauto using wf_key_at.
  - by rewrite (lookup_wf_None s k Hwf Hp).
Qed.

Lemma shard_Has_refines k s :
  shard_wf s → shard_Has k s = bool_decide (is_Some (assoc k (view s))).
Proof.
  intros [Hwf _]. unfold shard_Has. destruct (items s !! k) as [p |] eqn:Hp.
  - by destruct (lookup_wf s k p Hwf Hp) as (v & _ & _ & ->).
  - by rewrite (lookup_wf_None s k Hwf Hp).
Qed.

Lemma shard_Delete_refines k s :
  shard_wf s →
  shard_wf (shard_Delete k s).2 ∧ capacity (shard_Delete k s).2 = capacity s ∧
  ((shard_Delete k s).1, view (shard_Delete k s).2) = spec_delete k (view s).
Proof.
  intros [Hwf Hcap]. unfold shard_Delete, spec_delete.
  destruct (items s !! k) as [p |] eqn:Hp.
  - destruct (lookup_wf s k p Hwf Hp) as (v & Hv & Hin & ->).
    pose proof (shard_remove_spec s p k v Hwf Hin Hv) as Hr.
    destruct (shard_remove p s) as [inv s']. cbn [fst snd].
    destruct Hr as (-> & ? & ? & ? & ->).
    split_and!; [split; [done | lia] | done | done].
  - by rewrite (lookup_wf_None s k Hwf Hp).
Qed.

Lemma shard_Set_refines k v o s :
  shard_wf s →
  let '(b, inv, s') := shard_Set k v o s in
  shard_wf s' ∧ capacity s' = capacity s ∧
  (b, inv, view s') = spec_set (capacity s) (opts_or_default o) k v (view s).
Proof.
  intros [Hwf Hcap]. unfold shard_Set, spec_set.
  destruct (items s !! k) as [p |] eqn:Hp.
  - destruct (lookup_wf s k p Hwf Hp) as (w & Hw & Hin & ->).
    destruct (skipExisting _); [done |]. rewrite Hw. simpl.
    destruct (update_inv s p k v w Hwf Hin Hw) as [? Hview].
    split_and!; [split; [done |] | done | unfold view at 1; simpl; by rewrite Hview].
    simpl. by rewrite len_MoveToFront by apply Hwf.
  - rewrite (lookup_wf_None s k Hwf Hp). destruct (updateExistingOnly _); [done |].
    destruct (insert_inv s k v Hwf Hp) as [Hinv Hview]. cbv zeta. rewrite <- Hview.
    rewrite len_view by done.
    match type of Hinv with shard_inv ?x => set (s' := x) in * end.
    change (next s :: order s) with (order s').
    destruct (Z.ltb_spec (capacity s) (len (order s'))) as [Hlt | Hle]; [| done].
    destruct (last (order s')) as [tail |] eqn:Hlast.
    2: { apply last_None in Hlast. by destruct (order s). }
    assert (tail ∈ order s') as Htail by by apply last_Some_elem_of.
    destruct (wf_alive _ Hinv tail Htail) as [[k' w] Hw].
    pose proof (shard_remove_spec s' tail k' w Hinv Htail Hw) as Hr.
    unfold view at 2. erewrite last_view by done.
    destruct (shard_remove tail s') as [inv s'']. destruct Hr as (-> & ? & Hc & ? & ->).
    split_and!; [split; [done |] | by rewrite Hc | done].
    rewrite Hc. simpl. subst s'. simpl in *. rewrite len_cons in *. lia.
Qed.

Lemma shard_do_refines op s cap :
  shard_wf s ∧ capacity s = cap →
  (shard_wf (shard_do op s).2 ∧ capacity (shard_do op s).2 = cap) ∧
  ((shard_do op s).1, view (shard_do op s).2) = spec_do cap op (view s).
Proof.
  intros [Hwf <-]. destruct op as [k | k | k v o | k]; simpl.
  - pose proof (shard_Get_refines k s Hwf) as (? & ? & <-). by destruct (shard_Get k s).
  - by rewrite shard_Has_refines.
  - pose proof (shard_Set_refines k v o s Hwf) as H.
    destruct (shard_Set k v o s) as [[b inv] s']. by destruct H as (? & ? & <-).
  - pose proof (shard_Delete_refines k s Hwf) as (? & ? & <-). by destruct (shard_Delete k s).
Qed.

Lemma empty_shard_wf cap : 1 <= cap → shard_wf (empty_shard cap).
Proof.
  intros Hc. split; [split; simpl | simpl; change (len []) with 0; lia].
  - constructor.
  - intros k p. rewrite lookup_empty. split; [done | by intros [?%elem_of_nil _]].
  - by intros p ?%elem_of_nil.
  - intros p. rewrite lookup_empty. by intros [].
  - done.
Qed.

(** C20. A shard is a bounded recency list: any sequence of [Get], [Has],
    [Set] and [Delete] on a fresh shard of capacity [cap] gives, operation by
    operation, the results and the invalidated entries of the specification,
    in which a hit or a store moves the key to the front and a store beyond
    [cap] drops the last entry; the shard never holds more than [cap]
    entries, and its map and its list hold the same elements. *)
Theorem shard_refines (cap : Z) (ops : list shard_op) :
  1 <= cap →
  let '(rs, s) := run_ops shard_do ops (empty_shard cap) in
  shard_wf s ∧ len (view s) <= cap ∧
  (rs, view s) = run_ops (spec_do cap) ops [].
Proof.
  intros Hc.
  destruct (run_ops_refines shard_do (spec_do cap) (λ s, shard_wf s ∧ capacity s = cap) view
    (λ op s, shard_do_refines op s cap) ops (empty_shard cap)) as [[Hwf Hcap] Heq].
  { split; [by apply empty_shard_wf | done]. }
  change (view (empty_shard cap)) with (@nil (K * V)) in Heq.
  destruct (run_ops shard_do ops (empty_shard cap)) as [rs s]. simpl in *.
  split_and!; [done | | done]. destruct Hwf as [Hinv Hle]. rewrite len_view by done. lia.
Qed.

(** ** Contents of the specification *)
Definition functional (l : list (K * V)) : Prop := ∀ k v, (k, v) ∈ l → assoc k l = Some v.

Lemma view_functional s : shard_inv s → functional (view s).
Proof.
  intros Hwf k v (p & Hp & Hh)%elem_of_view_of.
  eapply assoc_view_some; [done.. |]. apply wf_key_at; [done |]. apply (wf_items _ Hwf). eauto.
Qed.

Lemma assoc_cons k k' v l :
  assoc k' ((k, v) :: l) = if decide (k' = k) then Some v else assoc k' l.
Proof.
  unfold assoc. simpl. case_decide as Hd.
  - by rewrite bool_decide_eq_true_2.
  - by rewrite bool_decide_eq_false_2.
Qed.

Inductive set_outcome (o : options) (k : K) (v : V) (peek : K → option V) :
    bool → list (K * V) → (K → option V) → Prop :=
| set_refuses :
    (is_Some (peek k) ∧ skipExisting o = true ∨
     peek k = None ∧ updateExistingOnly o = true) →
    set_outcome o k v peek false [] peek
| set_replaces w peek' :
    peek k = Some w → skipExisting o = false →
    (∀ k', peek' k' = if decide (k' = k) then Some v else peek k') →
    set_outcome o k v peek true [(k, w)] peek'
| set_adds peek' :
    peek k = None → updateExistingOnly o = false →
    (∀ k', peek' k' = if decide (k' = k) then Some v else peek k') →
    set_outcome o k v peek true [] peek'
| set_evicts k0 w0 peek' :
    peek k = None → updateExistingOnly o = false → k0 ≠ k → peek k0 = Some w0 →
    (∀ k', peek' k' = if decide (k' = k0) then None
                      else if decide (k' = k) then Some v else peek k') →
    set_outcome o k v peek true [(k0, w0)] peek'.

Lemma spec_set_outcome cap o k v l :
  1 <= cap → functional l →
  let '(b, inv, l') := spec_set cap o k v l in
  set_outcome o k v (λ k', assoc k' l) b inv (λ k', assoc k' l').
Proof.
  intros Hcap Hf. unfold spec_set. destruct (assoc k l) as [w |] eqn:Hk.
  - destruct (skipExisting o) eqn:Hs; [constructor; rewrite Hk; eauto |].
    econstructor; [done.. |]. intros k'. rewrite assoc_cons, assoc_remove.
    by case_decide.
  - destruct (updateExistingOnly o) eqn:Hu; [constructor; auto |].
    assert (∀ k', assoc k' ((k, v) :: l) =
      if decide (k' = k) then Some v else assoc k' l) as Hadd by (intros; apply assoc_cons).
    destruct (Z.ltb_spec cap (len ((k, v) :: l))) as [Hlt | Hle]; [| by constructor].
    destruct (last ((k, v) :: l)) as [[k0 w0] |] eqn:Hlast; [| by constructor].
    assert ((k0, w0) ∈ l) as Hin.
    { destruct l as [| e l]; [change (len [(k, v)]) with 1 in Hlt; lia |].
      by apply last_Some_elem_of. }
    assert (k0 ≠ k) as Hne.
    { intros ->. by eapply assoc_None in Hk. }
    eapply set_evicts; [done.. | by apply Hf |].
    intros k'. by rewrite assoc_remove, Hadd.
Qed.

(** ** The cache *)
Lemma shard_at c k :
  cache_wf c → ∃ s, shards c !! shard_index c k = Some s ∧ shard_wf s.
Proof.
  intros (Hall & Hlen & Hmask & _). unfold shard_index.
  pose proof (land_mask_range (fnv1aBytes (Bytes k)) (mask c)) as Hr.
  destruct (lookup_lt_is_Some_2 (shards c)
    (Z.to_nat (Z.land (fnv1aBytes (Bytes k)) (mask c)))) as [s Hs]; [unfold len in *; lia |].
  exists s. split; [done |]. by eapply Forall_lookup_1.
Qed.

(** How an update of one shard is seen through the whole cache. *)
Record shard_update (c c' : LRUCache) (k : K) (s s' : lruShard) : Prop := {
  su_old : ∀ k', shard_index c k' = shard_index c k → cache_peek c k' = assoc k' (view s);
  su_new : ∀ k', shard_index c k' = shard_index c k → cache_peek c' k' = assoc k' (view s');
  su_other : ∀ k', shard_index c k' ≠ shard_index c k →
    assoc k' (view s) = None ∧ cache_peek c' k' = cache_peek c k';
}.

Lemma with_shard_spec c k s s' :
  cache_wf c → shards c !! shard_index c k = Some s → shard_wf s' →
  (∀ k', is_Some (assoc k' (view s')) → k' = k ∨ is_Some (assoc k' (view s))) →
  cache_wf (with_shard c (shard_index c k) s') ∧
  shard_update c (with_shard c (shard_index c k) s') k s s'.
Proof.
  intros (Hall & Hlen & Hmask & Hidx) Hs Hwf' Hkeys. unfold with_shard.
  assert (shard_index c k < length (shards c))%nat as Hlt by by eapply lookup_lt_Some.
  split; [split_and!; simpl | split].
  - by apply Forall_insert.
  - unfold len in *. by rewrite length_insert.
  - unfold len in *. by rewrite length_insert.
  - intros i s0 k' Hi Hk'. unfold shard_index at 1. simpl. fold (shard_index c k').
    apply list_lookup_insert_Some in Hi as [(<- & <- & _) | [_ Hi]]; [| by eapply Hidx].
    destruct (Hkeys k' Hk') as [-> | ?]; [done | by eapply Hidx].
  - intros k' Hk'. unfold cache_peek. by rewrite Hk', Hs.
  - intros k' Hk'. unfold cache_peek, shard_index at 1. simpl. fold (shard_index c k').
    by rewrite Hk', list_lookup_insert_eq.
  - intros k' Hk'. split.
    + apply eq_None_not_Some. intros Hsome. apply Hk'. by eapply Hidx.
    + unfold cache_peek, shard_index at 1. simpl. fold (shard_index c k').
      by rewrite list_lookup_insert_ne by done.
Qed.

Lemma Get_spec c k :
  cache_wf c →
  (Get k c).1 = cache_peek c k ∧ cache_wf (Get k c).2 ∧
  ∀ k', cache_peek (Get k c).2 k' = cache_peek c k'.
Proof.
  intros Hc. destruct (shard_at c k Hc) as (s & Hs & Hwf).
  unfold Get, on_shard. rewrite Hs. pose proof (shard_Get_refines k s Hwf) as (Hwf' & _ & Heq).
  destruct (shard_Get k s) as [r s']. simpl in *.
  assert (r = assoc k (view s) ∧ ∀ k', assoc k' (view s') = assoc k' (view s)) as [-> Hview].
  { unfold spec_get in Heq. destruct (assoc k (view s)) as [v |] eqn:Hk; [| by injection Heq as -> ->].
    injection Heq as -> ->. split; [done |]. intros k'. rewrite assoc_cons, assoc_remove.
    by case_decide; subst. }
  destruct (with_shard_spec c k s s' Hc Hs Hwf') as [Hc' [Hold Hnew Hother]].
  { intros k'. rewrite Hview. auto. }
  split_and!; [by rewrite Hold | done |]. intros k'.
  destruct (decide (shard_index c k' = shard_index c k)) as [He | He].
  - by rewrite Hnew, Hview, Hold.
  - by apply Hother.
Qed.

Lemma Has_spec c k : cache_wf c → Has k c = true ↔ is_Some (cache_peek c k).
Proof.
  intros Hc. destruct (shard_at c k Hc) as (s & Hs & Hwf).
  unfold Has, cache_peek. rewrite Hs, shard_Has_refines by done. simpl.
  by rewrite bool_decide_eq_true.
Qed.

Lemma shard_Set_refused k v o s inv s' :
  shard_Set k v o s = (false, inv, s') → inv = [] ∧ s' = s.
Proof.
  unfold shard_Set. intros H. repeat (case_match; simplify_eq; try done).
Qed.

Lemma set_outcome_keys o k v pk b inv pk' k' :
  set_outcome o k v pk b inv pk' → is_Some (pk' k') → k' = k ∨ is_Some (pk k').
Proof.
  intros [| w f ?? Hf | f ?? Hf | k0 w0 f ???? Hf] Hs; [by right | ..];
    rewrite Hf in Hs; repeat case_decide; auto; by destruct Hs.
Qed.

Lemma set_outcome_stored o k v pk inv pk' :
  set_outcome o k v pk true inv pk' → pk' k = Some v.
Proof.
  inversion 1; subst;
    match goal with H : ∀ k', pk' k' = _ |- _ => rewrite H end; by repeat case_decide.
Qed.

Lemma set_outcome_frame o k v pk b inv pk' k' :
  set_outcome o k v pk b inv pk' → k' ≠ k →
  pk' k' = pk k' ∨ (pk' k' = None ∧ ∃ w, pk k' = Some w ∧ (k', w) ∈ inv).
Proof.
  inversion 1; subst; intros Hne; [auto | ..];
    match goal with H : ∀ k', pk' k' = _ |- _ => rewrite H end;
    repeat case_decide; subst; try (by auto).
  right. split; [done |]. eexists. split; [done | by left].
Qed.

Lemma set_outcome_invalidates o k v pk b inv pk' k' w :
  set_outcome o k v pk b inv pk' → (k', w) ∈ inv → pk k' = Some w.
Proof.
  inversion 1; subst; intros Hin%list_elem_of_In; simpl in Hin; naive_solver.
Qed.

Lemma set_outcome_gone o k v pk b inv pk' k' w :
  set_outcome o k v pk b inv pk' → (k', w) ∈ inv → k' ≠ k → pk' k' = None.
Proof.
  inversion 1; subst; intros Hin%list_elem_of_In Hne; simpl in Hin;
    repeat match goal with H : _ ∨ _ |- _ => destruct H end; simplify_eq; try done.
  match goal with H : ∀ k', pk' k' = _ |- _ => rewrite H end. by rewrite decide_True.
Qed.

Lemma set_outcome_lift o k v b inv c c' s s' :
  shard_update c c' k s s' → (b = false → c' = c) →
  set_outcome o k v (λ k', assoc k' (view s)) b inv (λ k', assoc k' (view s')) →
  set_outcome o k v (cache_peek c) b inv (cache_peek c').
Proof.
  intros [Hold Hnew Hother] Hsame Hout.
  assert (cache_peek c k = assoc k (view s)) as Hk by by apply Hold.
  inversion Hout as [H | w f Hw Hsk Hf | f Hn Hu Hf | k0 w0 f Hn Hu Hne Hw Hf]; subst.
  - rewrite Hsame by done. constructor. by rewrite Hk.
  - econstructor; [congruence | done |]. intros k'.
    destruct (decide (shard_index c k' = shard_index c k)) as [He | He].
    + by rewrite Hnew, Hf, Hold.
    + rewrite decide_False by congruence. by apply Hother.
  - econstructor; [congruence | done |]. intros k'.
    destruct (decide (shard_index c k' = shard_index c k)) as [He | He].
    + by rewrite Hnew, Hf, Hold.
    + rewrite decide_False by congruence. by apply Hother.
  - assert (shard_index c k0 = shard_index c k) as H0.
    { apply dec_stable. intros [? _]%Hother. congruence. }
    econstructor; [congruence | done | done | by rewrite Hold |]. intros k'.
    destruct (decide (shard_index c k' = shard_index c k)) as [He | He].
    + by rewrite Hnew, Hf, Hold.
    + rewrite !decide_False by congruence. by apply Hother.
Qed.

Lemma with_shard_id c i s : shards c !! i = Some s → with_shard c i s = c.
Proof. intros Hs. unfold with_shard. rewrite list_insert_id by done. by destruct c. Qed.

Lemma Set_spec c k v o :
  cache_wf c →
  let '(b, inv, c') := Set_ k v o c in
  cache_wf c' ∧ (b = false → c' = c) ∧
  set_outcome (opts_or_default o) k v (cache_peek c) b inv (cache_peek c').
Proof.
  intros Hc. destruct (shard_at c k Hc) as (s & Hs & Hwf).
  unfold Set_, on_shard. rewrite Hs. pose proof (shard_Set_refines k v o s Hwf) as Href.
  pose proof (shard_Set_refused k v o s) as Hrefused.
  destruct (shard_Set k v o s) as [[b inv] s'] eqn:Hset. destruct Href as (Hwf' & _ & Heq).
  pose proof (spec_set_outcome (capacity s) (opts_or_default o) k v (view s)
    (wf_pos _ (proj1 Hwf)) (view_functional s (proj1 Hwf))) as Hout.
  rewrite <- Heq in Hout.
  destruct (with_shard_spec c k s s' Hc Hs Hwf') as [Hc' Hupd].
  { intros k' Hk'. exact (set_outcome_keys _ _ _ _ _ _ _ k' Hout Hk'). }
  assert (b = false → with_shard c (shard_index c k) s' = c) as Hsame.
  { intros ->. destruct (Hrefused _ _ eq_refl) as [_ ->]. by apply with_shard_id. }
  split_and!; [done.. |]. by eapply set_outcome_lift.
Qed.

Lemma Delete_spec c k :
  cache_wf c →
  let '(inv, c') := Delete k c in
  cache_wf c' ∧ inv = option_list ((k,.) <$> cache_peek c k) ∧
  ∀ k', cache_peek c' k' = if decide (k' = k) then None else cache_peek c k'.
Proof.
  intros Hc. destruct (shard_at c k Hc) as (s & Hs & Hwf).
  unfold Delete, on_shard. rewrite Hs.
  pose proof (shard_Delete_refines k s Hwf) as (Hwf' & _ & Heq).
  destruct (shard_Delete k s) as [inv s']. simpl in *.
  assert (inv = option_list ((k,.) <$> assoc k (view s)) ∧
    ∀ k', assoc k' (view s') = if decide (k' = k) then None else assoc k' (view s))
    as [-> Hview].
  { unfold spec_delete in Heq. destruct (assoc k (view s)) as [v |] eqn:Hk;
      injection Heq as -> ->; (split; [done |]); intros k'.
    - apply assoc_remove.
    - by case_decide; subst. }
  destruct (with_shard_spec c k s s' Hc Hs Hwf') as [Hc' [Hold Hnew Hother]].
  { intros k'. rewrite Hview. case_decide; auto. }
  split_and!; [done | by rewrite Hold |]. intros k'.
  destruct (decide (shard_index c k' = shard_index c k)) as [He | He].
  - by rewrite Hnew, Hview, Hold.
  - rewrite decide_False by congruence. by apply Hother.
Qed.

Lemma ForEach_spec c k v : cache_wf c → cache_peek c k = Some v → (k, v) ∈ ForEach c.
Proof.
  intros Hc Hp. destruct (shard_at c k Hc) as (s & Hs & [Hwf _]).
  unfold cache_peek in Hp. rewrite Hs in Hp. simpl in Hp.
  unfold ForEach. apply list_elem_of_join. exists (shard_entries s). split.
  - unfold shard_entries. apply list_elem_of_omap.
    apply assoc_In, elem_of_view_of in Hp as (p & Hin & Hh).
    exists (k, p). split; [| simpl; by rewrite Hh].
    apply elem_of_map_to_list, (wf_items _ Hwf). eauto.
  - apply list_elem_of_fmap. exists s. split; [done |]. by eapply list_elem_of_lookup_2.
Qed.

Lemma ForEach_sound c k v : cache_wf c → (k, v) ∈ ForEach c → cache_peek c k = Some v.
Proof.
  intros (Hall & _ & _ & Hidx). unfold ForEach.
  intros (l & Hin & (s & -> & Hs)%list_elem_of_fmap)%list_elem_of_join.
  apply list_elem_of_lookup_1 in Hs as [i Hs].
  assert (shard_inv s) as Hwf by exact (proj1 (Forall_lookup_1 _ _ _ _ Hall Hs)).
  apply list_elem_of_omap in Hin as ([k' p] & Hp%elem_of_map_to_list & He). simpl in He.
  destruct (lookup_wf s k' p Hwf Hp) as (w & Hw & _ & Ha). rewrite Hw in He.
  simpl in He. injection He as -> ->. unfold cache_peek.
  rewrite (Hidx i s k Hs ltac:(by eexists)), Hs. done.
Qed.

(** ** The interface *)
#[export] Instance lru_Cache : Cache LRUCache K V := {
  c_get := Get;
  c_set := Set_;
  c_delete := Delete;
  c_has := Has;
  c_foreach := ForEach;
  c_size := Size;
  c_valid := cache_wf;
  c_accepts := λ _, True;
  c_notifies := True;
  peek := cache_peek;
}.

(** [Set_spec] at a known result. *)
Lemma Set_spec_eq c k v o b inv c' :
  cache_wf c → Set_ k v o c = (b, inv, c') →
  cache_wf c' ∧ (b = false → c' = c) ∧
  set_outcome (opts_or_default o) k v (cache_peek c) b inv (cache_peek c').
Proof. intros Hc He. pose proof (Set_spec c k v o Hc) as H. by rewrite He in H. Qed.

Lemma Delete_spec_eq c k inv c' :
  cache_wf c → Delete k c = (inv, c') →
  cache_wf c' ∧ inv = option_list ((k,.) <$> cache_peek c k) ∧
  ∀ k', cache_peek c' k' = if decide (k' = k) then None else cache_peek c k'.
Proof. intros Hc He. pose proof (Delete_spec c k Hc) as H. by rewrite He in H. Qed.

#[export] Instance lru_CacheLaws : CacheLaws LRUCache K V.
Proof.
  split; unfold c_valid, c_get, c_set, c_delete, c_has, peek, c_foreach, c_accepts,
    c_notifies; simpl.
  - apply Get_spec.
  - apply Has_spec.
  - intros c k v o b inv c' Hc He ->.
    destruct (Set_spec_eq _ _ _ _ _ _ _ Hc He) as (_ & -> & Hout); [| done].
    by inversion Hout.
  - intros c k v o Hc [w Hw] Hsk. destruct (Set_ k v o c) as [[b inv] c'] eqn:He.
    destruct (Set_spec_eq _ _ _ _ _ _ _ Hc He) as (_ & Hsame & Hout).
    inversion Hout; subst; try congruence. by rewrite Hsame.
  - intros c k v o b inv c' Hc He -> _.
    destruct (Set_spec_eq _ _ _ _ _ _ _ Hc He) as (_ & _ & Hout).
    by eapply set_outcome_stored.
  - intros c k v o Hc _ Hal _. destruct (Set_ k v o c) as [[b inv] c'] eqn:He.
    destruct (Set_spec_eq _ _ _ _ _ _ _ Hc He) as (_ & _ & Hout).
    inversion Hout as [Hr | | |]; subst; eauto. exfalso.
    unfold set_allowed in Hal. destruct (Has k c) eqn:Hh.
    + apply Has_spec in Hh as [w Hw]; [| done].
      destruct Hr as [[_ Hsk] | [Hn _]]; [by rewrite Hsk in Hal | congruence].
    + destruct Hr as [[Hs _] | [_ Hu]]; [| by rewrite Hu in Hal].
      apply Has_spec in Hs; [congruence | done].
  - intros c k v o b inv c' Hc He. by apply (Set_spec_eq _ _ _ _ _ _ _ Hc He).
  - intros c k v o b inv c' k' Hc He.
    destruct (Set_spec_eq _ _ _ _ _ _ _ Hc He) as (_ & _ & Hout).
    by eapply set_outcome_frame.
  - intros c k v o b inv c' k' w Hc He.
    destruct (Set_spec_eq _ _ _ _ _ _ _ Hc He) as (_ & _ & Hout).
    by eapply set_outcome_invalidates.
  - intros c k v o b inv c' k' w Hc He.
    destruct (Set_spec_eq _ _ _ _ _ _ _ Hc He) as (_ & _ & Hout).
    by eapply set_outcome_gone.
  - intros c k v o inv c' w Hc _ He Hw.
    destruct (Set_spec_eq _ _ _ _ _ _ _ Hc He) as (_ & _ & Hout).
    inversion Hout; subst; simplify_eq; try congruence. by left.
  - intros c k inv c' w Hc _ He Hw.
    destruct (Delete_spec_eq _ _ _ _ Hc He) as (_ & -> & _). rewrite Hw. by left.
  - intros c k inv c' k' w Hc He Hin.
    destruct (Delete_spec_eq _ _ _ _ Hc He) as (_ & -> & _).
    destruct (cache_peek c k) eqn:Hk; simpl in Hin; [| by apply elem_of_nil in Hin].
    apply list_elem_of_singleton in Hin. by simplify_eq.
  - intros c k inv c' Hc He. destruct (Delete_spec_eq _ _ _ _ Hc He) as (? & _ & Hp).
    split_and!; [done | by rewrite Hp, decide_True | intros k' ?; by rewrite Hp, decide_False].
  - apply ForEach_spec.
  - intros c k v Hc _. by apply ForEach_sound.
Qed.

(** ** Construction and the bound on the size *)
Definition cache_do (op : shard_op) (c : LRUCache) : shard_res * LRUCache :=
  match op with
  | OpGet k => let '(r, c') := Get k c in (RGet r, c')
  | OpHas k => (RHas (Has k c), c)
  | OpSet k v o => let '(b, inv, c') := Set_ k v o c in (RSet b inv, c')
  | OpDelete k => let '(inv, c') := Delete k c in (RDelete inv, c')
  end.

Definition op_key (op : shard_op) : K :=
  match op with OpGet k | OpHas k | OpSet k _ _ | OpDelete k => k end.

Definition caps (cap : Z) (c : LRUCache) : Prop := Forall (λ s, capacity s = cap) (shards c).

(** An operation on the cache is the operation on one shard. *)
Lemma cache_do_shard op c s :
  shards c !! shard_index c (op_key op) = Some s →
  (cache_do op c).2 = with_shard c (shard_index c (op_key op)) (shard_do op s).2.
Proof.
  intros Hs. destruct op as [k | k | k v o | k]; simpl in *;
    unfold Get, Set_, Delete, on_shard; rewrite ?Hs.
  - by destruct (shard_Get k s).
  - by rewrite with_shard_id.
  - by destruct (shard_Set k v o s) as [[??]?].
  - by destruct (shard_Delete k s).
Qed.

Lemma cache_do_wf op c : cache_wf c → cache_wf (cache_do op c).2.
Proof.
  intros Hc. destruct op as [k | k | k v o | k]; simpl.
  - pose proof (Get_spec c k Hc). destruct (Get k c). naive_solver.
  - done.
  - pose proof (Set_spec c k v o Hc). destruct (Set_ k v o c) as [[??]?]. naive_solver.
  - pose proof (Delete_spec c k Hc). destruct (Delete k c). naive_solver.
Qed.

(** Operations keep the number of shards and their capacities. *)
Lemma cache_do_caps cap op c :
  cache_wf c → caps cap c →
  caps cap (cache_do op c).2 ∧ len (shards (cache_do op c).2) = len (shards c).
Proof.
  intros Hc Hcap. destruct (shard_at c (op_key op) Hc) as (s & Hs & Hwf).
  rewrite (cache_do_shard op c s Hs). unfold caps, with_shard, len. simpl.
  rewrite length_insert. split; [| done]. apply Forall_insert; [done |].
  assert (capacity s = cap) as Hsc by exact (Forall_lookup_1 _ _ _ _ Hcap Hs).
  by apply (shard_do_refines op s cap).
Qed.

Lemma Size_bound cap c : cache_wf c → caps cap c → 0 <= Size c <= len (shards c) * cap.
Proof.
  intros (Hall & _) Hcap. unfold Size.
  assert (∀ l t, Forall shard_wf l → Forall (λ s, capacity s = cap) l →
    t <= fold_left (λ total s, total + len (order s)) l t <= t + len l * cap) as H.
  { intros l. induction l as [| s l IH]; intros t Hl Hk; simpl.
    - change (len []) with 0. lia.
    - apply Forall_cons in Hl as [[_ Hs] Hl], Hk as [Hk1 Hk].
      specialize (IH (t + len (order s)) Hl Hk). rewrite len_cons.
      pose proof (len_nonneg (order s)). nia. }
  specialize (H (shards c) 0 Hall Hcap). lia.
Qed.

Lemma run_cache_inv cap ops c :
  cache_wf c → caps cap c →
  let c' := (run_ops cache_do ops c).2 in
  cache_wf c' ∧ caps cap c' ∧ len (shards c') = len (shards c).
Proof.
  revert c. induction ops as [| op ops IH]; intros c Hc Hcap; simpl; [done |].
  pose proof (cache_do_wf op c Hc) as H1.
  pose proof (cache_do_caps cap op c Hc Hcap) as [H2 H3].
  destruct (cache_do op c) as [r c1]. simpl in *. specialize (IH c1 H1 H2).
  destruct (run_ops cache_do ops c1). simpl in *. by rewrite <- H3.
Qed.

Lemma NewLRUCache_ok numShards totalCapacity :
  0 < numShards < 2 ^ 63 → numShards = 2 ^ Z.log2 numShards →
  ∃ c cap, NewLRUCache numShards totalCapacity = Ok c ∧ cache_wf c ∧ caps cap c ∧
    len (shards c) = numShards ∧ 1 <= cap ∧
    cap * numShards <= Z.max totalCapacity numShards ∧
    ∀ k, cache_peek c k = None.
Proof.
  intros Hn Hpow. apply land_pred_pow2 in Hpow as Hland; [| lia].
  unfold NewLRUCache. rewrite Hland. replace (numShards <=? 0) with false by lia. simpl.
  set (cap := if Z.quot totalCapacity numShards <=? 0 then 1 else Z.quot totalCapacity numShards).
  assert (1 <= cap ∧ cap * numShards <= Z.max totalCapacity numShards) as [Hcap1 Hcap2].
  { subst cap. pose proof (Z.mul_quot_le totalCapacity numShards).
    destruct (Z.leb_spec (totalCapacity ÷ numShards) 0) as [| Hpos]; [lia |].
    assert (0 <= totalCapacity).
    { destruct (Z.le_gt_cases 0 totalCapacity) as [| Hneg]; [done |].
      pose proof (Z.quot_opp_l (- totalCapacity) numShards ltac:(lia)) as Ho.
      rewrite Z.opp_involutive in Ho.
      pose proof (Z.quot_pos (- totalCapacity) numShards ltac:(lia) ltac:(lia)). lia. }
    lia. }
  assert (shard_wf (empty_shard cap)) as Hempty by by apply empty_shard_wf.
  eexists _, cap. split_and!; [done | | | | done | done |].
  - unfold cache_wf, len. simpl. rewrite length_replicate. split_and!.
    + by apply Forall_replicate.
    + lia.
    + unfold u64. rewrite Z.mod_small by lia. lia.
    + intros i s k [-> _]%lookup_replicate [v Hv].
      change (view (empty_shard cap)) with (@nil (K * V)) in Hv. done.
  - unfold caps. simpl. by apply Forall_replicate.
  - unfold len. simpl. rewrite length_replicate. lia.
  - intros k. unfold cache_peek. simpl.
    destruct (replicate _ _ !! _) as [s |] eqn:Hs; [| done]. simpl.
    apply lookup_replicate in Hs as [-> _]. done.
Qed.

(** [NewLRUCache] panics exactly when the number of shards is not a
    positive power of two; otherwise it builds an empty, well-formed cache,
    and after any sequence of operations the cache is well-formed, the hash
    of a key selects one of its shards, and [Size] is at most the requested
    capacity (or the number of shards, when that is larger). *)
Theorem NewLRUCache_bounded (numShards totalCapacity : Z) :
  numShards < 2 ^ 63 →
  match NewLRUCache numShards totalCapacity with
  | Ok c =>
    0 < numShards ∧ numShards = 2 ^ Z.log2 numShards ∧
    (∀ k, cache_peek c k = None) ∧
    ∀ ops : list shard_op,
      let c' := (run_ops cache_do ops c).2 in
      cache_wf c' ∧ 0 <= Size c' <= Z.max totalCapacity numShards ∧
      ∀ k, is_Some (shards c' !! shard_index c' k)
  | Panic => ¬ (0 < numShards ∧ numShards = 2 ^ Z.log2 numShards)
  | _ => False
  end.
Proof.
  intros Hhi. destruct (decide (0 < numShards ∧ numShards = 2 ^ Z.log2 numShards)) as [[H1 H2] | Hn].
  - destruct (NewLRUCache_ok numShards totalCapacity) as
      (c & cap & -> & Hwf & Hcap & Hlen & Hc1 & Hc2 & Hempty); [lia | done |].
    split_and!; [done.. |]. intros ops. cbv zeta.
    destruct (run_cache_inv cap ops c Hwf Hcap) as (Hwf' & Hcap' & Hlen').
    pose proof (Size_bound cap _ Hwf' Hcap') as Hsize.
    split_and!; [done | lia | lia |].
    + intros k. destruct (shard_at _ k Hwf') as (s & -> & _). done.
  - unfold NewLRUCache. destruct (_ || _) eqn:Hg; [exact Hn |]. exfalso. apply Hn.
    apply orb_false_iff in Hg as [Hpos%Z.leb_gt Hland]. split; [done |].
    apply land_pred_pow2; [done |]. by apply negb_false_iff, Z.eqb_eq in Hland.
Qed.
End Lru.

Arguments lruEntry : clear implicits.
Arguments lruShard K V {_}.
Arguments LRUCache K V {_}.

Lemma lru_notifies {K V} `{!Key K} : c_notifies (C := LRUCache K V) (K := K) (V := V).
Proof. exact I. Qed.
Lemma lru_accepts {K V} `{!Key K} o : c_accepts (C := LRUCache K V) (K := K) (V := V) o.
Proof. exact I. Qed.

(** ** Witnesses: a two-entry shard and a four-shard cache *)
#[export] Instance Z_Key : Key Z := { Bytes := λ z, [z mod 256] }.

Definition sample_ops : list (shard_op (K := Z) (V := string)) :=
  [OpSet 1 "a"%string None; OpSet 2 "b"%string None; OpGet 1; OpSet 3 "c"%string None;
   OpHas 2; OpDelete 1].

Lemma shard_refines_witness :
  1 <= 2 ∧
  (let '(rs, s) := run_ops shard_do sample_ops (empty_shard 2) in
   shard_wf s ∧ len (view s) <= 2 ∧ (rs, view s) = run_ops (spec_do 2) sample_ops []) ∧
  run_ops (spec_do 2) sample_ops [] =
    ([RSet true []; RSet true []; RGet (Some "a"%string);
      RSet true [(2, "b"%string)]; RHas false; RDelete [(1, "a"%string)]],
     [(3, "c"%string)]).
Proof.
  split; [lia |]. split; [apply shard_refines; lia | by vm_compute].
Defined.

Lemma NewLRUCache_bounded_witness :
  4 < 2 ^ 63 ∧
  match NewLRUCache (K := Z) (V := string) 4 100 with
  | Ok c => mask c = 3 ∧ 0 <= Size (run_ops cache_do [OpSet 7 "x"%string None] c).2 <= 100
  | _ => False
  end.
Proof.
  split; [lia |].
  pose proof (NewLRUCache_bounded (K := Z) (V := string) 4 100 ltac:(lia)) as H.
  change (NewLRUCache 4 100) with (Ok (E := string)
    (mkLRU (replicate 4 (empty_shard (K := Z) (V := string) 25)) 3)) in *.
  split; [done |]. apply (proj2 (proj2 (proj2 H)) [OpSet 7 "x"%string None]).
Defined.
