(* ===== verification/TtlCache.v ===== *)
(** * The TTL cache: [internal/cache/ttl_cache.go]

    Operations take the time at which they run. [Get] releases its read lock
    before it takes the write lock to evict, and [ForceCleanup] locks one shard
    at a time, so beside the sequential operations the file has the transition
    system of goroutines that interleave at those points. *)

From S2P Require Import Prelude CacheApi.

Section Ttl.
Context {K V : Type} `{!Key K}.

Record ttlCacheItem : Type := mkItem { value : V; expiresAt : Z }.

Definition isExpired (now : Z) (i : ttlCacheItem) : bool :=
  negb (expiresAt i =? 0) && (expiresAt i <? now).

Abbreviation ttlCacheShard := (gmap K ttlCacheItem) (only parsing).

Record TTLCache : Type := mkTTL { shards : list ttlCacheShard }.

Record TTLCacheAttrs : Type := mkTTLAttrs { NumOfShards : Z; CleanupInterval : Z }.

(** The janitor goroutine the constructor starts is the [step_clean] of the
    transition system below. [time.NewTicker] panics, on that goroutine, for
    an interval that is not positive. *)
Definition NewTTLCache (attrs : TTLCacheAttrs) : outcome string TTLCache :=
  if NumOfShards attrs =? 0 then Panic
  else Ok (mkTTL (replicate (Z.to_nat (NumOfShards attrs)) ∅)).

Definition getShard (c : TTLCache) (key : K) : nat :=
  Z.to_nat (fnv1aBytes (Bytes key) mod u64 (len (shards c))).

Definition shard_items (c : TTLCache) (i : nat) : ttlCacheShard :=
  default ∅ (shards c !! i).

Definition with_shard (c : TTLCache) (i : nat) (s : ttlCacheShard) : TTLCache :=
  mkTTL (<[i := s]> (shards c)).

Definition item_at (c : TTLCache) (key : K) : option ttlCacheItem :=
  shard_items c (getShard c key) !! key.

Definition Set_ (now : Z) (key : K) (v : V) (o : option options) (c : TTLCache)
    : bool * TTLCache :=
  let shard := getShard c key in
  let opts := opts_or_default o in
  if ttl opts =? 0 then (false, c)
  else
    let ok := bool_decide (is_Some (shard_items c shard !! key)) in
    if ok && skipExisting opts then (false, c)
    else if negb ok && updateExistingOnly opts then (false, c)
    else
      let item := mkItem v (i64 (now + ttl opts)) in
      (true, with_shard c shard (<[key := item]> (shard_items c shard))).

(** The first half of [Get], under the read lock. *)
Definition get_read (key : K) (c : TTLCache) : option ttlCacheItem := item_at c key.

(** The second half, under the write lock: the entry goes only if it still
    carries the deadline that was read. *)
Definition get_evict (key : K) (i : ttlCacheItem) (c : TTLCache) : TTLCache :=
  let shard := getShard c key in
  match shard_items c shard !! key with
  | Some current =>
    if expiresAt current =? expiresAt i
    then with_shard c shard (delete key (shard_items c shard)) else c
  | None => c
  end.

Definition Get (now : Z) (key : K) (c : TTLCache) : option V * TTLCache :=
  match get_read key c with
  | None => (None, c)
  | Some i =>
    if isExpired now i then (None, get_evict key i c) else (Some (value i), c)
  end.

Definition Delete (key : K) (c : TTLCache) : TTLCache :=
  let shard := getShard c key in
  with_shard c shard (delete key (shard_items c shard)).

Definition Has (now : Z) (key : K) (c : TTLCache) : bool :=
  match item_at c key with
  | Some i => negb (isExpired now i)
  | None => false
  end.

(** [ForceCleanup] of one shard, with the time read before the loop. *)
Definition clean_shard (now : Z) (i : nat) (c : TTLCache) : TTLCache :=
  with_shard c i (filter (λ e, isExpired now e.2 = false) (shard_items c i)).

Definition ForceCleanup (now : Z) (c : TTLCache) : TTLCache :=
  fold_left (λ c i, clean_shard now i c) (seq 0 (length (shards c))) c.

Definition ForEach (c : TTLCache) : list (K * V) :=
  mjoin ((λ s, (λ e : K * ttlCacheItem, (e.1, value e.2)) <$> map_to_list s) <$> shards c).

Definition Size (c : TTLCache) : Z :=
  fold_left (λ total s, total + Z.of_nat (size s)) (shards c) 0.

(** What a reader sees at a time. *)
Definition live (now : Z) (c : TTLCache) (key : K) : option V :=
  i ← item_at c key; if isExpired now i then None else Some (value i).

Definition cache_wf (c : TTLCache) : Prop := 1 <= len (shards c) < 2 ^ 64.

(** ** Goroutines

    [clock] is the time; [pending] the [Get]s that have read an expired item
    and not yet taken the write lock; [cleaning] the cleanups under way, with
    the time they started and the next shard. *)
Record conf : Type := mkConf {
  clock : Z;
  cache : TTLCache;
  pending : list (K * ttlCacheItem);
  cleaning : list (Z * nat);
}.

Inductive label : Type :=
| LTick
| LSet (key : K) (v : V) (o : option options) (stored : bool)
| LDelete (key : K)
| LRead (key : K) (r : option V)
| LEvict (key : K)
| LClean.

Inductive step : label → conf → conf → Prop :=
| step_tick t c p n d :
    t <= n → step LTick (mkConf t c p d) (mkConf n c p d)
| step_set t c p d key v o b c' :
    Set_ t key v o c = (b, c') → step (LSet key v o b) (mkConf t c p d) (mkConf t c' p d)
| step_delete t c p d key :
    step (LDelete key) (mkConf t c p d) (mkConf t (Delete key c) p d)
| step_miss t c p d key :
    get_read key c = None → step (LRead key None) (mkConf t c p d) (mkConf t c p d)
| step_hit t c p d key i :
    get_read key c = Some i → isExpired t i = false →
    step (LRead key (Some (value i))) (mkConf t c p d) (mkConf t c p d)
| step_expired t c p d key i :
    get_read key c = Some i → isExpired t i = true →
    step (LRead key None) (mkConf t c p d) (mkConf t c ((key, i) :: p) d)
| step_evict t c p1 p2 d key i :
    step (LEvict key) (mkConf t c (p1 ++ (key, i) :: p2) d)
      (mkConf t (get_evict key i c) (p1 ++ p2) d)
| step_start t c p d :
    step LClean (mkConf t c p d) (mkConf t c p ((t, 0%nat) :: d))
| step_clean t c p d1 d2 n i :
    step LClean (mkConf t c p (d1 ++ (n, i) :: d2))
      (mkConf t (clean_shard n i c) p
         (d1 ++ (if decide (S i < length (shards c))%nat then (n, S i) :: d2 else d2))).

Inductive steps : list label → conf → conf → Prop :=
| steps_refl s : steps [] s s
| steps_cons l ls s1 s2 s3 : step l s1 s2 → steps ls s2 s3 → steps (l :: ls) s1 s3.

(** The labels that change what [key] maps to. *)
Definition writes (key : K) (l : label) : Prop :=
  match l with
  | LSet k _ _ b => k = key ∧ b = true
  | LDelete k => k = key
  | _ => False
  end.

Definition conf_ok (s : conf) : Prop :=
  cache_wf (cache s) ∧
  Forall (λ p : K * ttlCacheItem, isExpired (clock s) p.2 = true) (pending s) ∧
  Forall (λ d : Z * nat, d.1 <= clock s) (cleaning s).

Implicit Types (c : TTLCache).

(** ** One shard through the whole cache *)
Lemma getShard_lt c key : cache_wf c → (getShard c key < length (shards c))%nat.
Proof.
  intros Hc. unfold cache_wf, getShard in *. unfold u64.
  rewrite (Z.mod_small (len (shards c))) by lia.
  pose proof (Z.mod_pos_bound (fnv1aBytes (Bytes key)) (len (shards c))).
  unfold len in *. lia.
Qed.

Lemma getShard_with c i s key : getShard (with_shard c i s) key = getShard c key.
Proof. unfold getShard, with_shard, len. simpl. by rewrite length_insert. Qed.

Lemma shard_items_with c i s j :
  (i < length (shards c))%nat →
  shard_items (with_shard c i s) j = if decide (j = i) then s else shard_items c j.
Proof.
  intros Hi. unfold shard_items, with_shard. simpl. case_decide as Hd.
  - subst. by rewrite list_lookup_insert_eq.
  - by rewrite list_lookup_insert_ne.
Qed.

Lemma with_shard_wf c i s : cache_wf c → cache_wf (with_shard c i s).
Proof. unfold cache_wf, with_shard, len. simpl. by rewrite length_insert. Qed.

(** An update of the key's shard at one key. *)
Lemma item_at_insert c key v k' :
  cache_wf c →
  item_at (with_shard c (getShard c key) (<[key := v]> (shard_items c (getShard c key)))) k' =
    if decide (k' = key) then Some v else item_at c k'.
Proof.
  intros Hc. unfold item_at. rewrite getShard_with, shard_items_with by by apply getShard_lt.
  case_decide as Hd.
  - rewrite Hd. case_decide; subst; [by rewrite lookup_insert_eq | by rewrite lookup_insert_ne].
  - rewrite decide_False by congruence. done.
Qed.

Lemma item_at_delete c key k' :
  cache_wf c → item_at (Delete key c) k' = if decide (k' = key) then None else item_at c k'.
Proof.
  intros Hc. unfold item_at, Delete.
  rewrite getShard_with, shard_items_with by by apply getShard_lt.
  case_decide as Hd.
  - rewrite Hd. case_decide; subst; [by rewrite lookup_delete_eq | by rewrite lookup_delete_ne].
  - rewrite decide_False by congruence. done.
Qed.

Lemma get_evict_spec c key i k' :
  cache_wf c →
  cache_wf (get_evict key i c) ∧
  (item_at (get_evict key i c) k' = item_at c k' ∨
   item_at (get_evict key i c) k' = None ∧ k' = key ∧
     ∃ j, item_at c key = Some j ∧ expiresAt j = expiresAt i).
Proof.
  intros Hc. unfold get_evict. fold (item_at c key). fold (Delete key c).
  destruct (item_at c key) as [j |] eqn:Hj; [| auto].
  destruct (Z.eqb_spec (expiresAt j) (expiresAt i)); [| auto].
  split; [by apply with_shard_wf |]. rewrite item_at_delete by done.
  case_decide; [right; eauto | auto].
Qed.

Lemma clean_shard_spec now n c key :
  cache_wf c → item_at (clean_shard now n c) key = item_at c key ∨
    item_at (clean_shard now n c) key = None ∧
    ∃ i, item_at c key = Some i ∧ isExpired now i = true.
Proof.
  intros Hc. unfold clean_shard.
  destruct (decide (n < length (shards c))%nat) as [Hn | Hn].
  - unfold item_at. rewrite getShard_with, shard_items_with by done. case_decide; [subst | auto].
    destruct (shard_items c (getShard c key) !! key) as [i |] eqn:Hi.
    + destruct (isExpired now i) eqn:He.
      * right. split; [| eauto]. apply map_lookup_filter_None. right. intros j Hj. simpl. congruence.
      * left. by apply map_lookup_filter_Some.
    + left. apply map_lookup_filter_None. auto.
  - left. unfold item_at. rewrite getShard_with. unfold shard_items, with_shard. simpl.
    by rewrite list_insert_ge by lia.
Qed.

Lemma isExpired_mono t t' i : t <= t' → isExpired t i = true → isExpired t' i = true.
Proof. unfold isExpired. rewrite !andb_true_iff, !Z.ltb_lt. intros ? [? ?]. split; [done | lia]. Qed.

Lemma isExpired_deadline t i j :
  expiresAt i = expiresAt j → isExpired t i = isExpired t j.
Proof. unfold isExpired. by intros ->. Qed.

Lemma ttl_Set_spec now key v o c b c' :
  cache_wf c → Set_ now key v o c = (b, c') →
  cache_wf c' ∧ (b = false → c' = c) ∧
  (b = true → ∀ k', item_at c' k' =
    if decide (k' = key) then Some (mkItem v (i64 (now + ttl (opts_or_default o))))
    else item_at c k').
Proof.
  intros Hc. unfold Set_. intros H.
  destruct (ttl _ =? 0); [by simplify_eq |].
  destruct (_ && skipExisting _); [by simplify_eq |].
  destruct (_ && updateExistingOnly _); [by simplify_eq |].
  injection H as <- <-. split_and!; [by apply with_shard_wf | done |].
  intros _ k'. by apply item_at_insert.
Qed.

(** ** Every step keeps what readers see *)
Lemma step_ok l s s' : step l s s' → conf_ok s → conf_ok s' ∧ clock s <= clock s'.
Proof.
  intros Hst (Hc & Hp & Hd). unfold conf_ok.
  destruct Hst as [t c p n d Hn | t c p d key v o b c' Hset | t c p d key | | |
    t c p d key i Hr He | t c p1 p2 d key i | | t c p d1 d2 n i]; simpl in *.
  - split_and!; [done | | | done].
    + eapply Forall_impl; [done |]. intros ?. by apply isExpired_mono.
    + eapply Forall_impl; [done |]. simpl. lia.
  - split_and!; [| done | done | lia]. by apply (ttl_Set_spec _ _ _ _ _ _ _ Hc Hset).
  - split_and!; [| done | done | lia]. by apply with_shard_wf.
  - split_and!; [done.. | lia].
  - split_and!; [done.. | lia].
  - split_and!; [done | | done | lia]. by constructor.
  - split_and!; [by apply (get_evict_spec c key i key) | | done | lia].
    apply Forall_app in Hp as [? [_ ?]%Forall_cons]. by apply Forall_app.
  - split_and!; [done.. | | lia]. constructor; [simpl; lia | done].
  - split_and!; [by apply with_shard_wf | done | | lia].
    apply Forall_app in Hd as [? [? ?]%Forall_cons].
    apply Forall_app. split; [done |]. case_decide; [by constructor | done].
Qed.

Lemma step_live l s s' key t :
  step l s s' → conf_ok s → ¬ writes key l → clock s <= t →
  live t (cache s') key = live t (cache s) key.
Proof.
  intros Hst (Hc & Hp & Hd) Hw Ht. unfold live.
  destruct Hst as [t0 c p n d Hn | t0 c p d k v o b c' Hset | t0 c p d k | | |
    t0 c p d k i Hr He | t0 c p1 p2 d k i | | t0 c p d1 d2 n i]; simpl in *; try done.
  - destruct (ttl_Set_spec _ _ _ _ _ _ _ Hc Hset) as (_ & Hf & Hs).
    destruct b; [| by rewrite Hf]. rewrite Hs, decide_False by naive_solver. done.
  - rewrite item_at_delete, decide_False by naive_solver. done.
  - destruct (get_evict_spec c k i key Hc) as [_ [-> | (-> & -> & j & -> & Hj)]]; [done |].
    apply Forall_app in Hp as [_ [He _]%Forall_cons]. simpl in *.
    rewrite (isExpired_deadline t j i Hj). by rewrite (isExpired_mono t0 t i Ht He).
  - destruct (clean_shard_spec n i c key Hc) as [-> | (-> & j & -> & Hj)]; [done |]. simpl.
    apply Forall_app in Hd as [_ [Hn _]%Forall_cons]. simpl in *.
    by rewrite (isExpired_mono n t j) by (done || lia).
Qed.

Lemma steps_live ls s s' key :
  steps ls s s' → conf_ok s → Forall (λ l, ¬ writes key l) ls →
  clock s <= clock s' ∧ conf_ok s' ∧
  ∀ t, clock s' <= t → live t (cache s') key = live t (cache s) key.
Proof.
  induction 1 as [s | l ls s1 s2 s3 Hst Hsts IH]; intros Hok Hl; [done |].
  apply Forall_cons in Hl as [Hw Hl]. destruct (step_ok _ _ _ Hst Hok) as [Hok2 Hle].
  destruct (IH Hok2 Hl) as (Hle3 & Hok3 & Hlive). split_and!; [lia | done |].
  intros t Ht. rewrite (Hlive t Ht). eapply step_live; [done.. | lia].
Qed.

(** C21. A value stored with a positive TTL is what every reader finds until
    its deadline, and no reader finds it after, whatever the other goroutines
    do in between: evictions by [Get]s that read an older, expired entry,
    cleanups that started earlier, and writes to other keys never drop it or
    revive it. *)
Theorem ttl_lifetime (t : Z) (c c1 : TTLCache) (p : list (K * ttlCacheItem))
    (d : list (Z * nat)) (key : K) (v : V) (o : options) (ls : list label) (s : conf) :
  conf_ok (mkConf t c p d) →
  0 < ttl o → 0 < t + ttl o < 2 ^ 63 →
  Set_ t key v (Some o) c = (true, c1) →
  steps ls (mkConf t c1 p d) s →
  Forall (λ l, ¬ writes key l) ls →
  Has (clock s) key (cache s) = (clock s <=? t + ttl o) ∧
  fst (Get (clock s) key (cache s)) =
    if clock s <=? t + ttl o then Some v else None.
Proof.
  intros (Hc & Hp & Hd) Httl Hrange Hset Hsts Hl.
  destruct (ttl_Set_spec _ _ _ _ _ _ _ Hc Hset) as (Hc1 & _ & Hitem).
  destruct (steps_live _ _ _ key Hsts) as (_ & _ & Hlive); [done | done |].
  specialize (Hlive (clock s) ltac:(lia)). simpl in Hlive. unfold live in Hlive.
  rewrite Hitem, decide_True in Hlive by done. simpl in Hlive.
  assert (i64 (t + ttl o) = t + ttl o) as Hi64.
  { unfold i64. rewrite Z.mod_small by lia. lia. }
  unfold isExpired at 2 in Hlive. simpl in Hlive. rewrite Hi64 in Hlive.
  replace (t + ttl o =? 0) with false in Hlive by lia. simpl in Hlive.
  unfold Has, Get, get_read. destruct (item_at (cache s) key) as [i |]; simpl in *.
  - destruct (isExpired (clock s) i), (Z.leb_spec (clock s) (t + ttl o)); simpl;
      try replace (t + ttl o <? clock s) with true in Hlive by lia;
      try replace (t + ttl o <? clock s) with false in Hlive by lia; by simplify_eq.
  - destruct (Z.leb_spec (clock s) (t + ttl o)); [| done].
    by replace (t + ttl o <? clock s) with false in Hlive by lia.
Qed.

(** ** The interface, at a time *)
Definition ttl_Cache (now : Z) : Cache TTLCache K V := {|
  c_get := Get now;
  c_set k v o c := let '(b, c') := Set_ now k v o c in (b, [], c');
  c_delete k c := ([], Delete k c);
  c_has := Has now;
  c_foreach := ForEach;
  c_size := Size;
  c_valid := cache_wf;
  c_accepts o := 0 < ttl o ∧ 0 < now + ttl o < 2 ^ 63;
  c_notifies := False;
  peek := live now;
|}.

Lemma live_stored now v o :
  0 < ttl o → 0 < now + ttl o < 2 ^ 63 →
  isExpired now (mkItem v (i64 (now + ttl o))) = false.
Proof.
  intros Ht Hr. unfold isExpired, i64. simpl. rewrite Z.mod_small by lia.
  apply andb_false_iff. right. lia.
Qed.

Lemma ttl_Get_spec now c k :
  cache_wf c →
  fst (Get now k c) = live now c k ∧ cache_wf (snd (Get now k c)) ∧
  ∀ k', live now (snd (Get now k c)) k' = live now c k'.
Proof.
  intros Hc. unfold Get, get_read, live.
  destruct (item_at c k) as [i |] eqn:Hi; simpl; [| done].
  destruct (isExpired now i) eqn:He; simpl; [| done]. split; [done |].
  split; [by apply (get_evict_spec c k i k) |]. intros k'.
  destruct (get_evict_spec c k i k' Hc) as [_ [-> | (-> & -> & j & Hj & Hd)]]; [done |].
  simplify_eq. rewrite Hi. simpl. by rewrite He.
Qed.

Lemma ttl_ForEach_spec now c k v : live now c k = Some v → (k, v) ∈ ForEach c.
Proof.
  unfold live, item_at, shard_items. intros (i & Hi & Hv)%bind_Some.
  destruct (isExpired now i); [done |]. injection Hv as <-.
  destruct (shards c !! getShard c k) as [s |] eqn:Hs; simpl in Hi; [| by rewrite lookup_empty in Hi].
  apply list_elem_of_join. eexists. split; [| apply list_elem_of_fmap; exists s; split;
    [done | by eapply list_elem_of_lookup_2]].
  apply list_elem_of_fmap. exists (k, i). split; [done |]. by apply elem_of_map_to_list.
Qed.

Lemma ttl_CacheLaws now : @CacheLaws TTLCache K V (ttl_Cache now).
Proof.
  assert (∀ k v o c b (inv : list (K * V)) c',
    (let '(b, c') := Set_ now k v o c in (b, [], c')) = (b, inv, c') →
    inv = [] ∧ Set_ now k v o c = (b, c')) as Hset.
  { intros k v o c b inv c' H. destruct (Set_ now k v o c). by simplify_eq. }
  split; unfold c_valid, c_get, c_set, c_delete, c_has, peek, c_foreach, c_accepts,
    c_notifies; simpl.
  - intros c k. apply ttl_Get_spec.
  - intros c k Hc. unfold Has, live. destruct (item_at c k) as [i |]; simpl.
    + destruct (isExpired now i); simpl; split; (done || by intros []).
    + split; [done | by intros []].
  - intros c k v o b inv c' Hc [-> He]%Hset Hb. split; [done |].
    by apply (ttl_Set_spec _ _ _ _ _ _ _ Hc He).
  - intros c k v o Hc Hs Hsk. unfold Set_. fold (item_at c k).
    destruct (ttl _ =? 0); [done |]. rewrite Hsk.
    assert (is_Some (item_at c k)) as Hi.
    { unfold live in Hs. destruct (item_at c k); [by eexists | by destruct Hs]. }
    by rewrite bool_decide_eq_true_2.
  - intros c k v o b inv c' Hc [-> He]%Hset -> [H1 H2].
    destruct (ttl_Set_spec _ _ _ _ _ _ _ Hc He) as (_ & _ & Hi).
    unfold live. rewrite Hi, decide_True by done. simpl. by rewrite live_stored.
  - intros c k v o Hc [H1 H2] Hal [Hsk | []]. exists []. unfold Set_. fold (item_at c k).
    replace (ttl _ =? 0) with false by lia. rewrite Hsk, andb_false_r.
    unfold set_allowed, Has in Hal. rewrite Hsk, andb_false_r in Hal. simpl in Hal.
    apply negb_true_iff in Hal. destruct (item_at c k); simpl.
    + by eexists.
    + simpl in Hal. rewrite Hal. simpl. by eexists.
  - intros c k v o b inv c' Hc [-> He]%Hset. by apply (ttl_Set_spec _ _ _ _ _ _ _ Hc He).
  - intros c k v o b inv c' k' Hc [-> He]%Hset Hne. left. unfold live.
    destruct (ttl_Set_spec _ _ _ _ _ _ _ Hc He) as (_ & Hf & Hi).
    destruct b; [| by rewrite Hf]. by rewrite Hi, decide_False.
  - intros c k v o b inv c' k' w Hc [-> He]%Hset Hin. by apply elem_of_nil in Hin.
  - intros c k v o b inv c' k' w Hc [-> He]%Hset Hin. by apply elem_of_nil in Hin.
  - done.
  - done.
  - intros c k inv c' k' w Hc [= <- <-] Hin. by apply elem_of_nil in Hin.
  - intros c k inv c' Hc [= <- <-]. unfold live. split_and!.
    + by apply with_shard_wf.
    + by rewrite item_at_delete, decide_True.
    + intros k' Hne. by rewrite item_at_delete, decide_False.
  - intros c k v _. apply ttl_ForEach_spec.
  - done.
Qed.
End Ttl.

Arguments ttlCacheItem : clear implicits.
Arguments TTLCache K V {_}.

(** ** Witness: an expired read is still pending when the key is stored anew *)
Definition key7_Key : Key Z := {| Bytes := λ z, [z mod 256] |}.
#[local] Existing Instance key7_Key.

Definition w_old : TTLCache Z string :=
  mkTTL (<[0%nat := {[ 7 := mkItem "old"%string 5 ]}]> (replicate 2 ∅)).
Definition w_new : TTLCache Z string :=
  mkTTL (<[0%nat := {[ 7 := mkItem "new"%string 20 ]}]> (replicate 2 ∅)).

Lemma ttl_lifetime_witness :
  conf_ok (mkConf 10 w_old [(7, mkItem "old"%string 5)] []) ∧
  Set_ 10 7 "new"%string (Some (WithTTL 10 Options)) w_old = (true, w_new) ∧
  Has 15 7 (get_evict 7 (mkItem "old"%string 5) w_new) = true.
Proof.
  assert (conf_ok (mkConf 10 w_old [(7, mkItem "old"%string 5)] [])) as Hok.
  { split; [unfold cache_wf; change (len _) with 2; lia |].
    split; [by repeat constructor | constructor]. }
  assert (Set_ 10 7 "new"%string (Some (WithTTL 10 Options)) w_old = (true, w_new)) as Hset
    by by vm_compute.
  split; [done |]. split; [done |].
  destruct (ttl_lifetime 10 w_old w_new [(7, mkItem "old"%string 5)] [] 7 "new"%string
    (WithTTL 10 Options) [LTick; LEvict 7]
    (mkConf 15 (get_evict 7 (mkItem "old"%string 5) w_new) [] [])) as [H _].
  - done.
  - simpl. lia.
  - simpl. lia.
  - done.
  - eapply steps_cons; [by apply (step_tick _ _ _ 15) |].
    eapply steps_cons; [apply (step_evict _ _ [] []) | apply steps_refl].
  - repeat constructor; intros [].
  - exact H.
Defined.
