(* ===== verification/ConnRegistry.v ===== *)
(** * The registry of idle connections: [internal/netutil/conn_registry.go]
      and the [IdleTimeoutConn] of [conn.go]

    The registry is verified against the cache interface. Connections are
    pointers, so the cache, the caller that stored a connection and the caller
    that fetched it share one object; the wrapper [p] wraps a connection of its
    own, which the model also names [p]. *)

From S2P Require Import Prelude CacheApi LruCache.

Definition Second : Z := 1000000000.

(** ** One connection *)
Record IdleTimeoutConn (K : Type) : Type := mkConn {
  Key_ : K;
  Timeout : Z;
  lastActivity : Z;
  expiredAt : Z;
  deadline : Z;         (* the deadline set on the socket, 0 for none *)
}.
Arguments mkConn {K} _ _ _ _ _.
Arguments Key_ {K} _.
Arguments Timeout {K} _.
Arguments lastActivity {K} _.
Arguments expiredAt {K} _.
Arguments deadline {K} _.

Definition NewIdleTimeoutConn {K} (now : Z) (key : K) (timeout : Z) : IdleTimeoutConn K :=
  if 0 <? timeout
  then mkConn key timeout now (i64 (now + timeout)) (i64 (now + timeout))
  else mkConn key timeout now 0 0.

Definition IsExpired {K} (now : Z) (c : IdleTimeoutConn K) : bool :=
  negb (expiredAt c =? 0) && (expiredAt c <? now).

(** [ExtendDeadline]: whether the connection was still alive, whether
    [onActivity] is called, and the connection after. *)
Definition ExtendDeadline {K} (now : Z) (c : IdleTimeoutConn K)
    : bool * bool * IdleTimeoutConn K :=
  let expUnix := expiredAt c in
  if negb (expUnix =? 0) && (expUnix <? now) then (false, false, c)
  else
    let active := Second <? i64 (now - lastActivity c) in
    let last := if active then now else lastActivity c in
    if (0 <? Timeout c) &&
       ((expUnix =? 0) || (i64 (expUnix - now) <? Z.quot (i64 (Timeout c * 7)) 10))
    then
      let newExpUnix := i64 (now + Timeout c) in
      (true, active, mkConn (Key_ c) (Timeout c) last newExpUnix newExpUnix)
    else (true, active, mkConn (Key_ c) (Timeout c) last expUnix (deadline c)).

(** The period of the cleanup goroutine. *)
Definition cleanupInterval (timeout : Z) : Z :=
  Z.min (Z.max (Z.quot timeout 2) (10 * Second)) (60 * Second).

Section Registry.
Context {C K : Type} `{!Key K} `{!Cache C K nat} `{!CacheLaws C K nat}.

Record ConnRegistry : Type := mkRegistry {
  storage : C;
  timeout : Z;
  conns : gmap nat (IdleTimeoutConn K);
  closed : gset nat;                       (* connections that were closed *)
  next : nat;
}.

Definition with_storage (s : C) (r : ConnRegistry) : ConnRegistry :=
  mkRegistry s (timeout r) (conns r) (closed r) (next r).
Definition close_conn (p : nat) (r : ConnRegistry) : ConnRegistry :=
  mkRegistry (storage r) (timeout r) (conns r) ({[p]} ∪ closed r) (next r).

(** [onInvalidate] on the entries that leave the cache. *)
Definition invalidate (inv : list (K * nat)) (r : ConnRegistry) : ConnRegistry :=
  fold_left (λ r e, close_conn e.2 r) inv r.

(** [Store] of a connection the caller has just dialled. *)
Definition Store (now : Z) (key : K) (r : ConnRegistry) : nat * ConnRegistry :=
  let p := next r in
  let wrapper := NewIdleTimeoutConn now key (timeout r) in
  let '(_, inv, s) := c_set key p None (storage r) in
  (p, invalidate inv
        (mkRegistry s (timeout r) (<[p := wrapper]> (conns r)) (closed r) (S p))).

Definition Fetch (key : K) (r : ConnRegistry) : option nat * ConnRegistry :=
  let '(v, s) := c_get key (storage r) in (v, with_storage s r).

Definition Evict (key : K) (r : ConnRegistry) : ConnRegistry :=
  let '(inv, s) := c_delete key (storage r) in invalidate inv (with_storage s r).

Definition Has (key : K) (r : ConnRegistry) : bool := c_has key (storage r).
Definition Size (r : ConnRegistry) : Z := c_size (storage r).

Definition evict_all (keys : list K) (r : ConnRegistry) : ConnRegistry :=
  fold_left (λ r k, Evict k r) keys r.

Definition CloseAll (r : ConnRegistry) : ConnRegistry :=
  let toRemove := (c_foreach (storage r)).*1 in
  evict_all toRemove r.

Definition evictExpired (now : Z) (r : ConnRegistry) : ConnRegistry :=
  let toRemove :=
    omap (λ e : K * nat,
      match conns r !! e.2 with
      | Some c => if IsExpired now c then Some e.1 else None
      | None => None
      end) (c_foreach (storage r)) in
  evict_all toRemove r.

(** [IdleTimeoutConn.Close]: [onClose] evicts the connection's key, then the
    connection itself is closed. *)
Definition Close (p : nat) (r : ConnRegistry) : ConnRegistry :=
  match conns r !! p with
  | Some c => close_conn p (Evict (Key_ c) r)
  | None => r
  end.

(** [Read] and [Write] extend the deadline before they use the socket;
    [onActivity] touches the key in the cache. *)
Definition touch (now : Z) (p : nat) (r : ConnRegistry) : bool * ConnRegistry :=
  match conns r !! p with
  | Some c =>
    let '(ok, active, c') := ExtendDeadline now c in
    let r := mkRegistry (storage r) (timeout r) (<[p := c']> (conns r)) (closed r) (next r) in
    (ok, if active then snd (Fetch (Key_ c) r) else r)
  | None => (false, r)
  end.

(** The operations a client interleaves. *)
Inductive reg_op : Type :=
| OStore (now : Z) (key : K)
| OFetch (key : K)
| OEvict (key : K)
| OTouch (now : Z) (p : nat)
| OClose (p : nat)
| OEvictExpired (now : Z)
| OCloseAll.

Definition reg_do (op : reg_op) (r : ConnRegistry) : ConnRegistry :=
  match op with
  | OStore now key => snd (Store now key r)
  | OFetch key => snd (Fetch key r)
  | OEvict key => Evict key r
  | OTouch now p => snd (touch now p r)
  | OClose p => Close p r
  | OEvictExpired now => evictExpired now r
  | OCloseAll => CloseAll r
  end.

Definition reg_run (ops : list reg_op) (r : ConnRegistry) : ConnRegistry :=
  fold_left (λ r op, reg_do op r) ops r.

(** Every connection that is still open is found in the cache under its key,
    and the cache holds only connections the registry created. *)
Record reg_inv (r : ConnRegistry) : Prop := {
  inv_valid : c_valid (storage r);
  inv_reach : ∀ p c, conns r !! p = Some c → p ∉ closed r → peek (storage r) (Key_ c) = Some p;
  inv_owned : ∀ k p, peek (storage r) k = Some p →
    p ∉ closed r ∧ ∃ c, conns r !! p = Some c ∧ Key_ c = k;
  inv_next : ∀ p, is_Some (conns r !! p) ∨ p ∈ closed r → (p < next r)%nat;
}.

Implicit Types (r : ConnRegistry) (p : nat) (k : K).

Lemma invalidate_spec inv r :
  storage (invalidate inv r) = storage r ∧ timeout (invalidate inv r) = timeout r ∧
  conns (invalidate inv r) = conns r ∧ next (invalidate inv r) = next r ∧
  ∀ p, p ∈ closed (invalidate inv r) ↔ p ∈ inv.*2 ∨ p ∈ closed r.
Proof.
  unfold invalidate. revert r. induction inv as [| [k q] inv IH]; intros r; simpl.
  - split_and!; [done.. |]. intros p. rewrite elem_of_nil. tauto.
  - destruct (IH (close_conn q r)) as (-> & -> & -> & -> & Hc).
    split_and!; [done.. |]. intros p. rewrite Hc. unfold close_conn. simpl. set_solver.
Qed.

(** ** Evict *)
Lemma Evict_spec k r :
  reg_inv r → c_notifies →
  reg_inv (Evict k r) ∧ conns (Evict k r) = conns r ∧ timeout (Evict k r) = timeout r ∧
  (∀ k', peek (storage (Evict k r)) k' = if decide (k' = k) then None else peek (storage r) k') ∧
  (∀ p, p ∈ closed (Evict k r) ↔ peek (storage r) k = Some p ∨ p ∈ closed r).
Proof.
  intros [Hv Hr Ho Hn] Hnot. unfold Evict.
  destruct (c_delete k (storage r)) as [inv s] eqn:Hd.
  destruct (delete_spec _ _ _ _ Hv Hd) as (Hv' & Hnone & Hother).
  destruct (invalidate_spec inv (with_storage s r)) as (Hs & Ht & Hc & Hnx & Hcl).
  assert (∀ k', peek s k' = if decide (k' = k) then None else peek (storage r) k') as Hp.
  { intros k'. case_decide; subst; auto. }
  assert (∀ p, p ∈ inv.*2 ↔ peek (storage r) k = Some p) as Hinv.
  { intros p. rewrite list_elem_of_fmap. split.
    - intros ([k' q] & -> & Hin). by destruct (delete_invalidates _ _ _ _ _ _ Hv Hd Hin) as [-> ?].
    - intros Hp'. exists (k, p). split; [done |]. exact (delete_notifies _ _ _ _ _ Hv Hnot Hd Hp'). }
  assert (∀ p, p ∈ closed (invalidate inv (with_storage s r)) ↔
    peek (storage r) k = Some p ∨ p ∈ closed r) as Hcl'.
  { intros p. by rewrite Hcl, Hinv. }
  split_and!; rewrite ?Hs, ?Hc, ?Ht; [| done | done | done | done].
  split; rewrite ?Hs, ?Hc, ?Hnx; simpl; [done | | |].
  - intros p c Hpc Hncl. rewrite Hcl' in Hncl. rewrite Hp. case_decide as He; [| by apply Hr; tauto].
    exfalso. apply Hncl. left. rewrite <- He. apply Hr; tauto.
  - intros k' p Hk'. rewrite Hp in Hk'. case_decide as He; [done |].
    destruct (Ho _ _ Hk') as (Hncl & c & Hpc & Hkc). split; [| eauto].
    rewrite Hcl'. intros [Hk | ?]; [| done].
    destruct (Ho _ _ Hk) as (_ & c' & Hpc' & Hkc'). congruence.
  - intros p. rewrite Hcl'. intros [? | [Hk | ?]]; auto. apply Hn. left.
    destruct (Ho _ _ Hk) as (_ & c & -> & _). by eexists.
Qed.

Lemma evict_all_spec keys r :
  reg_inv r → c_notifies →
  let r' := evict_all keys r in
  reg_inv r' ∧ conns r' = conns r ∧ timeout r' = timeout r ∧
  (∀ k, peek (storage r') k = if decide (k ∈ keys) then None else peek (storage r) k) ∧
  (∀ p, p ∈ closed r' ↔ (∃ k, k ∈ keys ∧ peek (storage r) k = Some p) ∨ p ∈ closed r).
Proof.
  intros Hi Hnot. unfold evict_all. revert r Hi. induction keys as [| k keys IH]; intros r Hi.
  - split_and!; [done.. | |]; simpl.
    + done.
    + intros p. split; [by right |]. intros [(k & ?%elem_of_nil & _) |]; done.
  - destruct (Evict_spec k r Hi Hnot) as (Hi1 & Hc1 & Ht1 & Hp1 & Hcl1).
    destruct (IH _ Hi1) as (Hi2 & Hc2 & Ht2 & Hp2 & Hcl2). simpl.
    split_and!; [done | congruence | congruence | |].
    + intros k'. rewrite Hp2, Hp1. repeat case_decide; set_solver.
    + intros p. rewrite Hcl2, Hcl1. split.
      * intros [(k' & Hk' & Hpk') | [? | ?]]; [| left; exists k; set_solver | auto].
        rewrite Hp1 in Hpk'. case_decide; [done |]. left. exists k'. set_solver.
      * intros [(k' & Hk' & Hpk') | ?]; [| auto].
        destruct (decide (k' = k)) as [-> | Hne]; [auto |]. left. exists k'.
        rewrite Hp1, decide_False by done. set_solver.
Qed.

(** ** The other operations *)
Lemma Key_New now key t : Key_ (NewIdleTimeoutConn (K := K) now key t) = key.
Proof. unfold NewIdleTimeoutConn. by case_match. Qed.

Context (Hnotifies : c_notifies) (Haccepts : c_accepts Options).

(** What the cache drops to store a connection was reachable before. *)
Lemma dropped_reachable key r inv s q :
  reg_inv r → c_set key (next r) None (storage r) = (true, inv, s) → q ∈ inv.*2 →
  (q < next r)%nat ∧ ∃ k', (k', q) ∈ inv ∧ peek (storage r) k' = Some q.
Proof.
  intros [Hv Hr Ho Hn] Hset ([k' q'] & -> & Hin)%list_elem_of_fmap.
  pose proof (set_invalidates _ _ _ _ _ _ _ _ _ Hv Hset Hin) as Hp. split; [| by exists k'].
  destruct (Ho _ _ Hp) as (_ & c & Hc & _). by apply Hn; left; eexists.
Qed.

(** The registry after the cache took a new connection and what it dropped was
    closed. *)
Lemma stored_inv now key r inv s r' :
  reg_inv r → c_set key (next r) None (storage r) = (true, inv, s) →
  storage r' = s → conns r' = <[next r := NewIdleTimeoutConn now key (timeout r)]> (conns r) →
  next r' = S (next r) → (∀ q, q ∈ closed r' ↔ q ∈ inv.*2 ∨ q ∈ closed r) →
  reg_inv r' ∧ next r ∉ closed r'.
Proof.
  intros Hi Hset Hs Hc Hnx Hcl. pose proof (λ q, dropped_reachable key r inv s q Hi Hset) as Hinv.
  destruct Hi as [Hv Hr Ho Hn].
  pose proof (set_stores _ _ _ _ _ _ _ Hv Hset eq_refl Haccepts) as Hkey.
  assert (next r ∉ closed r') as Hfresh.
  { rewrite Hcl. intros [[Hlt _]%Hinv | Hin]; [lia |]. specialize (Hn (next r) (or_intror Hin)). lia. }
  split; [| done]. split; rewrite ?Hs, ?Hc, ?Hnx.
  - by eapply set_valid.
  - intros q c Hq Hncl. destruct (decide (q = next r)) as [-> | Hne].
    + rewrite lookup_insert_eq in Hq. injection Hq as <-. by rewrite Key_New.
    + rewrite lookup_insert_ne in Hq by done. rewrite Hcl in Hncl. pose proof (Hr q c Hq ltac:(tauto)) as Hold.
      destruct (decide (Key_ c = key)) as [He | He].
      * exfalso. apply Hncl. left. rewrite He in Hold. apply list_elem_of_fmap. exists (key, q). split; [done |].
        exact (set_notifies _ _ _ _ _ _ _ Hv Hnotifies Hset Hold).
      * destruct (set_frame _ _ _ _ _ _ _ (Key_ c) Hv Hset He) as [-> | (_ & w & Hw & Hin)]; [done |].
        exfalso. apply Hncl. left. apply list_elem_of_fmap. exists (Key_ c, w). split; [simpl; congruence | done].
  - intros k q Hq. destruct (decide (k = key)) as [-> | Hne].
    + rewrite Hkey in Hq. injection Hq as <-. split; [done |].
      eexists. split; [apply lookup_insert_eq | apply Key_New].
    + destruct (set_frame _ _ _ _ _ _ _ k Hv Hset Hne) as [Hf | (Hf & _)]; [| congruence].
      pose proof Hq as Hq'. rewrite Hf in Hq'. destruct (Ho _ _ Hq') as (Hncl & c & Hc' & Hk). split.
      * rewrite Hcl. intros [(_ & k' & Hin & Hk')%Hinv | ?]; [| done].
        destruct (Ho _ _ Hk') as (_ & c' & Hc'' & Hk''). simplify_eq.
        rewrite (set_gone _ _ _ _ _ _ _ _ _ Hv Hset Hin Hne) in Hq. done.
      * exists c. split; [| done]. rewrite lookup_insert_ne; [done |]. intros <-.
        specialize (Hn (next r) (or_introl (mk_is_Some _ _ Hc'))). lia.
  - intros q [Hq | Hq].
    + apply lookup_insert_is_Some in Hq as [<- | [_ Hq]]; [lia |]. specialize (Hn q (or_introl Hq)). lia.
    + apply Hcl in Hq as [[Hlt _]%Hinv | Hq]; [lia |]. specialize (Hn q (or_intror Hq)). lia.
Qed.

Lemma Store_spec now key r :
  reg_inv r →
  let '(p, r') := Store now key r in
  reg_inv r' ∧ p = next r ∧ timeout r' = timeout r ∧
  conns r' = <[p := NewIdleTimeoutConn now key (timeout r)]> (conns r) ∧
  peek (storage r') key = Some p ∧ p ∉ closed r' ∧
  ∀ q, peek (storage r) key = Some q → q ∈ closed r'.
Proof.
  intros Hi. pose proof (inv_valid _ Hi) as Hv. unfold Store.
  destruct (c_set key (next r) None (storage r)) as [[b inv] s] eqn:Hset.
  assert (b = true) as ->.
  { destruct (set_allowed_stores (storage r) key (next r) None Hv Haccepts) as (i & c' & Hs);
      [unfold set_allowed; simpl; by rewrite !andb_false_r | by left | congruence]. }
  destruct (invalidate_spec inv (mkRegistry s (timeout r)
    (<[next r := NewIdleTimeoutConn now key (timeout r)]> (conns r)) (closed r) (S (next r))))
    as (Hs & Ht & Hc & Hnx & Hcl).
  set (r' := invalidate inv _) in *. simpl in *.
  destruct (stored_inv now key r inv s r' Hi Hset Hs Hc Hnx Hcl) as [Hi' Hfresh].
  pose proof (set_stores _ _ _ _ _ _ _ Hv Hset eq_refl Haccepts) as Hkey.
  split_and!; [done | done | done | done | by rewrite Hs | done |].
  intros q Hq. apply Hcl. left. apply list_elem_of_fmap. exists (key, q). split; [done |].
  exact (set_notifies _ _ _ _ _ _ _ Hv Hnotifies Hset Hq).
Qed.

(** The parts of the state the invariant does not mention, or only up to the
    content of the cache. *)
Lemma reg_inv_ext r r' :
  reg_inv r → c_valid (storage r') →
  (∀ k, peek (storage r') k = peek (storage r) k) →
  (∀ p, Key_ <$> conns r' !! p = Key_ <$> conns r !! p) →
  closed r' = closed r → next r' = next r → reg_inv r'.
Proof.
  intros [Hv Hr Ho Hn] Hv' Hp Hk Hcl Hnx. split; rewrite ?Hcl, ?Hnx; [done | | |].
  - intros p c Hc Hncl. specialize (Hk p). rewrite Hc in Hk.
    destruct (conns r !! p) as [c0 |] eqn:Hc0; simpl in Hk; [| done]. injection Hk as ->. rewrite Hp. by apply Hr.
  - intros k p. rewrite Hp. intros (Hncl & c0 & Hc0 & Hk0)%Ho. split; [done |].
    specialize (Hk p). rewrite Hc0 in Hk. destruct (conns r' !! p) as [c |]; [| done].
    injection Hk as Hk. exists c. split; [done | congruence].
  - intros p [Hs | Hs]; apply Hn; [left | by right].
    destruct Hs as [c Hc]. specialize (Hk p). rewrite Hc in Hk.
    by destruct (conns r !! p).
Qed.

Lemma Fetch_spec k r :
  reg_inv r →
  fst (Fetch k r) = peek (storage r) k ∧ reg_inv (snd (Fetch k r)) ∧
  conns (snd (Fetch k r)) = conns r ∧ closed (snd (Fetch k r)) = closed r ∧
  ∀ k', peek (storage (snd (Fetch k r))) k' = peek (storage r) k'.
Proof.
  intros Hi. destruct (get_spec (storage r) k (inv_valid _ Hi)) as (Hg & Hv & Hp).
  unfold Fetch. destruct (c_get k (storage r)) as [v s]. simpl in *.
  split_and!; [done | | done.. ]. by eapply reg_inv_ext.
Qed.

Lemma ExtendDeadline_key now (c : IdleTimeoutConn K) :
  Key_ (ExtendDeadline now c).2 = Key_ c.
Proof. unfold ExtendDeadline. repeat case_match; done. Qed.

Lemma touch_inv now p r : reg_inv r → reg_inv (snd (touch now p r)).
Proof.
  intros Hi. unfold touch. destruct (conns r !! p) as [c |] eqn:Hc; [| done].
  pose proof (ExtendDeadline_key now c) as Hk.
  destruct (ExtendDeadline now c) as [[ok active] c']. simpl in *.
  set (r1 := mkRegistry _ _ _ _ _).
  assert (reg_inv r1) as Hi1.
  { eapply (reg_inv_ext r); [done | exact (inv_valid _ Hi) | done | | done | done].
    intros q. subst r1. simpl. destruct (decide (q = p)) as [-> |].
    - rewrite lookup_insert_eq, Hc. simpl. by rewrite Hk.
    - by rewrite lookup_insert_ne. }
  destruct active; [by apply Fetch_spec | done].
Qed.

Lemma Close_inv p r : reg_inv r → reg_inv (Close p r) ∧ ∀ c, conns r !! p = Some c → p ∈ closed (Close p r).
Proof.
  intros Hi. unfold Close. destruct (conns r !! p) as [c |] eqn:Hc; [| done].
  destruct (Evict_spec (Key_ c) r Hi Hnotifies) as (Hi1 & Hc1 & _ & Hp1 & Hcl1).
  split; [| intros; unfold close_conn; simpl; set_solver].
  assert (p ∈ closed (Evict (Key_ c) r)) as Hin.
  { apply Hcl1. destruct (decide (p ∈ closed r)); [by right |].
    left. by apply (inv_reach _ Hi). }
  unfold close_conn. replace ({[p]} ∪ closed (Evict (Key_ c) r)) with (closed (Evict (Key_ c) r))
    by set_solver.
  by destruct (Evict (Key_ c) r).
Qed.

Lemma reg_do_inv op r : reg_inv r → reg_inv (reg_do op r).
Proof.
  intros Hi. destruct op; simpl.
  - pose proof (Store_spec now key r Hi). destruct (Store now key r). naive_solver.
  - by apply Fetch_spec.
  - by apply Evict_spec.
  - by apply touch_inv.
  - by apply Close_inv.
  - by apply evict_all_spec.
  - by apply evict_all_spec.
Qed.

Lemma reg_run_inv ops r : reg_inv r → reg_inv (reg_run ops r).
Proof.
  revert r. induction ops as [| op ops IH]; intros r Hi; simpl; [done |].
  by apply IH, reg_do_inv.
Qed.


(** A sweep at time [now] closes exactly the expired connections: an open
    connection is closed if it is past its deadline, and otherwise stays open
    and found under its key. *)
Theorem evictExpired_exact (now : Z) (r : ConnRegistry) (p : nat) (c : IdleTimeoutConn K) :
  reg_inv r → conns r !! p = Some c → p ∉ closed r →
  (p ∈ closed (evictExpired now r) ↔ IsExpired now c = true) ∧
  (IsExpired now c = false → fst (Fetch (Key_ c) (evictExpired now r)) = Some p).
Proof.
  intros Hi Hc Hncl. unfold evictExpired. set (keys := omap _ _).
  destruct (evict_all_spec keys r Hi Hnotifies) as (Hi' & Hc' & _ & Hp' & Hcl').
  pose proof (inv_reach _ Hi p c Hc Hncl) as Hkey.
  assert (Key_ c ∈ keys ↔ IsExpired now c = true) as Hkeys.
  { subst keys. rewrite list_elem_of_omap. split.
    - intros ([k q] & Hin & Hk). simpl in Hk.
      destruct (conns r !! q) as [c0 |] eqn:Hq; [| done].
      destruct (IsExpired now c0) eqn:He; [| done]. injection Hk as ->.
      apply foreach_sound in Hin; [| by apply inv_valid | done].
      assert (q = p) as -> by congruence. congruence.
    - intros He. exists (Key_ c, p). simpl. rewrite Hc, He. split; [| done].
      by apply foreach_spec; [apply inv_valid |]. }
  assert (p ∈ closed (evict_all keys r) ↔ Key_ c ∈ keys) as Hclosed.
  { rewrite Hcl'. split; [| by left; eauto].
    intros [(k & Hk & Hkp) | ?]; [| done].
    destruct (inv_owned _ Hi _ _ Hkp) as (_ & c0 & Hc0 & <-). by simplify_eq. }
  split; [by rewrite Hclosed |]. intros He.
  destruct (Fetch_spec (Key_ c) _ Hi') as (-> & _). apply (inv_reach _ Hi'); [by rewrite Hc' |].
  rewrite Hclosed, Hkeys, He. done.
Qed.

(** Closing a connection evicts its key, so it also closes a newer connection
    that has taken the key since. *)
Lemma stale_Close_closes_newer r p q c :
  reg_inv r → conns r !! p = Some c → peek (storage r) (Key_ c) = Some q →
  p ≠ q ∧ p ∈ closed r → q ∉ closed r ∧ q ∈ closed (Close p r).
Proof.
  intros Hi Hc Hq [Hne Hcl]. split; [by apply (inv_owned _ Hi (Key_ c)) |].
  destruct (Evict_spec (Key_ c) r Hi Hnotifies) as (_ & _ & _ & _ & Hcl1).
  unfold Close. rewrite Hc. unfold close_conn. simpl.
  apply elem_of_union_r, Hcl1. by left.
Qed.
End Registry.

Arguments ConnRegistry C K : clear implicits.

(** [NewConnRegistry]: an LRU cache of 16 shards whose callback closes. *)
Definition NewConnRegistry {K} `{!Key K} (capacity timeout : Z)
    : outcome string (ConnRegistry (LRUCache K nat) K) :=
  c ← NewLRUCache 16 capacity;
  Ok (mkRegistry c timeout ∅ ∅ 0).

Lemma NewConnRegistry_inv {K} `{!Key K} capacity timeout :
  ∃ r : ConnRegistry (LRUCache K nat) K,
    NewConnRegistry capacity timeout = Ok r ∧ reg_inv r.
Proof.
  destruct (NewLRUCache_ok (K := K) (V := nat) 16 capacity) as
    (c & cap & Hc & Hwf & _ & _ & _ & _ & Hempty); [lia | done |].
  unfold NewConnRegistry. rewrite Hc. eexists. split; [done |].
  split; simpl.
  - done.
  - by intros p c0 Hp%lookup_empty_Some.
  - intros k p. unfold peek. simpl. by rewrite Hempty.
  - intros p [[? ?%lookup_empty_Some] | ?%elem_of_empty]; done.
Qed.

(** Activity on a connection that has not expired leaves it at least 70%
    of its timeout, never more than its full timeout beyond what it had, with
    the socket's deadline following; on an expired connection it changes
    nothing and reports [false]. *)
Theorem ExtendDeadline_spec {K} (now : Z) (c : IdleTimeoutConn K) :
  0 < now → 0 < Timeout c → Timeout c * 7 < 2 ^ 63 → now + Timeout c < 2 ^ 63 →
  0 <= expiredAt c < 2 ^ 63 → deadline c = expiredAt c →
  let '(ok, _, c') := ExtendDeadline now c in
  ok = negb (IsExpired now c) ∧ (ok = false → c' = c) ∧
  (ok = true →
    IsExpired now c' = false ∧ deadline c' = expiredAt c' ∧
    Timeout c * 7 / 10 <= expiredAt c' - now ∧
    expiredAt c <= expiredAt c' <= Z.max (expiredAt c) (now + Timeout c)).
Proof.
  intros Hnow Ht H7 Hsum Hexp Hd. unfold ExtendDeadline, IsExpired.
  assert (∀ z, - 2 ^ 63 <= z < 2 ^ 63 → i64 z = z) as Hi64.
  { intros z Hz. unfold i64. rewrite Z.mod_small by lia. lia. }
  destruct (negb (expiredAt c =? 0) && (expiredAt c <? now)) eqn:He; [done |]. cbv zeta.
  rewrite (Hi64 (now + Timeout c)) by lia. rewrite (Hi64 (expiredAt c - now)) by lia.
  rewrite (Hi64 (Timeout c * 7)) by lia. rewrite Z.quot_div_nonneg by lia.
  replace (0 <? Timeout c) with true by lia. simpl.
  destruct ((expiredAt c =? 0) || (expiredAt c - now <? Timeout c * 7 / 10)) eqn:Hx; simpl;
    (split; [done |]; split; [done |]; intros _).
  - split; [apply andb_false_iff; right; lia |]. split; [done |].
    apply orb_true_iff in Hx. dm_lia.
  - apply orb_false_iff in Hx as [Hx1%Z.eqb_neq Hx2%Z.ltb_ge].
    split; [done |]. split; [done |]. lia.
Qed.

(** ** Witnesses *)
Definition sample_registry : ConnRegistry (LRUCache Z nat) Z :=
  mkRegistry (mkLRU (replicate 16 (empty_shard 1)) 15) 1000 ∅ ∅ 0.

Lemma sample_registry_inv : reg_inv sample_registry.
Proof.
  destruct (NewConnRegistry_inv (K := Z) 16 1000) as (r & Hr & Hi).
  assert (NewConnRegistry (K := Z) 16 1000 = Ok sample_registry) as Hs by done.
  rewrite Hs in Hr. by injection Hr as <-.
Qed.


Definition one_conn : ConnRegistry (LRUCache Z nat) Z := snd (Store 10 1 sample_registry).

Lemma evictExpired_exact_witness :
  conns one_conn !! 0%nat = Some (mkConn 1 1000 10 1010 1010) ∧
  (0%nat ∈ closed (evictExpired 2000 one_conn) ↔
    IsExpired 2000 (mkConn 1 1000 10 1010 1010) = true).
Proof.
  assert (reg_inv one_conn ∧ 0%nat ∉ closed one_conn) as [Hi Hcl].
  { pose proof (Store_spec lru_notifies (lru_accepts _) 10 1 sample_registry sample_registry_inv) as H.
    unfold one_conn. destruct (Store 10 1 sample_registry) as [p r].
    destruct H as (? & -> & _ & _ & _ & ? & _). done. }
  assert (conns one_conn !! 0%nat = Some (mkConn 1 1000 10 1010 1010)) as Hc by by vm_compute.
  split; [done |].
  by apply (evictExpired_exact lru_notifies 2000 one_conn 0%nat (mkConn 1 1000 10 1010 1010)).
Defined.

Lemma ExtendDeadline_spec_witness :
  let '(ok, _, c') := ExtendDeadline 500 (mkConn 1 1000 10 1010 1010) in
  ok = true ∧ expiredAt c' = 1500.
Proof.
  pose proof (ExtendDeadline_spec 500 (mkConn 1 1000 10 1010 1010)
    ltac:(lia) ltac:(simpl; lia) ltac:(simpl; lia) ltac:(simpl; lia) ltac:(simpl; lia)
    eq_refl) as H.
  vm_compute in H |- *. destruct H as [H _]. done.
Defined.
