(* ===== verification/Sniffer.v ===== *)
(** * The packet sniffers: [internal/packet/sniffer.go], [tcp_sniffer.go] and
      [udp_sniffer.go]

    A sniffer learns, from the TTL of packets that come back, how many hops a
    server is away. It keeps one hop count per registered address in a cache,
    and is verified against the cache interface. A captured packet is what the
    decoding library reports of it: its layers and the fields the program reads.
    The capture filters, which are programs for the kernel's packet-filter
    machine, are in [Bpf.v]. *)

From S2P Require Import Prelude GoNet Keys CacheApi LruCache.

#[export] Instance IPKey_Key : Key (list Z) := { Bytes := IPKey_Bytes }.
#[export] Instance NATKey_Key : Key NATKey := { Bytes := NATKey_Bytes }.

(** [255] is the initial value of the variable; every case overwrites it. *)
Definition estimateHops (ttlLeft : Z) : Z :=
  let estimatedInitialHops :=
    if ttlLeft <=? 64 then 64 else if ttlLeft <=? 128 then 128 else 255 in
  u8 (estimatedInitialHops - ttlLeft).

Definition isLocalIP (ip : bytes) : bool :=
  match ip with
  | b0 :: b1 :: _ :: _ :: _ =>
    if b0 =? 10 then true
    else if b0 =? 127 then true
    else if (b0 =? 172) && (16 <=? b1) && (b1 <=? 31) then true
    else if (b0 =? 192) && (b1 =? 168) then true
    else if (b0 =? 169) && (b1 =? 254) then true
    else false
  | _ => false
  end.

(** ** Captured packets *)
Record layer_TCP : Type := mkLayerTCP { SYN : bool; ACK : bool }.
Record layer_IPv4 : Type := mkLayerIPv4 { ip4_Src : bytes; ip4_Dst : bytes; ip4_TTL : Z }.
Record layer_IPv6 : Type := mkLayerIPv6 { ip6_Src : bytes; ip6_HopLimit : Z }.

Record packet : Type := mkPacket {
  p_tcp : option layer_TCP;
  p_udp : bool;
  p_ip4 : option layer_IPv4;
  p_ip6 : option layer_IPv6;
}.

Section Sniffer.
Context {C : Type} `{!Cache C (list Z) Z} `{!CacheLaws C (list Z) Z}.

(** The state of both sniffers; the logger and the capture handle are left out. *)
Record TCPSniffer : Type := mkSniffer { nhopCache : C; defaultTTL : Z }.
Definition UDPSniffer : Type := TCPSniffer.

Definition NewTCPSniffer (cache : C) (cfg_DefaultFakeTTL : Z) : TCPSniffer :=
  mkSniffer cache (u8 cfg_DefaultFakeTTL).
Definition NewUDPSniffer (cache : C) (cfg_DefaultFakeTTL : Z) : UDPSniffer :=
  mkSniffer cache (u8 cfg_DefaultFakeTTL).

Definition with_cache (c : C) (s : TCPSniffer) : TCPSniffer := mkSniffer c (defaultTTL s).

(** [Register] of both sniffers. *)
Definition register_one (s : TCPSniffer) (v : IP) : TCPSniffer :=
  let '(_, _, c) :=
    c_set (NewIPKey v) (defaultTTL s) (Some (WithSkipExisting true Options)) (nhopCache s) in
  with_cache c s.
Definition Register (addrs : list IP) (s : TCPSniffer) : TCPSniffer :=
  fold_left register_one addrs s.
Definition udp_Register : list IP → UDPSniffer → UDPSniffer := Register.

Definition GetOptimalTTL (key : list Z) (s : TCPSniffer) : Z * TCPSniffer :=
  let '(oTTL, c) := c_get key (nhopCache s) in
  let hopCount := match oTTL with Some t => t | None => 255 end in
  (Z.max hopCount 2 - 1, with_cache c s).
Definition udp_GetOptimalTTL : list Z → UDPSniffer → Z * UDPSniffer := GetOptimalTTL.

(** The common end of [processPacket]. *)
Definition learn (srcIP : bytes) (ttlLeft : Z) (s : TCPSniffer) : TCPSniffer :=
  let key := NewIPKey srcIP in
  let nhops := estimateHops ttlLeft in
  let '(prev, c) := c_get key (nhopCache s) in
  match prev with
  | None => with_cache c s
  | Some _ => let '(_, _, c) := c_set key nhops None c in with_cache c s
  end.

Definition processPacket (p : packet) (s : TCPSniffer) : TCPSniffer :=
  match p_tcp p with
  | None => s
  | Some tcp =>
    if negb (SYN tcp) || negb (ACK tcp) then s
    else
      match p_ip4 p with
      | Some ip => if isLocalIP (ip4_Src ip) then s else learn (ip4_Src ip) (ip4_TTL ip) s
      | None =>
        match p_ip6 p with
        | Some ip => learn (ip6_Src ip) (ip6_HopLimit ip) s
        | None => s
        end
      end
  end.

Definition udp_processPacket (p : packet) (s : UDPSniffer) : UDPSniffer :=
  if negb (p_udp p) then s
  else
    match p_ip4 p with
    | Some ip =>
      if isLocalIP (ip4_Src ip) then s
      else if negb (isLocalIP (ip4_Dst ip)) then s
      else learn (ip4_Src ip) (ip4_TTL ip) s
    | None =>
      match p_ip6 p with
      | Some ip => learn (ip6_Src ip) (ip6_HopLimit ip) s
      | None => s
      end
    end.

(** The packets that teach a hop count: whose, and with what TTL left. *)
Definition tcp_teaches (p : packet) : option (bytes * Z) :=
  tcp ← p_tcp p;
  guard (SYN tcp = true ∧ ACK tcp = true);;
  match p_ip4 p with
  | Some ip => guard (isLocalIP (ip4_Src ip) = false);; Some (ip4_Src ip, ip4_TTL ip)
  | None => (λ ip, (ip6_Src ip, ip6_HopLimit ip)) <$> p_ip6 p
  end.

Definition udp_teaches (p : packet) : option (bytes * Z) :=
  guard (p_udp p = true);;
  match p_ip4 p with
  | Some ip =>
    guard (isLocalIP (ip4_Src ip) = false ∧ isLocalIP (ip4_Dst ip) = true);;
    Some (ip4_Src ip, ip4_TTL ip)
  | None => (λ ip, (ip6_Src ip, ip6_HopLimit ip)) <$> p_ip6 p
  end.

Definition sniffer_ok (s : TCPSniffer) : Prop :=
  c_valid (nhopCache s) ∧ 0 <= defaultTTL s < 256 ∧
  ∀ k v, peek (nhopCache s) k = Some v → 0 <= v < 256.

(** What one event does to the hop counts. *)
Inductive event : Type :=
| ERegister (addrs : list IP)
| ETCP (p : packet)
| EUDP (p : packet)
| EQuery (key : list Z).

Definition handle (e : event) (s : TCPSniffer) : TCPSniffer :=
  match e with
  | ERegister addrs => Register addrs s
  | ETCP p => processPacket p s
  | EUDP p => udp_processPacket p s
  | EQuery k => snd (GetOptimalTTL k s)
  end.

Lemma processPacket_teaches p s :
  processPacket p s = match tcp_teaches p with Some (ip, t) => learn ip t s | None => s end.
Proof.
  unfold processPacket, tcp_teaches. destruct (p_tcp p) as [[[] []] |]; simpl; try done.
  destruct (p_ip4 p) as [ip |]; simpl; [by destruct (isLocalIP _) | by destruct (p_ip6 p)].
Qed.

Lemma udp_processPacket_teaches p s :
  udp_processPacket p s = match udp_teaches p with Some (ip, t) => learn ip t s | None => s end.
Proof.
  unfold udp_processPacket, udp_teaches. destruct (p_udp p); simpl; [| done].
  destruct (p_ip4 p) as [ip |]; simpl; [| by destruct (p_ip6 p)].
  by destruct (isLocalIP (ip4_Src ip)), (isLocalIP (ip4_Dst ip)).
Qed.

Lemma estimateHops_range t : 0 <= estimateHops t < 256.
Proof. unfold estimateHops, u8. apply Z.mod_pos_bound. lia. Qed.

Context (Hnotifies : c_notifies) (Haccepts : ∀ o, c_accepts o).

Lemma set_result {c k v o b inv c'} :
  c_valid c → c_set k v o c = (b, inv, c') →
  c_valid c' ∧
  (peek c' k = if b then Some v else peek c k) ∧
  ∀ k', k' ≠ k → peek c' k' = peek c k' ∨ peek c' k' = None.
Proof.
  intros Hv Hs. split_and!; [by eapply set_valid | |].
  - destruct b; [by eapply set_stores | by destruct (set_refused _ _ _ _ _ _ _ Hv Hs) as [_ ->]].
  - intros k' Hne. destruct (set_frame _ _ _ _ _ _ _ k' Hv Hs Hne) as [| [? _]]; auto.
Qed.

(** A store without options always goes through. *)
Lemma set_plain c k v b inv c' : c_valid c → c_set k v None c = (b, inv, c') → b = true.
Proof.
  intros Hv Hs. destruct (set_allowed_stores c k v None Hv (Haccepts _)) as (i & c1 & He).
  - unfold set_allowed. simpl. by rewrite !andb_false_r.
  - by left.
  - congruence.
Qed.

(** A cautious store keeps what is there and stores what is not. *)
Lemma set_skip_existing c k v b inv c' :
  c_valid c → c_set k v (Some (WithSkipExisting true Options)) c = (b, inv, c') →
  peek c' k = Some (default v (peek c k)).
Proof.
  intros Hv Hs. destruct (peek c k) as [w |] eqn:Hw; simpl.
  - rewrite (set_skip c k v (Some (WithSkipExisting true Options)) Hv (mk_is_Some _ _ Hw) eq_refl) in Hs. by injection Hs as <- <- <-.
  - destruct (set_allowed_stores c k v (Some (WithSkipExisting true Options)) Hv (Haccepts _))
      as (i & c1 & He); [| by right | ].
    + unfold set_allowed. simpl. rewrite andb_false_r, andb_true_r.
      apply negb_true_iff, not_true_is_false.
      rewrite andb_true_r, has_spec, Hw by done. by intros [].
    + rewrite He in Hs. injection Hs as <- <- <-. by eapply set_stores.
Qed.

Definition frame (s s' : TCPSniffer) (k : list Z) : Prop :=
  peek (nhopCache s') k = peek (nhopCache s) k ∨ peek (nhopCache s') k = None.

Lemma ok_update s k c' v :
  sniffer_ok s → c_valid c' → peek c' k = Some v → 0 <= v < 256 →
  (∀ k', k' ≠ k → peek c' k' = peek (nhopCache s) k' ∨ peek c' k' = None) →
  sniffer_ok (with_cache c' s).
Proof.
  intros (Hv & Hd & Hr) Hv' Hk Hrange Hf. split; [done | split; [done |]]. simpl. intros k' w Hw.
  destruct (decide (k' = k)) as [-> | Hne]; [congruence |].
  destruct (Hf k' Hne) as [He | He]; rewrite He in Hw; [by eapply Hr | done].
Qed.

Lemma register_one_spec s v :
  sniffer_ok s →
  let s' := register_one s v in
  sniffer_ok s' ∧ defaultTTL s' = defaultTTL s ∧
  peek (nhopCache s') (NewIPKey v) =
    Some (default (defaultTTL s) (peek (nhopCache s) (NewIPKey v))) ∧
  ∀ k, k ≠ NewIPKey v → frame s s' k.
Proof.
  intros Hok. pose proof Hok as (Hv & Hd & Hr). unfold register_one. cbv zeta.
  destruct (c_set _ _ _ _) as [[b inv] c'] eqn:Hs.
  destruct (set_result Hv Hs) as (Hv' & _ & Hf).
  pose proof (set_skip_existing _ _ _ _ _ _ Hv Hs) as Hk.
  split_and!; [| done | done | done]. eapply ok_update; [done.. | | done].
  destruct (peek (nhopCache s) (NewIPKey v)) as [w |] eqn:Hw; simpl; [by eapply Hr | done].
Qed.

Lemma learn_spec s srcIP t :
  sniffer_ok s →
  let s' := learn srcIP t s in
  sniffer_ok s' ∧ defaultTTL s' = defaultTTL s ∧
  peek (nhopCache s') (NewIPKey srcIP) =
    (if peek (nhopCache s) (NewIPKey srcIP) then Some (estimateHops t) else None) ∧
  ∀ k, k ≠ NewIPKey srcIP → frame s s' k.
Proof.
  intros Hok. pose proof Hok as (Hv & Hd & Hr). unfold learn. cbv zeta.
  destruct (get_spec (nhopCache s) (NewIPKey srcIP) Hv) as (Hg & Hv1 & Hp1).
  destruct (c_get _ _) as [prev c1]. simpl in Hg, Hv1, Hp1. subst prev.
  assert (sniffer_ok (with_cache c1 s)) as Hok1.
  { split; [done | split; [done |]]. simpl. intros k v. rewrite Hp1. apply Hr. }
  destruct (peek (nhopCache s) (NewIPKey srcIP)) as [prev |] eqn:Hprev.
  - destruct (c_set _ _ _ _) as [[b inv] c2] eqn:Hs.
    destruct (set_result Hv1 Hs) as (Hv2 & Hk & Hf).
    rewrite (set_plain _ _ _ _ _ _ Hv1 Hs) in Hk.
    assert (∀ k, k ≠ NewIPKey srcIP → frame s (with_cache c2 s) k) as Hframe.
    { intros k Hne. unfold frame. simpl. rewrite <- Hp1. by apply Hf. }
    split_and!; [| done | done | done].
    eapply ok_update; [done.. | apply estimateHops_range | done].
  - split_and!; [done | done | simpl; by rewrite Hp1 |]. intros k _. left. apply Hp1.
Qed.

Lemma Register_ok addrs s :
  sniffer_ok s → sniffer_ok (Register addrs s) ∧ defaultTTL (Register addrs s) = defaultTTL s.
Proof.
  unfold Register. revert s. induction addrs as [| v addrs IH]; intros s Hok; simpl; [done |].
  destruct (register_one_spec s v Hok) as (Hok1 & Hd1 & _).
  destruct (IH _ Hok1) as [? ->]. by rewrite Hd1.
Qed.

Lemma GetOptimalTTL_spec s k :
  sniffer_ok s →
  sniffer_ok (snd (GetOptimalTTL k s)) ∧
  (∀ k', peek (nhopCache (snd (GetOptimalTTL k s))) k' = peek (nhopCache s) k') ∧
  fst (GetOptimalTTL k s) =
    Z.max (default 255 (peek (nhopCache s) k)) 2 - 1.
Proof.
  intros (Hv & Hd & Hr). unfold GetOptimalTTL.
  destruct (get_spec (nhopCache s) k Hv) as (Hg & Hv1 & Hp1).
  destruct (c_get _ _) as [r c1]. simpl in *. subst r.
  split; [| split; [done | by destruct (peek _ _)]].
  split; [done | split; [done |]]. simpl. intros k' v. rewrite Hp1. apply Hr.
Qed.

Lemma handle_ok e s : sniffer_ok s → sniffer_ok (handle e s).
Proof.
  intros Hok. destruct e as [addrs | p | p | k]; simpl.
  - by apply Register_ok.
  - rewrite processPacket_teaches. destruct (tcp_teaches p) as [[ip t] |]; [by apply learn_spec | done].
  - rewrite udp_processPacket_teaches. destruct (udp_teaches p) as [[ip t] |]; [by apply learn_spec | done].
  - by apply GetOptimalTTL_spec.
Qed.

Lemma run_ok es s : sniffer_ok s → sniffer_ok (fold_left (λ s e, handle e s) es s).
Proof.
  revert s. induction es as [| e es IH]; intros s Hok; simpl; [done |]. by apply IH, handle_ok.
Qed.

(** C23. Whatever was registered and captured before, the TTL of fake packets
    is between 1 and 254 for every address; and once a registered server at
    [hops] hops has been heard (its first SYN/ACK, with one of the usual
    initial TTLs), fakes sent to it, under either form of its address, get
    [hops - 1], so they die one hop before the server. *)
Theorem hop_tracking (s0 : TCPSniffer) (es : list event) (p : packet) (init hops : Z)
    (src dst : IP) :
  sniffer_ok s0 →
  let s := fold_left (λ s e, handle e s) es s0 in
  (∀ k, 1 <= fst (GetOptimalTTL k s) <= 254) ∧
  (tcp_teaches p = Some (src, init - hops) →
   is_Some (peek (nhopCache s) (NewIPKey src)) →
   (init = 64 ∧ 2 <= hops <= 64 ∨ init = 128 ∧ 2 <= hops < 64 ∨ init = 255 ∧ 2 <= hops < 127) →
   ip_wf src → ip_wf dst → IP_Equal src dst = true →
   fst (GetOptimalTTL (NewIPKey dst) (processPacket p s)) = hops - 1).
Proof.
  intros Hok0 s. assert (sniffer_ok s) as Hok by by apply run_ok. split.
  - intros k. destruct (GetOptimalTTL_spec s k Hok) as (_ & _ & ->).
    destruct Hok as (_ & _ & Hr).
    destruct (peek (nhopCache s) k) as [v |] eqn:Hv; simpl; [specialize (Hr k v Hv) |]; lia.
  - intros Ht [w Hw] Hinit Hs Hd Heq. rewrite processPacket_teaches, Ht.
    destruct (learn_spec s src (init - hops) Hok) as (Hok' & _ & Hk & _).
    destruct (GetOptimalTTL_spec _ (NewIPKey dst) Hok') as (_ & _ & ->).
    apply NewIPKey_canonical in Heq; [| done..]. rewrite <- Heq, Hk, Hw. simpl.
    assert (estimateHops (init - hops) = hops) as ->; [| lia].
    unfold estimateHops, u8.
    destruct Hinit as [[-> ?] | [[-> ?] | [-> ?]]];
      repeat match goal with |- context [?a <=? ?b] => destruct (Z.leb_spec a b); try lia end;
      rewrite Z.mod_small; lia.
Qed.

(** Learning and registering never disturb each other: a packet only
    updates an address that was registered, with the estimate of its TTL, and
    registering an address again keeps the hop count already learnt, in TCP
    and UDP sniffers alike. *)
Theorem learning_isolated (s : TCPSniffer) (p : packet) (v : IP) :
  sniffer_ok s →
  (peek (nhopCache (Register [v] s)) (NewIPKey v) =
     Some (default (defaultTTL s) (peek (nhopCache s) (NewIPKey v)))) ∧
  (∀ k, k ≠ NewIPKey v → frame s (Register [v] s) k) ∧
  (∀ k, is_Some (peek (nhopCache (processPacket p s)) k) → is_Some (peek (nhopCache s) k)) ∧
  (∀ k, is_Some (peek (nhopCache (udp_processPacket p s)) k) → is_Some (peek (nhopCache s) k)) ∧
  match udp_teaches p with
  | Some (ip, t) =>
    isLocalIP ip = false ∨ p_ip4 p = None
  | None => udp_processPacket p s = s
  end ∧
  match udp_teaches p with
  | Some (ip, t) =>
    ∀ w, peek (nhopCache s) (NewIPKey ip) = Some w →
      peek (nhopCache (udp_processPacket p s)) (NewIPKey ip) = Some (estimateHops t)
  | None => True
  end.
Proof.
  intros Hok.
  assert (∀ ip t k, is_Some (peek (nhopCache (learn ip t s)) k) → is_Some (peek (nhopCache s) k))
    as Hlearn.
  { intros ip t k Hs. destruct (learn_spec s ip t Hok) as (_ & _ & Hk & Hf).
    destruct (decide (k = NewIPKey ip)) as [-> | Hne].
    - rewrite Hk in Hs. by destruct (peek (nhopCache s) (NewIPKey ip)).
    - destruct (Hf k Hne) as [He | He]; rewrite He in Hs; [done | by destruct Hs]. }
  destruct (register_one_spec s v Hok) as (_ & _ & Hk & Hf).
  rewrite processPacket_teaches, udp_processPacket_teaches.
  split_and!; [done | done | | | |].
  - intros k. destruct (tcp_teaches p) as [[ip t] |]; [apply Hlearn | done].
  - intros k. destruct (udp_teaches p) as [[ip t] |]; [apply Hlearn | done].
  - unfold udp_teaches. destruct (p_udp p); simpl; [| done].
    destruct (p_ip4 p) as [ip |]; simpl; [| destruct (p_ip6 p); simpl; auto].
    destruct (isLocalIP (ip4_Src ip)) eqn:Hl, (isLocalIP (ip4_Dst ip)); simpl; auto.
  - destruct (udp_teaches p) as [[ip t] |]; [| done]. intros w Hw.
    destruct (learn_spec s ip t Hok) as (_ & _ & -> & _). by rewrite Hw.
Qed.
End Sniffer.

Arguments TCPSniffer C : clear implicits.

(** ** Witnesses: a server 12 hops away *)
Definition sample_sniffer : TCPSniffer (LRUCache (list Z) Z) :=
  NewTCPSniffer (mkLRU (replicate 16 (empty_shard 512)) 15) 8.

Lemma sample_sniffer_ok : sniffer_ok sample_sniffer.
Proof.
  destruct (NewLRUCache_ok (K := list Z) (V := Z) 16 8192) as
    (c & cap & Hc & Hwf & _ & _ & _ & _ & Hempty); [lia | done |].
  assert (NewLRUCache (K := list Z) (V := Z) 16 8192 = Ok (nhopCache sample_sniffer)) as Hs by done.
  rewrite Hs in Hc. injection Hc as <-. split; [done |]. split; [by vm_compute |].
  intros k v. unfold peek, lru_Cache. by rewrite Hempty.
Qed.

Definition syn_ack : packet :=
  mkPacket (Some (mkLayerTCP true true)) false
    (Some (mkLayerIPv4 [8; 8; 8; 8] [10; 0; 0; 2] 52)) None.

Lemma hop_tracking_witness :
  fst (GetOptimalTTL (NewIPKey (IPv4 8 8 8 8))
    (processPacket syn_ack
      (fold_left (λ s e, handle e s) [ERegister [[8; 8; 8; 8]]] sample_sniffer))) = 12 - 1.
Proof.
  apply (hop_tracking lru_notifies lru_accepts sample_sniffer
    [ERegister [[8; 8; 8; 8]]] syn_ack 64 12 [8; 8; 8; 8] (IPv4 8 8 8 8)).
  - apply sample_sniffer_ok.
  - reflexivity.
  - exists 8. by vm_compute.
  - lia.
  - by left.
  - by right.
  - by vm_compute.
Defined.

Lemma learning_isolated_witness :
  sniffer_ok sample_sniffer ∧
  peek (nhopCache (Register [[8; 8; 8; 8]] sample_sniffer)) (NewIPKey [8; 8; 8; 8]) = Some 8.
Proof.
  split; [apply sample_sniffer_ok |].
  destruct (learning_isolated lru_notifies lru_accepts sample_sniffer syn_ack
    [8; 8; 8; 8] sample_sniffer_ok) as [H _].
  rewrite H. by vm_compute.
Defined.
