(* ===== verification/Bpf.v ===== *)
(** * Capture filters: [generateSynAckFilter] and [generateUdpFilter]

    The filters are programs for the kernel's packet-filter machine, which is
    not part of the repository: [BPFMachine] is what its documentation says of
    the instructions the program emits, and [interpreter] is an instance. *)

From S2P Require Import Prelude.

Record BPFInstruction : Type := mkInstr { Op : Z; Jt : Z; Jf : Z; K : Z }.

Inductive LinkType : Type :=
| LinkTypeEthernet | LinkTypeNull | LinkTypeLoop | LinkTypeRaw | LinkTypeOther (n : Z).

#[export] Instance LinkType_eq_dec : EqDecision LinkType.
Proof. solve_decision. Defined.

Definition baseOffset (linkType : LinkType) : Z :=
  match linkType with
  | LinkTypeEthernet => 14
  | LinkTypeNull | LinkTypeLoop => 4
  | LinkTypeRaw => 0
  | LinkTypeOther _ => 14
  end.

Definition generateSynAckFilter (linkType : LinkType) : list BPFInstruction :=
  let base := baseOffset linkType in
  (if decide (linkType = LinkTypeEthernet)
   then [mkInstr 0x28 0 0 12; mkInstr 0x15 0 8 0x0800]
   else [mkInstr 0x30 0 0 base; mkInstr 0x54 0 0 0xf0; mkInstr 0x15 0 7 0x40]) ++
  [mkInstr 0x30 0 0 (base + 9); mkInstr 0x15 0 6 6] ++
  [mkInstr 0x28 0 0 (base + 6); mkInstr 0x45 4 0 0x1fff] ++
  [mkInstr 0xb1 0 0 base] ++
  [mkInstr 0x50 0 0 (base + 13); mkInstr 0x54 0 0 18; mkInstr 0x15 0 1 18] ++
  [mkInstr 0x06 0 0 0x00040000; mkInstr 0x06 0 0 0x00000000].

Definition generateUdpFilter (linkType : LinkType) : list BPFInstruction :=
  let base := baseOffset linkType in
  (if decide (linkType = LinkTypeEthernet)
   then [mkInstr 0x28 0 0 12; mkInstr 0x15 0 3 0x0800]
   else [mkInstr 0x30 0 0 base; mkInstr 0x54 0 0 0xf0; mkInstr 0x15 0 3 0x40]) ++
  [mkInstr 0x30 0 0 (base + 9); mkInstr 0x15 0 1 17] ++
  [mkInstr 0x06 0 0 0x00040000; mkInstr 0x06 0 0 0x00000000].

(** Loads of the machine; [None] is a load beyond the end of the packet, on
    which the machine rejects. *)
Definition ldb (pkt : bytes) (k : Z) : option Z :=
  if 0 <=? k then pkt !! Z.to_nat k else None.
Definition ldh (pkt : bytes) (k : Z) : option Z :=
  hi ← ldb pkt k; lo ← ldb pkt (k + 1); Some (be16 hi lo).

(** ** The machine: [run prog pc a x pkt] is the value the program returns from
    the instruction [pc] on, with accumulator [a] and index register [x]. *)
Class BPFMachine : Type := {
  run : list BPFInstruction → nat → Z → Z → bytes → Z;
  run_ldh prog pc a x pkt k : prog !! pc = Some (mkInstr 0x28 0 0 k) →
    run prog pc a x pkt =
      match ldh pkt k with Some v => run prog (S pc) v x pkt | None => 0 end;
  run_ldb prog pc a x pkt k : prog !! pc = Some (mkInstr 0x30 0 0 k) →
    run prog pc a x pkt =
      match ldb pkt k with Some v => run prog (S pc) v x pkt | None => 0 end;
  run_ldb_ind prog pc a x pkt k : prog !! pc = Some (mkInstr 0x50 0 0 k) →
    run prog pc a x pkt =
      match ldb pkt (x + k) with Some v => run prog (S pc) v x pkt | None => 0 end;
  run_msh prog pc a x pkt k : prog !! pc = Some (mkInstr 0xb1 0 0 k) →
    run prog pc a x pkt =
      match ldb pkt k with
      | Some v => run prog (S pc) a (4 * Z.land v 0x0f) pkt
      | None => 0
      end;
  run_and prog pc a x pkt k : prog !! pc = Some (mkInstr 0x54 0 0 k) →
    run prog pc a x pkt = run prog (S pc) (Z.land a k) x pkt;
  run_jeq prog pc a x pkt jt jf k : prog !! pc = Some (mkInstr 0x15 jt jf k) →
    run prog pc a x pkt =
      run prog (S pc + Z.to_nat (if a =? k then jt else jf)) a x pkt;
  run_jset prog pc a x pkt jt jf k : prog !! pc = Some (mkInstr 0x45 jt jf k) →
    run prog pc a x pkt =
      run prog (S pc + Z.to_nat (if Z.land a k =? 0 then jf else jt)) a x pkt;
  run_ret prog pc a x pkt k : prog !! pc = Some (mkInstr 0x06 0 0 k) →
    run prog pc a x pkt = k;
}.

(** Whether a packet passes the filter. *)
Definition accepts `{BPFMachine} (prog : list BPFInstruction) (pkt : bytes) : bool :=
  negb (run prog 0 0 0 pkt =? 0).

(** ** What the filters accept *)
Section Filters.
Context `{BPFMachine}.

Ltac bpf_step :=
  first
    [ erewrite run_ldh by reflexivity | erewrite run_ldb by reflexivity
    | erewrite run_ldb_ind by reflexivity | erewrite run_msh by reflexivity
    | erewrite run_and by reflexivity | erewrite run_jeq by reflexivity
    | erewrite run_jset by reflexivity | erewrite run_ret by reflexivity ];
  repeat match goal with
  | E : ldh ?p ?k = _ |- context [ldh ?p ?k] => rewrite E
  | E : ldb ?p ?k = _ |- context [ldb ?p ?k] => rewrite E
  | E : ?a = ?b |- context [?a =? ?b] => rewrite (proj2 (Z.eqb_eq a b) E)
  | E : ?a ≠ ?b |- context [?a =? ?b] => rewrite (proj2 (Z.eqb_neq a b) E)
  end;
  try match goal with
  | |- context [if ?a =? ?b then _ else _] => destruct (Z.eqb_spec a b)
  end;
  cbn [Nat.add Z.to_nat Pos.to_nat Pos.iter_op Z.eqb negb].


(** On a link without EtherType, a packet whose byte at the offset of the IP
    header is no IPv4 version is rejected by the UDP filter. *)
Lemma udp_filter_rejects_version (linkType : LinkType) (pkt : bytes) (v : Z) :
  linkType ≠ LinkTypeEthernet → ldb pkt (baseOffset linkType) = Some v → Z.land v 0xf0 ≠ 0x40 →
  accepts (generateUdpFilter linkType) pkt = false.
Proof.
  intros Hne Hv Hn. unfold accepts, generateUdpFilter. rewrite decide_False by done. cbn [app].
  repeat bpf_step; done.
Qed.

(** The SYN/ACK filter lets through every SYN/ACK it is meant to capture:
    an unfragmented IPv4 TCP packet whose flags have both bits set. (What it
    rejects is narrower than meant, see [synack_filter_leaks].) *)
Theorem synack_filter_complete (linkType : LinkType) (pkt : bytes) (net proto frag ihl flags : Z) :
  let base := baseOffset linkType in
  (if decide (linkType = LinkTypeEthernet) then ldh pkt 12 = Some net ∧ net = 0x0800
   else ldb pkt base = Some net ∧ Z.land net 0xf0 = 0x40) →
  ldb pkt (base + 9) = Some proto → proto = 6 →
  ldh pkt (base + 6) = Some frag → Z.land frag 0x1fff = 0 →
  ldb pkt base = Some ihl → ldb pkt (4 * Z.land ihl 0x0f + (base + 13)) = Some flags →
  Z.land flags 18 = 18 →
  accepts (generateSynAckFilter linkType) pkt = true.
Proof.
  cbv zeta. intros Hnet Hproto -> Hfrag Hf0 Hihl Hflags Hsa.
  unfold accepts, generateSynAckFilter. set (b := baseOffset linkType) in *. clearbody b.
  destruct (decide (linkType = LinkTypeEthernet)) as [-> | Hne]; cbn [app];
    destruct Hnet as [Hn1 Hn2]; repeat bpf_step; simplify_eq; done.
Qed.

(** The jumps the comments send to the final reject land one instruction
    early, on the accept: an Ethernet frame that is not IPv4 is captured, and
    so is an IPv4 packet that is not TCP or is a fragment. *)
Lemma synack_filter_leaks pkt net :
  ldh pkt 12 = Some net → net ≠ 0x0800 →
  accepts (generateSynAckFilter LinkTypeEthernet) pkt = true.
Proof.
  intros Hn Hne. unfold accepts, generateSynAckFilter. simpl.
  repeat bpf_step; done.
Qed.

Lemma synack_filter_leaks_fragments pkt frag :
  ldh pkt 12 = Some 0x0800 → ldb pkt (14 + 9) = Some 6 → ldh pkt (14 + 6) = Some frag →
  Z.land frag 0x1fff ≠ 0 →
  accepts (generateSynAckFilter LinkTypeEthernet) pkt = true.
Proof.
  intros H1 H2 H3 H4. unfold accepts, generateSynAckFilter. simpl.
  repeat bpf_step; done.
Qed.
End Filters.

(** ** An instance: jumps only go forward, so the length of the program bounds
    the steps. *)
Definition exec (next : nat → Z → Z → Z) (i : BPFInstruction) (pc : nat) (a x : Z)
    (pkt : bytes) : Z :=
  let load o f := match o with Some v => f v | None => 0 end in
  if Op i =? 0x28 then load (ldh pkt (K i)) (λ v, next (S pc) v x)
  else if Op i =? 0x30 then load (ldb pkt (K i)) (λ v, next (S pc) v x)
  else if Op i =? 0x50 then load (ldb pkt (x + K i)) (λ v, next (S pc) v x)
  else if Op i =? 0xb1 then load (ldb pkt (K i)) (λ v, next (S pc) a (4 * Z.land v 0x0f))
  else if Op i =? 0x54 then next (S pc) (Z.land a (K i)) x
  else if Op i =? 0x15 then next (S pc + Z.to_nat (if (a =? K i)%Z then Jt i else Jf i))%nat a x
  else if Op i =? 0x45 then
    next (S pc + Z.to_nat (if (Z.land a (K i) =? 0)%Z then Jf i else Jt i))%nat a x
  else if Op i =? 0x06 then K i
  else 0.

Fixpoint interp (fuel : nat) (prog : list BPFInstruction) (pc : nat) (a x : Z) (pkt : bytes) : Z :=
  match fuel with
  | O => 0
  | S fuel =>
    match prog !! pc with
    | None => 0
    | Some i => exec (λ pc a x, interp fuel prog pc a x pkt) i pc a x pkt
    end
  end.

Lemma exec_ext f g i pc a x pkt :
  (∀ pc' a x, (pc < pc')%nat → f pc' a x = g pc' a x) →
  exec f i pc a x pkt = exec g i pc a x pkt.
Proof. intros Hfg. unfold exec. repeat case_match; auto; apply Hfg; lia. Qed.

Lemma interp_fuel prog pc a x pkt n m :
  (length prog - pc < n)%nat → (length prog - pc < m)%nat →
  interp n prog pc a x pkt = interp m prog pc a x pkt.
Proof.
  revert pc a x m. induction n as [| n IH]; intros pc a x m Hn Hm; [lia |].
  destruct m as [| m]; [lia |]. simpl. destruct (prog !! pc) as [i |] eqn:Hi; [| done].
  apply lookup_lt_Some in Hi. apply exec_ext. intros pc' a' x' Hlt. apply IH; lia.
Qed.

Lemma interp_at prog pc a x pkt i :
  prog !! pc = Some i →
  interp (S (length prog)) prog pc a x pkt =
  exec (λ pc a x, interp (S (length prog)) prog pc a x pkt) i pc a x pkt.
Proof.
  intros Hi. transitivity (exec (λ pc a x, interp (length prog) prog pc a x pkt) i pc a x pkt).
  { simpl. by rewrite Hi. }
  apply exec_ext. intros pc' a' x' Hlt.
  apply lookup_lt_Some in Hi. apply interp_fuel; lia.
Qed.

#[export] Instance interpreter : BPFMachine.
Proof.
  refine {| run prog pc a x pkt := interp (S (length prog)) prog pc a x pkt |};
    intros; by erewrite interp_at by done.
Defined.

(** ** Witness: a SYN/ACK over raw IP *)
Definition raw_syn_ack : bytes :=
  [0x45; 0; 0; 40; 0; 0; 0x40; 0; 52; 6; 0; 0; 8; 8; 8; 8; 10; 0; 0; 2;
   1; 187; 0x30; 0x39; 0; 0; 0; 1; 0; 0; 0; 1; 0x50; 0x12; 0; 0; 0; 0; 0; 0].

Lemma synack_filter_complete_witness :
  accepts (generateSynAckFilter LinkTypeRaw) raw_syn_ack = true.
Proof.
  apply (synack_filter_complete LinkTypeRaw raw_syn_ack 0x45 6 0x4000 0x45 0x12);
    by vm_compute.
Defined.

Definition raw_udp : bytes :=
  [0x45; 0; 0; 28; 0; 0; 0; 0; 52; 17; 0; 0; 8; 8; 8; 8; 10; 0; 0; 2; 0; 53; 0x30; 0x39; 0; 8; 0; 0].

