(* ===== verification/CaptureHandle.v ===== *)
(** * Capture handles: [internal/packet/handle.go], [handle_linux.go] and
      [handle_default.go]

    A handle on Linux is a raw packet socket. The sockets of the process are a
    state: a map from descriptors to their protocol, the interface they are
    bound to and the filter attached. Which calls fail, which descriptor a new
    socket gets and what the interfaces are is the class [Unix], with the one
    promise that a new descriptor is not one in use. On the other systems a
    handle is one of the pcap library: the calls made are a trace. *)

From S2P Require Import Prelude GoIO Bpf.

Local Open Scope string_scope.
Local Open Scope list_scope.
Local Open Scope Z_scope.

(** ** [determineNativeEndian] and [htons] *)
Inductive ByteOrder : Type := LittleEndian | BigEndian.
#[export] Instance ByteOrder_eq_dec : EqDecision ByteOrder.
Proof. solve_decision. Defined.

(** The two bytes in memory of a 16-bit integer, on a machine of either order. *)
Definition store16 (machine : ByteOrder) (v : Z) : bytes :=
  match machine with
  | LittleEndian => [v mod 256; v / 256]
  | BigEndian => [v / 256; v mod 256]
  end.

Definition determineNativeEndian (machine : ByteOrder) : outcome error ByteOrder :=
  let buf := store16 machine 0xABCD in
  if bool_decide (buf = [0xCD; 0xAB]) then Ok LittleEndian
  else if bool_decide (buf = [0xAB; 0xCD]) then Ok BigEndian
  else Panic.

Definition htons (machine : ByteOrder) (v : Z) : outcome error Z :=
  native ← determineNativeEndian machine;
  if bool_decide (native = LittleEndian)
  then Ok (Z.lor (u16 (Z.shiftl v 8)) (Z.shiftr v 8))
  else Ok v.

Lemma determineNativeEndian_is machine : determineNativeEndian machine = Ok machine.
Proof. by destruct machine. Qed.

Lemma swap16 v : 0 <= v < 65536 →
  Z.lor (u16 (Z.shiftl v 8)) (Z.shiftr v 8) = (v mod 256) * 256 + v / 256.
Proof.
  intros Hv. rewrite <- (be16_val (v mod 256) (v / 256)) by dm_lia. unfold be16, u16.
  rewrite !Z.shiftl_mul_pow2, Z.shiftr_div_pow2 by lia. change (2 ^ 16) with (256 * 256).
  change (2 ^ 8) with 256. by rewrite Zmult_mod_distr_r.
Qed.

(** [htons] on any machine: the integer whose bytes in memory are the given
    one's in network order. *)
Lemma htons_network machine v : 0 <= v < 65536 →
  ∃ w, htons machine v = Ok w ∧ 0 <= w < 65536 ∧ store16 machine w = [v / 256; v mod 256] ∧
    htons machine w = Ok v.
Proof.
  intros Hv. unfold htons. rewrite determineNativeEndian_is. cbn [mbind outcome_bind].
  destruct machine; cbn [store16].
  - rewrite !bool_decide_true by done. rewrite swap16 by done. eexists. split; [done |].
    assert (0 <= v mod 256 * 256 + v / 256 < 65536) as Hw by dm_lia. split; [done |].
    rewrite swap16 by done. split; [| f_equal; dm_lia].
    f_equal; [dm_lia |]. f_equal. dm_lia.
  - rewrite !bool_decide_false by done. by exists v.
Qed.

(** ** Interfaces and raw sockets *)
Record interface : Type := mkInterface {
  if_Index : Z; if_Name : string; if_HardwareAddr : bytes; if_Flags : Z;
}.
Definition FlagPointToPoint : Z := 8.

Record SockaddrLinklayer : Type := mkSockaddrLinklayer { sll_Protocol : Z; sll_Ifindex : Z }.

(** A socket of the process. *)
Record socket : Type := mkSocket {
  so_domain : Z; so_type : Z; so_proto : Z;
  so_bound : option SockaddrLinklayer;
  so_filter : option (list BPFInstruction);
}.
Definition sockets : Type := gmap Z socket.

Definition AF_PACKET : Z := 17.
Definition SOCK_RAW : Z := 3.
Definition ETH_P_ALL : Z := 3.

Definition EBADF : error := ErrText "bad file descriptor".

(** What the system decides: the descriptor of a new socket or an error, the
    errors of the other calls, the interface with an index, the byte order. A
    new descriptor is not in use. *)
Class Unix : Type := {
  native_endian : ByteOrder;
  socket_fd : sockets → Z → Z → Z → error + Z;
  bind_err : sockets → Z → SockaddrLinklayer → option error;
  attach_err : sockets → Z → list BPFInstruction → option error;
  detach_err : sockets → Z → option error;
  sendto_err : sockets → Z → bytes → SockaddrLinklayer → option error;
  interface_by_index : Z → error + interface;
  socket_fd_fresh ss domain type proto fd :
    socket_fd ss domain type proto = inr fd → ss !! fd = None;
}.

(** A computation on the sockets. *)
Definition sock_m (A : Type) : Type := sockets → outcome error A * sockets.
#[export] Instance sock_ret : MRet sock_m := λ A a ss, (Ok a, ss).
#[export] Instance sock_bind : MBind sock_m := λ A B f m ss,
  let '(r, ss) := m ss in
  match r with
  | Ok a => f a ss
  | Err er => (Err er, ss)
  | Panic => (Panic, ss)
  | Diverge => (Diverge, ss)
  end.
Definition lift_s {A} (r : outcome error A) : sock_m A := λ ss, (r, ss).
(** The result of a computation as a value, errors included. *)
Definition tried {A} (m : sock_m A) : sock_m (outcome error A) := λ ss,
  let '(r, ss) := m ss in (Ok r, ss).

Section LinuxHandle.
Context {U : Unix}.

(** ** The system calls *)
Definition Socket (domain type proto : Z) : sock_m Z := λ ss,
  match socket_fd ss domain type proto with
  | inl er => (Err er, ss)
  | inr fd => (Ok fd, <[fd := mkSocket domain type proto None None]> ss)
  end.

(** A call on an open descriptor, which changes its socket unless it fails. *)
Definition on_socket (fd : Z) (err : sockets → option error) (f : socket → socket) : sock_m unit := λ ss,
  match ss !! fd with
  | None => (Err EBADF, ss)
  | Some so => match err ss with Some er => (Err er, ss) | None => (Ok tt, <[fd := f so]> ss) end
  end.

Definition Bind (fd : Z) (sll : SockaddrLinklayer) : sock_m unit :=
  on_socket fd (λ ss, bind_err ss fd sll)
    (λ so, mkSocket (so_domain so) (so_type so) (so_proto so) (Some sll) (so_filter so)).
Definition set_filter (f : option (list BPFInstruction)) (so : socket) : socket :=
  mkSocket (so_domain so) (so_type so) (so_proto so) (so_bound so) f.
Definition SetsockoptSockFprog (fd : Z) (prog : list BPFInstruction) : sock_m unit :=
  on_socket fd (λ ss, attach_err ss fd prog) (set_filter (Some prog)).
Definition SetsockoptDetach (fd : Z) : sock_m unit :=
  on_socket fd (λ ss, detach_err ss fd) (set_filter None).
Definition Sendto (fd : Z) (data : bytes) (sll : SockaddrLinklayer) : sock_m unit :=
  on_socket fd (λ ss, sendto_err ss fd data sll) (λ so, so).
Definition sys_Close (fd : Z) : sock_m unit := λ ss, (Ok tt, delete fd ss).

(** [recvfrom]: the packet [pkt] that arrives is cut at the length of the
    buffer; the bytes after it stay as they were. *)
Definition Recvfrom (fd : Z) (buf : bytes) (arrived : error + bytes) : sock_m (Z * bytes) := λ ss,
  match ss !! fd, arrived with
  | None, _ => (Err EBADF, ss)
  | Some _, inl er => (Err er, ss)
  | Some _, inr pkt =>
    let n := Z.min (len pkt) (len buf) in
    (Ok (n, take (Z.to_nat n) pkt ++ drop (Z.to_nat n) buf), ss)
  end.

(** ** The handle *)
Record LinuxHandle : Type := mkLinuxHandle { fd : Z; ifIndex : Z; buf : bytes }.

Definition bindIndex (iface : option interface) : Z :=
  match iface with
  | Some i => if bool_decide (if_Name i ≠ "any") then if_Index i else 0
  | None => 0
  end.

Definition NewHandle (iface : option interface) : sock_m LinuxHandle :=
  proto ← lift_s (htons native_endian ETH_P_ALL);
  r ← tried (Socket AF_PACKET SOCK_RAW proto);
  match r with
  | Err er => lift_s (Err (ErrWrap "failed to open raw socket: " er))
  | Ok fd =>
    r ← tried (Bind fd (mkSockaddrLinklayer proto (bindIndex iface)));
    match r with
    | Err er => sys_Close fd;; lift_s (Err (ErrWrap "failed to bind raw socket: " er))
    | Ok _ => mret (mkLinuxHandle fd (bindIndex iface) (replicate 65535 0))
    | Panic => lift_s Panic
    | Diverge => lift_s Diverge
    end
  | Panic => lift_s Panic
  | Diverge => lift_s Diverge
  end.

(** [gopacket.CaptureInfo], the time left out. *)
Record CaptureInfo : Type := mkCaptureInfo { CaptureLength : Z; Length : Z }.

(** The copied data, its description, and the handle with its buffer. *)
Definition ReadPacketData (h : LinuxHandle) (arrived : error + bytes) :
    sock_m (bytes * CaptureInfo * LinuxHandle) :=
  r ← Recvfrom (fd h) (buf h) arrived;
  let '(n, buf') := r in
  src ← lift_s (slice_chk buf' 0 n);
  let data := take (Z.to_nat n) src ++ drop (length src) (replicate (Z.to_nat n) 0) in
  mret (data, mkCaptureInfo n n, mkLinuxHandle (fd h) (ifIndex h) buf').

Definition WritePacketData (h : LinuxHandle) (data : bytes) : sock_m unit :=
  Sendto (fd h) data (mkSockaddrLinklayer 0 (ifIndex h)).

Definition LinkTypeLinuxSLL : Bpf.LinkType := LinkTypeOther 113.

Definition LinkType (h : LinuxHandle) : Bpf.LinkType :=
  if ifIndex h =? 0 then LinkTypeLinuxSLL
  else
    match interface_by_index (ifIndex h) with
    | inl _ => LinkTypeEthernet
    | inr iface =>
      if (len (if_HardwareAddr iface) =? 0) || negb (Z.land (if_Flags iface) FlagPointToPoint =? 0)
      then LinkTypeRaw else LinkTypeEthernet
    end.

Definition Close (h : LinuxHandle) : sock_m unit := sys_Close (fd h).

(** The loop that converts the program: [filter[i] = ...]. *)
Fixpoint convert (raw : list BPFInstruction) (i : nat) (filter : list BPFInstruction) : list BPFInstruction :=
  match raw with
  | [] => filter
  | r :: raw => convert raw (S i) (<[i := mkInstr (Op r) (Jt r) (Jf r) (K r)]> filter)
  end.

(** The kernel reads [Len] instructions from [&filter[0]]. *)
Definition SetBPFRawInstructionFilter (h : LinuxHandle) (raw : list BPFInstruction) : sock_m unit :=
  let filter := convert raw 0 (replicate (length raw) (mkInstr 0 0 0 0)) in
  _ ← lift_s (index filter 0);
  SetsockoptSockFprog (fd h) (take (Z.to_nat (u16 (len filter))) filter).

Definition ClearBPF (h : LinuxHandle) : sock_m unit := SetsockoptDetach (fd h).

(** [StartCapturing] of the sniffers, before their goroutine: errors ignored. *)
Definition StartCapturing (generate : Bpf.LinkType → list BPFInstruction) (h : LinuxHandle) : sock_m unit :=
  _ ← tried (ClearBPF h);
  r ← tried (SetBPFRawInstructionFilter h (generate (LinkType h)));
  match r with Panic => lift_s Panic | _ => mret tt end.

(** ** Lemmas on the calls *)
Lemma convert_app pre raw x :
  convert raw (length pre) (pre ++ replicate (length raw) x) = pre ++ raw.
Proof.
  revert pre. induction raw as [| r raw IH]; intros pre; [done |]. cbn [convert length replicate].
  rewrite insert_app_r_alt, Nat.sub_diag by lia. cbn [insert list_insert].
  specialize (IH (pre ++ [r])). rewrite length_app, <- !app_assoc, Nat.add_1_r in IH.
  destruct r. exact IH.
Qed.

Lemma convert_id raw x : convert raw 0 (replicate (length raw) x) = raw.
Proof. apply (convert_app []). Qed.

Lemma on_socket_cases fd err f ss so : ss !! fd = Some so →
  on_socket fd err f ss =
    match err ss with Some er => (Err er, ss) | None => (Ok tt, <[fd := f so]> ss) end.
Proof. intros E. unfold on_socket. by rewrite E. Qed.

(** Attaching a program that is not empty and fits 16 bits attaches it whole. *)
Lemma SetBPF_attaches h raw ss : 0 < len raw < 65536 →
  SetBPFRawInstructionFilter h raw ss = SetsockoptSockFprog (fd h) raw ss.
Proof.
  intros Hlen. unfold SetBPFRawInstructionFilter. rewrite convert_id.
  destruct (index_ok (E:=error) raw 0) as (x & _ & Hx); [lia |].
  unfold mbind, sock_bind, lift_s. rewrite Hx. unfold u16. rewrite Z.mod_small by (change (2 ^ 16) with 65536; lia).
  unfold len. by rewrite Nat2Z.id, firstn_all.
Qed.

(** An empty program makes the handle panic at [&filter[0]]. *)
Lemma SetBPF_empty h ss : (SetBPFRawInstructionFilter h [] ss).1 = Panic.
Proof. done. Qed.

(** ** The life of a handle *)

(** Opening a handle either fails and leaves no socket behind, or returns the
    descriptor of one new raw socket, which receives every protocol, is bound
    to the interface asked for, and has no filter yet. *)
Lemma NewHandle_owns iface ss :
  match NewHandle iface ss with
  | (Ok h, ss') => ∃ w, store16 native_endian w = put_be16 ETH_P_ALL ∧
      ss !! fd h = None ∧ ifIndex h = bindIndex iface ∧ len (buf h) = 65535 ∧
      ss' = <[fd h := mkSocket AF_PACKET SOCK_RAW w (Some (mkSockaddrLinklayer w (ifIndex h))) None]> ss
  | (Err _, ss') => ss' = ss
  | _ => False
  end.
Proof.
  destruct (htons_network native_endian ETH_P_ALL) as (w & Hw & _ & Hst & _); [unfold ETH_P_ALL; lia |].
  unfold NewHandle, mbind, sock_bind, lift_s. rewrite Hw. unfold tried, Socket.
  destruct (socket_fd ss AF_PACKET SOCK_RAW w) as [er | fd0] eqn:Ef; [done |].
  apply socket_fd_fresh in Ef. unfold Bind.
  erewrite on_socket_cases by apply lookup_insert_eq. destruct (bind_err _ _ _) as [er |].
  - cbn [sys_Close]. unfold sys_Close. by apply delete_insert_id.
  - exists w. rewrite put_be16_val by (unfold ETH_P_ALL; lia). cbn [fd ifIndex buf mret sock_ret].
    split; [exact Hst |]. split; [done |]. split; [done |]. split; [done |].
    apply insert_insert_eq.
Qed.

(** Starting the capture changes the filter of the handle's socket and nothing
    else: it is the generated program, or none when the system refuses it. *)
Lemma StartCapturing_filters generate h ss so : 0 < len (generate (LinkType h)) < 65536 →
  ss !! fd h = Some so → so_filter so = None →
  ∃ f, StartCapturing generate h ss = (Ok tt, <[fd h := set_filter f so]> ss) ∧
    match f with
    | Some p => p = generate (LinkType h)
    | None => ∃ ss' er, attach_err ss' (fd h) (generate (LinkType h)) = Some er
    end.
Proof.
  intros Hlen Hso Hnone. unfold StartCapturing, ClearBPF, mbind, sock_bind, tried, SetsockoptDetach.
  rewrite (on_socket_cases _ _ _ _ so Hso).
  assert (<[fd h := so]> ss = ss) as Hid by by apply insert_id.
  assert (set_filter None so = so) as Hsf by (destruct so; simpl in *; by subst).
  rewrite Hsf, Hid.
  assert (match detach_err ss (fd h) with Some er => (Err er, ss) | None => (Ok tt, ss) end =
    (match detach_err ss (fd h) with Some er => Err er | None => Ok tt end, ss)) as -> by by case_match.
  rewrite SetBPF_attaches by done. unfold SetsockoptSockFprog. rewrite (on_socket_cases _ _ _ _ so Hso).
  destruct (attach_err ss (fd h) _) as [er |] eqn:Ea.
  - exists None. rewrite Hsf, Hid. split; [done |]. by exists ss, er.
  - by exists (Some (generate (LinkType h))).
Qed.

(** The packets a socket lets through. *)
Definition receives `{BPFMachine} (so : socket) (pkt : bytes) : bool :=
  match so_filter so with Some prog => accepts prog pkt | None => true end.

Definition generate_filter (udp : bool) : Bpf.LinkType → list BPFInstruction :=
  if udp then generateUdpFilter else generateSynAckFilter.

Lemma generate_filter_len udp lt : 0 < len (generate_filter udp lt) < 65536.
Proof.
  unfold generate_filter, generateUdpFilter, generateSynAckFilter.
  destruct udp, (decide (lt = LinkTypeEthernet)); vm_compute; done.
Qed.

(** C25. A capture handle from opening to closing. Opening one and starting a
    sniffer on it either fails and leaves the sockets of the process as they
    were, or adds one raw packet socket, bound to the interface and receiving
    every protocol (the protocol number is in network order on machines of
    either byte order), with the whole filter of the sniffer for the link type
    of the interface; if the system refuses the filter the socket has none and
    lets every packet through. Closing it gives back the sockets there were. *)
Theorem handle_lifecycle `{BPFMachine} (udp : bool) (iface : option interface) (ss : sockets) :
  match (h ← NewHandle iface; StartCapturing (generate_filter udp) h;; mret h) ss with
  | (Ok h, ss') => ∃ so w,
      ss !! fd h = None ∧ ss' = <[fd h := so]> ss ∧ (Close h ss').2 = ss ∧
      so_domain so = AF_PACKET ∧ so_type so = SOCK_RAW ∧ so_proto so = w ∧
      store16 native_endian w = put_be16 ETH_P_ALL ∧
      so_bound so = Some (mkSockaddrLinklayer w (bindIndex iface)) ∧
      ((∀ pkt, receives so pkt = accepts (generate_filter udp (LinkType h)) pkt) ∨
       (∀ pkt, receives so pkt = true) ∧
       ∃ ss0 er, attach_err ss0 (fd h) (generate_filter udp (LinkType h)) = Some er)
  | (Err _, ss') => ss' = ss
  | _ => False
  end.
Proof.
  pose proof (NewHandle_owns iface ss) as Hn. unfold mbind at 1, sock_bind at 1.
  destruct (NewHandle iface ss) as [[h | er | |] ss1]; try done.
  destruct Hn as (w & Hw & Hfresh & Hidx & _ & ->).
  set (so := mkSocket AF_PACKET SOCK_RAW w _ None).
  destruct (StartCapturing_filters (generate_filter udp) h (<[fd h := so]> ss) so) as (f & Hf & Hcase);
    [apply generate_filter_len | apply lookup_insert_eq | done |].
  unfold mbind, sock_bind. rewrite Hf. cbn [mret sock_ret]. exists (set_filter f so), w.
  assert (<[fd h := set_filter f so]> (<[fd h := so]> ss) = <[fd h := set_filter f so]> ss) as -> by apply insert_insert_eq.
  split; [done |]. split; [done |].
  split; [unfold Close, sys_Close; cbn [snd]; by apply delete_insert_id |].
  split; [done |]. split; [done |]. split; [done |]. split; [done |].
  split; [cbn; by rewrite Hidx |].
  destruct f as [p |]; [left | right]; cbn [receives set_filter so_filter]; [by subst p | done].
Qed.

(** Reading through a handle. A read returns a fresh copy of the packet that
    arrived, cut at 65535 bytes, with its length as both lengths; what earlier
    reads left in the buffer is never part of it, and the buffer keeps its
    size, so the next read can be as long. *)
Theorem ReadPacketData_exact (h : LinuxHandle) (ss : sockets) (so : socket) (pkt : bytes) :
  ss !! fd h = Some so → len (buf h) = 65535 →
  ∃ h', ReadPacketData h (inr pkt) ss =
      (Ok (take (Z.to_nat 65535) pkt, mkCaptureInfo (len (take (Z.to_nat 65535) pkt)) (len (take (Z.to_nat 65535) pkt)), h'), ss) ∧
    fd h' = fd h ∧ ifIndex h' = ifIndex h ∧ len (buf h') = 65535.
Proof.
  intros Hso Hbuf. unfold ReadPacketData, mbind, sock_bind, Recvfrom. rewrite Hso, Hbuf. cbn [lift_s].
  set (n := Z.min (len pkt) 65535). set (data := take (Z.to_nat n) pkt).
  assert (take (Z.to_nat 65535) pkt = data) as Hd.
  { unfold data, n. destruct (Z.le_ge_cases (len pkt) 65535) as [Hc | Hc].
    - rewrite Z.min_l by done. unfold len in *. rewrite Nat2Z.id, firstn_all. apply take_ge. lia.
    - rewrite Z.min_r by done. done. }
  assert (len data = n) as Hn by (unfold data, n, len in *; rewrite length_take; lia).
  assert (0 <= n) as Hn0 by (unfold n; pose proof (len_nonneg pkt); lia).
  set (buf' := data ++ drop (Z.to_nat n) (buf h)).
  assert (len buf' = 65535) as Hb by (unfold buf'; unfold len, n in *; rewrite length_app, length_drop; lia).
  unfold lift_s. rewrite slice_chk_ok by (unfold n in *; lia).
  assert (slice buf' 0 n = data) as -> by (unfold buf'; rewrite <- Hn; apply slice_app_l).
  assert (Z.to_nat n = length data) as Hl by (unfold len in Hn; lia).
  rewrite Hl, firstn_all, drop_ge, app_nil_r by (rewrite length_replicate; lia).
  exists (mkLinuxHandle (fd h) (ifIndex h) buf'). rewrite Hd, Hn. done.
Qed.
End LinuxHandle.

(** With the device of all interfaces a handle reports cooked frames, whose
    header has sixteen bytes and the EtherType in its last two. The filters take
    the IP header to start at byte fourteen, so an IPv4 packet of such a frame
    (EtherType 0x0800) never passes the UDP filter. *)
Lemma any_device_misaligned `{BPFMachine} `{Unix} h pkt :
  ifIndex h = 0 → ldb pkt 14 = Some 0x08 → accepts (generateUdpFilter (LinkType h)) pkt = false.
Proof.
  intros Hi Hb. unfold LinkType. rewrite Hi. cbn [Z.eqb].
  by apply (udp_filter_rejects_version _ _ 0x08).
Qed.

(** ** The pcap handles of the other systems *)
Inductive pcap_call : Type :=
| PNewInactive (name : string)
| PSetSnapLen (n : Z)
| PSetImmediateMode (b : bool)
| PActivate
| PCleanUp                     (* of the inactive handle *)
| PSetBPFInstructionFilter (prog : list BPFInstruction)
| PSetBPFFilter (expr : string).

(** The errors of the library's calls, as a function of the call. *)
Section DefaultHandle.
Variable pcap_err : pcap_call → option error.

(** The calls in order, up to the first that fails; its error is returned. *)
Fixpoint pcap_calls (calls : list pcap_call) : outcome error unit * list pcap_call :=
  match calls with
  | [] => (Ok tt, [])
  | c :: calls =>
    match pcap_err c with
    | Some er => (Err er, [c])
    | None => let '(r, trace) := pcap_calls calls in (r, c :: trace)
    end
  end.

Definition NewHandle_default (iface : option interface) : outcome error unit * list pcap_call :=
  match iface with
  | None => (Panic, [])
  | Some i => pcap_calls [PNewInactive (if_Name i); PSetSnapLen 3200; PSetImmediateMode true; PActivate]
  end.

Fixpoint convert_default (inst converted : list BPFInstruction) : list BPFInstruction :=
  match inst with
  | [] => converted
  | v :: inst => convert_default inst (converted ++ [mkInstr (Op v) (Jt v) (Jf v) (K v)])
  end.
Definition SetBPFRawInstructionFilter_default (inst : list BPFInstruction) : outcome error unit * list pcap_call :=
  pcap_calls [PSetBPFInstructionFilter (convert_default inst [])].
Definition ClearBPF_default : outcome error unit * list pcap_call := pcap_calls [PSetBPFFilter ""].

Lemma convert_default_app inst converted : convert_default inst converted = converted ++ inst.
Proof.
  revert converted. induction inst as [| v inst IH]; intros converted; cbn [convert_default];
    [by rewrite app_nil_r |]. rewrite IH, <- app_assoc. by destruct v.
Qed.

(** A pcap handle is opened in immediate mode with packets of up to 3200
    bytes, and the filter reaches the library unchanged. When a call fails the
    ones after it are not made; the inactive handle is then not cleaned up. *)
Lemma default_handle_calls (i : interface) (inst : list BPFInstruction) :
  let '(r, trace) := NewHandle_default (Some i) in
  trace `prefix_of` [PNewInactive (if_Name i); PSetSnapLen 3200; PSetImmediateMode true; PActivate] ∧
  (r = Ok tt ↔ length trace = 4%nat ∧ Forall (λ c, pcap_err c = None) trace) ∧ PCleanUp ∉ trace ∧
  (SetBPFRawInstructionFilter_default inst).2 = [PSetBPFInstructionFilter inst].
Proof.
  unfold NewHandle_default, SetBPFRawInstructionFilter_default. rewrite convert_default_app. cbn [app pcap_calls].
  assert ((match pcap_err (PSetBPFInstructionFilter inst) with
           | Some er => (Err er, [PSetBPFInstructionFilter inst])
           | None => (Ok tt, [PSetBPFInstructionFilter inst]) end).2 = [PSetBPFInstructionFilter inst]) as ->
    by by case_match.
  repeat match goal with |- context [match pcap_err ?c with _ => _ end] => destruct (pcap_err c) eqn:? end;
    (split; [repeat apply prefix_cons; apply prefix_nil |]); (split; [| split; [rewrite !elem_of_cons, elem_of_nil; naive_solver | done]]);
    rewrite ?Forall_cons, ?Forall_nil; naive_solver.
Qed.
End DefaultHandle.

(** ** An instance of the system, and the witnesses *)
#[export, refine] Instance unix_example : Unix := {|
  native_endian := LittleEndian;
  socket_fd ss _ _ _ := inr (fresh (dom ss : gset Z));
  bind_err _ _ _ := None; attach_err _ _ _ := None; detach_err _ _ := Some (ErrText "no such file");
  sendto_err _ _ _ _ := None;
  interface_by_index i :=
    if i =? 7 then inr (mkInterface 7 "wg0" [] FlagPointToPoint)
    else if i =? 2 then inr (mkInterface 2 "eth0" [2; 0; 0; 0; 0; 1] 0)
    else inl (ErrText "no such network interface");
|}.
Proof. intros ss ? ? ? fd [= <-]. apply not_elem_of_dom, is_fresh. Defined.

Lemma handle_lifecycle_witness :
  ∃ h ss', (h ← NewHandle (Some (mkInterface 7 "wg0" [] 0));
            StartCapturing (generate_filter true) h;; mret h) ∅ = (Ok h, ss') ∧
    LinkType h = LinkTypeRaw ∧ (Close h ss').2 = ∅ ∧ ss' !! fd h ≠ None.
Proof.
  pose proof (handle_lifecycle true (Some (mkInterface 7 "wg0" [] 0)) ∅) as H.
  assert ((match (h ← NewHandle (Some (mkInterface 7 "wg0" [] 0));
      StartCapturing (generate_filter true) h;; mret h) ∅ with (Ok h, _) => ifIndex h | _ => 0 end) = 7) as Hi
    by by vm_compute.
  destruct ((h ← NewHandle (Some (mkInterface 7 "wg0" [] 0)); StartCapturing (generate_filter true) h;; mret h) ∅)
    as [[h | er | |] ss'] eqn:E; [| discriminate Hi | discriminate Hi | discriminate Hi].
  destruct H as (so & w & _ & -> & Hc & _). exists h, (<[fd h := so]> ∅). split; [done |].
  split; [unfold LinkType; rewrite Hi; reflexivity |]. split; [exact Hc |].
  assert ((<[fd h := so]> (∅ : sockets)) !! fd h = Some so) as -> by apply lookup_insert_eq. done.
Defined.

Lemma ReadPacketData_exact_witness :
  ∃ h', (ReadPacketData (mkLinuxHandle 5 2 (replicate (Z.to_nat 65535) 9)) (inr [1; 2; 3])
    {[5 := mkSocket AF_PACKET SOCK_RAW 768 None None]}).1 = Ok ([1; 2; 3], mkCaptureInfo 3 3, h').
Proof.
  destruct (ReadPacketData_exact (mkLinuxHandle 5 2 (replicate (Z.to_nat 65535) 9))
    {[5 := mkSocket AF_PACKET SOCK_RAW 768 None None]} (mkSocket AF_PACKET SOCK_RAW 768 None None) [1; 2; 3])
    as (h' & E & _); [by apply lookup_singleton_eq | | exists h'; by rewrite E].
  unfold len. cbn [buf]. rewrite length_replicate. lia.
Defined.
