(* ===== verification/Writer.v ===== *)
(** * Crafted packets: [internal/packet/tcp_writer.go] and [udp_writer.go]

    A writer builds the layers of a fake packet and injects it on the capture
    handle. The packet library that serializes the layers and the handle that
    sends the bytes are parameters. *)

From S2P Require Import Prelude GoIO GoNet.

(** The layers the writers build, with the fields they set. *)
Inductive IPProtocol : Type := IPProtocolTCP | IPProtocolUDP.
Inductive EthernetType : Type := EthernetTypeIPv4 | EthernetTypeIPv6.

Inductive layer : Type :=
| LEthernet (SrcMAC DstMAC : bytes) (type : EthernetType)
| LIPv4 (Version TTL : Z) (Protocol : IPProtocol) (SrcIP DstIP : IP)
| LIPv6 (Version HopLimit : Z) (NextHeader : IPProtocol) (SrcIP DstIP : IP)
| LTCP (SrcPort DstPort Seq Ack : Z) (psh ack : bool) (Window : Z)
| LUDP (SrcPort DstPort : Z)
| LPayload (data : bytes).

(** The capture route: the interface's address and the gateway's, absent for
    interfaces without a link layer. *)
Record Route : Type := mkRoute {
  route_HardwareAddr : option bytes;
  GatewayMAC : option bytes;
}.

Section Writer.
(** [SetNetworkLayerForChecksum], [gopacket.SerializeLayers] and the handle's
    [WritePacketData]. *)
Variable set_checksum : layer → option error.
Variable serialize : list layer → outcome error bytes.
Variable write_data : bytes → option error.

Definition eth_layers (r : Route) (t : EthernetType) : list layer :=
  match route_HardwareAddr r, GatewayMAC r with
  | Some srcMAC, Some dstMAC => [LEthernet srcMAC dstMAC t]
  | _, _ => []
  end.

(** [if err := l.SetNetworkLayerForChecksum(ip); err != nil { ... }] *)
Definition checked (ip : layer) (ls : list layer) : outcome error (list layer) :=
  match set_checksum ip with Some e => Err e | None => Ok ls end.

Definition tcp_layer (srcPort dstPort seq ack : Z) : layer :=
  LTCP (u16 srcPort) (u16 dstPort) seq ack true true 12345.

Definition tcp_createIPv4Layers (r : Route) (srcIP dstIP : IP) (srcPort dstPort ttl seq ack : Z)
    : outcome error (list layer) :=
  let ipLayer := LIPv4 4 ttl IPProtocolTCP srcIP dstIP in
  checked ipLayer
    (eth_layers r EthernetTypeIPv4 ++ [ipLayer; tcp_layer srcPort dstPort seq ack]).

Definition tcp_createIPv6Layers (r : Route) (srcIP dstIP : IP) (srcPort dstPort ttl seq ack : Z)
    : outcome error (list layer) :=
  let ipLayer := LIPv6 6 ttl IPProtocolTCP srcIP dstIP in
  checked ipLayer
    (eth_layers r EthernetTypeIPv6 ++ [ipLayer; tcp_layer srcPort dstPort seq ack]).

Definition udp_createIPv4Layers (r : Route) (srcIP dstIP : IP) (srcPort dstPort ttl : Z)
    : outcome error (list layer) :=
  let ipLayer := LIPv4 4 ttl IPProtocolUDP srcIP dstIP in
  checked ipLayer
    (eth_layers r EthernetTypeIPv4 ++ [ipLayer; LUDP (u16 srcPort) (u16 dstPort)]).

Definition udp_createIPv6Layers (r : Route) (srcIP dstIP : IP) (srcPort dstPort ttl : Z)
    : outcome error (list layer) :=
  let ipLayer := LIPv6 6 ttl IPProtocolUDP srcIP dstIP in
  checked ipLayer
    (eth_layers r EthernetTypeIPv6 ++ [ipLayer; LUDP (u16 srcPort) (u16 dstPort)]).

(** Serialization and injection: the result and the frame handed to the
    handle. *)
Definition inject (ls : outcome error (list layer)) (payload : bytes)
    : outcome error Z * list bytes :=
  match ls ≫= λ ls, serialize (ls ++ [LPayload payload]) with
  | Ok data =>
    match write_data data with
    | Some e => (Err e, [])
    | None => (Ok (len payload), [data])
    end
  | Err e => (Err e, [])
  | Panic => (Panic, [])
  | Diverge => (Diverge, [])
  end.

(** The TCP writer; [seq] and [ack] are the two draws of [rand.Uint32]. Its
    IPv6 branch passes the source address twice. *)
Definition tcp_WriteCraftedPacket (r : Route) (seq ack : Z) (src dst : Addr) (ttl : Z)
    (payload : bytes) : outcome error Z * list bytes :=
  match src with
  | ATCP srcTCP =>
    match dst with
    | ATCP dstTCP =>
      let srcPort := addr_Port srcTCP in
      let dstPort := addr_Port dstTCP in
      let packetLayers :=
        match To4 (addr_IP dstTCP) with
        | Some _ =>
          tcp_createIPv4Layers r (addr_IP srcTCP) (addr_IP dstTCP) srcPort dstPort ttl seq ack
        | None =>
          tcp_createIPv6Layers r (addr_IP srcTCP) (addr_IP srcTCP) srcPort dstPort ttl seq ack
        end in
      inject packetLayers payload
    | AUDP _ => (Err (ErrText "dst is not *net.TCPAddr"), [])
    end
  | AUDP _ => (Err (ErrText "src is not *net.TCPAddr"), [])
  end.

Definition udp_WriteCraftedPacket (r : Route) (src dst : Addr) (ttl : Z) (payload : bytes)
    : outcome error Z * list bytes :=
  match src with
  | AUDP srcUDP =>
    match dst with
    | AUDP dstUDP =>
      let srcPort := addr_Port srcUDP in
      let dstPort := addr_Port dstUDP in
      let packetLayers :=
        match To4 (addr_IP dstUDP) with
        | Some _ => udp_createIPv4Layers r (addr_IP srcUDP) (addr_IP dstUDP) srcPort dstPort ttl
        | None => udp_createIPv6Layers r (addr_IP srcUDP) (addr_IP dstUDP) srcPort dstPort ttl
        end in
      inject packetLayers payload
    | ATCP _ => (Err (ErrText "dst is not *net.UDPAddr"), [])
    end
  | ATCP _ => (Err (ErrText "src is not *net.UDPAddr"), [])
  end.

(** The IP header of a stack of layers: TTL, source, destination. *)
Fixpoint ip_header (ls : list layer) : option (Z * IP * IP) :=
  match ls with
  | [] => None
  | LIPv4 _ ttl _ s d :: _ | LIPv6 _ ttl _ s d :: _ => Some (ttl, s, d)
  | _ :: ls => ip_header ls
  end.

Fixpoint ports (ls : list layer) : option (Z * Z) :=
  match ls with
  | [] => None
  | LTCP s d _ _ _ _ _ :: _ | LUDP s d :: _ => Some (s, d)
  | _ :: ls => ports ls
  end.

Lemma inject_ok ls payload n sent :
  inject ls payload = (Ok n, sent) →
  n = len payload ∧ ∃ l data, ls = Ok l ∧ serialize (l ++ [LPayload payload]) = Ok data ∧
    sent = [data].
Proof.
  unfold inject. intros H. destruct ls as [l | e | |]; simpl in H; try done.
  destruct (serialize (l ++ [LPayload payload])) as [data | e | |] eqn:Hs; try done.
  destruct (write_data data); [done |]. injection H as <- <-. eauto 6.
Qed.

Lemma inject_failed ls payload sent :
  (inject ls payload).2 = sent → (∀ n, (inject ls payload).1 ≠ Ok n) → sent = [].
Proof.
  intros <- Hn. unfold inject in *. repeat case_match; simpl in *; try done.
  by destruct (Hn (len payload)).
Qed.

Lemma checked_Ok ip ls l : checked ip ls = Ok l → l = ls.
Proof. unfold checked. case_match; congruence. Qed.

Lemma ip_header_eth r t ls : ip_header (eth_layers r t ++ ls) = ip_header ls.
Proof. unfold eth_layers. by repeat case_match. Qed.
Lemma ports_eth r t ls : ports (eth_layers r t ++ ls) = ports ls.
Proof. unfold eth_layers. by repeat case_match. Qed.

(** A UDP fake that is reported sent is one frame, addressed from the
    given source to the given destination (addresses and ports, IPv4 and
    IPv6) with exactly the TTL asked for, carrying the payload; a failure
    sends nothing, and an address of the wrong network is refused. *)
Theorem udp_crafted_packet (r : Route) (src dst : Addr) (ttl : Z) (payload : bytes) :
  let '(res, sent) := udp_WriteCraftedPacket r src dst ttl payload in
  match res with
  | Ok n =>
    ∃ s d ls data, src = AUDP s ∧ dst = AUDP d ∧ n = len payload ∧ sent = [data] ∧
      serialize (ls ++ [LPayload payload]) = Ok data ∧
      ip_header ls = Some (ttl, addr_IP s, addr_IP d) ∧
      ports ls = Some (u16 (addr_Port s), u16 (addr_Port d))
  | _ => sent = []
  end.
Proof.
  destruct (udp_WriteCraftedPacket r src dst ttl payload) as [res sent] eqn:H.
  unfold udp_WriteCraftedPacket in H.
  destruct src as [s | s]; [by simplify_eq |]. destruct dst as [d | d]; [by simplify_eq |].
  destruct res as [n | e | |].
  2-4: by eapply inject_failed; [by rewrite H | rewrite H].
  apply inject_ok in H as (-> & ls & data & Hl & Hs & ->).
  exists s, d, ls, data. split_and!; [done.. | |];
    destruct (To4 (addr_IP d)); unfold udp_createIPv4Layers, udp_createIPv6Layers in Hl;
    apply checked_Ok in Hl as ->; by rewrite ?ip_header_eth, ?ports_eth.
Qed.

(** A TCP fake to an IPv4 destination that is reported sent is one frame
    from the given source to the given destination with exactly the TTL asked
    for, carrying the payload; a failure sends nothing. *)
Theorem tcp_crafted_packet (r : Route) (seq ack : Z) (src dst : Addr) (ttl : Z)
    (payload : bytes) :
  let '(res, sent) := tcp_WriteCraftedPacket r seq ack src dst ttl payload in
  match res with
  | Ok n =>
    ∃ s d ls data, src = ATCP s ∧ dst = ATCP d ∧ n = len payload ∧ sent = [data] ∧
      serialize (ls ++ [LPayload payload]) = Ok data ∧
      (is_Some (To4 (addr_IP d)) → ip_header ls = Some (ttl, addr_IP s, addr_IP d)) ∧
      ports ls = Some (u16 (addr_Port s), u16 (addr_Port d))
  | _ => sent = []
  end.
Proof.
  destruct (tcp_WriteCraftedPacket r seq ack src dst ttl payload) as [res sent] eqn:H.
  unfold tcp_WriteCraftedPacket in H.
  destruct src as [s | s]; [| by simplify_eq]. destruct dst as [d | d]; [| by simplify_eq].
  destruct res as [n | e | |].
  2-4: by eapply inject_failed; [by rewrite H | rewrite H].
  apply inject_ok in H as (-> & ls & data & Hl & Hs & ->).
  exists s, d, ls, data. split_and!; [done.. | |].
  - intros [x Hx]. rewrite Hx in Hl. unfold tcp_createIPv4Layers in Hl.
    apply checked_Ok in Hl as ->. by rewrite ip_header_eth.
  - destruct (To4 (addr_IP d)); unfold tcp_createIPv4Layers, tcp_createIPv6Layers in Hl;
      apply checked_Ok in Hl as ->; by rewrite ports_eth.
Qed.

(** The destination of a TCP fake over IPv6 is its own source. *)
Lemma tcp_crafted_ipv6_destination r seq ack s d ttl payload n sent :
  To4 (addr_IP d) = None →
  tcp_WriteCraftedPacket r seq ack (ATCP s) (ATCP d) ttl payload = (Ok n, sent) →
  ∃ ls data, serialize (ls ++ [LPayload payload]) = Ok data ∧ sent = [data] ∧
    ip_header ls = Some (ttl, addr_IP s, addr_IP s).
Proof.
  intros H4 H. unfold tcp_WriteCraftedPacket in H. rewrite H4 in H.
  apply inject_ok in H as (-> & ls & data & Hl & Hs & ->). unfold tcp_createIPv6Layers in Hl.
  apply checked_Ok in Hl as ->. exists (eth_layers r EthernetTypeIPv6 ++
    [LIPv6 6 ttl IPProtocolTCP (addr_IP s) (addr_IP s);
     tcp_layer (addr_Port s) (addr_Port d) seq ack]), data.
  by rewrite ip_header_eth.
Qed.
End Writer.
