(* ===== verification/Desync.v ===== *)
(** * Desynchronization: [internal/desync/tls.go] (sending) and [udp.go],
      and [SetTTL] of [internal/netutil/conn.go]

    The functions that act on a connection are modelled as state passing over
    the trace of what they do: TTL changes, writes and injected fakes. What the
    kernel, the peer and the packet writer answer is an environment, indexed by
    the length of the trace so that two calls may get different answers. *)

From S2P Require Import Prelude GoIO GoNet Keys Tls ConfigTypes Split CacheApi LruCache Sniffer.

(** ** Connections and the world *)
Inductive sockopt_level : Type := IPPROTO_IP | IPPROTO_IPV6.
Inductive sockopt : Type := IP_TTL | IPV6_UNICAST_HOPS.

Inductive event : Type :=
| ESetTTL (level : sockopt_level) (opt : sockopt) (ttl : Z) (done : bool)
| EWrite (ttl : Z) (data : bytes)          (* the bytes that went out, with the socket's TTL *)
| EFake (src dst : Addr) (ttl : Z) (data : bytes).

Record world : Type := mkWorld { trace : list event; sock_ttl : Z }.

Record env : Type := mkEnv {
  sockopt_err : nat → option error;                   (* SyscallConn, Control, setsockopt *)
  write_res : nat → bytes → Z * option error;         (* conn.Write *)
  craft_res : nat → bytes → option error;             (* WriteCraftedPacket *)
}.

(** [net.Conn]: the dynamic types the program tells apart. *)
Inductive conn_kind : Type := CTracking (inner : conn_kind) | CTCP | COther.
Record conn : Type := mkConn {
  c_kind : conn_kind;
  LocalAddr : Addr;
  RemoteAddr : Addr;
}.

(** The contract of [io.Writer]: at most the whole buffer is written, and less
    than all of it only with an error. *)
Definition writes_ok (e : env) : Prop :=
  ∀ k b, 0 <= (write_res e k b).1 <= len b ∧
    ((write_res e k b).2 = None → (write_res e k b).1 = len b).

(** ** [SetTTL] *)
Definition SetTTL (e : env) (c : conn) (isIPv4 : bool) (ttl : Z) (w : world)
    : option error * world :=
  let kind := match c_kind c with CTracking inner => inner | k => k end in
  match kind with
  | CTCP =>
    let actualIPv4 :=
      match RemoteAddr c with
      | ATCP a => match To4 (addr_IP a) with Some _ => true | None => isIPv4 end
      | AUDP _ => isIPv4
      end in
    let '(level, opt) :=
      if actualIPv4 then (IPPROTO_IP, IP_TTL) else (IPPROTO_IPV6, IPV6_UNICAST_HOPS) in
    match sockopt_err e (length (trace w)) with
    | Some err => (Some err, mkWorld (trace w ++ [ESetTTL level opt ttl false]) (sock_ttl w))
    | None => (None, mkWorld (trace w ++ [ESetTTL level opt ttl true]) ttl)
    end
  | _ => (Some (ErrText "failed to cast to TCPConn"), w)
  end.

Definition Write (e : env) (b : bytes) (w : world) : Z * option error * world :=
  let '(n, err) := write_res e (length (trace w)) b in
  (n, err, mkWorld (trace w ++ [EWrite (sock_ttl w) (take (Z.to_nat n) b)]) (sock_ttl w)).

Definition getDefaultTTL : Z := 64.

(** ** [sendSegments] *)

(** [setTTLWrap]: an error is logged and remembered. *)
Definition setTTLWrap (e : env) (c : conn) (isIPv4 : bool) (ttl : Z) (ttlErrored : bool)
    (w : world) : bool * world :=
  let '(err, w) := SetTTL e c isIPv4 ttl w in
  (match err with Some _ => true | None => ttlErrored end, w).

Fixpoint send_loop (e : env) (c : conn) (isIPv4 : bool) (segments : list Segment)
    (ttlErrored : bool) (total : Z) (w : world) : Z * option error * world :=
  match segments with
  | [] => (total, None, w)
  | chunk :: segments =>
    let '(ttlErrored, w) :=
      if negb ttlErrored && Lazy chunk then setTTLWrap e c isIPv4 1 ttlErrored w
      else (ttlErrored, w) in
    let '(n, err, w) := Write e (Packet chunk) w in
    match err with
    | Some _ => (total + n, err, w)
    | None =>
      let '(ttlErrored, w) :=
        if negb ttlErrored && Lazy chunk then setTTLWrap e c isIPv4 getDefaultTTL ttlErrored w
        else (ttlErrored, w) in
      send_loop e c isIPv4 segments ttlErrored (total + n) w
    end
  end.

Definition sendSegments (e : env) (c : conn) (segments : list Segment) (w : world)
    : Z * option error * world :=
  let isIPv4 :=
    match LocalAddr c with
    | ATCP a => match To4 (addr_IP a) with Some _ => true | None => false end
    | AUDP _ => false
    end in
  send_loop e c isIPv4 segments false 0 w.

(** ** Fake packets *)
Definition WriteCraftedPacket (e : env) (src dst : Addr) (ttl : Z) (data : bytes) (w : world)
    : Z * option error * world :=
  match craft_res e (length (trace w)) data with
  | Some err => (0, Some err, w)
  | None => (len data, None, mkWorld (trace w ++ [EFake src dst ttl data]) (sock_ttl w))
  end.

Fixpoint fake_segments (e : env) (c : conn) (oTTL : Z) (segments : list Segment) (totalSent : Z)
    (w : world) : Z * option error * world :=
  match segments with
  | [] => (totalSent, None, w)
  | v :: segments =>
    let '(n, err, w) := WriteCraftedPacket e (LocalAddr c) (RemoteAddr c) oTTL (Packet v) w in
    match err with
    | Some _ => (totalSent, err, w)
    | None => fake_segments e c oTTL segments (totalSent + n) w
    end
  end.

Fixpoint fake_loop (e : env) (c : conn) (oTTL : Z) (segments : list Segment) (count : nat)
    (totalSent : Z) (w : world) : Z * option error * world :=
  match count with
  | O => (totalSent, None, w)
  | S count =>
    let '(totalSent, err, w) := fake_segments e c oTTL segments totalSent w in
    match err with
    | Some _ => (totalSent, err, w)
    | None => fake_loop e c oTTL segments count totalSent w
    end
  end.

(** ** What a trace does *)
Definition written_of (ev : event) : bytes := match ev with EWrite _ b => b | _ => [] end.
Definition written (tr : list event) : bytes := concat (written_of <$> tr).
Definition faked_of (ev : event) : bytes := match ev with EFake _ _ _ b => b | _ => [] end.
Definition faked (tr : list event) : bytes := concat (faked_of <$> tr).

Definition is_fake (src dst : Addr) (ttl : Z) (ev : event) : Prop :=
  match ev with EFake s d t _ => s = src ∧ d = dst ∧ t = ttl | _ => False end.
Definition not_fake (ev : event) : Prop := match ev with EFake _ _ _ _ => False | _ => True end.
Definition is_set (ev : event) : bool := match ev with ESetTTL _ _ _ _ => true | _ => false end.

(** The events of sending one segment when nothing fails. *)
Definition segment_events (level : sockopt_level) (opt : sockopt) (s : Segment) : list event :=
  if Lazy s
  then [ESetTTL level opt 1 true; EWrite 1 (Packet s); ESetTTL level opt getDefaultTTL true]
  else [EWrite getDefaultTTL (Packet s)].

(** The socket option [SetTTL] picks. *)
Definition ttl_option (c : conn) (isIPv4 : bool) : sockopt_level * sockopt :=
  let v4 :=
    match RemoteAddr c with
    | ATCP a => match To4 (addr_IP a) with Some _ => true | None => isIPv4 end
    | AUDP _ => isIPv4
    end in
  if v4 then (IPPROTO_IP, IP_TTL) else (IPPROTO_IPV6, IPV6_UNICAST_HOPS).

Definition is_tcp (c : conn) : Prop := c_kind c = CTCP ∨ c_kind c = CTracking CTCP.

(** *** Lemmas *)
Lemma written_app t u : written (t ++ u) = written t ++ written u.
Proof. unfold written. by rewrite fmap_app, concat_app. Qed.
Lemma faked_app t u : faked (t ++ u) = faked t ++ faked u.
Proof. unfold faked. by rewrite fmap_app, concat_app. Qed.

(** A step of the world: its new events, which satisfy [P]. *)
Definition extends (P : list event → Prop) (w w' : world) : Prop :=
  ∃ tr, trace w' = trace w ++ tr ∧ P tr.

Lemma extends_refl (P : list event → Prop) w : P [] → extends P w w.
Proof. exists []. by rewrite app_nil_r. Qed.

Lemma extends_trans (P Q R : list event → Prop) w1 w2 w3 :
  extends P w1 w2 → extends Q w2 w3 → (∀ t u, P t → Q u → R (t ++ u)) → extends R w1 w3.
Proof.
  intros (t & Ht & HP) (u & Hu & HQ) HR. exists (t ++ u).
  split; [by rewrite Hu, Ht, app_assoc | auto].
Qed.

Lemma extends_weaken (P Q : list event → Prop) w1 w2 :
  extends P w1 w2 → (∀ t, P t → Q t) → extends Q w1 w2.
Proof. intros (t & Ht & HP) HQ. exists t. auto. Qed.

Definition only_sets (tr : list event) : Prop := written tr = [] ∧ Forall not_fake tr.

Lemma SetTTL_extends e c v4 ttl w : extends only_sets w (SetTTL e c v4 ttl w).2.
Proof.
  assert (extends only_sets w w) as Hrefl by by apply extends_refl.
  unfold SetTTL. destruct (match c_kind c with CTracking k => k | k => k end); try done.
  destruct (match RemoteAddr c with ATCP a => _ | AUDP _ => _ end);
    destruct (sockopt_err _ _); simpl; eexists; (split; [done |]);
    by split; [| repeat constructor].
Qed.

Lemma setTTLWrap_extends e c v4 ttl b w : extends only_sets w (setTTLWrap e c v4 ttl b w).2.
Proof.
  unfold setTTLWrap. pose proof (SetTTL_extends e c v4 ttl w) as Hs.
  by destruct (SetTTL e c v4 ttl w).
Qed.

(** *** What is sent is what was to be sent, whatever the TTL calls do *)
Definition sent_part (data : bytes) (n : Z) (err : option error) (tr : list event) : Prop :=
  written tr `prefix_of` data ∧ n = len (written tr) ∧ (err = None → written tr = data) ∧
  Forall not_fake tr.

Lemma Write_sent e b w :
  writes_ok e → let '(n, err, w') := Write e b w in extends (sent_part b n err) w w'.
Proof.
  intros Hw. unfold Write. specialize (Hw (length (trace w)) b).
  destruct (write_res e (length (trace w)) b) as [n err]. destruct Hw as [Hr Hf]. simpl in *.
  eexists. split; [done |]. unfold sent_part, written. simpl. rewrite app_nil_r.
  assert (len (take (Z.to_nat n) b) = n) as Hl by len_lia.
  split_and!; [| done | | by repeat constructor].
  - exists (drop (Z.to_nat n) b). by rewrite take_drop.
  - intros He. specialize (Hf He). apply take_ge. unfold len in *. lia.
Qed.

Lemma sent_part_pre data n err t u :
  only_sets t → sent_part data n err u → sent_part data n err (t ++ u).
Proof.
  intros [Ht1 Ht2] (H1 & H2 & H3 & H4). unfold sent_part. rewrite written_app, Ht1.
  split_and!; [done.. |]. by apply Forall_app.
Qed.

Lemma sent_part_post data n err t u :
  sent_part data n err t → only_sets u → sent_part data n err (t ++ u).
Proof.
  intros (H1 & H2 & H3 & H4) [Hu1 Hu2]. unfold sent_part. rewrite written_app, Hu1, app_nil_r.
  split_and!; [done.. |]. by apply Forall_app.
Qed.

Lemma sent_part_app a b n m err t u :
  sent_part a n None t → sent_part b m err u → sent_part (a ++ b) (n + m) err (t ++ u).
Proof.
  intros (_ & -> & H3 & H4) (K1 & -> & K3 & K4). specialize (H3 eq_refl).
  unfold sent_part. rewrite written_app, H3. split_and!.
  - by apply prefix_app.
  - by rewrite len_app.
  - intros He. by rewrite K3.
  - by apply Forall_app.
Qed.

Lemma send_loop_sent e c v4 segs ttlErrored total w :
  writes_ok e →
  let '(n, err, w') := send_loop e c v4 segs ttlErrored total w in
  extends (sent_part (payload segs) (n - total) err) w w'.
Proof.
  intros Hw. revert ttlErrored total w. induction segs as [| s segs IH]; intros errd total w; simpl.
  { apply extends_refl. unfold sent_part. rewrite Z.sub_diag. by split_and!. }
  rewrite payload_cons.
  set (pre := if negb errd && Lazy s then setTTLWrap e c v4 1 errd w else (errd, w)).
  assert (extends only_sets w pre.2) as Hpre.
  { subst pre. destruct (negb errd && Lazy s); [apply setTTLWrap_extends | by apply extends_refl]. }
  destruct pre as [errd1 w1]. simpl in Hpre.
  pose proof (Write_sent e (Packet s) w1 Hw) as Hwr.
  destruct (Write e (Packet s) w1) as [[n err] w2]. destruct err as [err |].
  { replace (total + n - total) with n by lia. eapply extends_trans; [exact Hpre | exact Hwr |].
    intros t u Ht Hu. apply sent_part_pre; [done |]. destruct Hu as (H1 & H2 & H3 & H4).
    split_and!; [by apply prefix_app_r | done | done | done]. }
  set (post := if negb errd1 && Lazy s then setTTLWrap e c v4 getDefaultTTL errd1 w2
               else (errd1, w2)).
  assert (extends only_sets w2 post.2) as Hpost.
  { subst post. destruct (negb errd1 && Lazy s); [apply setTTLWrap_extends | by apply extends_refl]. }
  destruct post as [errd2 w3]. simpl in Hpost.
  specialize (IH errd2 (total + n) w3).
  destruct (send_loop e c v4 segs errd2 (total + n) w3) as [[n' err'] w4].
  replace (n' - total) with (n + (n' - (total + n))) by lia.
  eapply extends_trans; [| exact IH | intros t u; apply sent_part_app].
  eapply extends_trans; [exact Hpre | | intros t u; apply sent_part_pre].
  eapply extends_trans; [exact Hwr | exact Hpost | intros t u; apply sent_part_post].
Qed.

(** *** The TTL of every write *)
Lemma SetTTL_ok e c v4 ttl w :
  is_tcp c → (∀ k, sockopt_err e k = None) →
  SetTTL e c v4 ttl w =
    (None, mkWorld (trace w ++ [ESetTTL (ttl_option c v4).1 (ttl_option c v4).2 ttl true]) ttl).
Proof.
  intros Hc He. unfold SetTTL, ttl_option. rewrite He.
  by destruct Hc as [-> | ->], (match RemoteAddr c with ATCP a => _ | AUDP _ => _ end).
Qed.

Lemma Write_ok e b w :
  writes_ok e → (∀ k b, (write_res e k b).2 = None) →
  Write e b w = (len b, None, mkWorld (trace w ++ [EWrite (sock_ttl w) b]) (sock_ttl w)).
Proof.
  intros Hw Hn. unfold Write. specialize (Hw (length (trace w)) b).
  specialize (Hn (length (trace w)) b).
  destruct (write_res e (length (trace w)) b) as [n err]. simpl in *. subst err.
  destruct Hw as [_ ->]; [| done]. rewrite take_ge by (unfold len; lia). done.
Qed.

Lemma send_loop_events e c v4 segs total w :
  writes_ok e → is_tcp c → (∀ k, sockopt_err e k = None) → (∀ k b, (write_res e k b).2 = None) →
  sock_ttl w = getDefaultTTL →
  send_loop e c v4 segs false total w =
    (total + len (payload segs), None,
     mkWorld (trace w ++
       concat (segment_events (ttl_option c v4).1 (ttl_option c v4).2 <$> segs)) getDefaultTTL).
Proof.
  intros Hw Hc He Hn. revert total w. induction segs as [| s segs IH]; intros total w Ht; simpl.
  { rewrite app_nil_r, <- Ht. unfold payload. simpl. change (len []) with 0. rewrite Z.add_0_r.
    by destruct w. }
  rewrite payload_cons, len_app. unfold segment_events at 1. destruct (Lazy s).
  - unfold setTTLWrap. rewrite SetTTL_ok by done. rewrite Write_ok by done.
    cbn [negb andb]. rewrite SetTTL_ok by done. cbv beta iota. cbn [trace sock_ttl].
    rewrite IH by done. cbn [trace]. rewrite <- !app_assoc, Z.add_assoc. done.
  - cbn [negb andb]. rewrite Write_ok by done. cbv beta iota. rewrite IH by done. cbn [trace].
    rewrite <- !app_assoc, Ht, Z.add_assoc. done.
Qed.

(** Once a TTL call has failed no other is made. *)
Lemma send_loop_no_sets e c v4 segs total w :
  let '(_, _, w') := send_loop e c v4 segs true total w in
  extends (λ tr, Forall (λ ev, is_set ev = false) tr) w w' ∧ sock_ttl w' = sock_ttl w.
Proof.
  revert total w. induction segs as [| s segs IH]; intros total w; simpl.
  { split; [apply extends_refl; constructor | done]. }
  unfold Write. destruct (write_res e (length (trace w)) (Packet s)) as [n err].
  set (w1 := mkWorld _ _).
  assert (extends (λ tr, Forall (λ ev, is_set ev = false) tr) w w1) as H1.
  { eexists. split; [done |]. by repeat constructor. }
  destruct err as [err |]; [done |]. specialize (IH (total + n) w1).
  destruct (send_loop e c v4 segs true (total + n) w1) as [[n' err'] w2].
  destruct IH as [IH ->]. split; [| done].
  eapply extends_trans; [exact H1 | exact IH | intros t u; apply Forall_app_2].
Qed.

(** *** Fakes *)
Definition fakes_part (c : conn) (ttl : Z) (data : bytes) (n : Z) (err : option error)
    (tr : list event) : Prop :=
  Forall (is_fake (LocalAddr c) (RemoteAddr c) ttl) tr ∧ n = len (faked tr) ∧
  faked tr `prefix_of` data ∧ (err = None → faked tr = data).

Lemma fakes_written c ttl tr :
  Forall (is_fake (LocalAddr c) (RemoteAddr c) ttl) tr → written tr = [].
Proof.
  unfold written. induction 1 as [| ev tr He _ IH]; [done |]. simpl. by destruct ev.
Qed.

Lemma fakes_part_app c ttl a b n m err t u :
  fakes_part c ttl a n None t → fakes_part c ttl b m err u →
  fakes_part c ttl (a ++ b) (n + m) err (t ++ u).
Proof.
  intros (H1 & -> & _ & H4) (K1 & -> & K3 & K4). specialize (H4 eq_refl).
  unfold fakes_part. rewrite faked_app, H4. split_and!.
  - by apply Forall_app.
  - by rewrite len_app.
  - by apply prefix_app.
  - intros He. by rewrite K4.
Qed.

Lemma fake_segments_part e c ttl segs total w :
  let '(n, err, w') := fake_segments e c ttl segs total w in
  extends (fakes_part c ttl (payload segs) (n - total) err) w w' ∧ sock_ttl w' = sock_ttl w.
Proof.
  revert total w. induction segs as [| s segs IH]; intros total w; simpl.
  { split; [apply extends_refl | done]. rewrite Z.sub_diag. by split_and!. }
  unfold WriteCraftedPacket. destruct (craft_res e (length (trace w)) (Packet s)) as [err |].
  { split; [apply extends_refl | done]. rewrite Z.sub_diag. split_and!; [done | done | | done].
    apply prefix_nil. }
  rewrite payload_cons. set (w1 := mkWorld _ _). specialize (IH (total + len (Packet s)) w1).
  destruct (fake_segments e c ttl segs _ w1) as [[n err] w2]. destruct IH as [IH ->].
  split; [| done]. replace (n - total) with (len (Packet s) + (n - (total + len (Packet s)))) by lia.
  eapply extends_trans; [| exact IH | intros t u; apply fakes_part_app].
  eexists. split; [done |]. unfold fakes_part, faked. simpl. rewrite app_nil_r.
  split_and!; [by repeat constructor | done | done | done].
Qed.

Definition copies (n : nat) (b : bytes) : bytes := concat (replicate n b).

Lemma fakes_part_prefix c ttl data rest n err t :
  fakes_part c ttl data n (Some err) t → fakes_part c ttl (data ++ rest) n (Some err) t.
Proof. intros (H1 & H2 & H3 & H4). split_and!; [done | done | by apply prefix_app_r | done]. Qed.

Lemma fake_loop_part e c ttl segs count total w :
  let '(n, err, w') := fake_loop e c ttl segs count total w in
  extends (fakes_part c ttl (copies count (payload segs)) (n - total) err) w w' ∧
  sock_ttl w' = sock_ttl w.
Proof.
  revert total w. induction count as [| count IH]; intros total w; simpl.
  { split; [apply extends_refl | done]. rewrite Z.sub_diag. by split_and!. }
  pose proof (fake_segments_part e c ttl segs total w) as Hf.
  destruct (fake_segments e c ttl segs total w) as [[n1 err1] w1]. destruct Hf as [Hf Hs].
  destruct err1 as [err1 |].
  { split; [| done]. eapply extends_weaken; [exact Hf |]. intros t. apply fakes_part_prefix. }
  specialize (IH n1 w1). destruct (fake_loop e c ttl segs count n1 w1) as [[n err] w2].
  destruct IH as [IH Hs2]. split; [| congruence].
  replace (n - total) with ((n1 - total) + (n - n1)) by lia.
  eapply extends_trans; [exact Hf | exact IH | intros t u; apply fakes_part_app].
Qed.

Section Desync.
Context `{PointSort}.
Context {C : Type} `{!Cache C (list Z) Z} `{!CacheLaws C (list Z) Z}.

(** [split] on a nil fake packet dereferences it. *)
Definition sendFakePackets (e : env) (ch : Choices) (c : conn) (oTTL : Z)
    (opts : HTTPSOptions) (w : world) : outcome string (Z * option error * world) :=
  match https_FakePacket opts with
  | None => Panic
  | Some fake =>
    segments ← split ch fake opts;
    Ok (fake_loop e c oTTL segments (Z.to_nat (https_FakeCount opts)) 0 w)
  end.

(** The desyncers; the writer's behaviour is in the environment. *)
Record TLSDesyncer : Type := mkTLSDesyncer {
  d_writer : bool;                       (* writer != nil *)
  d_sniffer : option (TCPSniffer C);
}.

Definition with_sniffer (s : TCPSniffer C) (d : TLSDesyncer) : TLSDesyncer :=
  mkTLSDesyncer (d_writer d) (Some s).

Definition PrepareHopTrack (addrs : list IP) (cfg : HTTPSOptions) (d : TLSDesyncer)
    : TLSDesyncer :=
  match d_sniffer d with
  | None => d
  | Some s =>
    if https_Skip cfg || (https_FakeCount cfg =? 0) then d
    else with_sniffer (Register addrs s) d
  end.

(** The end of [Desync]: the split and the transmission. *)
Definition split_and_send (e : env) (ch : Choices) (c : conn) (msg : TLSMessage)
    (httpsOpts : HTTPSOptions) (d : TLSDesyncer) (w : world)
    : outcome string (Z * option error * TLSDesyncer * world) :=
  segments ← split ch msg httpsOpts;
  let '(n, err, w) := sendSegments e c segments w in
  Ok (n, err, d, w).

(** [chf] and [ch] are the random choices of the fake's split and of the
    message's. *)
Definition Desync (e : env) (chf ch : Choices) (c : conn) (msg : TLSMessage)
    (httpsOpts : HTTPSOptions) (d : TLSDesyncer) (w : world)
    : outcome string (Z * option error * TLSDesyncer * world) :=
  if https_Skip httpsOpts then
    let '(n, err, w) := sendSegments e c [mkSegment (Raw msg) false] w in
    Ok (n, err, d, w)
  else
    '(d, w) ←
      match d_sniffer d with
      | Some s =>
        if (0 <? https_FakeCount httpsOpts) && d_writer d then
          match RemoteAddr c with
          | ATCP a =>
            let '(oTTL, s) := GetOptimalTTL (NewIPKey (addr_IP a)) s in
            '(_, _, w) ← sendFakePackets e chf c oTTL httpsOpts w;
            Ok (with_sniffer s d, w)
          | AUDP _ => Panic
          end
        else Ok (d, w)
      | None => Ok (d, w)
      end;
    split_and_send e ch c msg httpsOpts d w.

(** ** UDP *)
Definition UDPDesyncer : Type := TLSDesyncer.

Definition udp_PrepareHopTrack (addrs : list IP) (cfg : UDPOptions) (d : UDPDesyncer)
    : UDPDesyncer :=
  match d_sniffer d with
  | None => d
  | Some s =>
    if udp_FakeCount cfg =? 0 then d else with_sniffer (udp_Register addrs s) d
  end.

Fixpoint udp_fake_loop (e : env) (src dst : Addr) (oTTL : Z) (fake : bytes) (count : nat)
    (totalSent : Z) (w : world) : Z * world :=
  match count with
  | O => (totalSent, w)
  | S count =>
    let '(n, err, w) := WriteCraftedPacket e src dst oTTL fake w in
    match err with
    | Some _ => udp_fake_loop e src dst oTTL fake count totalSent w
    | None => udp_fake_loop e src dst oTTL fake count (totalSent + n) w
    end
  end.

Definition udp_Desync (e : env) (lConn rConn : conn) (opts : UDPOptions) (d : UDPDesyncer)
    (w : world) : outcome string (Z * UDPDesyncer * world) :=
  if udp_FakeCount opts =? 0 then Ok (0, d, w)
  else
    match d_sniffer d with
    | None => Ok (0, d, w)
    | Some s =>
      if negb (d_writer d) then Ok (0, d, w)
      else
        match RemoteAddr rConn with
        | AUDP a =>
          let '(oTTL, s) := udp_GetOptimalTTL (NewIPKey (addr_IP a)) s in
          let '(totalSent, w) :=
            udp_fake_loop e (LocalAddr lConn) (RemoteAddr rConn) oTTL (udp_FakePacket opts)
              (Z.to_nat (udp_FakeCount opts)) 0 w in
          Ok (totalSent, with_sniffer s d, w)
        | ATCP _ => Panic
        end
    end.

Lemma sendSegments_sent e c segs w :
  writes_ok e →
  let '(n, err, w') := sendSegments e c segs w in
  extends (sent_part (payload segs) n err) w w'.
Proof.
  intros Hw. unfold sendSegments. set (v4 := match LocalAddr c with ATCP a => _ | AUDP _ => _ end).
  pose proof (send_loop_sent e c v4 segs false 0 w Hw) as Hs.
  destruct (send_loop e c v4 segs false 0 w) as [[n err] w']. by rewrite Z.sub_0_r in Hs.
Qed.

(** What a message or a fake must be for [split] not to panic. *)
Definition splittable (opts : HTTPSOptions) (m : TLSMessage) : Prop :=
  bytes_ok (raw m) ∧ raw m ≠ [] ∧ 0 <= ChunkSize opts ∧ Forall plan_wf (CustomSegmentPlans opts).

Lemma split_and_send_sent e ch c msg opts d w :
  writes_ok e → splittable opts msg →
  ∃ n err w' sent, split_and_send e ch c msg opts d w = Ok (n, err, d, w') ∧
    trace w' = trace w ++ sent ∧ sent_part (Raw msg) n err sent.
Proof.
  intros Hw (H1 & H2 & H3 & H4). unfold split_and_send.
  destruct (split_ok ch msg opts) as (segs & -> & Hp & _); [done.. |]. simpl.
  pose proof (sendSegments_sent e c segs w Hw) as Hs.
  destruct (sendSegments e c segs w) as [[n err] w']. destruct Hs as (sent & Ht & Hs).
  rewrite Hp in Hs. eauto 8.
Qed.

Definition sends_fakes (opts : HTTPSOptions) (d : TLSDesyncer) : bool :=
  negb (https_Skip opts) && (0 <? https_FakeCount opts) && d_writer d &&
  match d_sniffer d with Some _ => true | None => false end.

Lemma sendFakePackets_part e ch c ttl opts w m :
  https_FakePacket opts = Some m → splittable opts m →
  ∃ n err w', sendFakePackets e ch c ttl opts w = Ok (n, err, w') ∧
    extends (fakes_part c ttl (copies (Z.to_nat (https_FakeCount opts)) (Raw m)) n err) w w' ∧
    sock_ttl w' = sock_ttl w.
Proof.
  intros Hm (H1 & H2 & H3 & H4). unfold sendFakePackets. rewrite Hm.
  destruct (split_ok ch m opts) as (segs & -> & Hp & _); [done.. |]. simpl.
  pose proof (fake_loop_part e c ttl segs (Z.to_nat (https_FakeCount opts)) 0 w) as Hf.
  destruct (fake_loop e c ttl segs _ 0 w) as [[n err] w'].
  rewrite Hp, Z.sub_0_r in Hf. eauto.
Qed.

(** Fakes or not, what is written of a message is a front of it, and all of it
    when nothing failed. *)
Lemma Desync_written (e : env) (chf ch : Choices) (c : conn) (msg fake : TLSMessage)
    (opts : HTTPSOptions) (d : TLSDesyncer) (w : world) (a : TCPAddr) :
  writes_ok e → RemoteAddr c = ATCP a → splittable opts msg →
  https_FakePacket opts = Some fake → splittable opts fake →
  ∃ n err d' w' tr, Desync e chf ch c msg opts d w = Ok (n, err, d', w') ∧
    trace w' = trace w ++ tr ∧ written tr `prefix_of` Raw msg ∧ (err = None → written tr = Raw msg).
Proof.
  intros Hw Ha Hmsg Hfake Hsf. unfold Desync. destruct (https_Skip opts).
  { pose proof (sendSegments_sent e c [mkSegment (Raw msg) false] w Hw) as Hs.
    destruct (sendSegments e c _ w) as [[n err] w']. destruct Hs as (tr & Ht & Hp & _ & Hn & _).
    unfold payload in Hp, Hn. simpl in Hp, Hn. rewrite app_nil_r in Hp, Hn.
    by exists n, err, d, w', tr. }
  assert (∀ d' w1, ∃ n err d2 w' tr, split_and_send e ch c msg opts d' w1 = Ok (n, err, d2, w') ∧
    trace w' = trace w1 ++ tr ∧ written tr `prefix_of` Raw msg ∧ (err = None → written tr = Raw msg)) as Hsend.
  { intros d' w1. destruct (split_and_send_sent e ch c msg opts d' w1 Hw Hmsg)
      as (n & err & w' & tr & Hr & Ht & Hp & _ & Hn & _). by exists n, err, d', w', tr. }
  destruct (d_sniffer d) as [s |]; [| apply Hsend].
  destruct ((0 <? https_FakeCount opts) && d_writer d); [| apply Hsend].
  rewrite Ha. destruct (GetOptimalTTL _ s) as [oTTL s'].
  destruct (sendFakePackets_part e chf c oTTL opts w fake Hfake Hsf)
    as (nf & ferr & wf & -> & (fakes & Htf & Hf & _) & _).
  cbn [mbind outcome_bind]. destruct (Hsend (with_sniffer s' d) wf) as (n & err & d2 & w' & tr & Hr & Ht & Hp).
  exists n, err, d2, w', (fakes ++ tr). split; [exact Hr |]. rewrite Ht, Htf, app_assoc. split; [done |].
  by rewrite written_app, (fakes_written _ _ _ Hf).
Qed.

(** C7. The order and the TTL of a disordered transmission: when the kernel
    accepts the TTL calls and the writes, each lazy segment goes out with TTL
    1 and every other with the default TTL, in order, each exactly once, and
    the connection is left at the default TTL. *)
Theorem sendSegments_disorder (e : env) (c : conn) (segs : list Segment) (w : world) :
  writes_ok e → is_tcp c → (∀ k, sockopt_err e k = None) →
  (∀ k b, (write_res e k b).2 = None) → sock_ttl w = getDefaultTTL →
  ∃ level opt,
    sendSegments e c segs w =
      (len (payload segs), None,
       mkWorld (trace w ++ concat (segment_events level opt <$> segs)) getDefaultTTL) ∧
    (∀ a, RemoteAddr c = ATCP a → is_Some (To4 (addr_IP a)) →
      level = IPPROTO_IP ∧ opt = IP_TTL).
Proof.
  intros Hw Hc He Hn Ht. unfold sendSegments.
  set (v4 := match LocalAddr c with ATCP a => _ | AUDP _ => _ end).
  exists (ttl_option c v4).1, (ttl_option c v4).2. split.
  - by rewrite send_loop_events.
  - intros a Ha [x Hx]. unfold ttl_option. by rewrite Ha, Hx.
Qed.


Lemma udp_fake_loop_part e src dst ttl data count total w :
  let '(n, w') := udp_fake_loop e src dst ttl data count total w in
  sock_ttl w' = sock_ttl w ∧
  extends (λ tr, Forall (λ ev, ev = EFake src dst ttl data) tr ∧
    n = total + len (faked tr) ∧ (length tr <= count)%nat ∧
    ((∀ k b, craft_res e k b = None) → length tr = count)) w w'.
Proof.
  revert total w. induction count as [| count IH]; intros total w; simpl.
  { split; [done |]. apply extends_refl. split_and!; [constructor | | done | done].
    change (len (faked [])) with 0. lia. }
  unfold WriteCraftedPacket. destruct (craft_res e (length (trace w)) data) as [err |] eqn:Hc.
  - specialize (IH total w). destruct (udp_fake_loop _ _ _ _ _ _ _ _) as [n w'].
    destruct IH as [Hs IH]. split; [done |]. eapply extends_weaken; [exact IH |].
    intros t (H1 & H2 & H3 & H4). split_and!; [done.. | lia |].
    intros Hn. by rewrite Hn in Hc.
  - set (w1 := mkWorld _ _). specialize (IH (total + len data) w1).
    destruct (udp_fake_loop _ _ _ _ _ _ _ _) as [n w']. destruct IH as [Hs IH].
    split; [by rewrite Hs |].
    eapply (extends_trans (λ t, t = [EFake src dst ttl data])); [| exact IH |].
    + by exists [EFake src dst ttl data].
    + intros t u -> (H1 & H2 & H3 & H4). change [EFake src dst ttl data] with
        ([EFake src dst ttl data] ++ []) at 2. rewrite faked_app.
      replace (faked ([EFake src dst ttl data] ++ [])) with data
        by (unfold faked; simpl; by rewrite app_nil_r).
      split_and!; simpl.
      * by constructor.
      * rewrite len_app. lia.
      * lia.
      * intros Hn. by rewrite H4.
Qed.

(** UDP fakes: every fake that is sent is the configured packet, from the
    client's local address to the server, with the sniffer's TTL; a failed
    one is skipped and the others still go out, so the reported byte count is
    exactly what was sent, and it is [FakeCount] packets when none failed.
    Nothing is sent without a sniffer, a writer or a positive count. *)
Theorem udp_Desync_fakes (e : env) (lConn rConn : conn) (opts : UDPOptions) (d : UDPDesyncer)
    (w : world) (a : TCPAddr) :
  RemoteAddr rConn = AUDP a →
  ∃ n d' w' fakes,
    udp_Desync e lConn rConn opts d w = Ok (n, d', w') ∧
    trace w' = trace w ++ fakes ∧ sock_ttl w' = sock_ttl w ∧ n = len (faked fakes) ∧
    ((0 =? udp_FakeCount opts) || negb (d_writer d) = true ∨ d_sniffer d = None → fakes = []) ∧
    ∀ s, d_sniffer d = Some s → d_writer d = true → udp_FakeCount opts ≠ 0 →
      Forall (λ ev, ev = EFake (LocalAddr lConn) (RemoteAddr rConn)
               (fst (GetOptimalTTL (NewIPKey (addr_IP a)) s)) (udp_FakePacket opts)) fakes ∧
      (length fakes <= Z.to_nat (udp_FakeCount opts))%nat ∧
      ((∀ k b, craft_res e k b = None) → length fakes = Z.to_nat (udp_FakeCount opts)).
Proof.
  intros Ha. unfold udp_Desync.
  assert (∃ n d' w' fakes, Ok (E := string) (0, d, w) = Ok (n, d', w') ∧
    trace w' = trace w ++ fakes ∧ sock_ttl w' = sock_ttl w ∧ n = len (faked fakes) ∧ fakes = [])
    as (n0 & d0 & w0 & f0 & E0 & T0 & S0 & N0 & F0).
  { exists 0, d, w, []. by rewrite app_nil_r. }
  destruct (Z.eqb_spec (udp_FakeCount opts) 0) as [Hz | Hz].
  { exists n0, d0, w0, f0. split_and!; [done.. |]. intros s _ _ Hn. done. }
  destruct (d_sniffer d) as [s |] eqn:Hd.
  2: { exists n0, d0, w0, f0. by split_and!. }
  destruct (d_writer d) eqn:Hwr; cbn [negb].
  2: { exists n0, d0, w0, f0. by split_and!. }
  rewrite Ha. unfold udp_GetOptimalTTL.
  destruct (GetOptimalTTL (NewIPKey (addr_IP a)) s) as [oTTL s'] eqn:Hg.
  pose proof (udp_fake_loop_part e (LocalAddr lConn) (AUDP a) oTTL (udp_FakePacket opts)
    (Z.to_nat (udp_FakeCount opts)) 0 w) as Hloop.
  destruct (udp_fake_loop _ _ _ _ _ _ _ _) as [n w'].
  destruct Hloop as (Hs & fakes & Ht & H1 & H2 & H3 & H4).
  exists n, (with_sniffer s' d), w', fakes. split_and!; [done | done | done | lia | |].
  - intros [Hc | Hc]; [| done]. apply orb_true_iff in Hc as [Hc | Hc]; [lia | done].
  - intros s0 [= <-] _ _. by rewrite Hg.
Qed.
End Desync.
Arguments TLSDesyncer C : clear implicits.
Arguments UDPDesyncer C : clear implicits.

(** ** Witnesses: an environment in which every call succeeds *)
Definition good_env : env := mkEnv (λ _, None) (λ _ b, (len b, None)) (λ _ _, None).

Lemma good_env_ok : writes_ok good_env.
Proof. intros k b. simpl. pose proof (len_nonneg b). done || lia. Qed.

Definition sample_conn : conn :=
  mkConn (CTracking CTCP) (ATCP (mkTCPAddr [10; 0; 0; 2] 40000)) (ATCP (mkTCPAddr [8; 8; 8; 8] 443)).

Definition sample_segments : list Segment := [mkSegment [1; 2] true; mkSegment [3] false].

Lemma sendSegments_disorder_witness :
  sendSegments good_env sample_conn sample_segments (mkWorld [] 64) =
    (3, None,
     mkWorld [ESetTTL IPPROTO_IP IP_TTL 1 true; EWrite 1 [1; 2];
              ESetTTL IPPROTO_IP IP_TTL 64 true; EWrite 64 [3]] 64).
Proof.
  destruct (sendSegments_disorder good_env sample_conn sample_segments (mkWorld [] 64))
    as (level & opt & -> & Ho); [apply good_env_ok | by right | done | done | done |].
  destruct (Ho (mkTCPAddr [8; 8; 8; 8] 443)) as [-> ->]; [done | by eexists | done].
Defined.

Definition fake_opts : HTTPSOptions :=
  mkHTTPSOptions true 2 (Some sample_message) HTTPSSplitModeSNI 35 false [].

Definition sample_desyncer : TLSDesyncer (LRUCache (list Z) Z) :=
  mkTLSDesyncer true (Some sample_sniffer).

Lemma sample_splittable : splittable fake_opts sample_message.
Proof. split_and!; [apply sample_bytes_ok | done | by vm_compute | constructor]. Qed.


Definition sample_udp_conn : conn :=
  mkConn COther (AUDP (mkTCPAddr [10; 0; 0; 2] 40000)) (AUDP (mkTCPAddr [8; 8; 8; 8] 53)).

Lemma udp_Desync_fakes_witness :
  ∃ n d' w' fakes,
    udp_Desync good_env sample_udp_conn sample_udp_conn (mkUDPOptions false 3 [7; 7])
      sample_desyncer (mkWorld [] 64) = Ok (n, d', w') ∧
    trace w' = fakes ∧ length fakes = 3%nat.
Proof.
  destruct (udp_Desync_fakes good_env sample_udp_conn sample_udp_conn
    (mkUDPOptions false 3 [7; 7]) sample_desyncer (mkWorld [] 64) (mkTCPAddr [8; 8; 8; 8] 53))
    as (n & d' & w' & fakes & H1 & H2 & _ & _ & _ & H6); [done |].
  destruct (H6 sample_sniffer) as (_ & _ & H7); [done | done | done |].
  exists n, d', w', fakes. split_and!; [done | done | by apply H7].
Defined.
