(* ===== verification/DomainTrie.v ===== *)
(** * The domain trie: [internal/trie/domain.go]

    A node of the trie owns its children, so the pointer structure of the code
    is a tree. [lookup] reads the trie as a map from patterns to values and is
    the specification of [Add]; [pmatch] says which domains a pattern covers
    and is the specification of [Search]. *)

From S2P Require Import Prelude GoStrings.
From Stdlib Require Import Ascii.

Section DomainTrie.
Context {T : Type}.

(** [children] holds one node per label; [value] is [None] when [hasValue] is
    false. *)
Inductive domainNode : Type :=
| Node (children : list (string * domainNode)) (wildcardChild globstarChild : option domainNode)
    (value : option T).

Definition newDomainNode : domainNode := Node [] None None None.

Definition children (n : domainNode) : list (string * domainNode) :=
  let '(Node ch _ _ _) := n in ch.
Definition wildcardChild (n : domainNode) : option domainNode := let '(Node _ w _ _) := n in w.
Definition globstarChild (n : domainNode) : option domainNode := let '(Node _ _ g _) := n in g.
Definition value (n : domainNode) : option T := let '(Node _ _ _ v) := n in v.

(** Access to a Go map kept as an association list. *)
Fixpoint get_child {A} (k : string) (l : list (string * A)) : option A :=
  match l with
  | [] => None
  | (k', c) :: l => if decide (k = k') then Some c else get_child k l
  end.
Fixpoint put_child {A} (k : string) (c : A) (l : list (string * A)) : list (string * A) :=
  match l with
  | [] => [(k, c)]
  | (k', c') :: l => if decide (k = k') then (k, c) :: l else (k', c') :: put_child k c l
  end.

(** A segment of a pattern. *)
Inductive seg : Type := Exact (s : string) | Wild | Glob.

Definition seg_of (s : string) : seg :=
  if decide (s = "*"%string) then Wild
  else if decide (s = "**"%string) then Glob
  else Exact s.

Definition splitDomain (domain : string) : list string :=
  let domain := TrimSuffix1 "."%char domain in
  if decide (domain = ""%string) then [] else reverse (Split "."%char domain).

Definition splitPattern (pattern : string) : outcome string (list string) :=
  if decide (pattern = ""%string) then Err "empty domain pattern"%string
  else Ok (splitDomain pattern).

(** The loop of [Add], from a node on. *)
Fixpoint add_segs (segments : list seg) (v : T) (n : domainNode) : domainNode :=
  match segments with
  | [] => Node (children n) (wildcardChild n) (globstarChild n) (Some v)
  | Wild :: segments =>
    Node (children n) (Some (add_segs segments v (default newDomainNode (wildcardChild n))))
      (globstarChild n) (value n)
  | Glob :: segments =>
    Node (children n) (wildcardChild n)
      (Some (add_segs segments v (default newDomainNode (globstarChild n)))) (value n)
  | Exact s :: segments =>
    Node (put_child s (add_segs segments v (default newDomainNode (get_child s (children n))))
            (children n))
      (wildcardChild n) (globstarChild n) (value n)
  end.

Definition Add (pattern : string) (v : T) (root : domainNode) : outcome string domainNode :=
  segments ← splitPattern pattern;
  Ok (add_segs (seg_of <$> segments) v root).

(** [segments[i:]] for [i] from 0 to [len(segments)]. *)
Fixpoint tails {A} (l : list A) : list (list A) :=
  l :: match l with [] => [] | _ :: l => tails l end.

(** The first result that was found. *)
Definition orelse {A} (a b : option A) : option A := match a with Some _ => a | None => b end.
Fixpoint first_some {A B} (f : A → option B) (l : list A) : option B :=
  match l with [] => None | x :: l => orelse (f x) (first_some f l) end.

Fixpoint search (n : domainNode) (segments : list string) : option T :=
  match n with
  | Node ch w g v =>
    match segments with
    | [] =>
      orelse v
        (orelse (match w with Some c => value c | None => None end)
           (match g with Some c => value c | None => None end))
    | s :: rest =>
      orelse
        ((fix in_children (l : list (string * domainNode)) : option T :=
            match l with
            | [] => None
            | (k, c) :: l => if decide (s = k) then search c rest else in_children l
            end) ch)
        (orelse
           (match w with Some c => search c rest | None => None end)
           (match g with
            | Some ng =>
              match value ng with
              | Some v => Some v
              | None => first_some (search ng) (tails segments)
              end
            | None => None
            end))
    end
  end.

Definition Search (domain : string) (root : domainNode) : option T :=
  search root (splitDomain domain).

(** ** Specification *)
Fixpoint lookup (n : domainNode) (p : list seg) : option T :=
  match p with
  | [] => value n
  | Exact s :: p => c ← get_child s (children n); lookup c p
  | Wild :: p => c ← wildcardChild n; lookup c p
  | Glob :: p => c ← globstarChild n; lookup c p
  end.

(** Which domains (as reversed labels) a pattern covers. The apex is covered
    by a trailing [*] or [**]; a [**] followed by more covers any suffix of a
    domain that has at least one more label. *)
Inductive pmatch : list seg → list string → Prop :=
| pm_nil : pmatch [] []
| pm_exact s p d : pmatch p d → pmatch (Exact s :: p) (s :: d)
| pm_wild s p d : pmatch p d → pmatch (Wild :: p) (s :: d)
| pm_wild_apex : pmatch [Wild] []
| pm_glob_end d : pmatch [Glob] d
| pm_glob p d d' : d ≠ [] → d' ∈ tails d → pmatch p d' → pmatch (Glob :: p) d.

Definition class (s : seg) : Z := match s with Exact _ => 0 | Wild => 1 | Glob => 2 end.

(** [p] is at least as specific as [q]: reading both from the top-level
    label on, up to the first [**] of [p] or the first difference, [p] ends
    first or has the more specific segment. *)
Fixpoint specific (p q : list seg) : Prop :=
  match p, q with
  | [], _ => True
  | _ :: _, [] => False
  | Glob :: _, y :: _ => y = Glob
  | x :: p, y :: q => x = y ∧ specific p q ∨ x ≠ y ∧ class x < class y
  end.

#[export] Instance seg_eq_dec : EqDecision seg.
Proof. solve_decision. Defined.

(** ** Children *)
Lemma get_put {A} k k' (c : A) l :
  get_child k' (put_child k c l) = if decide (k' = k) then Some c else get_child k' l.
Proof.
  induction l as [| [k2 c2] l IH]; simpl; [done |].
  destruct (decide (k = k2)) as [<- | Hne]; simpl.
  - by destruct (decide (k' = k)).
  - rewrite IH. destruct (decide (k' = k2)), (decide (k' = k)); congruence.
Qed.

(** ** [Add] is insertion into the map *)
Lemma lookup_new p : lookup newDomainNode p = None.
Proof. by destruct p as [| [] p]. Qed.

Lemma lookup_default (o : option domainNode) p :
  lookup (default newDomainNode o) p = c ← o; lookup c p.
Proof. destruct o; simpl; [done | apply lookup_new]. Qed.

Lemma lookup_add p v n q :
  lookup (add_segs p v n) q = if decide (q = p) then Some v else lookup n q.
Proof.
  revert n q. induction p as [| x p IH]; intros n q.
  { destruct q as [| [s | |] q]; [done |..]; simpl; done. }
  destruct x as [s | |]; destruct q as [| [s' | |] q]; simpl; try done.
  - rewrite get_put. destruct (decide (s' = s)) as [-> | Hne]; simpl.
    + rewrite IH, lookup_default. destruct (decide (q = p)) as [-> |];
        [by rewrite decide_True | by rewrite decide_False by congruence].
    + by rewrite decide_False by congruence.
  - rewrite IH, lookup_default. destruct (decide (q = p)) as [-> |];
      [by rewrite decide_True | by rewrite decide_False by congruence].
  - rewrite IH, lookup_default. destruct (decide (q = p)) as [-> |];
      [by rewrite decide_True | by rewrite decide_False by congruence].
Qed.

(** ** [search] *)
Lemma search_node ch w g v segments :
  search (Node ch w g v) segments =
    match segments with
    | [] =>
      orelse v (orelse (w ≫= value) (g ≫= value))
    | s :: rest =>
      orelse (c ← get_child s ch; search c rest)
        (orelse (c ← w; search c rest)
           (ng ← g; orelse (value ng) (first_some (search ng) (tails (s :: rest)))))
    end.
Proof.
  destruct segments as [| s rest]; [done |].
  cbn [search]. f_equal.
  - induction ch as [| [k c] ch IH]; simpl; [done |]. by destruct (decide (s = k)).
  - f_equal. destruct g as [ng |]; [| done]. cbn [mbind option_bind]. by destruct (value ng).
Qed.

(** Induction on the nodes of a trie. *)
Lemma domainNode_ind' (P : domainNode → Prop) :
  (∀ ch w g v, (∀ k c, get_child k ch = Some c → P c) → (∀ c, w = Some c → P c) →
    (∀ c, g = Some c → P c) → P (Node ch w g v)) → ∀ n, P n.
Proof.
  intros H. fix go 1. intros [ch w g v]. apply H.
  - induction ch as [| [k c] ch IH]; simpl; intros k' c' Hc; [discriminate |].
    destruct (decide (k' = k)); [injection Hc as <-; apply go | exact (IH k' c' Hc)].
  - intros c Hc. destruct w as [c0 |]; [injection Hc as <-; apply go | discriminate].
  - intros c Hc. destruct g as [c0 |]; [injection Hc as <-; apply go | discriminate].
Qed.

Lemma orelse_None {A} (a b : option A) : orelse a b = None ↔ a = None ∧ b = None.
Proof. destruct a; simpl; naive_solver. Qed.

Lemma first_some_Some {A B} (f : A → option B) l b :
  first_some f l = Some b → ∃ x, x ∈ l ∧ f x = Some b.
Proof.
  induction l as [| x l IH]; simpl; [done |]. destruct (f x) eqn:Hx; simpl.
  - intros [= <-]. exists x. split; [by left | done].
  - intros (y & ? & ?)%IH. exists y. split; [by right | done].
Qed.

Lemma first_some_None {A B} (f : A → option B) l :
  first_some f l = None → ∀ x, x ∈ l → f x = None.
Proof.
  induction l as [| x l IH]; simpl; [by intros _ y ?%elem_of_nil |].
  intros [Hx Hl]%orelse_None y [-> | Hy]%elem_of_cons; auto.
Qed.

Lemma pmatch_nil_inv p : pmatch p [] → p = [] ∨ p = [Wild] ∨ p = [Glob].
Proof. inversion 1; subst; auto; done. Qed.

(** Whatever matches is found. *)
Lemma search_complete n p d v :
  lookup n p = Some v → pmatch p d → is_Some (search n d).
Proof.
  revert p d v. induction n as [ch w g v0 IHc IHw IHg] using domainNode_ind'.
  intros p d v Hp Hm. rewrite search_node. apply not_eq_None_Some.
  destruct d as [| s d].
  - intros [-> [Hw Hg]%orelse_None]%orelse_None.
    destruct (pmatch_nil_inv p Hm) as [-> | [-> | ->]]; simpl in Hp; [done | ..];
      [destruct w as [c |] | destruct g as [c |]]; simpl in *; congruence.
  - intros [Hc [Hw Hg]%orelse_None]%orelse_None.
    inversion Hm as [| s' p' d' Hm' | s' p' d' Hm' | | | p' d' d'' Hne Hin Hm'];
      subst; simpl in Hp.
    + apply bind_Some in Hp as (c & Hget & Hp). rewrite Hget in Hc. simpl in Hc.
      destruct (IHc _ c Hget _ _ _ Hp Hm') as [? ?]. congruence.
    + destruct w as [c |]; [| done]. simpl in *.
      destruct (IHw c eq_refl _ _ _ Hp Hm') as [? ?]. congruence.
    + destruct g as [c |]; [| done]. simpl in *. apply orelse_None in Hg as [Hg _]. congruence.
    + destruct g as [c |]; [| done]. cbn [mbind option_bind] in *.
      apply orelse_None in Hg as [_ Hg].
      destruct (IHg c eq_refl _ _ _ Hp Hm') as [? Hs].
      rewrite (first_some_None _ _ Hg d'' Hin) in Hs. done.
Qed.

(** [p] is the pattern of the answer [v]: it matches, and no stored pattern that
    matches is more specific. *)
Definition best_pattern (n : domainNode) (d : list string) (v : T) : Prop :=
  ∃ p, lookup n p = Some v ∧ pmatch p d ∧
    ∀ q u, lookup n q = Some u → pmatch q d → specific p q.

(** At the end of the name. *)
Lemma search_sound_nil ch w g v0 v :
  search (Node ch w g v0) [] = Some v → best_pattern (Node ch w g v0) [] v.
Proof.
  rewrite search_node. destruct v0 as [v1 |]; simpl.
  { intros [= <-]. exists []. by repeat constructor. }
  destruct (w ≫= value) as [v1 |] eqn:Hw; simpl.
  { intros [= <-]. exists [Wild]. split_and!; [by destruct w | constructor |].
    intros q u Hq Hm. destruct (pmatch_nil_inv q Hm) as [-> | [-> | ->]]; simpl in *;
      [done | by left | by right]. }
  intros Hg. exists [Glob]. split_and!; [by destruct g | constructor |].
  intros q u Hq Hm. destruct (pmatch_nil_inv q Hm) as [-> | [-> | ->]]; simpl in *; [done | | done].
  by destruct w as [c |]; simpl in *; simplify_eq.
Qed.

(** What is found matches, and nothing that matches is more specific. *)
Lemma search_sound n d v : search n d = Some v → best_pattern n d v.
Proof.
  revert d v. induction n as [ch w g v0 IHc IHw IHg] using domainNode_ind'.
  intros d v. destruct d as [| s d]; [apply search_sound_nil |]. rewrite search_node.
  destruct (get_child s ch ≫= λ c, search c d) as [v1 |] eqn:Hc; simpl.
  { intros [= <-]. apply bind_Some in Hc as (c & Hget & Hs).
    destruct (IHc _ c Hget _ _ Hs) as (p & Hp & Hm & Hbest).
    exists (Exact s :: p). split_and!; [simpl; by rewrite Hget | by constructor |].
    intros q u Hq Hmq. inversion Hmq as [| s' p' d' Hm' | s' p' d' Hm' | | | p' d' d'' ? ? Hm'];
      subst; simpl in *; try (by right).
    left. split; [done |]. rewrite Hget in Hq. by eapply Hbest. }
  assert (∀ p u, lookup (Node ch w g v0) (Exact s :: p) = Some u → ¬ pmatch p d) as HnoE.
  { intros p u Hp Hm. simpl in Hp. apply bind_Some in Hp as (c & Hget & Hp).
    rewrite Hget in Hc. simpl in Hc. destruct (search_complete c p d u Hp Hm). congruence. }
  destruct (w ≫= λ c, search c d) as [v1 |] eqn:Hw; simpl.
  { intros [= <-]. apply bind_Some in Hw as (c & -> & Hs).
    destruct (IHw c eq_refl _ _ Hs) as (p & Hp & Hm & Hbest).
    exists (Wild :: p). split_and!; [done | by constructor |].
    intros q u Hq Hmq. inversion Hmq as [| s' p' d' Hm' | s' p' d' Hm' | | | p' d' d'' ? ? Hm'];
      subst; try (by right).
    - exfalso. by eapply HnoE.
    - left. split; [done |]. by eapply Hbest. }
  assert (∀ p u, lookup (Node ch w g v0) (Wild :: p) = Some u → ¬ pmatch p d) as HnoW.
  { intros p u Hp Hm. simpl in Hp. apply bind_Some in Hp as (c & -> & Hp).
    simpl in Hw. destruct (search_complete c p d u Hp Hm). congruence. }
  intros (ng & -> & Hg)%bind_Some.
  assert (∀ p q u, lookup (Node ch w (Some ng) v0) q = Some u → pmatch q (s :: d) →
    specific (Glob :: p) q) as Hspec.
  { intros p q u Hq Hmq.
    inversion Hmq as [| s' p' d' Hm' | s' p' d' Hm' | | | p' d' d'' ? ? Hm']; subst;
      [exfalso; by eapply HnoE | exfalso; by eapply HnoW | done | done]. }
  destruct (value ng) as [v1 |] eqn:Hv; simpl in Hg.
  + injection Hg as <-. exists [Glob]. split_and!; [done | constructor |].
    intros q u. apply Hspec.
  + apply (first_some_Some (search ng) (tails (s :: d))) in Hg as (d' & Hin & Hs).
    destruct (IHg ng eq_refl _ _ Hs) as (p & Hp & Hm & _).
    exists (Glob :: p). split_and!; [done | by eapply pm_glob |]. intros q u. apply Hspec.
Qed.

(** C17. [Search] is exactly pattern matching over what was added: it finds a
    value if and only if some stored pattern covers the domain, the value
    is the one stored last at a covering pattern, and no covering pattern is
    more specific (exact over [*] over [**], from the top-level label down to
    the first [**] of the pattern found). *)
Theorem Search_spec (root : domainNode) (domain : string) :
  let d := splitDomain domain in
  match Search domain root with
  | Some v =>
    ∃ p, lookup root p = Some v ∧ pmatch p d ∧
      ∀ q u, lookup root q = Some u → pmatch q d → specific p q
  | None => ∀ p v, lookup root p = Some v → ¬ pmatch p d
  end.
Proof.
  unfold Search. destruct (search root (splitDomain domain)) as [v |] eqn:Hs.
  - by apply search_sound.
  - intros p v Hp Hm. destruct (search_complete _ _ _ _ Hp Hm). congruence.
Qed.

(** [Add] is insertion: it refuses only the empty pattern, and after it
    the pattern maps to the value and every other pattern to what it did. *)
Theorem Add_spec (pattern : string) (v : T) (root : domainNode) :
  match Add pattern v root with
  | Ok root' =>
    pattern ≠ ""%string ∧
    ∀ q, lookup root' q =
      if decide (q = seg_of <$> splitDomain pattern) then Some v else lookup root q
  | Err _ => pattern = ""%string
  | _ => False
  end.
Proof.
  unfold Add, splitPattern. destruct (decide (pattern = ""%string)); simpl; [done |].
  split; [done |]. intros q. apply lookup_add.
Qed.

(** A stored exact domain always wins. *)
Lemma specific_exact p d :
  specific p (Exact <$> d) → pmatch p d → p = Exact <$> d ∨ p = [] ∧ d = [].
Proof.
  revert d. induction p as [| x p IH]; intros d Hs Hm.
  - inversion Hm; subst. by right.
  - destruct d as [| s d]; [by destruct x |]. simpl in Hs.
    destruct x as [s' | |]; [| destruct Hs as [[? _] | [_ Hlt]]; [done | simpl in Hlt; lia] | done].
    destruct Hs as [[[= ->] Hs] | [_ Hlt]]; [| simpl in Hlt; lia].
    inversion Hm; subst. destruct (IH d) as [-> | [-> ->]]; [done | done | by left | by left].
Qed.

(** A domain stored without wildcards is always matched by its own entry,
    whatever patterns cover it too. *)
Theorem Search_exact (root : domainNode) (domain : string) (v : T) :
  lookup root (Exact <$> splitDomain domain) = Some v → Search domain root = Some v.
Proof.
  intros Hl. assert (∀ d, pmatch (Exact <$> d) d) as Hself.
  { intros d. induction d; simpl; by constructor. }
  unfold Search. destruct (search_complete root _ _ v Hl (Hself _)) as [u Hu]. rewrite Hu.
  destruct (search_sound root _ u Hu) as (p & Hp & Hm & Hbest).
  destruct (specific_exact p _ (Hbest _ _ Hl (Hself _)) Hm) as [-> | [-> Hd]]; [congruence |].
  rewrite Hd in Hl. simpl in *. congruence.
Qed.
End DomainTrie.
Arguments domainNode : clear implicits.

(** ** Domain names *)

(** Splitting: a name of non-empty labels is read back as its labels from
      the top level down, with or without the final dot. *)
Theorem splitDomain_labels (labels : list string) :
  labels ≠ [] → Forall (λ p, Contains1 "."%char p = false ∧ p ≠ ""%string) labels →
  splitDomain (Join "."%char labels) = reverse labels ∧
  splitDomain (Join "."%char labels +:+ ".") = reverse labels.
Proof.
  intros Hne Hl. assert (Join "."%char labels ≠ ""%string) as Hj.
  { destruct labels as [| p [| q ps]]; [done | ..]; apply Forall_cons in Hl as [[_ Hp] _]; [done |].
    simpl. by destruct p. }
  assert (Split "."%char (Join "."%char labels) = labels) as Hs.
  { apply Split_Join; [done |]. eapply Forall_impl; [exact Hl |]. by intros ? [? _]. }
  unfold splitDomain. split.
  - rewrite TrimSuffix1_Join by done. by rewrite decide_False, Hs.
  - change "."%string with (String "."%char ""). rewrite TrimSuffix1_app. simpl.
    replace (Join "."%char labels +:+ "") with (Join "."%char labels).
    + by rewrite decide_False, Hs.
    + generalize (Join "."%char labels). intros s. induction s as [| a s IH]; [done |].
      change (String a s +:+ "") with (String a (s +:+ "")). by rewrite <- IH.
Qed.

(** ** Witnesses *)
Lemma splitDomain_labels_witness :
  splitDomain "www.example.com." = ["com"; "example"; "www"]%string.
Proof.
  apply (splitDomain_labels ["www"; "example"; "com"]%string); [done |].
  repeat constructor; done.
Defined.

Definition sample_trie : domainNode Z :=
  add_segs [Exact "com"; Glob] 1
    (add_segs [Exact "com"; Exact "example"; Wild] 2
      (add_segs [Exact "com"; Exact "example"; Exact "www"] 3 newDomainNode)).

Lemma Search_exact_witness : Search "www.example.com" sample_trie = Some 3.
Proof. apply Search_exact. by vm_compute. Defined.

(** A [**] with a value hides the longer patterns that continue it. *)
Lemma globstar_shadows :
  let t := add_segs [Exact "com"; Glob; Exact "ads"] 2 (add_segs [Exact "com"; Glob] 1 newDomainNode) in
  Search "ads.example.com" t = Some 1 ∧ Search "ads.com" t = Some 1.
Proof. by vm_compute. Qed.
