(* ===== verification/CidrTrie.v ===== *)
(** * The CIDR trie: [internal/trie/cidr.go]

    The program keeps its values in a slice and their indices in two patricia
    trees of a library. [Patricia] is what the library documents of the two
    calls the program makes: a tree maps prefixes to tags, and the deepest tag
    of an address is the one of the longest prefix the address has. *)

From S2P Require Import Prelude GoNet GoStrings NetText.

(** A patricia address: the bits of an address, and how many of them count. *)
Record address : Type := mkAddress { addr_bits : list bool; addr_len : Z }.
Definition prefix_bits (a : address) : list bool := take (Z.to_nat (addr_len a)) (addr_bits a).

Class Patricia : Type := {
  tree : Type;
  NewTree : tree;
  tree_Set : address → Z → tree → tree;
  FindDeepestTag : address → tree → option Z;
  tag : tree → list bool → option Z;
  tag_new p : tag NewTree p = None;
  tag_set a i t p :
    0 <= addr_len a <= len (addr_bits a) →
    tag (tree_Set a i t) p = if decide (p = prefix_bits a) then Some i else tag t p;
  deepest_tag a t :
    match FindDeepestTag a t with
    | Some i => ∃ p, p `prefix_of` prefix_bits a ∧ tag t p = Some i ∧
        ∀ q, q `prefix_of` prefix_bits a → is_Some (tag t q) → (length q <= length p)%nat
    | None => ∀ q, q `prefix_of` prefix_bits a → tag t q = None
    end;
}.

Section CidrTrie.
Context `{NetText} `{Patricia} {T : Type}.

Record CIDRTrie : Type := mkCIDR { values : list T; trie4 : tree; trie6 : tree }.

Definition NewCIDRTrie : CIDRTrie := mkCIDR [] NewTree NewTree.

Definition Add (cidr : string) (value : T) (t : CIDRTrie) : outcome string CIDRTrie :=
  match ParseCIDR cidr with
  | None => Err "invalid cidr"%string
  | Some (_, ipNet) =>
    let idx := u32 (len (values t)) in
    let values := values t ++ [value] in
    match To4 (net_IP ipNet) with
    | Some ip4 =>
      Ok (mkCIDR values (tree_Set (mkAddress (bits_of ip4) (ones ipNet)) idx (trie4 t)) (trie6 t))
    | None =>
      Ok (mkCIDR values (trie4 t)
            (tree_Set (mkAddress (bits_of (net_IP ipNet)) (ones ipNet)) idx (trie6 t)))
    end
  end.

(** [t.values[idx]], with Go's bounds check. *)
Definition value_at (t : CIDRTrie) (idx : Z) : outcome string (option T) :=
  v ← index (values t) idx; Ok (Some v).

Definition Search (key : string) (t : CIDRTrie) : outcome string (option T) :=
  match ParseIP key with
  | None => Ok None
  | Some ip =>
    match To4 ip with
    | Some ip4 =>
      match FindDeepestTag (mkAddress (bits_of ip4) 32) (trie4 t) with
      | Some idx => value_at t idx
      | None => Ok None
      end
    | None =>
      match To16 ip with
      | Some ip16 =>
        match FindDeepestTag (mkAddress (bits_of ip16) 128) (trie6 t) with
        | Some idx => value_at t idx
        | None => Ok None
        end
      | None => Ok None
      end
    end
  end.

(** ** Specification: two maps from prefixes to values *)
Definition entry (t : CIDRTrie) (v4 : bool) (p : list bool) : option T :=
  i ← tag (if v4 then trie4 t else trie6 t) p; values t !! Z.to_nat i.

(** Every tag is the index of a value. *)
Definition trie_wf (t : CIDRTrie) : Prop :=
  len (values t) <= 2 ^ 32 ∧
  ∀ (v4 : bool) p i, tag (if v4 then trie4 t else trie6 t) p = Some i → 0 <= i < len (values t).

(** The family and the prefix of a network. The networks the program is
    given are IPv4 networks in four bytes or IPv6 networks in sixteen; an
    IPv4-mapped network in sixteen bytes would give the IPv4 tree a prefix
    longer than its addresses. *)
Definition plain_net (n : IPNet) : Prop :=
  len (net_IP n) = 4 ∨ len (net_IP n) = 16 ∧ To4 (net_IP n) = None.
Definition net_v4 (n : IPNet) : bool := len (net_IP n) =? 4.

(** The family and the bits of an address. *)
Definition ip_bits (ip : IP) : bool * list bool :=
  match To4 ip with
  | Some ip4 => (true, bits_of ip4)
  | None => (false, bits_of ip)
  end.

(** The value of the longest matching prefix. *)
Definition longest (t : CIDRTrie) (v4 : bool) (bits : list bool) (r : option T) : Prop :=
  match r with
  | Some v => ∃ p, p `prefix_of` bits ∧ entry t v4 p = Some v ∧
      ∀ q, q `prefix_of` bits → is_Some (entry t v4 q) → (length q <= length p)%nat
  | None => ∀ q, q `prefix_of` bits → entry t v4 q = None
  end.

Lemma NewCIDRTrie_wf : trie_wf NewCIDRTrie ∧ ∀ v4 p, entry NewCIDRTrie v4 p = None.
Proof.
  split; [split|].
  - change (len (values NewCIDRTrie)) with 0. lia.
  - intros [] p i; simpl; by rewrite tag_new.
  - intros [] p; unfold entry; simpl; by rewrite tag_new.
Qed.

Lemma entry_tag t (v4 : bool) p i :
  trie_wf t → tag (if v4 then trie4 t else trie6 t) p = Some i →
  ∃ v, values t !! Z.to_nat i = Some v ∧ entry t v4 p = Some v.
Proof.
  intros [_ Hwf] Hi. pose proof (Hwf v4 p i Hi) as Hr. unfold entry. rewrite Hi. simpl.
  destruct (lookup_lt_is_Some_2 (values t) (Z.to_nat i)) as [v Hv]; [unfold len in *; lia |].
  eauto.
Qed.

(** One insertion, seen through both maps. *)
Lemma insert_entry t (v4 : bool) a v :
  trie_wf t → 0 <= addr_len a <= len (addr_bits a) → len (values t) < 2 ^ 32 →
  let set t0 := tree_Set a (u32 (len (values t))) t0 in
  let t' := mkCIDR (values t ++ [v]) (if v4 then set (trie4 t) else trie4 t)
              (if v4 then trie6 t else set (trie6 t)) in
  trie_wf t' ∧
  ∀ v4' p, entry t' v4' p = if decide (v4' = v4 ∧ p = prefix_bits a) then Some v else entry t v4' p.
Proof.
  intros Hwf Ha Hlen. cbv zeta. pose proof (len_nonneg (values t)) as Hnn.
  assert (u32 (len (values t)) = len (values t)) as Hu by (unfold u32; rewrite Z.mod_small by lia; lia).
  rewrite Hu. set (t' := mkCIDR _ _ _).
  assert (∀ (v4' : bool) p, tag (if v4' then trie4 t' else trie6 t') p =
    if decide (v4' = v4 ∧ p = prefix_bits a) then Some (len (values t))
    else tag (if v4' then trie4 t else trie6 t) p) as Htag.
  { intros v4' p. subst t'. destruct v4', v4; simpl; rewrite ?tag_set by done.
    all: destruct (decide (p = prefix_bits a)); repeat case_decide; naive_solver. }
  assert (values t' = values t ++ [v]) as Hvals by done.
  split.
  - split; [rewrite Hvals, len_app; change (len [v]) with 1; lia |].
    intros v4' p i. rewrite Htag, Hvals, len_app. change (len [v]) with 1.
    case_decide; [intros [= <-]; lia |]. intros Hi. pose proof (proj2 Hwf v4' p i Hi). lia.
  - intros v4' p. unfold entry. rewrite Htag, Hvals. case_decide as Hd; simpl.
    + unfold len. rewrite Nat2Z.id, lookup_app_r, Nat.sub_diag by lia. done.
    + destruct (tag (if v4' then trie4 t else trie6 t) p) as [i |] eqn:Hi; simpl; [| done].
      apply lookup_app_l. pose proof (proj2 Hwf v4' p i Hi). unfold len in *. lia.
Qed.

Lemma search_tree t (v4 : bool) a :
  trie_wf t →
  ∃ r, (match FindDeepestTag a (if v4 then trie4 t else trie6 t) with
        | Some idx => value_at t idx
        | None => Ok None
        end) = Ok r ∧ longest t v4 (prefix_bits a) r.
Proof.
  intros Hwf. pose proof (deepest_tag a (if v4 then trie4 t else trie6 t)) as Hd.
  assert (∀ q, is_Some (entry t v4 q) ↔ is_Some (tag (if v4 then trie4 t else trie6 t) q)) as Hs.
  { intros q. split.
    - unfold entry. intros [v (i & -> & _)%bind_Some]. by eexists.
    - intros [i Hi]. destruct (entry_tag t v4 q i Hwf Hi) as (v & _ & ->). by eexists. }
  destruct (FindDeepestTag a _) as [i |].
  - destruct Hd as (p & Hp & Hi & Hmax). destruct (entry_tag t v4 p i Hwf Hi) as (v & Hv & He).
    exists (Some v). unfold value_at, index.
    pose proof (proj2 Hwf v4 p i Hi). replace (0 <=? i) with true by lia. rewrite Hv.
    split; [done |]. exists p. split_and!; [done | done |]. intros q Hq. rewrite Hs. by apply Hmax.
  - exists None. split; [done |]. intros q Hq. apply eq_None_not_Some. rewrite Hs, Hd by done.
    by intros [].
Qed.

Lemma search_ok (t : CIDRTrie) (key : string) :
  trie_wf t →
  ∃ r, Search key t = Ok r ∧
    match ParseIP key with
    | Some ip => longest t (ip_bits ip).1 (ip_bits ip).2 r
    | None => r = None
    end.
Proof.
  intros Hwf. unfold Search. destruct (ParseIP key) as [ip |] eqn:Hk; [| by exists None].
  apply ParseIP_wf in Hk as [Hl Hok]. unfold ip_bits. destruct (To4 ip) as [ip4 |] eqn:H4.
  - destruct (search_tree t true (mkAddress (bits_of ip4) 32) Hwf) as (r & Hr & Hlong).
    exists r. split; [exact Hr |]. simpl. unfold prefix_bits in Hlong. simpl in Hlong.
    rewrite take_ge in Hlong; [done |]. rewrite length_bits_of.
    apply To4_len in H4. unfold len in H4. lia.
  - unfold To16. rewrite Hl. simpl.
    destruct (search_tree t false (mkAddress (bits_of ip) 128) Hwf) as (r & Hr & Hlong).
    exists r. split; [exact Hr |]. unfold prefix_bits in Hlong. simpl in Hlong.
    rewrite take_ge in Hlong; [done |]. rewrite length_bits_of. unfold len in Hl. lia.
Qed.

(** Longest-prefix match: [Search] never fails; for an address (in either
    textual family, an IPv4-mapped one counting as IPv4) it returns the value
    of the longest stored prefix the address lies in, and nothing for other
    texts and for addresses outside every prefix. *)
Theorem Search_longest (t : CIDRTrie) (key : string) :
  trie_wf t →
  ∃ r, Search key t = Ok r ∧
    match ParseIP key with
    | Some ip => longest t (ip_bits ip).1 (ip_bits ip).2 r
    | None => r = None
    end.
Proof. apply search_ok. Qed.

Lemma add_ok (t : CIDRTrie) (cidr : string) (v : T) :
  trie_wf t → len (values t) < 2 ^ 32 →
  (∀ ip n, ParseCIDR cidr = Some (ip, n) → plain_net n) →
  match Add cidr v t, ParseCIDR cidr with
  | Ok t', Some (_, n) =>
    trie_wf t' ∧ len (values t') = len (values t) + 1 ∧
    ∀ v4 p, entry t' v4 p = if decide (v4 = net_v4 n ∧ p = net_bits n) then Some v else entry t v4 p
  | Err _, None => True
  | _, _ => False
  end.
Proof.
  intros Hwf Hlen Hplain. unfold Add.
  destruct (ParseCIDR cidr) as [[ip n] |] eqn:Hp; [| done].
  destruct (ParseCIDR_wf _ _ _ Hp) as ((_ & _ & Hones) & _).
  assert (∀ b : bytes, len (bits_of b) = 8 * len b) as Hbits.
  { intros b. unfold len. rewrite length_bits_of. lia. }
  assert (∀ t0 : CIDRTrie, values t0 = values t ++ [v] → len (values t0) = len (values t) + 1) as Hval.
  { intros t0 ->. by rewrite len_app. }
  destruct (Hplain ip n eq_refl) as [H4 | [H16 Hn4]].
  - assert (To4 (net_IP n) = Some (net_IP n)) as -> by (unfold To4; by rewrite H4).
    destruct (insert_entry t true (mkAddress (bits_of (net_IP n)) (ones n)) v Hwf) as [Hwf' He];
      [simpl; rewrite Hbits; lia | done |].
    split_and!; [done | by apply Hval |]. unfold net_v4. rewrite H4. exact He.
  - rewrite Hn4.
    destruct (insert_entry t false (mkAddress (bits_of (net_IP n)) (ones n)) v Hwf) as [Hwf' He];
      [simpl; rewrite Hbits; lia | done |].
    split_and!; [done | by apply Hval |]. unfold net_v4. rewrite H16. exact He.
Qed.

(** [Add] of a network maps its prefix to the value, in the tree of its
    family, and leaves every other prefix of both families alone; a text that
    is not a network is refused. *)
Theorem Add_prefix (t : CIDRTrie) (cidr : string) (v : T) :
  trie_wf t → len (values t) < 2 ^ 32 →
  (∀ ip n, ParseCIDR cidr = Some (ip, n) → plain_net n) →
  match Add cidr v t, ParseCIDR cidr with
  | Ok t', Some (_, n) =>
    trie_wf t' ∧ len (values t') = len (values t) + 1 ∧
    ∀ v4 p, entry t' v4 p = if decide (v4 = net_v4 n ∧ p = net_bits n) then Some v else entry t v4 p
  | Err _, None => True
  | _, _ => False
  end.
Proof. apply add_ok. Qed.
End CidrTrie.
Arguments CIDRTrie {_} T.

(** ** An instance: a map from prefixes, searched from the longest down *)
Fixpoint deepest_from (t : gmap (list bool) Z) (bits : list bool) (n : nat) : option Z :=
  match t !! take n bits with
  | Some i => Some i
  | None => match n with O => None | S n => deepest_from t bits n end
  end.

Lemma deepest_from_spec t bits n :
  match deepest_from t bits n with
  | Some i => ∃ m, (m <= n)%nat ∧ t !! take m bits = Some i ∧
      ∀ k, (k <= n)%nat → is_Some (t !! take k bits) → (k <= m)%nat
  | None => ∀ k, (k <= n)%nat → t !! take k bits = None
  end.
Proof.
  induction n as [| n IH]; cbn [deepest_from].
  - destruct (t !! take 0 bits) as [i |] eqn:Hi.
    + exists 0%nat. split_and!; [lia | done | lia].
    + intros k Hk. by replace k with 0%nat by lia.
  - destruct (t !! take (S n) bits) as [i |] eqn:Hi.
    + exists (S n). split_and!; [lia | done | lia].
    + destruct (deepest_from t bits n) as [i |].
      * destruct IH as (m & Hm & Hi' & Hmax). exists m. split_and!; [lia | done |].
        intros k Hk Hs. destruct (decide (k = S n)) as [-> |]; [by rewrite Hi in Hs; destruct Hs |].
        apply Hmax; [lia | done].
      * intros k Hk. destruct (decide (k = S n)) as [-> |]; [done | apply IH; lia].
Qed.

Lemma prefix_take {A} (q l : list A) : q `prefix_of` l → q = take (length q) l.
Proof. intros [k ->]. by rewrite take_app_length. Qed.

#[export] Program Instance map_Patricia : Patricia := {
  tree := gmap (list bool) Z;
  NewTree := ∅;
  tree_Set a i t := <[prefix_bits a := i]> t;
  FindDeepestTag a t := deepest_from t (prefix_bits a) (length (prefix_bits a));
  tag t p := t !! p;
}.
Next Obligation. intros p. apply lookup_empty. Qed.
Next Obligation.
  intros a i t p _. case_decide as Hp; [by rewrite Hp, lookup_insert_eq | by rewrite lookup_insert_ne].
Qed.
Next Obligation.
  intros a t. simpl. set (bits := prefix_bits a).
  pose proof (deepest_from_spec t bits (length bits)) as Hd.
  destruct (deepest_from t bits (length bits)) as [i |].
  - destruct Hd as (m & Hm & Hi & Hmax). exists (take m bits).
    split_and!; [apply prefix_take_r || (exists (drop m bits); by rewrite take_drop) | done |].
    intros q Hq Hs. rewrite (prefix_take _ _ Hq) in Hs. rewrite length_take.
    pose proof (prefix_length _ _ Hq). specialize (Hmax _ ltac:(done) Hs). lia.
  - intros q Hq. rewrite (prefix_take _ _ Hq). apply Hd. by apply prefix_length.
Qed.

(** ** Witnesses *)
Definition sample_cidrs : CIDRTrie string :=
  mkCIDR ["ten"; "ten-one"]%string
    (tree_Set (mkAddress (bits_of [10; 1; 0; 0]) 16) 1
       (tree_Set (mkAddress (bits_of [10; 0; 0; 0]) 8) 0 NewTree)) NewTree.

Lemma sample_cidrs_wf : trie_wf sample_cidrs.
Proof.
  split; [by vm_compute |]. intros [] p i Hi; simpl in Hi; [| by rewrite lookup_empty in Hi].
  change (len (values sample_cidrs)) with 2.
  apply lookup_insert_Some in Hi as [[_ <-] | [_ Hi]]; [lia |].
  apply lookup_insert_Some in Hi as [[_ <-] | [_ Hi]]; [lia |]. by rewrite lookup_empty in Hi.
Qed.

Lemma Search_longest_witness :
  trie_wf sample_cidrs ∧ ∃ r, Search "10.1.2.3" sample_cidrs = Ok r ∧ r = Some "ten-one"%string.
Proof.
  split; [apply sample_cidrs_wf |].
  destruct (Search_longest sample_cidrs "10.1.2.3" sample_cidrs_wf) as (r & Hr & _).
  exists r. split; [exact Hr |]. vm_compute in Hr. by injection Hr as <-.
Defined.

Lemma Add_prefix_witness :
  trie_wf sample_cidrs ∧
  match Add "10.1.0.0/24" "new"%string sample_cidrs with
  | Ok t' => len (values t') = 3
  | _ => False
  end.
Proof.
  split; [apply sample_cidrs_wf |].
  pose proof (Add_prefix sample_cidrs "10.1.0.0/24" "new"%string sample_cidrs_wf) as H.
  specialize (H ltac:(by vm_compute)).
  assert (∀ ip n, ParseCIDR "10.1.0.0/24" = Some (ip, n) → plain_net n) as Hp.
  { intros ip n Hn. vm_compute in Hn. injection Hn as _ <-. by left. }
  specialize (H Hp). change (len (values sample_cidrs)) with 2 in H.
  destruct (Add "10.1.0.0/24" "new"%string sample_cidrs) as [t' | | |];
    destruct (ParseCIDR "10.1.0.0/24") as [[ip n] |] eqn:E; try done.
  by destruct H as (_ & -> & _).
Defined.
