(* ===== verification/RuleSet.v ===== *)
(** * The rule set: [internal/rule/set.go] and [query.go]

    Rules are found by domain pattern or by network. The maps [domainKeys] and
    [cidrKeys] remember, per text, which rule holds the entry, and decide at
    [Add] time which of two rules with the same text is kept. *)

From S2P Require Import Prelude GoNet GoStrings NetText ConfigTypes DomainTrie CidrTrie.
From Stdlib Require Import Ascii.

Inductive MatchType : Type := MatchTypeDomain | MatchTypeAddr.
Record Query : Type := mkQuery { Type_ : MatchType; Value : string }.

Definition HigherPriority (a b : option Rule) : option Rule :=
  match a, b with
  | None, _ => b
  | _, None => a
  | Some x, Some y => if Priority y <=? Priority x then a else b
  end.

(** The loop of [Add] over one kind of key: the error, if any, the key map and
    the trie; what was added before an error stays. *)
Fixpoint add_keys {X} (add : string → Rule → X → outcome string X) (r : Rule)
    (keys : list string) (m : gmap string Rule) (x : X) : option string * gmap string Rule * X :=
  match keys with
  | [] => (None, m, x)
  | key :: keys =>
    match m !! key with
    | Some existing =>
      if Priority existing =? Priority r then (Some "conflict"%string, m, x)
      else if Priority r <=? Priority existing then add_keys add r keys m x
      else
        match add key r x with
        | Ok x => add_keys add r keys (<[key := r]> m) x
        | Err e => (Some e, m, x)
        | _ => (Some "panic"%string, m, x)
        end
    | None =>
      match add key r x with
      | Ok x => add_keys add r keys (<[key := r]> m) x
      | Err e => (Some e, m, x)
      | _ => (Some "panic"%string, m, x)
      end
    end
  end.

Section RuleSet.
Context `{NetText} `{Patricia}.

Record RuleSet : Type := mkRuleSet {
  domain : domainNode Rule;
  cidr : CIDRTrie Rule;
  domainKeys : gmap string Rule;
  cidrKeys : gmap string Rule;
}.

Definition NewRuleSet : RuleSet := mkRuleSet newDomainNode NewCIDRTrie ∅ ∅.

Definition Add (r : Rule) (rs : RuleSet) : option string * RuleSet :=
  match Match r with
  | None => (Some "rule match attributes cannot be nil"%string, rs)
  | Some attrs =>
    let hasDomain := 0 <? len (Domains attrs) in
    let hasCIDR := 0 <? len (CIDRs attrs) in
    if negb hasDomain && negb hasCIDR then
      (Some "invalid rule: match must contain 'domain' or 'cidrs'"%string, rs)
    else
      let '(err, dk, d) := add_keys DomainTrie.Add r (Domains attrs) (domainKeys rs) (domain rs) in
      let rs := mkRuleSet d (cidr rs) dk (cidrKeys rs) in
      match err with
      | Some _ => (err, rs)
      | None =>
        let '(err, ck, c) := add_keys CidrTrie.Add r (CIDRs attrs) (cidrKeys rs) (cidr rs) in
        (err, mkRuleSet (domain rs) c (domainKeys rs) ck)
      end
  end.

(** The rule one query finds. *)
Definition hit (rs : RuleSet) (q : Query) : outcome string (option Rule) :=
  match Type_ q with
  | MatchTypeDomain => Ok (DomainTrie.Search (Value q) (domain rs))
  | MatchTypeAddr => CidrTrie.Search (Value q) (cidr rs)
  end.

Fixpoint search_loop (rs : RuleSet) (queries : list Query) (best : option Rule)
    : outcome string (option Rule) :=
  match queries with
  | [] => Ok best
  | q :: queries => r ← hit rs q; search_loop rs queries (HigherPriority best r)
  end.

Definition Search (queries : list Query) (rs : RuleSet) : outcome string (option Rule) :=
  best ← search_loop rs queries None; Ok (Clone best).

(** Adding rules one after the other, all of them accepted. *)
Fixpoint added (rules : list Rule) (rs : RuleSet) : option RuleSet :=
  match rules with
  | [] => Some rs
  | r :: rules => let '(err, rs) := Add r rs in match err with None => added rules rs | Some _ => None end
  end.

Definition domains_of (r : Rule) : list string := match Match r with Some a => Domains a | None => [] end.
Definition cidrs_of (r : Rule) : list string := match Match r with Some a => CIDRs a | None => [] end.

(** ** Search *)
Lemma HigherPriority_spec a b :
  (HigherPriority a b = a ∨ HigherPriority a b = b) ∧
  (∀ x, a = Some x → ∃ z, HigherPriority a b = Some z ∧ Priority x <= Priority z) ∧
  (∀ y, b = Some y → ∃ z, HigherPriority a b = Some z ∧ Priority y <= Priority z) ∧
  (∀ x, a = Some x → (∀ y, b = Some y → Priority y <= Priority x) → HigherPriority a b = a).
Proof.
  destruct a as [x |], b as [y |]; simpl; [destruct (Z.leb_spec (Priority y) (Priority x)) | ..];
    split_and!; intros; simplify_eq; eauto with lia.
  exfalso. match goal with H : ∀ y, _ → Priority y <= _ |- _ => specialize (H _ eq_refl) end. lia.
Qed.

Lemma search_loop_spec rs queries best :
  trie_wf (cidr rs) →
  ∃ res, search_loop rs queries best = Ok res ∧
    (res = best ∨ ∃ q, q ∈ queries ∧ hit rs q = Ok res) ∧
    (∀ x, best = Some x → ∃ z, res = Some z ∧ Priority x <= Priority z) ∧
    (∀ q y, q ∈ queries → hit rs q = Ok (Some y) → ∃ z, res = Some z ∧ Priority y <= Priority z) ∧
    (∀ x, best = Some x →
      (∀ q y, q ∈ queries → hit rs q = Ok (Some y) → Priority y <= Priority x) → res = best).
Proof.
  intros Hwf. revert best. induction queries as [| q queries IH]; intros best; simpl.
  { exists best. split_and!; [done | by left | eauto with lia | | done].
    intros q y ?%elem_of_nil. done. }
  assert (∃ r, hit rs q = Ok r) as [r Hr].
  { unfold hit. destruct (Type_ q); [eauto |].
    destruct (search_ok (cidr rs) (Value q) Hwf) as (r & -> & _). eauto. }
  rewrite Hr. simpl. destruct (HigherPriority_spec best r) as (H1 & H2 & H3 & H4).
  destruct (IH (HigherPriority best r)) as (res & -> & I1 & I2 & I3 & I4).
  exists res. split_and!; [done | | | |].
  - destruct I1 as [-> | (q' & Hq' & Hh)].
    + destruct H1 as [-> | ->]; [by left |]. right. exists q. split; [by left | done].
    + right. exists q'. split; [by right | done].
  - intros x Hx. destruct (H2 x Hx) as (z & Hz & Hle). destruct (I2 z Hz) as (z' & ? & ?).
    exists z'. split; [done | lia].
  - intros q' y [-> | Hq']%elem_of_cons Hh; [| by eapply I3].
    rewrite Hr in Hh. injection Hh as ->. destruct (H3 y eq_refl) as (z & Hz & Hle).
    destruct (I2 z Hz) as (z' & ? & ?). exists z'. split; [done | lia].
  - intros x -> Hall. assert (HigherPriority (Some x) r = Some x) as Hx.
    { apply (H4 x eq_refl). intros y ->. apply (Hall q); [by left | done]. }
    rewrite Hx in I4. apply (I4 x eq_refl). intros q' y Hq'. apply (Hall q'). by right.
Qed.

Lemma Clone_id r : Clone r = r.
Proof. by destruct r as [[]|]. Qed.

(** [Search] never fails and returns the best of what its queries find: a
    rule found by one of them, of a priority no other query's rule exceeds,
    and the first query's whenever that one is not exceeded; nothing exactly
    when no query finds a rule. *)
Theorem Search_best (queries : list Query) (rs : RuleSet) :
  trie_wf (cidr rs) →
  ∃ res, Search queries rs = Ok res ∧
    match res with
    | Some r =>
      (∃ q, q ∈ queries ∧ hit rs q = Ok (Some r)) ∧
      (∀ q r', q ∈ queries → hit rs q = Ok (Some r') → Priority r' <= Priority r)
    | None => ∀ q r', q ∈ queries → hit rs q ≠ Ok (Some r')
    end ∧
    match queries with
    | q :: _ => ∀ r, hit rs q = Ok (Some r) →
        (∀ q' r', q' ∈ queries → hit rs q' = Ok (Some r') → Priority r' <= Priority r) →
        res = Some r
    | [] => True
    end.
Proof.
  intros Hwf. unfold Search. destruct (search_loop_spec rs queries None Hwf) as
    (res & Hres & H1 & _ & H3 & _).
  rewrite Hres. simpl. exists res. split; [by rewrite Clone_id |]. split.
  - destruct res as [r |].
    + split.
      * destruct H1 as [? | (q & ? & ?)]; [done | eauto].
      * intros q r' Hq Hh. destruct (H3 q r' Hq Hh) as (z & [= <-] & ?). done.
    + intros q r' Hq Hh. by destruct (H3 q r' Hq Hh) as (z & ? & _).
  - destruct queries as [| q queries]; [done |]. intros r Hh Hmax. simpl in Hres.
    rewrite Hh in Hres. simpl in Hres.
    destruct (search_loop_spec rs queries (Some r) Hwf) as (res' & Hres' & _ & _ & _ & H4).
    rewrite Hres' in Hres. injection Hres as ->. apply (H4 r eq_refl).
    intros q' y Hq'. apply (Hmax q'). by right.
Qed.

(** ** Add *)
Section Keys.
Context {X A : Type} `{!EqDecision A} (addf : string → Rule → X → outcome string X).
Context (view : X → A → option Rule) (canon : string → A) (I : Z → X → Prop).
Context (good : string → Prop).
Hypothesis canon_inj : ∀ k1 k2, good k1 → good k2 → canon k1 = canon k2 → k1 = k2.
Hypothesis I_mono : ∀ a b x, a <= b → I b x → I a x.
Hypothesis addf_spec : ∀ b k r x x', 0 < b → I b x → good k → addf k r x = Ok x' →
  I (b - 1) x' ∧ ∀ a, view x' a = if decide (a = canon k) then Some r else view x a.

(** After the pairs [done] have been added, with room for [b] more. *)
Record keys_inv (b : Z) (done : list (Rule * string)) (m : gmap string Rule) (x : X) : Prop := {
  ki_I : I b x;
  ki_good : ∀ r k, (r, k) ∈ done → good k;
  ki_from : ∀ k r, m !! k = Some r → (r, k) ∈ done;
  ki_max : ∀ r k, (r, k) ∈ done → ∃ r', m !! k = Some r' ∧ Priority r <= Priority r';
  ki_view : ∀ a r, view x a = Some r ↔ ∃ k, m !! k = Some r ∧ canon k = a;
}.

Lemma ki_insert b done m x x' r k :
  0 < b → keys_inv b done m x → good k → addf k r x = Ok x' →
  (∀ r', m !! k = Some r' → Priority r' < Priority r) →
  keys_inv (b - 1) (done ++ [(r, k)]) (<[k := r]> m) x'.
Proof.
  intros Hb [HI Hg Hf Hm Hv] Hgk Hadd Hlow.
  destruct (addf_spec b k r x x' Hb HI Hgk Hadd) as [HI' Hview]. split.
  - done.
  - intros r' k' [Hin | Heq%list_elem_of_singleton]%elem_of_app; [by eapply Hg |].
    by injection Heq as -> ->.
  - intros k' r' [[-> ->] | [_ Hk']]%lookup_insert_Some; apply elem_of_app;
      [right; by apply list_elem_of_singleton | left; by apply Hf].
  - intros r' k' [Hin | Heq%list_elem_of_singleton]%elem_of_app.
    + destruct (Hm _ _ Hin) as (r2 & Hr2 & Hle). destruct (decide (k' = k)) as [-> | Hne].
      * exists r. rewrite lookup_insert_eq. split; [done |]. specialize (Hlow r2 Hr2). lia.
      * exists r2. by rewrite lookup_insert_ne.
    + injection Heq as -> ->. exists r. rewrite lookup_insert_eq. split; [done | lia].
  - intros a r'. rewrite Hview. case_decide as Ha.
    + subst a. split.
      * intros [= <-]. exists k. by rewrite lookup_insert_eq.
      * intros (k' & Hk' & Hc). apply lookup_insert_Some in Hk' as [[_ ->] | [Hne Hk']]; [done |].
        exfalso. apply Hne, canon_inj; [done | | done]. eapply Hg, Hf, Hk'.
    + rewrite Hv. split; intros (k' & Hk' & Hc); exists k'; (split; [| done]).
      * rewrite lookup_insert_ne; [done |]. congruence.
      * apply lookup_insert_Some in Hk' as [[<- _] | [_ ?]]; [congruence | done].
Qed.

Lemma ki_skip b done m x r k r' :
  keys_inv b done m x → good k → m !! k = Some r' → Priority r <= Priority r' →
  keys_inv b (done ++ [(r, k)]) m x.
Proof.
  intros [HI Hg Hf Hm Hv] Hgk Hk Hle. split; [done | | | | done].
  - intros r2 k2 [Hin | Heq%list_elem_of_singleton]%elem_of_app; [by eapply Hg |].
    by injection Heq as -> ->.
  - intros k2 r2 Hk2. apply elem_of_app. left. by apply Hf.
  - intros r2 k2 [Hin | Heq%list_elem_of_singleton]%elem_of_app; [by apply Hm |].
    injection Heq as -> ->. eauto.
Qed.

Lemma ki_weaken a b done m x : a <= b → keys_inv b done m x → keys_inv a done m x.
Proof.
  intros Hab [HI Hg Hf Hm Hv]. split; [by eapply I_mono | exact Hg | exact Hf | exact Hm | exact Hv].
Qed.

Lemma add_keys_inv b done r keys m x m' x' :
  len keys <= b → keys_inv b done m x → Forall good keys →
  add_keys addf r keys m x = (None, m', x') →
  keys_inv (b - len keys) (done ++ ((r,.) <$> keys)) m' x'.
Proof.
  revert b done m x. induction keys as [| k keys IH]; intros b done m x Hb Hi Hg Hadd;
    cbn [add_keys] in Hadd; rewrite ?fmap_cons.
  { injection Hadd as <- <-. rewrite app_nil_r. apply (ki_weaken _ b); [| done].
    change (len (@nil string)) with 0. lia. }
  apply Forall_cons in Hg as [Hgk Hg]. rewrite len_cons in *. pose proof (len_nonneg keys).
  assert (∀ x1, addf k r x = Ok x1 → (∀ r', m !! k = Some r' → Priority r' < Priority r) →
    add_keys addf r keys (<[k := r]> m) x1 = (None, m', x') →
    keys_inv (b - (1 + len keys)) (done ++ (r, k) :: ((r,.) <$> keys)) m' x') as Hins.
  { intros x1 Hx1 Hlow Hrest.
    replace (b - (1 + len keys)) with (b - 1 - len keys) by lia.
    replace (done ++ (r, k) :: ((r,.) <$> keys)) with ((done ++ [(r, k)]) ++ ((r,.) <$> keys))
      by (by rewrite <- app_assoc).
    eapply IH; [lia | | done | done]. eapply ki_insert; [lia | done..]. }
  destruct (m !! k) as [existing |] eqn:Hk.
  - destruct (Z.eqb_spec (Priority existing) (Priority r)); [done |].
    destruct (Z.leb_spec (Priority r) (Priority existing)).
    + replace (done ++ (r, k) :: ((r,.) <$> keys)) with ((done ++ [(r, k)]) ++ ((r,.) <$> keys))
        by (by rewrite <- app_assoc).
      apply (ki_weaken _ (b - len keys)); [lia |].
      eapply IH; [lia | by eapply ki_skip | done | done].
    + destruct (addf k r x) as [x1 | | |] eqn:Hx; try done. eapply Hins; [done | | done].
      intros r' [= <-]. lia.
  - destruct (addf k r x) as [x1 | | |] eqn:Hx; try done. by eapply Hins.
Qed.
End Keys.

(** *** Domains *)
Definition pattern_of (k : string) : list seg := seg_of <$> splitDomain k.
Definition plain_pattern (k : string) : Prop := k ≠ ""%string ∧ TrimSuffix1 "."%char k = k.

#[local] Instance seg_of_inj : Inj (=) (=) seg_of.
Proof. intros s t. unfold seg_of. repeat case_decide; intros ?; simplify_eq; congruence. Qed.

Lemma pattern_of_inj k1 k2 :
  plain_pattern k1 → plain_pattern k2 → pattern_of k1 = pattern_of k2 → k1 = k2.
Proof.
  intros [Hne1 H1] [Hne2 H2] Heq%(inj (fmap seg_of)). unfold splitDomain in Heq.
  rewrite H1, H2, !decide_False in Heq by done. by apply (inj reverse), (inj (Split _)) in Heq.
Qed.

Lemma domain_add_spec k (r : Rule) (x x' : domainNode Rule) :
  DomainTrie.Add k r x = Ok x' →
  ∀ a, lookup x' a = if decide (a = pattern_of k) then Some r else lookup x a.
Proof.
  unfold DomainTrie.Add, splitPattern. destruct (decide (k = ""%string)); simpl; [done |].
  intros [= <-] a. apply lookup_add.
Qed.

Definition domain_inv (done_ : list (Rule * string)) (m : gmap string Rule)
    (x : domainNode Rule) : Prop :=
  keys_inv lookup pattern_of (λ _ _, True) plain_pattern 0 done_ m x.

Definition domain_pairs (rules : list Rule) : list (Rule * string) :=
  rules ≫= λ r, (r,.) <$> domains_of r.
Definition cidr_pairs (rules : list Rule) : list (Rule * string) :=
  rules ≫= λ r, (r,.) <$> cidrs_of r.

Lemma elem_of_domain_pairs rules r k : (r, k) ∈ domain_pairs rules ↔ r ∈ rules ∧ k ∈ domains_of r.
Proof.
  unfold domain_pairs. rewrite list_elem_of_bind. split.
  - intros (r' & (k' & [= -> ->] & Hk)%list_elem_of_fmap & Hr). done.
  - intros [Hr Hk]. exists r. split; [| done]. apply list_elem_of_fmap. eauto.
Qed.

Lemma elem_of_cidr_pairs rules r k : (r, k) ∈ cidr_pairs rules ↔ r ∈ rules ∧ k ∈ cidrs_of r.
Proof.
  unfold cidr_pairs. rewrite list_elem_of_bind. split.
  - intros (r' & (k' & [= -> ->] & Hk)%list_elem_of_fmap & Hr). done.
  - intros [Hr Hk]. exists r. split; [| done]. apply list_elem_of_fmap. eauto.
Qed.

(** What a successful [Add] did. *)
Lemma Add_success r rs rs' :
  Add r rs = (None, rs') →
  add_keys DomainTrie.Add r (domains_of r) (domainKeys rs) (domain rs) =
    (None, domainKeys rs', domain rs') ∧
  add_keys CidrTrie.Add r (cidrs_of r) (cidrKeys rs) (cidr rs) = (None, cidrKeys rs', cidr rs').
Proof.
  unfold Add, domains_of, cidrs_of. destruct (Match r) as [attrs |]; [| done].
  destruct (_ && _); [done |]. intros H1.
  destruct (add_keys DomainTrie.Add r _ _ _) as [[[e|] dk] d]; [done |]. cbn [cidr cidrKeys] in H1.
  destruct (add_keys CidrTrie.Add r _ _ _) as [[e2 ck] c]. by simplify_eq/=.
Qed.

Lemma added_domain_inv rules rs rs' done_ :
  added rules rs = Some rs' →
  (∀ r k, r ∈ rules → k ∈ domains_of r → plain_pattern k) →
  domain_inv done_ (domainKeys rs) (domain rs) →
  domain_inv (done_ ++ domain_pairs rules) (domainKeys rs') (domain rs').
Proof.
  revert rs done_. induction rules as [| r rules IH]; intros rs done_ Hadd Hplain Hi.
  { injection Hadd as <-. unfold domain_pairs. simpl. by rewrite app_nil_r. }
  cbn [added] in Hadd. destruct (Add r rs) as [[e|] rs1] eqn:Hr; [done |].
  apply Add_success in Hr as [Hd _].
  change (domain_pairs (r :: rules)) with (((r,.) <$> domains_of r) ++ domain_pairs rules).
  rewrite app_assoc. eapply IH; [done | intros r' k Hr'; apply Hplain; by right |].
  assert (keys_inv lookup pattern_of (λ _ _, True) plain_pattern (len (domains_of r)) done_
    (domainKeys rs) (domain rs)) as Hi' by (destruct Hi; by split).
  eapply (add_keys_inv DomainTrie.Add lookup pattern_of (λ _ _, True)) in Hi'.
  - rewrite Z.sub_diag in Hi'. exact Hi'.
  - apply pattern_of_inj.
  - done.
  - intros b k r' x x' _ _ _ Ha. split; [done | by apply domain_add_spec].
  - done.
  - apply Forall_forall. intros k Hk. apply (Hplain r); [by left | done].
  - exact Hd.
Qed.


(** *** Networks *)
Definition net_of (k : string) : option (bool * list bool) :=
  (λ p, (net_v4 p.2, net_bits p.2)) <$> ParseCIDR k.

(** The texts are networks of one family, and no network is written in two
    ways. *)
Definition plain_cidrs (ks : list string) : Prop :=
  (∀ k ip n, k ∈ ks → ParseCIDR k = Some (ip, n) → plain_net n) ∧
  (∀ k1 k2, k1 ∈ ks → k2 ∈ ks → net_of k1 = net_of k2 → k1 = k2).

Definition cidr_view (t : CIDRTrie Rule) (a : option (bool * list bool)) : option Rule :=
  '(v4, p) ← a; entry t v4 p.
Definition cidr_room (b : Z) (t : CIDRTrie Rule) : Prop := trie_wf t ∧ len (values t) + b <= 2 ^ 32.

Definition cidr_inv (ks : list string) (b : Z) (done_ : list (Rule * string))
    (m : gmap string Rule) (x : CIDRTrie Rule) : Prop :=
  keys_inv cidr_view net_of cidr_room (λ k, k ∈ ks) b done_ m x.

Lemma cidr_add_spec ks b k (r : Rule) (x x' : CIDRTrie Rule) :
  plain_cidrs ks → 0 < b → cidr_room b x → k ∈ ks → CidrTrie.Add k r x = Ok x' →
  cidr_room (b - 1) x' ∧
  ∀ a, cidr_view x' a = if decide (a = net_of k) then Some r else cidr_view x a.
Proof.
  intros [Hp _] Hb [Hwf Hroom] Hk Ha.
  pose proof (add_ok x k r Hwf ltac:(lia) (λ ip n, Hp k ip n Hk)) as H1. rewrite Ha in H1.
  unfold net_of. destruct (ParseCIDR k) as [[ip n] |]; [| done]. simpl.
  destruct H1 as (Hwf' & Hl & He). split; [split; [done | lia] |].
  intros [[v4 p] |]; simpl; [| done]. rewrite He. repeat case_decide; naive_solver.
Qed.

Lemma added_cidr_inv ks rules rs rs' b done_ :
  plain_cidrs ks → added rules rs = Some rs' → (∀ r k, r ∈ rules → k ∈ cidrs_of r → k ∈ ks) →
  len (cidr_pairs rules) <= b → cidr_inv ks b done_ (cidrKeys rs) (cidr rs) →
  cidr_inv ks (b - len (cidr_pairs rules)) (done_ ++ cidr_pairs rules) (cidrKeys rs') (cidr rs').
Proof.
  intros Hplain. revert rs b done_.
  induction rules as [| r rules IH]; intros rs b done_ Hadd Hks Hb Hi.
  { injection Hadd as <-. unfold cidr_pairs in *. simpl. rewrite app_nil_r.
    change (len []) with 0. by rewrite Z.sub_0_r. }
  cbn [added] in Hadd. destruct (Add r rs) as [[e|] rs1] eqn:Hr; [done |].
  apply Add_success in Hr as [_ Hc].
  change (cidr_pairs (r :: rules)) with (((r,.) <$> cidrs_of r) ++ cidr_pairs rules) in *.
  rewrite len_app in *. pose proof (len_nonneg (cidr_pairs rules)).
  assert (len ((r,.) <$> cidrs_of r) = len (cidrs_of r)) as Hl
    by (unfold len; by rewrite length_fmap).
  rewrite app_assoc, Hl in *.
  replace (b - (len (cidrs_of r) + len (cidr_pairs rules)))
    with (b - len (cidrs_of r) - len (cidr_pairs rules)) by lia.
  eapply IH; [done | intros r' k Hr'; apply Hks; by right | lia |].
  eapply (add_keys_inv CidrTrie.Add cidr_view net_of cidr_room); [| | | | exact Hi | | exact Hc].
  - intros k1 k2. apply Hplain.
  - intros b1 b2 x Hle [? ?]. split; [done | lia].
  - intros b' k r' x x'. apply (cidr_add_spec ks). done.
  - lia.
  - apply Forall_forall. intros k Hk. apply (Hks r); [by left | done].
Qed.

End RuleSet.

(** ** Witnesses: two rules *)
Definition rule_with (name : string) (prio : Z) (ds cs : list string) : Rule :=
  mkRule name prio false (Some (mkMatchAttrs ds cs)) (Runtime DefaultConfig).

Definition sample_rules : list Rule :=
  [rule_with "a" 1 ["*.example.com"; "example.org"]%string ["10.0.0.0/8"]%string;
   rule_with "b" 2 ["*.example.com"]%string ["10.1.0.0/16"]%string].

Definition sample_rule_set : RuleSet := default NewRuleSet (added sample_rules NewRuleSet).

Lemma sample_added : added sample_rules NewRuleSet = Some sample_rule_set.
Proof. by vm_compute. Qed.


Lemma sample_cidrs_plain : plain_cidrs (cidr_pairs sample_rules).*2.
Proof.
  split.
  - intros k ip n Hk%list_elem_of_In Hn. simpl in Hk.
    destruct Hk as [<- | [<- | []]]; vm_compute in Hn; injection Hn as _ <-; by left.
  - intros k1 k2 H1%list_elem_of_In H2%list_elem_of_In Hn. simpl in H1, H2.
    destruct H1 as [<- | [<- | []]], H2 as [<- | [<- | []]]; by vm_compute in Hn.
Qed.


Lemma Search_best_witness :
  trie_wf (cidr NewRuleSet) ∧
  ∃ res, Search [mkQuery MatchTypeDomain "www.example.com"] NewRuleSet = Ok res ∧ res = None.
Proof.
  assert (trie_wf (cidr NewRuleSet)) as Hwf by apply NewCIDRTrie_wf. split; [done |].
  destruct (Search_best [mkQuery MatchTypeDomain "www.example.com"] NewRuleSet Hwf)
    as (res & Hres & _).
  exists res. split; [done |]. vm_compute in Hres. by injection Hres.
Defined.
