(* ===== verification/Socks5Proto.v ===== *)
(** * SOCKS5 messages: [internal/proto/socks5.go] *)

From S2P Require Import Prelude GoIO GoNet GoStrings NetText.

Local Open Scope string_scope.
Local Open Scope list_scope.
Local Open Scope Z_scope.

(** ** Constants *)
Definition SOCKSVersion : Z := 0x05.

Definition SOCKS5AuthNone : Z := 0x00.
Definition SOCKS5AuthGSSAPI : Z := 0x01.
Definition SOCKS5AuthUserPass : Z := 0x02.
Definition SOCKS5AuthNoAccept : Z := 0xFF.

Definition SOCKS5CmdConnect : Z := 0x01.
Definition SOCKS5CmdBind : Z := 0x02.
Definition SOCKS5CmdUDPAssociate : Z := 0x03.

Definition SOCKS5AddrTypeIPv4 : Z := 0x01.
Definition SOCKS5AddrTypeFQDN : Z := 0x03.
Definition SOCKS5AddrTypeIPv6 : Z := 0x04.

Definition SOCKS5RCodeSuccess : Z := 0x00.
Definition SOCKS5RCodeGenFailure : Z := 0x01.
Definition SOCKS5RCodeCmdNotSupported : Z := 0x07.
Definition SOCKS5RCodeAddrNotSupported : Z := 0x08.

Record SOCKS5Request : Type := mkSOCKS5Request {
  Cmd : Z;
  ATYP : Z;
  FQDN : string;
  req_IP : IP;
  req_Port : Z;
}.

(** The address field: the domain and the IP it yields. *)
Definition read_addr (atyp : Z) (r : reader) : outcome error (string * IP * reader) :=
  if atyp =? SOCKS5AddrTypeIPv4 then
    '(buf, r) ← ReadFull 4 r; Ok ("", buf, r)
  else if atyp =? SOCKS5AddrTypeFQDN then
    '(lenBuf, r) ← ReadFull 1 r;
    domainLen ← index lenBuf 0;
    '(domainBuf, r) ← ReadFull domainLen r;
    Ok (string_of_bytes domainBuf, [], r)
  else if atyp =? SOCKS5AddrTypeIPv6 then
    '(buf, r) ← ReadFull 16 r; Ok ("", buf, r)
  else Err (ErrText ("unsupported atyp: " +:+ Itoa atyp)).

Definition ReadSocks5Request (r : reader) : outcome error (SOCKS5Request * reader) :=
  '(header, r) ← ReadFull 4 r;
  version ← index header 0;
  if negb (version =? SOCKSVersion) then
    Err (ErrText ("version mismatch: expected " +:+ fmt_x SOCKSVersion +:+
                  ", got " +:+ fmt_x version))
  else
    cmd ← index header 1;
    atyp ← index header 3;
    '(domain, ip, r) ← read_addr atyp r;
    '(portBuf, r) ← ReadFull 2 r;
    port ← read_be16 portBuf 0;
    Ok (mkSOCKS5Request cmd atyp domain ip port, r).

(** ** Replies *)
Record SOCKS5Reply : Type := mkSOCKS5Reply {
  Rep : Z;
  BindIP : IP;
  BindPort : Z;
}.

Definition NewSOCKS5Reply (rep : Z) : SOCKS5Reply := mkSOCKS5Reply rep IPv4zero 0.
Definition SOCKS5SuccessResponse : SOCKS5Reply := NewSOCKS5Reply SOCKS5RCodeSuccess.
Definition SOCKS5FailureResponse : SOCKS5Reply := NewSOCKS5Reply SOCKS5RCodeGenFailure.
Definition SOCKS5CommandNotSupportedResponse : SOCKS5Reply :=
  NewSOCKS5Reply SOCKS5RCodeCmdNotSupported.

(** The setters return their receiver; a nil address is the empty one. *)
Definition Bind (ip : IP) (r : SOCKS5Reply) : SOCKS5Reply :=
  if decide (ip = []) then r else mkSOCKS5Reply (Rep r) ip (BindPort r).
Definition Port (port : Z) (r : SOCKS5Reply) : SOCKS5Reply :=
  mkSOCKS5Reply (Rep r) (BindIP r) port.

(** The bytes [Write] hands to the writer, in one call. *)
Definition reply_bytes (r : SOCKS5Reply) : bytes :=
  [SOCKSVersion; Rep r; 0x00; SOCKS5AddrTypeIPv4] ++
  match To4 (BindIP r) with Some ip4 => ip4 | None => replicate 4 0 end ++
  put_be16 (u16 (BindPort r)).

(** ** Reference encoder, for the specification: RFC 1928, section 4 *)
Definition encode_addr (q : SOCKS5Request) : bytes :=
  if ATYP q =? SOCKS5AddrTypeFQDN
  then len (bytes_of_string (FQDN q)) :: bytes_of_string (FQDN q)
  else req_IP q.

Definition encode_request (rsv : Z) (q : SOCKS5Request) : bytes :=
  [SOCKSVersion; Cmd q; rsv; ATYP q] ++ encode_addr q ++ put_be16 (req_Port q).

(** The requests that can be written: an address of the announced type. *)
Definition addr_wf (q : SOCKS5Request) : Prop :=
  (ATYP q = SOCKS5AddrTypeIPv4 ∧ len (req_IP q) = 4 ∧ FQDN q = "") ∨
  (ATYP q = SOCKS5AddrTypeFQDN ∧ req_IP q = [] ∧ len (bytes_of_string (FQDN q)) < 256) ∨
  (ATYP q = SOCKS5AddrTypeIPv6 ∧ len (req_IP q) = 16 ∧ FQDN q = "").

Definition request_wf (q : SOCKS5Request) : Prop :=
  addr_wf q ∧ 0 <= req_Port q < 65536.

(** ** Lemmas *)
Lemma read_addr_app q s f :
  addr_wf q →
  read_addr (ATYP q) (mkReader (encode_addr q ++ s) f) =
    Ok (FQDN q, req_IP q, mkReader s f).
Proof.
  intros [(Ht & Hl & Hd) | [(Ht & Hi & Hl) | (Ht & Hl & Hd)]];
    unfold read_addr, encode_addr; rewrite Ht; cbn [Z.eqb Pos.eqb].
  - cbn. rewrite ReadFull_app_n by done. cbn. by rewrite Hd.
  - set (l := bytes_of_string (FQDN q)) in *.
    change (SOCKS5AddrTypeFQDN =? SOCKS5AddrTypeIPv4) with false.
    change (SOCKS5AddrTypeFQDN =? SOCKS5AddrTypeFQDN) with true. cbv iota.
    change ((len l :: l) ++ s) with ([len l] ++ (l ++ s)).
    rewrite ReadFull_app_n by done. cbn [mbind outcome_bind].
    change (index (E:=error) [len l] 0) with (Ok (E:=error) (len l)). cbn [mbind outcome_bind].
    rewrite ReadFull_app_n by done.
    cbn. subst l. by rewrite string_of_bytes_of_string, Hi.
  - cbn. rewrite ReadFull_app_n by done. cbn. by rewrite Hd.
Qed.

Lemma len1_inv (l : bytes) : len l = 1 → ∃ b, l = [b].
Proof. destruct l as [| b [| c l]]; intros H; unfold len in H; simpl in H; try lia. eauto. Qed.

Lemma read_addr_inv atyp r d ip r' :
  bytes_ok (pending r) →
  read_addr atyp r = Ok (d, ip, r') →
  ∀ c p, addr_wf (mkSOCKS5Request c atyp d ip p) ∧
    pending r = encode_addr (mkSOCKS5Request c atyp d ip p) ++ pending r' ∧
    final r' = final r.
Proof.
  intros Hok E c p. unfold addr_wf, encode_addr. cbn [ATYP FQDN req_IP]. revert E.
  unfold read_addr.
  destruct (Z.eqb_spec atyp SOCKS5AddrTypeIPv4) as [-> |].
  { destruct (ReadFull 4 r) as [[buf r1] | | |] eqn:E; simpl; try done. intros [= <- <- <-].
    apply ReadFull_inv in E as (-> & Hl & ->); [| lia]. by split_and!; [left | |]. }
  destruct (Z.eqb_spec atyp SOCKS5AddrTypeFQDN) as [-> |].
  { destruct (ReadFull 1 r) as [[buf r1] | | |] eqn:E; simpl; try done.
    apply ReadFull_inv in E as (Hp & Hl & Hf); [| lia].
    apply len1_inv in Hl as [b ->]. unfold index. simpl. rewrite Hp in Hok.
    apply Forall_cons in Hok as [Hb Hok]. unfold byte_ok in Hb.
    destruct (ReadFull b r1) as [[dom r2] | | |] eqn:E; simpl; try done.
    intros [= <- <- <-].
    apply ReadFull_inv in E as (Hp2 & Hl2 & Hf2); [| lia].
    rewrite Hp2 in Hok. apply Forall_app in Hok as [Hok _].
    rewrite bytes_of_string_of_bytes by done. rewrite Hp, Hp2, Hf2, Hl2.
    split_and!; [right; left | done | done]. split_and!; [done | done | lia]. }
  destruct (Z.eqb_spec atyp SOCKS5AddrTypeIPv6) as [-> |]; [| done].
  destruct (ReadFull 16 r) as [[buf r1] | | |] eqn:E; simpl; try done. intros [= <- <- <-].
  apply ReadFull_inv in E as (-> & Hl & ->); [| lia]. by split_and!; [right; right | |].
Qed.

Lemma ReadSocks5Request_app rsv q s f :
  request_wf q →
  ReadSocks5Request (mkReader (encode_request rsv q ++ s) f) = Ok (q, mkReader s f).
Proof.
  intros [Ha Hp]. unfold ReadSocks5Request, encode_request. rewrite <- !app_assoc.
  rewrite ReadFull_app_n by done. cbn [mbind outcome_bind].
  set (h := [SOCKSVersion; Cmd q; rsv; ATYP q]).
  change (index (E:=error) h 0) with (Ok (E:=error) SOCKSVersion).
  change (index (E:=error) h 1) with (Ok (E:=error) (Cmd q)).
  change (index (E:=error) h 3) with (Ok (E:=error) (ATYP q)).
  cbn [mbind outcome_bind]. change (negb (SOCKSVersion =? SOCKSVersion)) with false.
  cbv iota. rewrite read_addr_app by done. cbn [mbind outcome_bind].
  rewrite ReadFull_app_n by done. cbn [mbind outcome_bind].
  pose proof (read_be16_put (E:=error) [] (req_Port q) [] 0 eq_refl Hp) as H.
  rewrite app_nil_r in H. cbn [app] in H. rewrite H. cbn. by destruct q.
Qed.

Lemma ReadSocks5Request_inv r q r' :
  bytes_ok (pending r) → ReadSocks5Request r = Ok (q, r') →
  ∃ rsv, request_wf q ∧ pending r = encode_request rsv q ++ pending r' ∧ final r' = final r.
Proof.
  intros Hok. unfold ReadSocks5Request.
  destruct (ReadFull 4 r) as [[h r1] | | |] eqn:E; simpl; try done.
  apply ReadFull_inv in E as (Hp & Hl & Hf); [| lia].
  destruct h as [| v [| c [| rsv [| t [| ? h]]]]];
    rewrite ?len_cons in Hl; change (len (@nil Z)) with 0 in Hl; try lia;
    [| pose proof (len_nonneg h); lia].
  set (h := [v; c; rsv; t]) in |- *.
  change (index (E:=error) h 0) with (Ok (E:=error) v).
  change (index (E:=error) h 1) with (Ok (E:=error) c).
  change (index (E:=error) h 3) with (Ok (E:=error) t). cbn [mbind outcome_bind].
  destruct (Z.eqb_spec v SOCKSVersion) as [-> |]; cbn [negb]; [| done].
  rewrite Hp in Hok. do 4 (apply Forall_cons in Hok as [_ Hok]). cbn [app] in Hok.
  destruct (read_addr t r1) as [[[d ip] r2] | | |] eqn:E; simpl; try done.
  destruct (ReadFull 2 r2) as [[pb r3] | | |] eqn:E2; simpl; try done.
  apply ReadFull_inv in E2 as (Hp2 & Hl2 & Hf2); [| lia].
  destruct pb as [| hi [| lo [| ? pb]]];
    rewrite ?len_cons in Hl2; change (len (@nil Z)) with 0 in Hl2; try lia;
    [| pose proof (len_nonneg pb); lia].
  intros [= <- <-]. pose proof (read_addr_inv _ _ _ _ _ Hok E c (be16 hi lo)) as (Hw & Hp1 & Hf1).
  rewrite Hp1, Hp2 in Hok. apply Forall_app in Hok as [_ Hok].
  apply Forall_cons in Hok as [Hhi Hok]. apply Forall_cons in Hok as [Hlo _].
  exists rsv. split; [split; [done | by apply be16_range] |]. split; [| congruence].
  rewrite Hp, Hp1, Hp2. unfold encode_request. cbn [req_Port Cmd ATYP].
  rewrite <- !app_assoc. unfold byte_ok in Hhi, Hlo.
  rewrite put_be16_val by (rewrite be16_val by lia; lia). rewrite be16_val by lia.
  replace ((hi * 256 + lo) / 256) with hi by dm_lia.
  by replace ((hi * 256 + lo) mod 256) with lo by dm_lia.
Qed.

Lemma read_addr_defined atyp r : defined (read_addr atyp r).
Proof.
  unfold read_addr. repeat case_match; try done;
    (apply defined_bind; [apply ReadFull_defined |]); intros [b r1] E; [done | | done].
  apply ReadFull_inv in E as (_ & Hl & _); [| lia]. apply len1_inv in Hl as [x ->].
  change (index (E:=error) [x] 0) with (Ok (E:=error) x). cbn [mbind outcome_bind].
  apply defined_bind; [apply ReadFull_defined |]. by intros [].
Qed.

(** C35. Reading a SOCKS5 request never panics, and it is exact: it succeeds on
    a stream precisely when the stream starts with the encoding of a
    well-formed request (RFC 1928: IPv4, domain or IPv6 address, 16-bit port),
    whose fields it returns; it consumes these bytes and no more. *)
Theorem ReadSocks5Request_exact r :
  bytes_ok (pending r) →
  defined (ReadSocks5Request r) ∧
  ∀ q r', ReadSocks5Request r = Ok (q, r') ↔
    ∃ rsv, request_wf q ∧ pending r = encode_request rsv q ++ pending r' ∧ final r' = final r.
Proof.
  intros Hok. split.
  - unfold ReadSocks5Request. apply defined_bind; [apply ReadFull_defined |].
    intros [h r1] (_ & Hl & _)%ReadFull_inv; [| lia].
    destruct (index_ok (E:=error) h 0 ltac:(lia)) as (v & _ & ->).
    destruct (index_ok (E:=error) h 1 ltac:(lia)) as (c & _ & ->).
    destruct (index_ok (E:=error) h 3 ltac:(lia)) as (t & _ & ->). cbn [mbind outcome_bind].
    destruct (negb _); [done |].
    apply defined_bind; [apply read_addr_defined |]. intros [[d ip] r2] _.
    apply defined_bind; [apply ReadFull_defined |].
    intros [pb r3] (_ & Hl2 & _)%ReadFull_inv; [| lia].
    destruct pb as [| hi [| lo [| ? pb]]]; unfold len in Hl2; simpl in Hl2; try lia. done.
  - intros q r'. split; [by apply ReadSocks5Request_inv |].
    intros (rsv & Hw & Hp & Hf). destruct r as [p f], r' as [p' f']. simpl in *.
    subst. by apply ReadSocks5Request_app.
Qed.

(** What a client reads back from a reply: the ten bytes written parse, by
    the request grammar the two messages share, as the reply code, the bound
    IPv4 address (0.0.0.0 when the address is not an IPv4 one) and the bound
    port modulo 2^16. *)
Theorem reply_bytes_readable (r : SOCKS5Reply) (s : bytes) (f : error) :
  len (reply_bytes r) = 10 ∧
  ReadSocks5Request (mkReader (reply_bytes r ++ s) f) =
    Ok (mkSOCKS5Request (Rep r) SOCKS5AddrTypeIPv4 ""
          (default [0; 0; 0; 0] (To4 (BindIP r))) (BindPort r mod 65536), mkReader s f).
Proof.
  set (q := mkSOCKS5Request _ _ _ _ _).
  assert (len (req_IP q) = 4) as Hl.
  { simpl. destruct (To4 (BindIP r)) eqn:E; [by eapply To4_len | done]. }
  assert (reply_bytes r = encode_request 0 q) as ->.
  { unfold reply_bytes, encode_request, u16. simpl. by destruct (To4 (BindIP r)). }
  split.
  - unfold encode_request. rewrite !len_app, len_put_be16.
    change (encode_addr q) with (req_IP q). rewrite Hl. done.
  - apply ReadSocks5Request_app. split; [left; done |]. simpl. apply Z.mod_pos_bound. lia.
Qed.

(** ** Witnesses *)
Definition sample_request : SOCKS5Request :=
  mkSOCKS5Request SOCKS5CmdConnect SOCKS5AddrTypeFQDN "a.com" [] 443.

Lemma ReadSocks5Request_exact_witness :
  let r := mkReader (encode_request 0 sample_request ++ [1; 2]) EOF in
  bytes_ok (pending r) ∧ defined (ReadSocks5Request r) ∧
  ReadSocks5Request r = Ok (sample_request, mkReader [1; 2] EOF).
Proof.
  intros r. assert (bytes_ok (pending r)) as Hok
    by (subst r; vm_compute; repeat constructor; done).
  destruct (ReadSocks5Request_exact r Hok) as [Hd He]. split_and!; [done | done |].
  apply He. exists 0. split_and!; [| done | done]. split; [| vm_compute; done].
  right; left. split_and!; done.
Defined.
