(* ===== verification/NetIP.v ===== *)
(** * Addresses of Go's [net/netip] package

    [netip.Addr] is a comparable value: the zero address (invalid), an IPv4
    address, or an IPv6 address with an optional zone. Only what the resolver
    uses of it is defined, as the standard library documents it. *)

From S2P Require Import Prelude GoNet NetText.

Inductive netaddr : Type :=
| NAzero
| NA4 (b : bytes)                    (* 4 bytes *)
| NA6 (b : bytes) (zone : string).   (* 16 bytes *)

#[export] Instance netaddr_eq_dec : EqDecision netaddr.
Proof. solve_decision. Defined.

Definition na_IsValid (a : netaddr) : bool :=
  match a with NAzero => false | _ => true end.
Definition na_Is4 (a : netaddr) : bool :=
  match a with NA4 _ => true | _ => false end.
Definition na_Is6 (a : netaddr) : bool :=
  match a with NA6 _ _ => true | _ => false end.
Definition na_Is4In6 (a : netaddr) : bool :=
  match a with NA6 b _ => bool_decide (take 12 b = v4InV6Prefix) | _ => false end.
Definition na_Unmap (a : netaddr) : netaddr :=
  match a with
  | NA6 b _ => if na_Is4In6 a then NA4 (drop 12 b) else a
  | _ => a
  end.
Definition na_As16 (a : netaddr) : bytes :=
  match a with
  | NAzero => replicate 16 0
  | NA4 b => v4InV6Prefix ++ b
  | NA6 b _ => b
  end.
Definition na_hasZone (a : netaddr) : bool :=
  match a with NA6 _ z => negb (bool_decide (z = EmptyString)) | _ => false end.

(** [netip.AddrFromSlice] and [Addr.AsSlice]. *)
Definition AddrFromSlice (b : bytes) : option netaddr :=
  if len b =? 4 then Some (NA4 b)
  else if len b =? 16 then Some (NA6 b EmptyString)
  else None.
Definition na_AsSlice (a : netaddr) : bytes :=
  match a with NAzero => [] | NA4 b => b | NA6 b _ => b end.

Definition byte_at (b : bytes) (i : nat) : Z := default 0 (b !! i).

Definition na_IsLoopback (a : netaddr) : bool :=
  match na_Unmap a with
  | NAzero => false
  | NA4 b => byte_at b 0 =? 127
  | NA6 b _ => bool_decide (b = IPv6loopback)
  end.
Definition na_IsLinkLocalUnicast (a : netaddr) : bool :=
  match na_Unmap a with
  | NAzero => false
  | NA4 b => (byte_at b 0 =? 169) && (byte_at b 1 =? 254)
  | NA6 b _ => Z.land (be16 (byte_at b 0) (byte_at b 1)) 0xffc0 =? 0xfe80
  end.
Definition na_IsMulticast (a : netaddr) : bool :=
  match na_Unmap a with
  | NAzero => false
  | NA4 b => Z.land (byte_at b 0) 0xf0 =? 0xe0
  | NA6 b _ => byte_at b 0 =? 0xff
  end.

(** [netip.Prefix] and [Contains]: the families must agree, and an address
    with a zone is in no prefix. *)
Record prefix : Type := mkPrefix { prefix_ip : netaddr; prefix_bits : nat }.

Definition same_family (a b : netaddr) : bool :=
  match a, b with NA4 _, NA4 _ | NA6 _ _, NA6 _ _ => true | _, _ => false end.

Definition prefix_Contains (p : prefix) (a : netaddr) : bool :=
  negb (na_hasZone a) && same_family (prefix_ip p) a &&
  bool_decide (take (prefix_bits p) (bits_of (na_AsSlice (prefix_ip p))) =
               take (prefix_bits p) (bits_of (na_AsSlice a))).

(** The addresses the library builds, and those without a zone. *)
Definition na_wf (a : netaddr) : Prop :=
  match a with
  | NAzero => True
  | NA4 b => len b = 4 ∧ bytes_ok b
  | NA6 b _ => len b = 16 ∧ bytes_ok b
  end.
Definition na_plain (a : netaddr) : Prop :=
  na_wf a ∧ a ≠ NAzero ∧ na_hasZone a = false.

Lemma AddrFromSlice_plain b a :
  bytes_ok b → AddrFromSlice b = Some a → na_plain a ∧ na_AsSlice a = b.
Proof.
  intros Hok. unfold AddrFromSlice, na_plain.
  destruct (Z.eqb_spec (len b) 4); [by intros [= <-] |].
  destruct (Z.eqb_spec (len b) 16); [by intros [= <-] | done].
Qed.

(** ** Bits of a prefix of bytes *)
Lemma byte_bits_inj a b : byte_ok a → byte_ok b → byte_bits a = byte_bits b → a = b.
Proof.
  unfold byte_ok. intros Ha Hb H.
  assert (∀ k, 0 <= k < 256 →
    foldl (λ s b, 2 * s + Z.b2z b) 0 (byte_bits k) = k) as Hv.
  { intros k Hk. apply Z.eqb_eq. revert k Hk.
    apply (range_check 256 (λ k, foldl (λ s b, 2 * s + Z.b2z b) 0 (byte_bits k) =? k)).
    by vm_compute. }
  rewrite <- (Hv a Ha), <- (Hv b Hb). by rewrite H.
Qed.

Lemma bits_of_take n l : take (8 * n) (bits_of l) = bits_of (take n l).
Proof.
  revert l. induction n as [| n IH]; intros l; [done |].
  destruct l as [| b l]; [done |]. cbn [take]. rewrite !bits_of_cons.
  replace (8 * S n)%nat with (length (byte_bits b) + 8 * n)%nat by (simpl; lia).
  by rewrite take_app_add, IH.
Qed.

Lemma bits_of_inj l k : bytes_ok l → bytes_ok k → bits_of l = bits_of k → l = k.
Proof.
  revert k. induction l as [| a l IH]; intros [| b k] Hl Hk; try done.
  rewrite !bits_of_cons. intros H. apply Forall_cons in Hl as [Ha Hl].
  apply Forall_cons in Hk as [Hb Hk].
  apply app_inj_1 in H as [H1 H2]; [| done].
  by rewrite (byte_bits_inj a b), (IH k).
Qed.

Lemma na_As16_wf a : na_wf a → len (na_As16 a) = 16 ∧ bytes_ok (na_As16 a).
Proof.
  destruct a as [| b | b z]; unfold na_wf, na_As16; [intros _ | intros [Hl Hok] | done].
  - split; [done | by repeat constructor].
  - rewrite len_app, Hl. split; [done |]. apply Forall_app. split; [| done].
    by repeat constructor.
Qed.
