(* ===== verification/AddrSelect.v ===== *)
(** * Destination address selection: [internal/dns/addrselect/addrselect.go]

    The minimal RFC 6724 ordering the resolver applies to its answers: the
    policy table, the scope classification, the comparison of section 6 and the
    stable sort. The source address the kernel picks for a destination
    ([srcAddrs], a connected UDP socket) is an argument. *)

From S2P Require Import Prelude GoNet NetText NetIP.

(** ** Attributes *)
Record ipAttr : Type := mkIpAttr { Scope : Z; Precedence : Z; Label : Z }.

Record policyTableEntry : Type := mkPolicy {
  Prefix : prefix;
  pol_Precedence : Z;
  pol_Label : Z;
}.

(** [netip.PrefixFrom(netip.AddrFrom16([16]byte{...}), n)]: the array is filled
    up with zeros. *)
Definition from16 (b : bytes) (n : nat) : prefix :=
  mkPrefix (NA6 (b ++ replicate (16 - length b) 0) EmptyString) n.

Definition rfc6724policyTable : list policyTableEntry :=
  [ mkPolicy (from16 [0;0;0;0;0;0;0;0;0;0;0;0;0;0;0;0x01] 128) 50 0;
    mkPolicy (from16 [0;0;0;0;0;0;0;0;0;0;0xff;0xff] 96) 35 4;
    mkPolicy (from16 [] 96) 1 3;
    mkPolicy (from16 [0x20; 0x01] 32) 5 5;
    mkPolicy (from16 [0x20; 0x02] 16) 30 2;
    mkPolicy (from16 [0x3f; 0xfe] 16) 1 12;
    mkPolicy (from16 [0xfe; 0xc0] 10) 1 11;
    mkPolicy (from16 [0xfc] 7) 3 13;
    mkPolicy (from16 [] 0) 40 1 ].

Definition policyTable_zero : policyTableEntry := mkPolicy (mkPrefix NAzero 0) 0 0.

Definition Classify (t : list policyTableEntry) (ip : netaddr) : policyTableEntry :=
  let ip := if na_Is4 ip then NA6 (na_As16 ip) EmptyString else ip in
  match list_find (λ ent, prefix_Contains (Prefix ent) ip = true) t with
  | Some (_, ent) => ent
  | None => policyTable_zero
  end.

Definition scopeInterfaceLocal : Z := 0x1.
Definition scopeLinkLocal : Z := 0x2.
Definition scopeAdminLocal : Z := 0x4.
Definition scopeSiteLocal : Z := 0x5.
Definition scopeOrgLocal : Z := 0x8.
Definition scopeGlobal : Z := 0xe.

Definition classifyScope (ip : netaddr) : Z :=
  if na_IsLoopback ip || na_IsLinkLocalUnicast ip then scopeLinkLocal
  else
    let ipv6 := na_Is6 ip && negb (na_Is4In6 ip) in
    let b := na_As16 ip in
    if ipv6 && na_IsMulticast ip then Z.land (byte_at b 1) 0xf
    else if ipv6 && (byte_at b 0 =? 0xfe) && (Z.land (byte_at b 1) 0xc0 =? 0xc0)
    then scopeSiteLocal
    else scopeGlobal.

Definition ipAttrOf (ip : netaddr) : ipAttr :=
  if negb (na_IsValid ip) then mkIpAttr 0 0 0
  else
    let m := Classify rfc6724policyTable ip in
    mkIpAttr (classifyScope ip) (pol_Precedence m) (pol_Label m).

(** ** [commonPrefixLen] *)

(** The inner loop: shift both bytes until they agree; eight shifts reach 0. *)
Fixpoint differ_bits (fuel : nat) (ab bb bits : Z) : Z :=
  match fuel with
  | O => bits
  | S fuel =>
    let ab := Z.shiftr ab 1 in
    let bb := Z.shiftr bb 1 in
    let bits := bits - 1 in
    if ab =? bb then bits else differ_bits fuel ab bb bits
  end.

Fixpoint cpl_loop (aBytes bBytes : bytes) (cpl : Z) : Z :=
  match aBytes, bBytes with
  | a :: aBytes, b :: bBytes =>
    if a =? b then cpl_loop aBytes bBytes (cpl + 8)
    else cpl + differ_bits 8 a b 8
  | _, _ => cpl
  end.

Definition commonPrefixLen (a b : netaddr) : Z :=
  let a := na_Unmap a in
  let b := na_Unmap b in
  if na_Is4 a then
    if negb (na_Is4 b) then 0 else cpl_loop (na_AsSlice a) (na_AsSlice b) 0
  else
    if na_Is4 b then 0 else cpl_loop (take 8 (na_As16 a)) (take 8 (na_As16 b)) 0.

(** ** The comparison

    [byRFC6724] holds four parallel slices that [Swap] permutes together: one
    entry per index here. *)
Record entry : Type := mkEntry {
  addr : netaddr;
  addrAttr : ipAttr;
  src : netaddr;
  srcAttr : ipAttr;
}.

Definition Less (i j : entry) : bool :=
  let preferDA := true in
  let preferDB := false in
  let DA := addr i in
  let DB := addr j in
  let SourceDA := src i in
  let SourceDB := src j in
  let scopeA := Scope (addrAttr i) =? Scope (srcAttr i) in
  let scopeB := Scope (addrAttr j) =? Scope (srcAttr j) in
  let labelA := Label (srcAttr i) =? Label (addrAttr i) in
  let labelB := Label (srcAttr j) =? Label (addrAttr j) in
  if negb (na_IsValid SourceDA) && negb (na_IsValid SourceDB) then false
  else if negb (na_IsValid SourceDB) then preferDA
  else if negb (na_IsValid SourceDA) then preferDB
  else if scopeA && negb scopeB then preferDA
  else if negb scopeA && scopeB then preferDB
  else if labelA && negb labelB then preferDA
  else if negb labelA && labelB then preferDB
  else if Precedence (addrAttr j) <? Precedence (addrAttr i) then preferDA
  else if Precedence (addrAttr i) <? Precedence (addrAttr j) then preferDB
  else if Scope (addrAttr i) <? Scope (addrAttr j) then preferDA
  else if Scope (addrAttr j) <? Scope (addrAttr i) then preferDB
  else if negb (na_Is4 DA) && negb (na_Is4In6 DA) && negb (na_Is4 DB) && negb (na_Is4In6 DB)
  then
    let commonA := commonPrefixLen SourceDA DA in
    let commonB := commonPrefixLen SourceDB DB in
    if commonB <? commonA then preferDA
    else if commonA <? commonB then preferDB
    else false
  else false.

(** ** The stable sort

    [sort.Stable] is an insertion sort on up to twenty elements; on longer
    slices it merges sorted blocks stably, with the same result for a strict
    weak order. The sorted part is kept reversed: its last element first. *)
Section StableSort.
Context {A : Type} (less : A → A → bool).

Fixpoint insert_back (x : A) (rsorted : list A) : list A :=
  match rsorted with
  | [] => [x]
  | y :: r => if less x y then y :: insert_back x r else x :: y :: r
  end.

Definition Stable (l : list A) : list A :=
  reverse (foldl (λ r x, insert_back x r) [] l).
End StableSort.

Definition entry_of (p : netaddr * netaddr) : entry :=
  mkEntry p.1 (ipAttrOf p.1) p.2 (ipAttrOf p.2).

Definition sortByRFC6724withSrcs (addrs srcs : list netaddr) : outcome string (list netaddr) :=
  if negb (len addrs =? len srcs) then Panic
  else Ok (addr <$> Stable Less (entry_of <$> zip addrs srcs)).

(** [route i a]: the local address of the UDP socket connected to the [i]-th
    address, the zero address if there is no route to it. *)
Definition srcAddrs (route : nat → netaddr → netaddr) (addrs : list netaddr) : list netaddr :=
  imap route addrs.

Definition SortByRFC6724 (route : nat → netaddr → netaddr) (addrs : list netaddr)
    : outcome string (list netaddr) :=
  if len addrs <? 2 then Ok addrs
  else sortByRFC6724withSrcs addrs (srcAddrs route addrs).

(** ** Specification: the rank of a destination

    Section 6 of the RFC as a lexicographic order on a tuple of numbers, larger
    is better: reachable, scope matches the source's, label matches, precedence,
    smaller scope, longest common prefix with the source (IPv6 only). *)
Fixpoint common_bits (l k : list bool) : Z :=
  match l, k with
  | a :: l, b :: k => if eqb a b then 1 + common_bits l k else 0
  | _, _ => 0
  end.

Definition is_v6 (a : netaddr) : bool := negb (na_Is4 a) && negb (na_Is4In6 a).

(** The bits two addresses of one family share at the front, at most 64 of an
    IPv6 address. *)
Definition shared_prefix (a b : netaddr) : Z :=
  let bits x := match na_Unmap x with NA4 l => (true, bits_of l) | x => (false, take 64 (bits_of (na_As16 x))) end in
  if eqb (bits a).1 (bits b).1 then common_bits (bits a).2 (bits b).2 else 0.

Definition rank (e : entry) : list Z :=
  if na_IsValid (src e) then
    [ 1;
      Z.b2z (Scope (addrAttr e) =? Scope (srcAttr e));
      Z.b2z (Label (addrAttr e) =? Label (srcAttr e));
      Precedence (addrAttr e);
      - Scope (addrAttr e);
      if is_v6 (addr e) then shared_prefix (src e) (addr e) else 0 ]
  else [0].

Fixpoint lex_gt (a b : list Z) : bool :=
  match a, b with
  | x :: a, y :: b => (y <? x) || ((x =? y) && lex_gt a b)
  | _, _ => false
  end.

(** An entry as [sortByRFC6724withSrcs] builds it, for a destination that came
    from a DNS answer. *)
Definition entry_wf (e : entry) : Prop :=
  ∃ d s, e = entry_of (d, s) ∧ na_plain d ∧ na_wf s.

(** ** [commonPrefixLen] counts the shared bits *)
Lemma common_bits_app l k l' k' :
  length l = length k →
  common_bits (l ++ l') (k ++ k') =
    if decide (l = k) then Z.of_nat (length l) + common_bits l' k' else common_bits l k.
Proof.
  revert k. induction l as [| a l IH]; intros [| b k] Hl; try done.
  simpl in *. destruct (eqb a b) eqn:E.
  - apply eqb_prop in E as ->. rewrite IH by lia. destruct (decide (l = k)) as [-> |].
    + rewrite decide_True by done. lia.
    + rewrite decide_False by congruence. done.
  - rewrite decide_False; [done |]. intros [= -> ->]. by rewrite eqb_reflx in E.
Qed.

Lemma differ_bits_spec a b :
  byte_ok a → byte_ok b → a ≠ b →
  differ_bits 8 a b 8 = common_bits (byte_bits a) (byte_bits b).
Proof.
  intros Ha Hb Hne. unfold byte_ok in *.
  set (P := λ a b, (a =? b) || (differ_bits 8 a b 8 =? common_bits (byte_bits a) (byte_bits b))).
  assert (∀ a, 0 <= a < 256 → forallb (P a) (seqZ 0 256) = true) as H
    by (apply range_check; by vm_compute).
  pose proof (range_check 256 (P a) (H a Ha) b Hb) as Hab. unfold P in Hab.
  apply orb_true_iff in Hab as [? | ?]; case_bool; lia.
Qed.

Lemma cpl_loop_spec l k c :
  bytes_ok l → bytes_ok k → length l = length k →
  cpl_loop l k c = c + common_bits (bits_of l) (bits_of k).
Proof.
  revert k c. induction l as [| a l IH]; intros [| b k] c Hl Hk Hlen; try done; [simpl; lia |].
  apply Forall_cons in Hl as [Ha Hl]. apply Forall_cons in Hk as [Hb Hk]. simpl in Hlen.
  rewrite !bits_of_cons, common_bits_app by done. cbn [cpl_loop].
  destruct (Z.eqb_spec a b) as [-> | Hne].
  - rewrite decide_True by done. rewrite IH by (done || lia). simpl. lia.
  - rewrite decide_False by (intros H; by apply Hne, byte_bits_inj).
    by rewrite differ_bits_spec.
Qed.

Lemma na_Unmap_wf a : na_wf a → na_wf (na_Unmap a).
Proof.
  destruct a as [| b | b z]; simpl; [done | done |]. intros [Hl Hok].
  case_bool_decide; simpl; [| done]. split; [len_lia | by apply Forall_drop].
Qed.

Lemma commonPrefixLen_spec a b :
  na_wf a → na_wf b → commonPrefixLen a b = shared_prefix a b.
Proof.
  intros Ha%na_Unmap_wf Hb%na_Unmap_wf. unfold commonPrefixLen, shared_prefix.
  destruct (na_As16_wf _ Ha) as [Ha2 Ha1], (na_As16_wf _ Hb) as [Hb2 Hb1].
  assert (cpl_loop (take 8 (na_As16 (na_Unmap a))) (take 8 (na_As16 (na_Unmap b))) 0 =
    common_bits (take 64 (bits_of (na_As16 (na_Unmap a)))) (take 64 (bits_of (na_As16 (na_Unmap b))))) as H6.
  { rewrite cpl_loop_spec; [| by apply Forall_take | by apply Forall_take | len_lia].
    change 64%nat with (8 * 8)%nat. by rewrite !bits_of_take. }
  destruct (na_Unmap a) as [| x | x z], (na_Unmap b) as [| y | y w]; simpl in *;
    rewrite ?H6; try done.
  destruct Ha, Hb. rewrite cpl_loop_spec by (done || len_lia). done.
Qed.

(** ** The comparison is the order of ranks *)
Lemma Contains_bytes p n b :
  len (na_AsSlice (prefix_ip p)) = 16 → bytes_ok (na_AsSlice (prefix_ip p)) →
  na_Is6 (prefix_ip p) = true → prefix_bits p = (8 * n)%nat → bytes_ok b →
  prefix_Contains p (NA6 b EmptyString) = true ↔ take n (na_AsSlice (prefix_ip p)) = take n b.
Proof.
  intros Hl Hok H6 Hn Hb. unfold prefix_Contains. rewrite Hn.
  change (na_hasZone (NA6 b EmptyString)) with false.
  destruct (prefix_ip p) as [| | x z]; try done. cbn [na_AsSlice same_family negb andb] in *.
  rewrite bool_decide_eq_true, !bits_of_take. split; [| by intros ->].
  apply bits_of_inj; by apply Forall_take.
Qed.

(** Only the IPv4-mapped block has precedence 35. *)
Lemma Classify_v4 b :
  bytes_ok b →
  pol_Precedence (Classify rfc6724policyTable (NA6 b EmptyString)) = 35 ↔
  take 12 b = v4InV6Prefix.
Proof.
  intros Hb. unfold Classify, rfc6724policyTable, list_find, na_Is4.
  case_decide as H1.
  { apply (Contains_bytes _ 16) in H1; [| done | by repeat constructor | done | done | done].
    split; [done |]. intros Hv. apply (f_equal (take 12)) in H1.
    rewrite !take_take in H1. change (12 `min` 16)%nat with 12%nat in H1.
    rewrite Hv in H1. by vm_compute in H1. }
  case_decide as H2.
  { apply (Contains_bytes _ 12) in H2; [| done | by repeat constructor | done | done | done].
    split; [| done]. intros _. by rewrite <- H2. }
  assert (take 12 b ≠ v4InV6Prefix) as Hne.
  { intros Hv. apply H2. apply (Contains_bytes _ 12); try done. by repeat constructor. }
  split; [| done]. by repeat case_decide.
Qed.

Lemma Precedence_v4 d :
  na_plain d → Precedence (ipAttrOf d) = 35 ↔ is_v6 d = false.
Proof.
  intros (Hw & Hv & Hz). unfold ipAttrOf, is_v6. destruct d as [| b | b z]; [done | |].
  - simpl na_IsValid. cbn [negb Precedence andb na_Is4]. split; [done |]. intros _.
    unfold Classify. cbn [na_Is4 na_As16]. destruct Hw as [Hl Hok].
    apply (Classify_v4 (v4InV6Prefix ++ b)); [| done].
    apply Forall_app. split; [by repeat constructor | done].
  - simpl in Hz. apply negb_false_iff, bool_decide_eq_true in Hz as ->.
    cbn [na_IsValid negb Precedence andb na_Is4 na_Is4In6]. destruct Hw as [Hl Hok].
    rewrite Classify_v4 by done. by rewrite negb_false_iff, bool_decide_eq_true.
Qed.

Lemma Less_rank i j : entry_wf i → entry_wf j → Less i j = lex_gt (rank i) (rank j).
Proof.
  intros (d & s & -> & Hd & Hs) (d' & s' & -> & Hd' & Hs').
  assert (Precedence (ipAttrOf d) = Precedence (ipAttrOf d') → is_v6 d = is_v6 d') as Hv6.
  { intros He. pose proof (Precedence_v4 d Hd) as H1. pose proof (Precedence_v4 d' Hd') as H2.
    rewrite He in H1. destruct (is_v6 d), (is_v6 d'); [done | | | done].
    - by apply H1, H2.
    - symmetry. by apply H2, H1. }
  unfold Less, rank, entry_of. cbn [addr addrAttr src srcAttr fst snd].
  destruct (na_IsValid s), (na_IsValid s'); try done. cbn [negb andb].
  rewrite (Z.eqb_sym (Label (ipAttrOf s))), (Z.eqb_sym (Label (ipAttrOf s'))).
  rewrite (commonPrefixLen_spec s d), (commonPrefixLen_spec s' d') by (done || apply Hd || apply Hd').
  destruct (Scope (ipAttrOf d) =? Scope (ipAttrOf s)), (Scope (ipAttrOf d') =? Scope (ipAttrOf s'));
    try done;
  destruct (Label (ipAttrOf d) =? Label (ipAttrOf s)), (Label (ipAttrOf d') =? Label (ipAttrOf s'));
    try done; cbn [negb andb Z.b2z lex_gt Z.ltb Z.eqb Z.compare Pos.compare Pos.compare_cont orb Pos.eqb].
  all: destruct (Z.ltb_spec (Precedence (ipAttrOf d')) (Precedence (ipAttrOf d))) as [| H1]; [done |].
  all: destruct (Z.ltb_spec (Precedence (ipAttrOf d)) (Precedence (ipAttrOf d'))) as [| H2];
    [by rewrite (proj2 (Z.eqb_neq _ _)) by lia |].
  all: assert (Precedence (ipAttrOf d) = Precedence (ipAttrOf d')) as He by lia;
    rewrite (proj2 (Z.eqb_eq _ _) He); specialize (Hv6 He).
  all: change (negb (na_Is4 d) && negb (na_Is4In6 d)) with (is_v6 d).
  all: rewrite <- (andb_assoc (is_v6 d)).
  all: change (negb (na_Is4 d') && negb (na_Is4In6 d')) with (is_v6 d').
  all: rewrite Hv6; destruct (is_v6 d'); cbn [andb]; repeat case_match; lia.
Qed.

(** ** The order of ranks is total *)
Lemma lex_gt_irrefl a : lex_gt a a = false.
Proof. induction a as [| x a IH]; [done |]. simpl. rewrite IH. lia. Qed.

Lemma lex_gt_asym a b : lex_gt a b = true → lex_gt b a = false.
Proof.
  revert b. induction a as [| x a IH]; intros [| y b]; simpl; try done.
  intros [H | [H1 H2]%andb_true_iff]%orb_true_iff; [lia |]. rewrite (IH b H2). lia.
Qed.

(** Not being worse is transitive and, on ranks, total. *)
Definition rank_le (a b : list Z) : Prop := lex_gt a b = false.

Lemma rank_le_trans e f g :
  rank_le (rank e) (rank f) → rank_le (rank f) (rank g) → rank_le (rank e) (rank g).
Proof.
  unfold rank_le, rank. repeat case_match; simpl; rewrite ?orb_false_iff, ?andb_false_iff; lia.
Qed.

(** ** The sort *)
Section Sorting.
Local Definition better (i j : entry) : bool := lex_gt (rank i) (rank j).

Lemma insert_back_perm (x : entry) r : insert_back better x r ≡ₚ x :: r.
Proof.
  induction r as [| y r IH]; simpl; [done |]. destruct (better x y); [| done].
  rewrite IH. apply perm_swap.
Qed.

(** The reversed sorted part: no element is better than one before it in the
    slice. *)
Definition rsorted (r : list entry) : Prop :=
  StronglySorted (λ e f, rank_le (rank e) (rank f)) r.

Lemma insert_back_sorted x r : rsorted r → rsorted (insert_back better x r).
Proof.
  unfold rsorted. induction 1 as [| y r Hr IH Hy]; simpl; [by repeat constructor |].
  destruct (better x y) eqn:E.
  - constructor; [done |]. rewrite insert_back_perm. constructor; [| done].
    by apply lex_gt_asym.
  - constructor; [by constructor |]. constructor; [done |].
    eapply Forall_impl; [exact Hy |]. intros z. by apply rank_le_trans.
Qed.

Lemma insert_back_stable x r k :
  filter (λ e, rank e = k) (insert_back better x r) = filter (λ e, rank e = k) (x :: r).
Proof.
  induction r as [| y r IH]; [done |]. simpl insert_back.
  destruct (better x y) eqn:E; [| done].
  rewrite filter_cons, IH, !filter_cons. destruct (decide (rank x = k)) as [Hx |]; [| done].
  assert (rank y ≠ k) as Hy by (intros Hy; unfold better in E; by rewrite Hx, Hy, lex_gt_irrefl in E).
  by rewrite !decide_False.
Qed.

Lemma fold_insert (l r : list entry) :
  rsorted r →
  let s := foldl (λ r x, insert_back better x r) r l in
  rsorted s ∧ s ≡ₚ r ++ l ∧
  ∀ k, filter (λ e, rank e = k) s =
    reverse (filter (λ e, rank e = k) l) ++ filter (λ e, rank e = k) r.
Proof.
  revert r. induction l as [| x l IH]; intros r Hr; simpl; [by rewrite app_nil_r |].
  destruct (IH (insert_back better x r)) as (H1 & H2 & H3); [by apply insert_back_sorted |].
  split_and!; [done | |].
  - rewrite H2, insert_back_perm. simpl. by rewrite Permutation_middle.
  - intros k. rewrite H3, insert_back_stable, !filter_cons.
    destruct (decide (rank x = k)); [| done].
    by rewrite reverse_cons, <- app_assoc.
Qed.

Lemma rsorted_reverse r :
  rsorted r → StronglySorted (λ e f, rank_le (rank f) (rank e)) (reverse r).
Proof.
  induction 1 as [| y r Hr IH Hy]; [by constructor |]. rewrite reverse_cons.
  apply StronglySorted_app_2; [| done | by repeat constructor].
  intros a b Ha Hb. apply list_elem_of_singleton in Hb as ->.
  rewrite elem_of_reverse in Ha. by eapply (proj1 (Forall_forall _ _) Hy).
Qed.

Lemma Stable_better (l : list entry) :
  let s := Stable better l in
  s ≡ₚ l ∧ StronglySorted (λ e f, rank_le (rank f) (rank e)) s ∧
  ∀ k, filter (λ e, rank e = k) s = filter (λ e, rank e = k) l.
Proof.
  destruct (fold_insert l []) as (H1 & H2 & H3); [by constructor |]. unfold Stable.
  simpl. split_and!.
  - by rewrite reverse_Permutation, H2.
  - by apply rsorted_reverse.
  - intros k. by rewrite filter_reverse, H3, app_nil_r, reverse_involutive.
Qed.

Lemma Stable_ext (l : list entry) :
  Forall entry_wf l → Stable Less l = Stable better l.
Proof.
  intros Hl. unfold Stable. f_equal.
  assert (∀ r, Forall entry_wf r →
    foldl (λ r x, insert_back Less x r) r l = foldl (λ r x, insert_back better x r) r l) as H;
    [| by apply H].
  induction Hl as [| x l Hx _ IH]; intros r Hr; simpl; [done |].
  assert (insert_back Less x r = insert_back better x r) as ->.
  { clear IH. induction Hr as [| y r Hy _ IH]; simpl; [done |].
    rewrite IH, Less_rank by done. done. }
  apply IH. rewrite insert_back_perm. by constructor.
Qed.
End Sorting.

Lemma zip_entries (addrs srcs : list netaddr) :
  length addrs = length srcs →
  addr <$> (entry_of <$> zip addrs srcs) = addrs.
Proof.
  intros Hl. rewrite <- list_fmap_compose. change (addr ∘ entry_of) with (@fst netaddr netaddr).
  apply fst_zip. lia.
Qed.

(** C28. The RFC 6724 sort: for addresses that came from DNS answers and any
    source addresses, [SortByRFC6724] returns the input reordered so that no
    destination is preceded by one of lower rank (reachable, matching scope,
    matching label, precedence, smaller scope, longest common prefix for IPv6),
    and destinations of equal rank keep their order: the pairwise comparison
    the code makes, although its last rule looks at IPv6 pairs only, is a
    lexicographic order. *)
Theorem SortByRFC6724_spec (route : nat → netaddr → netaddr) (addrs : list netaddr) :
  Forall na_plain addrs → (∀ i a, na_wf (route i a)) →
  let input := entry_of <$> zip addrs (srcAddrs route addrs) in
  ∃ es, SortByRFC6724 route addrs = Ok (addr <$> es) ∧ es ≡ₚ input ∧
    StronglySorted (λ e f, rank_le (rank f) (rank e)) es ∧
    ∀ r, filter (λ e, rank e = r) es = filter (λ e, rank e = r) input.
Proof.
  intros Hp Hr input.
  assert (length addrs = length (srcAddrs route addrs)) as Hlen
    by (unfold srcAddrs; by rewrite length_imap).
  assert (Forall entry_wf input) as Hw.
  { subst input. apply Forall_fmap, Forall_forall. intros [d s] Hin. exists d, s.
    split_and!; [done | |].
    - apply elem_of_zip_l in Hin. by apply (proj1 (Forall_forall _ _) Hp).
    - apply elem_of_zip_r in Hin. apply elem_of_lookup_imap in Hin as (? & ? & -> & _). apply Hr. }
  destruct (Stable_better input) as (H1 & H2 & H3).
  rewrite <- Stable_ext in H1, H2, H3 by done.
  unfold SortByRFC6724. destruct (Z.ltb_spec (len addrs) 2) as [Hs |].
  - exists input. split; [subst input; by rewrite zip_entries |]. split_and!; [done | | done].
    assert (length input <= 1)%nat as Hi.
    { subst input. rewrite length_fmap, length_zip. len_lia. }
    destruct input as [| e [| f l]]; [by constructor | by repeat constructor | simpl in Hi; lia].
  - exists (Stable Less input). split_and!; try done. unfold sortByRFC6724withSrcs, len.
    by rewrite Hlen, Z.eqb_refl.
Qed.

(** ** Witnesses *)

(** The IPv6 destination is unreachable, so the IPv4 one goes first. *)
Definition sample_dests : list netaddr :=
  [NA6 [0x20;0x01;0x0d;0xb8;0;0;0;0;0;0;0;0;0;0;0;1] EmptyString; NA4 [93;184;216;34]].
Definition sample_route (_ : nat) (a : netaddr) : netaddr :=
  if na_Is4 a then NA4 [192;168;0;2] else NAzero.

Lemma SortByRFC6724_spec_witness :
  Forall na_plain sample_dests ∧
  SortByRFC6724 sample_route sample_dests = Ok (reverse sample_dests) ∧
  ∃ es, SortByRFC6724 sample_route sample_dests = Ok (addr <$> es) ∧
    es ≡ₚ (entry_of <$> zip sample_dests (srcAddrs sample_route sample_dests)).
Proof.
  assert (Forall na_plain sample_dests) as Hp by (by repeat constructor).
  split_and!; [done | by vm_compute |].
  destruct (SortByRFC6724_spec sample_route sample_dests Hp) as (es & H1 & H2 & _);
    [| by exists es].
  intros i a. unfold sample_route. destruct (na_Is4 a); [by repeat constructor | done].
Defined.
