(* ===== verification/Dns.v ===== *)
(** * The resolver: [internal/dns/{client,resolver,udp,https,system}.go]

    The DNS library's messages are the records of an answer and the response
    code; its transport ([exchange]) is an argument. The goroutine per query
    type and the channel they answer on are an explicit sequence of channel
    events, in any order of arrival. *)

From S2P Require Import Prelude GoIO GoNet GoStrings NetText HostPort NetIP CacheApi TtlCache ConfigTypes AddrSelect.

Local Open Scope string_scope.
Local Open Scope list_scope.
Local Open Scope Z_scope.

(** ** Messages *)
Definition TypeA : Z := 1.
Definition TypeAAAA : Z := 28.
Definition RcodeSuccess : Z := 0.
Definition RcodeNameError : Z := 3.
Definition MaxUint32 : Z := 4294967295.

Inductive RR : Type :=
| RR_A (ip : bytes) (ttl : Z)
| RR_AAAA (ip : bytes) (ttl : Z)
| RR_other.

(** A query has a question, a response an answer section and a code. *)
Record Msg : Type := mkMsg {
  Question : option (string * Z);
  Answer : list RR;
  Rcode : Z;
}.

Record msgChan : Type := mkMsgChan { mc_msg : option Msg; mc_err : option error }.

Definition parseQueryTypes (qtype : DNSQueryType) : list Z :=
  match qtype with
  | DNSQueryIPv4 => [TypeA]
  | DNSQueryIPv6 => [TypeAAAA]
  | DNSQueryAll => [TypeA; TypeAAAA]
  end.

Definition recordTypeIDToName (id : Z) : string :=
  if id =? TypeA then "A" else if id =? TypeAAAA then "AAAA" else Itoa id.

(** ** [parseMsg] *)
Fixpoint parse_answers (l : list RR) (addrs : list netaddr) (minTTL : Z) (ok : bool)
    : list netaddr * Z * bool :=
  match l with
  | [] => (addrs, minTTL, ok)
  | RR_A ip t :: l | RR_AAAA ip t :: l =>
    match AddrFromSlice ip with
    | Some a => parse_answers l (addrs ++ [a]) (Z.min minTTL t) true
    | None => parse_answers l addrs minTTL ok
    end
  | RR_other :: l => parse_answers l addrs minTTL ok
  end.

Definition parseMsg (msg : Msg) : list netaddr * Z * bool :=
  parse_answers (Answer msg) [] MaxUint32 false.

(** What [processMessages] selects on: a result, the closed channel, the end of
    the context. *)
Inductive chan_event : Type :=
| Received (r : msgChan)
| Closed
| CtxDone (e : error).

Section Resolver.
(** [route]: the source address of a socket connected to an address;
    [Fqdn]: the DNS library's. *)
Variable route : nat → netaddr → netaddr.
Variable Fqdn : string → string.

Definition newMsg (domain : string) (qType : Z) : Msg :=
  mkMsg (Some (Fqdn domain, qType)) [] 0.

Definition exchangeFunc : Type := Msg → string → outcome error Msg.

Definition lookupType (domain upstream : string) (queryType : Z) (exchange : exchangeFunc)
    : outcome error msgChan :=
  match exchange (newMsg domain queryType) upstream with
  | Ok m => Ok (mkMsgChan (Some m) None)
  | Err e =>
    Ok (mkMsgChan None (Some (ErrWrap ("failed to resolve '" +:+ domain +:+
      "', query type=" +:+ recordTypeIDToName queryType +:+ ": ") e)))
  | Panic => Panic
  | Diverge => Diverge
  end.

(** The results the goroutines send, by query type. *)
Fixpoint lookupAllTypes (domain upstream : string) (qTypes : list Z) (exchange : exchangeFunc)
    : outcome error (list msgChan) :=
  match qTypes with
  | [] => Ok []
  | q :: qTypes =>
    r ← lookupType domain upstream q exchange;
    rs ← lookupAllTypes domain upstream qTypes exchange;
    Ok (r :: rs)
  end.

(** [errors.Join] *)
Definition join_errors (errs : list error) : error :=
  ErrText (Join (Ascii.ascii_of_nat 10) (Error <$> errs)).

Definition finish (errs : list error) (addrs : list netaddr) (minTTL : Z)
    : outcome error (list netaddr * Z) :=
  if 0 <? len addrs then
    match SortByRFC6724 route addrs with
    | Ok addrs => Ok (addrs, minTTL)
    | Err s => Err (ErrText s)
    | Panic => Panic
    | Diverge => Diverge
    end
  else if 0 <? len errs then Err (join_errors errs)
  else Err (ErrText "record not found").

Fixpoint process_loop (evs : list chan_event) (errs : list error) (addrs : list netaddr)
    (minTTL : Z) : outcome error (list netaddr * Z) :=
  match evs with
  | [] => Diverge      (* blocked for ever *)
  | CtxDone e :: _ => Err e
  | Closed :: _ => finish errs addrs minTTL
  | Received r :: evs =>
    match mc_err r, mc_msg r with
    | Some e, _ => process_loop evs (errs ++ [e]) addrs minTTL
    | None, None => process_loop evs errs addrs minTTL
    | None, Some m =>
      let '(resultAddrs, t, ok) := parseMsg m in
      if ok then process_loop evs errs (addrs ++ resultAddrs) (Z.min minTTL t)
      else process_loop evs errs addrs minTTL
    end
  end.

Definition processMessages (evs : list chan_event) : outcome error (list netaddr * Z) :=
  process_loop evs [] [] MaxUint32.

(** [resolve] of the UDP and HTTPS backends. [deliver] is the schedule: the
    events the channel shows for the given results. *)
Definition resolve_exchange (exchange : exchangeFunc) (deliver : list msgChan → list chan_event)
    (server domain : string) (qTypes : list Z) : outcome error (list netaddr * Z) :=
  rs ← lookupAllTypes domain server qTypes exchange;
  processMessages (deliver rs).

(** ** [httpsResolver.exchange] *)
Definition maxRetries : nat := 2.

(** [strings.Contains] *)
Fixpoint str_contains (s sub : string) : bool :=
  HasPrefix s sub || match s with EmptyString => false | String _ s => str_contains s sub end.

Definition isRetryableError (e : error) : bool :=
  let msg := Error e in
  str_contains msg "unexpected EOF" || str_contains msg "connection reset" ||
  str_contains msg "broken pipe".

(** An HTTP response: its status and what reading its body yields. *)
Record http_response : Type := mkHttpResponse {
  StatusCode : Z;
  Body : outcome error bytes;
}.

(** The third-party codec and the HTTP client. *)
Record doh_env : Type := mkDohEnv {
  Pack : Msg → outcome error bytes;
  Unpack : bytes → outcome error Msg;
  NewRequest : string → bytes → option error;
  Do : nat → string → bytes → outcome error http_response;   (* indexed by the attempt *)
}.

(** The loop [for i := 0; i < maxRetries; i++], with the attempts left; the
    result is that of the last attempt made, and the number made. *)
Fixpoint https_loop (e : doh_env) (upstream : string) (pack : bytes) (n : nat) (i : nat)
    (last : outcome error http_response) : outcome error http_response * nat :=
  match n with
  | O => (last, i)
  | S n =>
    match NewRequest e upstream pack with
    | Some err => (Err err, i)
    | None =>
      match Do e i upstream pack with
      | Err reqErr =>
        if (S i <? maxRetries)%nat && isRetryableError reqErr
        then https_loop e upstream pack n (S i) (Err reqErr)    (* continue *)
        else https_loop e upstream pack n (S i) (Err reqErr)    (* end of the body *)
      | r => (r, S i)                                           (* break *)
      end
    end
  end.

Definition https_exchange (e : doh_env) (msg : Msg) (upstream : string) : outcome error Msg :=
  pack ← Pack e msg;
  resp ← fst (https_loop e upstream pack maxRetries 0 (Err (ErrText "no attempt")));
  body ← Body resp;
  if negb (StatusCode resp =? 200) then
    Err (ErrText ("status code(" +:+ Itoa (StatusCode resp) +:+ ")"))
  else
    resultMsg ← Unpack e body;
    if negb (Rcode resultMsg =? RcodeSuccess) && negb (Rcode resultMsg =? RcodeNameError)
    then Err (ErrText ("Rcode(" +:+ Itoa (Rcode resultMsg) +:+ ")"))
    else Ok resultMsg.
End Resolver.

(** ** The system resolver *)
Section System.
Context `{!NetText}.

(** The loop over the query types only looks for the two it knows. *)
Definition wants (q : Z) (qTypes : list Z) : bool := existsb (Z.eqb q) qTypes.

Fixpoint filter_loop (wantsA wantsAAAA : bool) (ips : list IP) (seen : gset string)
    (filtered : list netaddr) : list netaddr :=
  match ips with
  | [] => filtered
  | ip :: ips =>
    let addrStr := IP_String ip in
    if decide (addrStr ∈ seen) then filter_loop wantsA wantsAAAA ips seen filtered
    else
      let isIPv4 := bool_decide (is_Some (To4 ip)) in
      let candidate :=
        if wantsA && isIPv4 then AddrFromSlice (default [] (To4 ip))
        else if wantsAAAA && negb isIPv4 then AddrFromSlice ip
        else None in
      match candidate with
      | Some a => filter_loop wantsA wantsAAAA ips ({[addrStr]} ∪ seen) (filtered ++ [a])
      | None => filter_loop wantsA wantsAAAA ips seen filtered
      end
  end.

Definition filtterAddrs (ips : list IP) (qTypes : list Z) : list netaddr :=
  let wantsA := wants TypeA qTypes in
  let wantsAAAA := wants TypeAAAA qTypes in
  if negb wantsA && negb wantsAAAA then []
  else filter_loop wantsA wantsAAAA ips ∅ [].

Definition system_resolve (LookupIP : string → outcome error (list IP))
    (server domain : string) (qTypes : list Z) : outcome error (list netaddr * Z) :=
  ips ← LookupIP domain; Ok (filtterAddrs ips qTypes, 0).

(** The address an IP contributes to an answer of the given types. *)
Definition selected (qTypes : list Z) (ip : IP) : option netaddr :=
  match To4 ip with
  | Some x => if wants TypeA qTypes then Some (NA4 x) else None
  | None => if wants TypeAAAA qTypes then Some (NA6 ip EmptyString) else None
  end.

Lemma candidate_selected qTypes ip :
  ip_wf ip →
  (if wants TypeA qTypes && bool_decide (is_Some (To4 ip)) then AddrFromSlice (default [] (To4 ip))
   else if wants TypeAAAA qTypes && negb (bool_decide (is_Some (To4 ip))) then AddrFromSlice ip
   else None) = selected qTypes ip.
Proof.
  intros Hw. unfold selected. destruct (To4 ip) as [x |] eqn:E.
  - rewrite bool_decide_true by done. simpl.
    rewrite andb_true_r, andb_false_r. unfold AddrFromSlice. by rewrite (To4_len _ _ E).
  - rewrite bool_decide_false by (by intros []). rewrite andb_false_r, andb_true_r.
    destruct (wants TypeAAAA qTypes); [| done]. unfold AddrFromSlice.
    destruct Hw as [Hl | ->]; [| done]. unfold To4 in E. by rewrite Hl in E.
Qed.

(** Addresses are told apart exactly by their texts. *)
Lemma IP_String_selected qTypes a b x :
  ip_wf a → ip_wf b → bytes_ok a → bytes_ok b → selected qTypes a = Some x →
  IP_String a = IP_String b ↔ selected qTypes b = Some x.
Proof.
  intros Ha Hb Hoa Hob Hs. split.
  - intros He. assert (To16 a = To16 b) as H16.
    { by rewrite <- (ParseIP_String a), He, ParseIP_String. }
    assert (selected qTypes a = selected qTypes b) as <-; [| done].
    unfold selected. rewrite <- (To16_To4 a b) by done.
    destruct (To4 a) as [y |] eqn:Ea; [done |].
    assert (To4 b = None) as Eb by (by rewrite <- (To16_To4 a b)).
    apply To4_None_len in Ea, Eb; [| done..].
    unfold To16 in H16. rewrite Ea, Eb in H16. simpl in H16. by simplify_eq.
  - intros Hs'. apply IP_String_To16; [| done]. unfold selected in *.
    destruct (To4 a) as [y |] eqn:Ea, (To4 b) as [z |] eqn:Eb;
      repeat case_match; simplify_eq; [| done].
    by rewrite (To4_To16 _ _ Ea), (To4_To16 _ _ Eb).
Qed.

Definition ips_ok (ips : list IP) : Prop := Forall (λ ip, ip_wf ip ∧ bytes_ok ip) ips.

(** What the loop has done with the addresses before the current one. *)
Definition filter_inv (qTypes : list Z) (done_ : list IP) (seen : gset string)
    (filtered : list netaddr) : Prop :=
  NoDup filtered ∧
  (∀ a, a ∈ filtered ↔ ∃ ip, ip ∈ done_ ∧ selected qTypes ip = Some a) ∧
  (∀ s, s ∈ seen ↔ ∃ ip, ip ∈ done_ ∧ is_Some (selected qTypes ip) ∧ s = IP_String ip).

Lemma filter_loop_inv qTypes ips done_ seen filtered :
  ips_ok (done_ ++ ips) → filter_inv qTypes done_ seen filtered →
  let r := filter_loop (wants TypeA qTypes) (wants TypeAAAA qTypes) ips seen filtered in
  NoDup r ∧ ∀ a, a ∈ r ↔ ∃ ip, ip ∈ done_ ++ ips ∧ selected qTypes ip = Some a.
Proof.
  revert done_ seen filtered. induction ips as [| ip ips IH];
    intros done_ seen filtered Hok (Hnd & Hf & Hseen); [by rewrite app_nil_r |].
  assert (ip_wf ip ∧ bytes_ok ip) as [Hw Hb].
  { apply (proj1 (Forall_forall _ _) Hok), elem_of_app. right. by left. }
  assert (∀ j, j ∈ done_ → ip_wf j ∧ bytes_ok j) as Hdone.
  { intros j Hj. apply (proj1 (Forall_forall _ _) Hok), elem_of_app. by left. }
  assert (∀ P : IP → Prop, (∃ j, j ∈ done_ ++ [ip] ∧ P j) ↔ (∃ j, j ∈ done_ ∧ P j) ∨ P ip) as Hex.
  { intros P. setoid_rewrite elem_of_app. setoid_rewrite list_elem_of_singleton. naive_solver. }
  simpl. rewrite candidate_selected by done.
  rewrite (cons_middle ip done_ ips), (app_assoc done_ [ip] ips) in *.
  destruct (decide (IP_String ip ∈ seen)) as [Hin | Hnin].
  { apply IH; [done |]. apply Hseen in Hin as (j & Hj & [x Hx] & He).
    destruct (Hdone j Hj) as [Hjw Hjb].
    pose proof (proj1 (IP_String_selected qTypes j ip x Hjw Hw Hjb Hb Hx) (eq_sym He)) as Hsel.
    split; [done |]. split; [intros a | intros s]; rewrite Hex, ?Hf, ?Hseen; naive_solver. }
  destruct (selected qTypes ip) as [x |] eqn:Hx.
  2: { apply IH; [done |].
       split; [done |]. split; [intros a | intros s]; rewrite Hex, ?Hf, ?Hseen.
       - rewrite Hx. naive_solver.
       - rewrite Hx. split; [by left |]. intros [? | [[? ?] _]]; done. }
  apply IH; [done |]. split; [| split].
  - apply NoDup_app. split; [done |]. split; [| apply NoDup_singleton].
    intros a Ha ->%list_elem_of_singleton. apply Hf in Ha as (j & Hj & Hsel).
    apply Hnin, Hseen. exists j. destruct (Hdone j Hj) as [Hjw Hjb]. split_and!; [done | by eexists |].
    symmetry. by eapply IP_String_selected.
  - intros a. rewrite Hex, elem_of_app, list_elem_of_singleton, Hf, Hx. naive_solver.
  - intros s. rewrite Hex, elem_of_union, elem_of_singleton, Hseen, Hx. naive_solver.
Qed.

(** The system resolver's answer, for query types and addresses as the
    standard library returns them: no address appears twice, and the
    addresses are exactly the ones looked up whose family was asked for, an
    IPv4-mapped address counting as the IPv4 address it denotes. *)
Theorem filtterAddrs_exact (ips : list IP) (qTypes : list Z) :
  ips_ok ips →
  NoDup (filtterAddrs ips qTypes) ∧
  ∀ a, a ∈ filtterAddrs ips qTypes ↔ ∃ ip, ip ∈ ips ∧ selected qTypes ip = Some a.
Proof.
  intros Hok. unfold filtterAddrs.
  destruct (negb _ && negb _) eqn:E.
  - apply andb_true_iff in E as [HA%negb_true_iff H6%negb_true_iff]. split; [apply NoDup_nil_2 |]. intros a. split; [by intros ?%not_elem_of_nil |].
    intros (ip & _ & Hs). unfold selected in Hs. rewrite HA, H6 in Hs. by case_match.
  - apply (filter_loop_inv qTypes ips [] ∅ []); [done |].
    split; [apply NoDup_nil_2 |]. split; intros a.
    + split; [by intros ?%not_elem_of_nil | intros (? & ?%not_elem_of_nil & _); done].
    + split; [by intros ?%not_elem_of_empty | intros (? & ?%not_elem_of_nil & _); done].
Qed.
End System.

(** ** What the results hold, and the loop over them *)
Definition record_addr (r : RR) : option (netaddr * Z) :=
  match r with
  | RR_A ip t | RR_AAAA ip t => a ← AddrFromSlice ip; Some (a, t)
  | RR_other => None
  end.

(** The address records of the successful results, with their TTLs. *)
Definition gathered (rs : list msgChan) : list (netaddr * Z) :=
  rs ≫= λ r, match mc_err r, mc_msg r with
             | None, Some m => omap record_addr (Answer m)
             | _, _ => []
             end.

Lemma gathered_cons r rs :
  gathered (r :: rs) =
    match mc_err r, mc_msg r with
    | None, Some m => omap record_addr (Answer m)
    | _, _ => []
    end ++ gathered rs.
Proof. done. Qed.

Lemma foldl_min_base (m k : Z) (l : list Z) :
  foldl Z.min (Z.min m k) l = Z.min m (foldl Z.min k l).
Proof. revert m k. induction l as [| x l IH]; intros m k; simpl; [done |]. by rewrite <- Z.min_assoc, IH. Qed.

Lemma foldl_min_spec (m : Z) (l : list Z) :
  (foldl Z.min m l = m ∨ foldl Z.min m l ∈ l) ∧ foldl Z.min m l <= m ∧
  ∀ t, t ∈ l → foldl Z.min m l <= t.
Proof.
  revert m. induction l as [| x l IH]; intros m; simpl.
  - split_and!; [by left | lia | by intros ? ?%not_elem_of_nil].
  - destruct (IH (Z.min m x)) as (H1 & H2 & H3). split_and!; [| lia |].
    + destruct H1 as [H1 | H1]; [| right; by right].
      destruct (Z.min_spec m x) as [[? He] | [? He]]; rewrite H1, He; [by left |].
      right. by left.
    + intros t [-> | Ht]%elem_of_cons; [lia | by apply H3].
Qed.

Lemma parse_answers_spec l addrs m ok :
  parse_answers l addrs m ok =
    (addrs ++ (omap record_addr l).*1, foldl Z.min m (omap record_addr l).*2,
     ok || negb (bool_decide (omap record_addr l = []))).
Proof.
  revert addrs m ok. induction l as [| r l IH]; intros addrs m ok.
  { simpl. by rewrite app_nil_r, orb_false_r. }
  destruct r as [ip t | ip t |]; simpl; [| | by rewrite IH];
    (destruct (AddrFromSlice ip) as [a |]; simpl; rewrite IH;
     [by rewrite <- app_assoc, orb_true_r | done]).
Qed.

Lemma process_loop_spec route ps evs errs addrs m :
  m <= MaxUint32 →
  process_loop route ((Received <$> ps) ++ Closed :: evs) errs addrs m =
    finish route (errs ++ omap mc_err ps) (addrs ++ (gathered ps).*1)
      (foldl Z.min m (gathered ps).*2).
Proof.
  revert errs addrs m. induction ps as [| r ps IH]; intros errs addrs m Hm.
  { simpl. by rewrite !app_nil_r. }
  rewrite gathered_cons, fmap_cons. cbn [app process_loop omap list_omap].
  change (omap mc_err (r :: ps)) with
    (match mc_err r with Some e => e :: omap mc_err ps | None => omap mc_err ps end).
  destruct (mc_err r) as [e |] eqn:He; [by rewrite IH, <- app_assoc |].
  destruct (mc_msg r) as [msg |]; [| by rewrite IH].
  unfold parseMsg. rewrite parse_answers_spec. cbn [app orb].
  set (recs := omap record_addr (Answer msg)).
  rewrite !fmap_app, foldl_app. destruct (decide (recs = [])) as [-> | Hne].
  - rewrite bool_decide_true by done. simpl. by rewrite IH.
  - rewrite bool_decide_false by done. simpl. rewrite IH by lia.
    by rewrite <- app_assoc, <- foldl_min_base, (Z.min_l m MaxUint32).
Qed.

(** The sort only reorders, whatever the comparison. *)
Lemma Stable_perm {A} (less : A → A → bool) (l : list A) : Stable less l ≡ₚ l.
Proof.
  assert (∀ x r, insert_back less x r ≡ₚ x :: r) as Hi.
  { intros x r. induction r as [| y r IH]; simpl; [done |]. destruct (less x y); [| done].
    rewrite IH. apply perm_swap. }
  assert (∀ r, foldl (λ r x, insert_back less x r) r l ≡ₚ r ++ l) as Hf.
  { induction l as [| x l IH]; intros r; simpl; [by rewrite app_nil_r |].
    rewrite IH, Hi. simpl. by rewrite Permutation_middle. }
  unfold Stable. by rewrite reverse_Permutation, Hf.
Qed.

Lemma SortByRFC6724_perm route addrs :
  ∃ out, SortByRFC6724 route addrs = Ok out ∧ out ≡ₚ addrs.
Proof.
  unfold SortByRFC6724. destruct (_ <? 2); [by eexists |].
  unfold sortByRFC6724withSrcs, len, srcAddrs at 1. rewrite length_imap, Z.eqb_refl. simpl.
  eexists. split; [done |].
  rewrite Stable_perm. rewrite zip_entries; [done |]. unfold srcAddrs. by rewrite length_imap.
Qed.

Lemma gathered_perm rs ps : ps ≡ₚ rs → gathered ps ≡ₚ gathered rs.
Proof. intros H. unfold gathered. by rewrite H. Qed.


(** The retry loop makes its second attempt after any failure of the first:
    [isRetryableError] decides nothing. *)
Lemma https_loop_retries_any (e : doh_env) upstream pack err :
  NewRequest e upstream pack = None →
  Do e 0 upstream pack = Err err →
  (https_loop e upstream pack maxRetries 0 (Err (ErrText "no attempt"))).2 = 2%nat.
Proof.
  intros Hn H0. simpl. rewrite Hn, H0.
  by destruct (isRetryableError err), (Do e 1 upstream pack).
Qed.

(** ** The client *)
#[export] Instance hostname_Key : Key string := {| Bytes := bytes_of_string |}.

(** A query the client sent to a backend. *)
Record query : Type := mkQuery { q_server : string; q_domain : string; q_types : list Z }.

Definition internalResolver : Type := string → string → list Z → outcome error (list netaddr * Z).

Record Client : Type := mkClient {
  https : internalResolver;
  udp : internalResolver;
  system : internalResolver;
  cache : @TTLCache string (list netaddr) hostname_Key;
  cfg : RuntimeConfig;
}.

Definition with_cache (c : @TTLCache string (list netaddr) hostname_Key) (cl : Client) : Client :=
  mkClient (https cl) (udp cl) (system cl) c (cfg cl).

Definition dns_cache_attrs : TTLCacheAttrs := mkTTLAttrs 64 (180 * Second).

Definition NewClient (https udp system : internalResolver) (cfg : RuntimeConfig)
    : outcome string Client :=
  c ← NewTTLCache dns_cache_attrs; Ok (mkClient https udp system c cfg).

Definition pick (mode : DNSModeType) (c : Client) : internalResolver :=
  match mode with
  | DNSModeHTTPS => https c
  | DNSModeUDP => udp c
  | DNSModeSystem => system c
  end.

Section Client.
Context `{!NetText}.
(** [netip.ParseAddr] *)
Variable ParseAddr : string → option netaddr.

Definition serverFor (cfg : RuntimeConfig) : string :=
  match dns_Mode (DNS cfg) with
  | DNSModeHTTPS =>
    let upstream := dns_HTTPSURL (DNS cfg) in
    if negb (HasPrefix upstream "https://")
    then ("https://" +:+ upstream +:+ "/dns-query") else upstream
  | DNSModeUDP => TCPAddr_String (dns_Addr (DNS cfg))
  | DNSModeSystem => ""
  end.

(** [cfg.DNS.Cache && cfg.DNS.Mode != config.DNSModeSystem] *)
Definition useCache (cfg : RuntimeConfig) : bool :=
  dns_Cache (DNS cfg) && negb (bool_decide (dns_Mode (DNS cfg) = DNSModeSystem)).

Definition cfg_of (rule : option Rule) (c : Client) : RuntimeConfig :=
  match rule with Some r => rule_Config r | None => cfg c end.

(** [now] is the time of the cache lookup, [now2] that of the insertion; the
    last component is the queries sent. *)
Definition Resolve (now now2 : Z) (rule : option Rule) (domain : string) (c : Client)
    : outcome error (list netaddr) * Client * list query :=
  let cfg := cfg_of rule c in
  match ParseAddr domain with
  | Some ip => (Ok [ip], c, [])
  | None =>
    let qTypes := parseQueryTypes (dns_QType (DNS cfg)) in
    let '(hit, c) :=
      if useCache cfg then
        let '(r, s) := Get now domain (cache c) in (r, with_cache s c)
      else (None, c) in
    match hit with
    | Some addrs => (Ok addrs, c, [])
    | None =>
      let q := mkQuery (serverFor cfg) domain qTypes in
      match pick (dns_Mode (DNS cfg)) c (serverFor cfg) domain qTypes with
      | Ok (addrs, t) =>
        let c :=
          if useCache cfg then
            with_cache
              (Set_ now2 domain addrs (Some (WithTTL (i64 (t * Second)) Options)) (cache c)).2 c
          else c in
        (Ok addrs, c, [q])
      | Err e => (Err e, c, [q])
      | Panic => (Panic, c, [q])
      | Diverge => (Diverge, c, [q])
      end
    end
  end.

(** The configuration of a request decides what a resolution does; two clients
    that differ in their backends only have the same cache. *)
Lemma Resolve_hit now now2 rule domain c addrs :
  TtlCache.cache_wf (cache c) → ParseAddr domain = None →
  useCache (cfg_of rule c) = true → live now (cache c) domain = Some addrs →
  Resolve now now2 rule domain c = (Ok addrs, c, []).
Proof.
  intros Hc Hp Hu Hl. unfold Resolve. rewrite Hp, Hu.
  unfold Get, get_read, live in *. destruct (item_at (cache c) domain) as [i |]; [| done].
  simpl in Hl. destruct (isExpired now i); [done |]. simpl in *. simplify_eq. by destruct c.
Qed.

Lemma Resolve_miss now now2 rule domain c :
  TtlCache.cache_wf (cache c) → ParseAddr domain = None →
  useCache (cfg_of rule c) = true → live now (cache c) domain = None →
  let cfg := cfg_of rule c in
  let q := mkQuery (serverFor cfg) domain (parseQueryTypes (dns_QType (DNS cfg))) in
  ∃ s, TtlCache.cache_wf s ∧ (Resolve now now2 rule domain c).2 = [q] ∧
    Resolve now now2 rule domain c =
    match pick (dns_Mode (DNS cfg)) c (q_server q) domain (q_types q) with
    | Ok (addrs, t) =>
      (Ok addrs,
       with_cache (Set_ now2 domain addrs (Some (WithTTL (i64 (t * Second)) Options)) s).2 c, [q])
    | Err e => (Err e, with_cache s c, [q])
    | Panic => (Panic, with_cache s c, [q])
    | Diverge => (Diverge, with_cache s c, [q])
    end.
Proof.
  intros Hc Hp Hu Hl cfg q. exists (Get now domain (cache c)).2.
  destruct (ttl_Get_spec now (cache c) domain Hc) as (Hg & Hw & _). rewrite Hl in Hg.
  split; [done |]. unfold Resolve. rewrite Hp, Hu. fold cfg.
  destruct (Get now domain (cache c)) as [r s]. simpl in Hg, Hw |- *. subst r.
  assert (pick (dns_Mode (DNS cfg)) (with_cache s c) = pick (dns_Mode (DNS cfg)) c) as ->
    by (by destruct (dns_Mode (DNS cfg))).
  by destruct (pick _ c _ _ _) as [[addrs t] | | |].
Qed.

Lemma Set_live (s : @TTLCache string (list netaddr) hostname_Key) now2 domain addrs t now3 :
  TtlCache.cache_wf s → 0 < t <= MaxUint32 → 0 <= now2 < 2 ^ 62 →
  let s' := (Set_ now2 domain addrs (Some (WithTTL (i64 (t * Second)) Options)) s).2 in
  TtlCache.cache_wf s' ∧
  live now3 s' domain = if now3 <=? now2 + t * Second then Some addrs else None.
Proof.
  intros Hs Ht Hn s'.
  assert (i64 (t * Second) = t * Second) as Hi.
  { unfold i64, Second, Millisecond, MaxUint32 in *. rewrite Z.mod_small by lia. lia. }
  subst s'. rewrite Hi. unfold Set_. cbn [opts_or_default WithTTL Options ttl skipExisting updateExistingOnly].
  replace (t * Second =? 0) with false by (unfold Second, Millisecond; lia).
  rewrite !andb_false_r. cbn [snd]. split; [by apply with_shard_wf |].
  unfold live. rewrite item_at_insert, decide_True by done. cbn [mbind option_bind].
  unfold isExpired. cbn [expiresAt value]. unfold i64 in *.
  rewrite (Z.mod_small (now2 + t * Second + 2 ^ 63))
    by (unfold Second, Millisecond, MaxUint32 in *; lia).
  replace (now2 + t * Second + 2 ^ 63 - 2 ^ 63) with (now2 + t * Second) by lia.
  replace (now2 + t * Second =? 0) with false by (unfold Second, Millisecond; lia).
  cbn [negb andb]. destruct (Z.leb_spec now3 (now2 + t * Second)).
  - by rewrite (proj2 (Z.ltb_ge _ _)) by lia.
  - by rewrite (proj2 (Z.ltb_lt _ _)) by lia.
Qed.

End Client.

(** ** Witnesses *)
Lemma filtterAddrs_exact_witness :
  let ips := [IPv4 1 2 3 4; [1; 2; 3; 4]; IPv6loopback] in
  ips_ok ips ∧ NoDup (filtterAddrs ips [TypeA]) ∧
  filtterAddrs ips [TypeA] = [NA4 [1; 2; 3; 4]].
Proof.
  intros ips. assert (ips_ok ips) as Hok.
  { subst ips. repeat (apply Forall_cons; split); [| | | by apply Forall_nil];
      (split; [vm_compute; auto | by vm_compute; repeat constructor]). }
  destruct (filtterAddrs_exact ips [TypeA] Hok) as [Hn _].
  split_and!; [done | done | by vm_compute].
Defined.

(** The AAAA answer arrives first; its TTL is the larger one. *)
Definition sample_exchange : exchangeFunc := λ m _,
  match Question m with
  | Some (_, q) =>
    if q =? TypeA then Ok (mkMsg None [RR_A [93; 184; 216; 34] 60] 0)
    else Ok (mkMsg None [RR_other; RR_AAAA (0x20 :: replicate 15 1) 300] 0)
  | None => Err EOF
  end.
Definition reversed_delivery (rs : list msgChan) : list chan_event :=
  (Received <$> reverse rs) ++ [Closed].


Definition sample_cfg : RuntimeConfig :=
  mkRuntimeConfig (Conn (Runtime DefaultConfig))
    (mkDNSOptions DNSModeUDP (mkTCPAddr (IPv4 8 8 8 8) 53) "" DNSQueryIPv4 true)
    (HTTPS (Runtime DefaultConfig)) (UDP (Runtime DefaultConfig)).

Definition sample_client : Client :=
  let answer : internalResolver := λ _ _ _, Ok ([NA4 [93; 184; 216; 34]], 60) in
  mkClient answer answer answer (mkTTL (replicate 64 ∅)) sample_cfg.

(** A second client on the same cache, whose backends fail. *)
Definition failing_client (c : Client) : Client :=
  let fail : internalResolver := λ _ _ _, Err ErrTimeout in
  mkClient fail fail fail (cache c) sample_cfg.

