(* ===== verification/ConfigParse.v ===== *)
(** * Parsing and validating values: [internal/config/parse.go], the value
      checks of [validate.go] and the decoding helpers of [toml.go]

    A decoded TOML value is a [tval]; errors are structured values instead of
    formatted texts. A parser returns a value or an error; the [MustParse]
    functions panic. *)

From S2P Require Import Prelude GoNet GoStrings NetText HostPort Tls ConfigTypes.
From Stdlib Require Import Ascii.

Local Open Scope list_scope.
Local Open Scope Z_scope.

(** ** Decoded TOML: [any] in [map[string]any]. *)
Inductive tval : Type :=
| TBool (b : bool)
| TInt (z : Z)                                (* int64 *)
| TString (s : string)
| TFloat
| TTime
| TList (l : list tval)                       (* []any *)
| TTables (l : list (list (string * tval)))   (* []map[string]any *)
| TTable (m : list (string * tval)).          (* map[string]any *)

Abbreviation table := (list (string * tval)) (only parsing).

(** [v, ok := m[key]]: at most one entry per key. *)
Fixpoint get (key : string) (m : table) : option tval :=
  match m with
  | [] => None
  | (k, v) :: m => if decide (k = key) then Some v else get key m
  end.

(** [m[key] = v] on a key that is present. *)
Fixpoint put (key : string) (v : tval) (m : table) : table :=
  match m with
  | [] => [(key, v)]
  | (k, w) :: m => if decide (k = key) then (k, v) :: m else (k, w) :: put key v m
  end.

Inductive cerr : Type :=
| NotTable (what : string)                    (* non-table value *)
| WrongType (expected : string)               (* expected %s, got %T *)
| NotOneOf (v : string) (allowed : list string)
| OutOfRange (v mini maxi : Z)
| BadDomainPattern
| BadHostPort
| BadIP
| BadPort
| BadCIDR (v : string)
| BadEndpoint
| BadByteArray
| BadByte (v : Z)
| MissingField (key : string)
| Field (key : string) (e : cerr)             (* field %q: %w *)
| Item (key : string) (i : nat) (e : cerr)
| NotList (key : string)
| NoMatchEntry
| NoMatch
| NoCustomSegments
| NoSuchFile (path : string)
| FileError (path : string)
| InRule (i : nat) (section : string) (e : cerr)
| InFile (path : string) (e : cerr).

(** ** Checks: [None] is a nil error. *)
Definition checkOneOf (allowed : list string) (v : string) : option cerr :=
  if decide (v ∈ allowed) then None else Some (NotOneOf v allowed).

Definition int64Range (mini maxi : Z) (v : Z) : option cerr :=
  if (v <? mini) || (maxi <? v) then Some (OutOfRange v mini maxi) else None.

Definition checkUint8 : Z → option cerr := int64Range 0 255.
Definition checkUint16 : Z → option cerr := int64Range 0 65535.
Definition checkUint8NonZero : Z → option cerr := int64Range 1 255.
Definition checkAppMode : string → option cerr := checkOneOf availableAppModeValues.
Definition checkDNSMode : string → option cerr := checkOneOf availableDNSModeValues.
Definition checkDNSQueryType : string → option cerr := checkOneOf availableDNSQueryValues.
Definition checkHTTPSSplitMode : string → option cerr := checkOneOf availableHTTPSModeValues.
Definition checkLogLevel : string → option cerr := checkOneOf availableLogLevelValues.
Definition checkSegmentFrom : string → option cerr := checkOneOf availableSegmentFromValues.
Definition checkFreeBSDFibID : Z → option cerr := int64Range 1 15.

Definition is_alnum (c : ascii) : bool :=
  let n := nat_of_ascii c in
  ((48 <=? n) && (n <=? 57) || (65 <=? n) && (n <=? 90) || (97 <=? n) && (n <=? 122))%nat.

(** [[a-zA-Z0-9-]*[a-zA-Z0-9]]: hyphens and alphanumerics, not ending with a
    hyphen. *)
Fixpoint label_tail (s : string) : bool :=
  match s with
  | EmptyString => true
  | String c EmptyString => is_alnum c
  | String c s => (is_alnum c || ascii_eqb c "-"%char) && label_tail s
  end.

Definition is_label (s : string) : bool :=
  match s with EmptyString => false | String c s => is_alnum c && label_tail s end.

Definition is_segment (s : string) : bool :=
  is_label s || bool_decide (s = "**"%string) || bool_decide (s = "*"%string).

(** The regular expression [^seg(\.seg)*$]; no segment contains a dot. *)
Definition checkDomainPattern (v : string) : option cerr :=
  if forallb is_segment (Split "."%char v) then None else Some BadDomainPattern.

(** [^https?://] *)
Definition checkHTTPSEndpoint (v : string) : option cerr :=
  if decide (v = EmptyString) then None
  else if HasPrefix v "http://" || HasPrefix v "https://" then None
  else Some BadEndpoint.

(** The white space [\s] of a regular expression. *)
Definition is_re_space (c : ascii) : bool :=
  let n := nat_of_ascii c in ((n =? 32) || (n =? 9) || (n =? 10) || (n =? 12) || (n =? 13))%nat.

Fixpoint skip_re_space (s : string) : string :=
  match s with
  | String c s' => if is_re_space c then skip_re_space s' else s
  | EmptyString => EmptyString
  end.

Fixpoint all_re_space (s : string) : bool :=
  match s with EmptyString => true | String c s => is_re_space c && all_re_space s end.

(** [\s*0x[0-9a-fA-F]{2}\s*] *)
Definition is_hex_part (s : string) : bool :=
  match skip_re_space s with
  | String z (String x (String a (String b rest))) =>
    ascii_eqb z "0"%char && ascii_eqb x "x"%char &&
    bool_decide (is_Some (hex_val a)) && bool_decide (is_Some (hex_val b)) && all_re_space rest
  | _ => false
  end.

Definition checkHexBytesStr (s : string) : option cerr :=
  let trimmed := TrimSpace s in
  if decide (trimmed = EmptyString) then None
  else if forallb is_hex_part (Split ","%char trimmed) then None
  else Some BadByteArray.

(** The third-party log library's [ParseLevel], for the names the program
    accepts. *)
Class LogLevels : Type := {
  ParseLevel : string → option Z;
  ParseLevel_known s : s ∈ availableLogLevelValues → is_Some (ParseLevel s);
}.

Section Values.
Context `{!NetText}.

Definition checkHostPort (v : string) : option cerr :=
  match SplitHostPort v with
  | None => Some BadHostPort
  | Some (host, port) =>
    match ParseIP host with
    | None => Some BadIP
    | Some _ =>
      match Atoi port with
      | None => Some BadPort
      | Some portInt => checkUint16 portInt
      end
    end
  end.

Definition checkCIDR (v : string) : option cerr :=
  match ParseCIDR v with None => Some (BadCIDR v) | Some _ => None end.

(** ** [MustParse] functions *)
Definition MustParseTCPAddr (s : string) : outcome cerr TCPAddr :=
  match SplitHostPort s with
  | None => Panic
  | Some (host, port) =>
    match Atoi port with
    | None => Panic
    | Some p => Ok (mkTCPAddr (default [] (ParseIP host)) p)
    end
  end.
End Values.

(** ["0x%02x"] for each byte, separated by [", "]. *)
Fixpoint MustParseHexCSV (data : bytes) : string :=
  match data with
  | [] => EmptyString
  | [b] => "0x" +:+ fmt_02x b
  | b :: data => "0x" +:+ fmt_02x b +:+ ", " +:+ MustParseHexCSV data
  end.

(** [strconv.ParseUint(s, 0, 8)] on a [0x] literal; a syntax error gives 0 and
    an overflow the largest value, as the error is dropped. *)
Fixpoint parse_hex (s : string) (acc : Z) : option Z :=
  match s with
  | EmptyString => Some acc
  | String c s => d ← hex_val c; parse_hex s (acc * 16 + d)
  end.
Definition ParseUint8 (s : string) : Z :=
  match s with
  | String "0" (String "x" (String c s)) =>
    match parse_hex (String c s) 0 with Some v => Z.min v 255 | None => 0 end
  | _ => 0
  end.

Fixpoint parse_parts (parts : list string) : bytes :=
  match parts with
  | [] => []
  | part :: parts =>
    let trimmed := TrimSpace part in
    if decide (trimmed = EmptyString) then parse_parts parts
    else ParseUint8 trimmed :: parse_parts parts
  end.

Definition MustParseBytes (s : string) : outcome cerr bytes :=
  match checkHexBytesStr s with
  | Some _ => Panic
  | None => Ok (parse_parts (Split ","%char s))
  end.

Definition MustParseLogLevel `{!LogLevels} (s : string) : outcome cerr Z :=
  match ParseLevel s with Some l => Ok l | None => Panic end.

Definition MustParseServerModeType (s : string) : outcome cerr AppModeType :=
  if decide (s = "http"%string) then Ok AppModeHTTP
  else if decide (s = "socks5"%string) then Ok AppModeSOCKS5
  else if decide (s = "tun"%string) then Ok AppModeTUN
  else Panic.

Definition MustParseDNSModeType (s : string) : outcome cerr DNSModeType :=
  if decide (s = "udp"%string) then Ok DNSModeUDP
  else if decide (s = "system"%string) then Ok DNSModeSystem
  else if decide (s = "https"%string) then Ok DNSModeHTTPS
  else Panic.

Definition MustParseDNSQueryType (s : string) : outcome cerr DNSQueryType :=
  if decide (s = "ipv4"%string) then Ok DNSQueryIPv4
  else if decide (s = "ipv6"%string) then Ok DNSQueryIPv6
  else if decide (s = "all"%string) then Ok DNSQueryAll
  else Panic.

Definition mustParseHTTPSSplitModeType (s : string) : outcome cerr HTTPSSplitModeType :=
  if decide (s = "sni"%string) then Ok HTTPSSplitModeSNI
  else if decide (s = "random"%string) then Ok HTTPSSplitModeRandom
  else if decide (s = "chunk"%string) then Ok HTTPSSplitModeChunk
  else if decide (s = "first-byte"%string) then Ok HTTPSSplitModeFirstByte
  else if decide (s = "none"%string) then Ok HTTPSSplitModeNone
  else if decide (s = "custom"%string) then Ok HTTPSSplitModeCustom
  else Panic.

Definition mustParseSegmentFromType (s : string) : outcome cerr SegmentFromType :=
  if decide (s = "sni"%string) then Ok SegmentFromSNI
  else if decide (s = "head"%string) then Ok SegmentFromHead
  else Panic.

(** ** Parsers of TOML values *)

(** [if validator != nil { if err := validator(x) ... }] *)
Definition validated {A} (validator : option (A → option cerr)) (x : A) : outcome cerr A :=
  match validator with
  | Some check => match check x with Some e => Err e | None => Ok x end
  | None => Ok x
  end.

(** [conv] is the conversion [T(i64)] to the integer type. *)
Definition parseIntFn (conv : Z → Z) (validator : option (Z → option cerr)) (v : tval)
    : outcome cerr Z :=
  match v with
  | TInt z => conv <$> validated validator z
  | _ => Err (WrongType "int64")
  end.

Definition parseStringFn (validator : option (string → option cerr)) (v : tval)
    : outcome cerr string :=
  match v with
  | TString s => validated validator s
  | _ => Err (WrongType "string")
  end.

Definition parseBoolFn (v : tval) : outcome cerr bool :=
  match v with TBool b => Ok b | _ => Err (WrongType "bool") end.

Definition parseByteFn (validator : option (Z → option cerr)) (v : tval) : outcome cerr Z :=
  match v with
  | TInt z =>
    if (z <? 0) || (255 <? z) then Err (BadByte z) else validated validator (u8 z)
  | _ => Err (WrongType "integer for byte")
  end.

(** ** Lookups that share an error variable

    The Go helpers take a pointer to the error of the enclosing function: they do
    nothing once it is set, and set it when a value does not parse. *)
Definition findFrom {T} (data : table) (key : string) (parser : tval → outcome cerr T)
    (err : option cerr) : outcome cerr (option T * option cerr) :=
  match err with
  | Some _ => Ok (None, err)
  | None =>
    match get key data with
    | None => Ok (None, None)
    | Some anyVal =>
      match parser anyVal with
      | Ok val => Ok (Some val, None)
      | Err parseErr => Ok (None, Some (Field key parseErr))
      | Panic => Panic
      | Diverge => Diverge
      end
    end
  end.

Definition isOk {T} (p : option T) (err : option cerr) : bool :=
  match err, p with None, Some _ => true | _, _ => false end.

(** The loop over the elements of a list. *)
Fixpoint parse_items {T} (key : string) (elementParser : tval → outcome cerr T)
    (i : nat) (l : list tval) : outcome cerr (list T) :=
  match l with
  | [] => Ok []
  | rawItem :: l =>
    match elementParser rawItem with
    | Ok x => xs ← parse_items key elementParser (S i) l; Ok (x :: xs)
    | Err e => Err (Item key i e)
    | Panic => Panic
    | Diverge => Diverge
    end
  end.

(** The decoder yields no typed lists, so a value that is not [[]any] is
    refused. *)
Definition findSliceFrom {T} (data : table) (key : string)
    (elementParser : tval → outcome cerr T) (err : option cerr)
    : outcome cerr (option (list T) * option cerr) :=
  match err with
  | Some _ => Ok (None, err)
  | None =>
    match get key data with
    | None => Ok (None, None)
    | Some (TList rawList) =>
      match parse_items key elementParser 0 rawList with
      | Ok result => Ok (Some result, None)
      | Err e => Ok (None, Some e)
      | Panic => Panic
      | Diverge => Diverge
      end
    | Some _ => Ok (None, Some (NotList key))
    end
  end.

(** [UnmarshalTOML] of a type [O]: the object as the method leaves it, and the
    error it returns. *)
Abbreviation unmarshaler O := (tval → O → outcome cerr (O * option cerr)) (only parsing).

(** Decoding a fresh value. *)
Definition decode_item {O} (zero : O) (unmarshal : unmarshaler O) (v : tval) : outcome cerr O :=
  match unmarshal v zero with
  | Ok (o, None) => Ok o
  | Ok (_, Some e) => Err e
  | Err e => Err e
  | Panic => Panic
  | Diverge => Diverge
  end.

Definition findStructFrom {O} (zero : O) (unmarshal : unmarshaler O) (m : table) (key : string)
    (err : option cerr) : outcome cerr (option O * option cerr) :=
  findFrom m key (decode_item zero unmarshal) err.

Definition findStructSliceFrom {O} (zero : O) (unmarshal : unmarshaler O) (m : table)
    (key : string) (err : option cerr) : outcome cerr (option (list O) * option cerr) :=
  match err with
  | Some _ => Ok (None, err)
  | None =>
    let decode rawList :=
      match parse_items key (decode_item zero unmarshal) 0 rawList with
      | Ok res => Ok (Some res, None)
      | Err e => Ok (None, Some e)
      | Panic => Panic
      | Diverge => Diverge
      end in
    match get key m with
    | None => Ok (None, None)
    | Some (TList rawList) => decode rawList
    | Some (TTables mapList) => decode (TTable <$> mapList)
    | Some _ => Ok (None, Some (NotList key))
    end
  end.

(** ** Hexadecimal byte arrays: printing and reading *)
Definition hex_part (b : Z) : string := "0x" +:+ fmt_02x b.

Definition hex_part_facts (b : Z) : bool :=
  let p := hex_part b in let q := String " "%char p in
  negb (Contains1 ","%char p) && negb (Contains1 ","%char q) &&
  is_hex_part p && is_hex_part q &&
  bool_decide (TrimSpace p = p) && bool_decide (TrimSpace q = p) &&
  bool_decide (TrimRight p = p) && (ParseUint8 p =? b).

Lemma hex_part_ok b : byte_ok b →
  Contains1 ","%char (hex_part b) = false ∧ Contains1 ","%char (String " "%char (hex_part b)) = false ∧
  is_hex_part (hex_part b) = true ∧ is_hex_part (String " "%char (hex_part b)) = true ∧
  TrimSpace (hex_part b) = hex_part b ∧ TrimSpace (String " "%char (hex_part b)) = hex_part b ∧
  TrimRight (hex_part b) = hex_part b ∧ ParseUint8 (hex_part b) = b.
Proof.
  intros Hb. assert (hex_part_facts b = true) as H.
  { unfold byte_ok in Hb. revert b Hb. apply range_check. by vm_compute. }
  unfold hex_part_facts in H. rewrite !andb_true_iff, !bool_decide_eq_true, !negb_true_iff, Z.eqb_eq in H.
  destruct_and! H. by split_and!.
Qed.

Lemma MustParseHexCSV_cons b c data :
  MustParseHexCSV (b :: c :: data) =
    hex_part b +:+ String ","%char (String " "%char (MustParseHexCSV (c :: data))).
Proof. done. Qed.

Lemma Split_HexCSV b data :
  bytes_ok (b :: data) →
  Split ","%char (MustParseHexCSV (b :: data)) =
    hex_part b :: ((λ c, String " "%char (hex_part c)) <$> data).
Proof.
  revert b. induction data as [| c data IH]; intros b Hok;
    apply Forall_cons in Hok as [Hb Hok]; destruct (hex_part_ok b Hb) as (H1 & H2 & _).
  - by apply Split_plain.
  - rewrite MustParseHexCSV_cons, Split_app by done. f_equal.
    cbn [Split]. change (ascii_eqb " "%char ","%char) with false. cbv iota.
    rewrite IH by done. done.
Qed.

Lemma TrimRight_cons c s : TrimRight s = s → s ≠ EmptyString → TrimRight (String c s) = String c s.
Proof. intros H Hne. cbn [TrimRight]. rewrite H. by destruct s. Qed.

Lemma TrimRight_app p s :
  TrimRight s = s → s ≠ EmptyString → TrimRight (p +:+ s) = p +:+ s.
Proof.
  intros H Hne. induction p as [| c p IH]; [done |].
  change (String c p +:+ s) with (String c (p +:+ s)). apply TrimRight_cons; [done |].
  by destruct p; [destruct s |].
Qed.

Lemma TrimSpace_HexCSV b data :
  bytes_ok (b :: data) → TrimSpace (MustParseHexCSV (b :: data)) = MustParseHexCSV (b :: data).
Proof.
  intros Hok. unfold TrimSpace.
  assert (TrimRight (MustParseHexCSV (b :: data)) = MustParseHexCSV (b :: data)) as ->.
  { revert b Hok. induction data as [| c data IH]; intros b Hok; apply Forall_cons in Hok as [Hb Hok].
    - by apply hex_part_ok.
    - rewrite MustParseHexCSV_cons. apply TrimRight_app; [| done].
      apply TrimRight_cons; [| done]. apply TrimRight_cons; [by apply IH |].
      by destruct data. }
  by destruct data.
Qed.

(** Byte arrays on the command line: the text printed for any byte string
    passes the check and is read back as that byte string. *)
Theorem MustParseBytes_HexCSV (data : bytes) :
  bytes_ok data → MustParseBytes (MustParseHexCSV data) = Ok data.
Proof.
  intros Hok. unfold MustParseBytes, checkHexBytesStr. destruct data as [| b data]; [done |].
  rewrite TrimSpace_HexCSV, Split_HexCSV by done.
  rewrite decide_False by (by destruct data).
  apply Forall_cons in Hok as [Hb Hok]. destruct (hex_part_ok b Hb) as (_ & _ & H3 & _ & H5 & _ & _ & H8).
  assert (forallb is_hex_part (hex_part b :: ((λ c, String " "%char (hex_part c)) <$> data)) = true
    ∧ parse_parts ((λ c, String " "%char (hex_part c)) <$> data) = data) as [-> Hp].
  { cbn [forallb]. rewrite H3. clear -Hok. induction Hok as [| c data Hc _ [IH1 IH2]]; [done |].
    destruct (hex_part_ok c Hc) as (_ & _ & _ & H4 & _ & H6 & _ & H8).
    cbn [fmap list_fmap forallb parse_parts]. rewrite H4, H6, H8.
    rewrite decide_False by done. split; [done | by f_equal]. }
  cbn [parse_parts]. rewrite H5, Hp, H8. by rewrite decide_False.
Qed.

(** ** Checks guard the panicking parsers *)
Lemma int64Range_None lo hi v : int64Range lo hi v = None ↔ lo <= v <= hi.
Proof. unfold int64Range. destruct (_ || _) eqn:E; [split; [done | lia] | split; [lia | done]]. Qed.

Lemma checkOneOf_None l v : checkOneOf l v = None ↔ v ∈ l.
Proof. unfold checkOneOf. by case_decide. Qed.

Lemma checkHostPort_MustParse `{!NetText} v :
  checkHostPort v = None →
  ∃ a, MustParseTCPAddr v = Ok a ∧ len (addr_IP a) = 16 ∧ bytes_ok (addr_IP a) ∧
    0 <= addr_Port a <= 65535.
Proof.
  unfold checkHostPort, MustParseTCPAddr. destruct (SplitHostPort v) as [[host port] |]; [| done].
  destruct (ParseIP host) as [ip |] eqn:Hip; [| done]. destruct (Atoi port) as [p |]; [| done].
  intros Hp%int64Range_None. eexists. split; [done |]. simpl.
  by destruct (ParseIP_wf host ip Hip).
Qed.

(** ** Domain patterns *)
Lemma is_segment_plain s : is_segment s = true → s ≠ EmptyString.
Proof. by destruct s. Qed.

Lemma Contains1_Split sep s : Forall (λ p, Contains1 sep p = false) (Split sep s).
Proof.
  induction s as [| c s IH]; simpl; [by repeat constructor |].
  destruct (ascii_eqb c sep) eqn:E; [by constructor |].
  destruct (Split sep s) as [| p ps]; [by repeat constructor; simpl; rewrite E |].
  apply Forall_cons in IH as [Hp IH]. constructor; [| done]. simpl. by rewrite E.
Qed.

(** A pattern that passes the check is non-empty and has no final dot: the trie
    takes it, and no other text names the same pattern. *)
Lemma checkDomainPattern_plain v :
  checkDomainPattern v = None → v ≠ EmptyString ∧ TrimSuffix1 "."%char v = v.
Proof.
  unfold checkDomainPattern. destruct (forallb _ _) eqn:E; [| done]. intros _.
  assert (Forall (λ p, Contains1 "."%char p = false ∧ p ≠ EmptyString) (Split "."%char v)) as Hf.
  { apply Forall_and. split; [apply Contains1_Split |].
    apply Forall_forall. intros p Hp. rewrite forallb_forall in E.
    by apply is_segment_plain, E, list_elem_of_In. }
  split; [by intros -> |].
  rewrite <- (Join_Split "."%char v) at 1. rewrite TrimSuffix1_Join by done. apply Join_Split.
Qed.

Lemma MustParseBytes_HexCSV_witness :
  bytes_ok [0; 255; 16] ∧ MustParseBytes (MustParseHexCSV [0; 255; 16]) = Ok [0; 255; 16].
Proof.
  assert (bytes_ok [0; 255; 16]) as H by (by repeat constructor).
  split; [done | exact (MustParseBytes_HexCSV [0; 255; 16] H)].
Defined.
