(* ===== verification/RuleJson.v ===== *)
(** * A rule as JSON: [Rule.JSON] and the [MarshalJSON] methods of
      [internal/config/types.go]

    What the trace log shows of a matched rule. The values are objects of the
    kinds the methods make; they are written as [encoding/json] writes them,
    and read back by a reference parser. *)

From S2P Require Import Prelude GoIO GoNet GoStrings NetText HostPort Tls ConfigTypes.
From Stdlib Require Import Ascii.

Local Open Scope string_scope.
Local Open Scope list_scope.
Local Open Scope Z_scope.

(** ** JSON values; the fields of an object in their order *)
Inductive json : Type :=
| JStr (s : string) | JInt (z : Z) | JBool (b : bool) | JObj (o : obj)
with obj : Type :=
| ONil
| OCons (k : string) (v : json) (o : obj).

Scheme json_mut := Induction for json Sort Prop
with obj_mut := Induction for obj Sort Prop.

Fixpoint obj_of (l : list (string * json)) : obj :=
  match l with [] => ONil | (k, v) :: l => OCons k v (obj_of l) end.

(** ** Writing *)
Definition quote : ascii := ascii_of_nat 34.
Definition backslash : ascii := ascii_of_nat 92.
Definition hex_digit (n : nat) : ascii := ascii_of_nat (if Nat.ltb n 10 then 48 + n else 87 + n)%nat.

(** One byte of a text inside quotes. *)
Definition escape1 (c : ascii) : string :=
  let n := nat_of_ascii c in
  let short x := String backslash (String (ascii_of_nat x) "") in
  if Nat.eqb n 34 || Nat.eqb n 92 then short n
  else if Nat.eqb n 8 then short 98%nat
  else if Nat.eqb n 12 then short 102%nat
  else if Nat.eqb n 10 then short 110%nat
  else if Nat.eqb n 13 then short 114%nat
  else if Nat.eqb n 9 then short 116%nat
  else if Nat.ltb n 32 || Nat.eqb n 60 || Nat.eqb n 62 || Nat.eqb n 38
  then String backslash (String (ascii_of_nat 117) (String "0" (String "0"
         (String (hex_digit (n / 16)) (String (hex_digit (n mod 16)) "")))))
  else String c "".

(** [utf8.DecodeRuneInString]: the size of the first character, if it is valid. *)
Definition between (a b : nat) (c : ascii) : bool := Nat.leb a (nat_of_ascii c) && Nat.leb (nat_of_ascii c) b.
Definition cont (c : ascii) : bool := between 128 191 c.
Definition is_byte (n : nat) (c : ascii) : bool := Nat.eqb (nat_of_ascii c) n.
Definition rune_size (s : string) : option nat :=
  match s with
  | EmptyString => None
  | String c s =>
    if between 0 127 c then Some 1%nat
    else
      match s with
      | EmptyString => None
      | String c1 s =>
        if between 194 223 c then if cont c1 then Some 2%nat else None
        else
          match s with
          | EmptyString => None
          | String c2 s =>
            if between 224 239 c then
              if between (if is_byte 224 c then 160 else 128) (if is_byte 237 c then 159 else 191) c1 && cont c2
              then Some 3%nat else None
            else
              match s with
              | EmptyString => None
              | String c3 _ =>
                if between 240 244 c && between (if is_byte 240 c then 144 else 128) (if is_byte 244 c then 143 else 191) c1
                   && cont c2 && cont c3
                then Some 4%nat else None
              end
          end
      end
  end.

(** The separators U+2028 and U+2029, by their last digit. *)
Definition line_sep (s : string) : option ascii :=
  match s with
  | String c (String c1 (String c2 _)) =>
    if is_byte 226 c && is_byte 128 c1 then
      if is_byte 168 c2 then Some "8"%char else if is_byte 169 c2 then Some "9"%char else None
    else None
  | _ => None
  end.
Definition unicode (digits : string) : string := String backslash (String (ascii_of_nat 117) digits).

(** [k] bytes of the current character are left: they are copied or dropped. *)
Fixpoint escape_at (keep : bool) (k : nat) (s : string) : string :=
  match s with
  | EmptyString => ""
  | String c s1 =>
    match k with
    | S k => if keep then String c (escape_at keep k s1) else escape_at keep k s1
    | O =>
      match rune_size s with
      | None => unicode "fffd" +:+ escape_at true 0 s1
      | Some n =>
        match line_sep s with
        | Some d => unicode ("202" +:+ String d "") +:+ escape_at false (pred n) s1
        | None => escape1 c +:+ escape_at true (pred n) s1
        end
      end
    end
  end.
Definition escape (s : string) : string := escape_at true 0 s.
Definition json_string (s : string) : string := String quote (escape s +:+ String quote "").

Fixpoint encode (j : json) : string :=
  match j with
  | JStr s => json_string s
  | JInt z => Itoa z
  | JBool b => if b then "true" else "false"
  | JObj o => "{" +:+ encode_fields o
  end
with encode_fields (o : obj) : string :=
  match o with
  | ONil => "}"
  | OCons k v ONil => json_string k +:+ ":" +:+ encode v +:+ "}"
  | OCons k v o => json_string k +:+ ":" +:+ encode v +:+ "," +:+ encode_fields o
  end.

(** ** [time.Duration.String()] *)

(** The last [prec] digits of [u] as a fraction without trailing zeros; nothing
    when they are all zero. *)
Fixpoint frac_digits (prec : nat) (u : Z) (print : bool) (acc : string) : string :=
  match prec with
  | O => if print then String "." acc else acc
  | S prec =>
    let d := u mod 10 in
    let print := print || negb (d =? 0) in
    frac_digits prec (u / 10) print (if print then String (digit d) acc else acc)
  end.
Definition fmtFrac (u : Z) (prec : nat) (unit_ : string) : string :=
  Itoa (u / 10 ^ Z.of_nat prec) +:+ frac_digits prec u false unit_.

Definition Duration_String (d : Z) : string :=
  let u := u64 (if d <? 0 then - d else d) in
  let body :=
    if u <? 1000000000 then
      if u =? 0 then "0s"
      else if u <? 1000 then fmtFrac u 0 "ns"
      else if u <? 1000000 then fmtFrac u 3 "µs"
      else fmtFrac u 6 "ms"
    else
      let secs := u / 1000000000 in
      let s := Itoa (secs mod 60) +:+ frac_digits 9 u false "s" in
      let mins := secs / 60 in
      if mins =? 0 then s
      else
        let s := Itoa (mins mod 60) +:+ "m" +:+ s in
        let hours := mins / 60 in
        if hours =? 0 then s else Itoa hours +:+ "h" +:+ s in
  if d <? 0 then "-" +:+ body else body.

Example Duration_examples :
  Duration_String 5000000000 = "5s" ∧ Duration_String 1500000 = "1.5ms" ∧
  Duration_String 90061000000000 = "25h1m1s" ∧ Duration_String 0 = "0s" ∧
  Duration_String (-65535000000) = "-1m5.535s" ∧ Duration_String 2000 = "2µs".
Proof. by vm_compute. Qed.

Section RuleJson.
Context {NT : NetText}.

(** ** The marshalling methods *)
Definition text {E} (m : outcome E string) : string := match m with Ok s => s | _ => "" end.
Definition items (n : Z) : json := JStr (Itoa n +:+ " items").
(** [omitempty] *)
Definition omit_zero (k : string) (n : Z) (v : json) : list (string * json) :=
  if n =? 0 then [] else [(k, v)].

Definition AppMode_MarshalText (t : AppModeType) : string := text (AppMode_String t).
Definition DNSMode_MarshalText (t : DNSModeType) : string := text (DNSMode_String t).
Definition DNSQuery_MarshalText (t : DNSQueryType) : string := text (DNSQuery_String t).
Definition HTTPSSplitMode_MarshalText (t : HTTPSSplitModeType) : string := text (HTTPSSplitMode_String t).
Definition SegmentFrom_MarshalText (t : SegmentFromType) : string := text (SegmentFrom_String t).

Definition Conn_MarshalJSON (o : ConnOptions) : json := JObj (obj_of
  [("default-fake-ttl", JInt (DefaultFakeTTL o)); ("dns-timeout", JStr (Duration_String (DNSTimeout o)));
   ("tcp-timeout", JStr (Duration_String (TCPTimeout o)));
   ("udp-idle-timeout", JStr (Duration_String (UDPIdleTimeout o)))]).

Definition DNS_MarshalJSON (o : DNSOptions) : json := JObj (obj_of
  [("mode", JStr (DNSMode_MarshalText (dns_Mode o))); ("addr", JStr (TCPAddr_String (dns_Addr o)));
   ("https-url", JStr (dns_HTTPSURL o)); ("qtype", JStr (DNSQuery_MarshalText (dns_QType o)));
   ("cache", JBool (dns_Cache o))]).

Definition HTTPS_MarshalJSON (o : HTTPSOptions) : json := JObj (obj_of (
  [("disorder", JBool (Disorder o)); ("fake-count", JInt (https_FakeCount o))] ++
  omit_zero "fake-packet-len" (fakePacketLen (https_FakePacket o)) (JInt (fakePacketLen (https_FakePacket o))) ++
  [("split-mode", JStr (HTTPSSplitMode_MarshalText (SplitMode o))); ("chunk-size", JInt (ChunkSize o));
   ("skip", JBool (https_Skip o))] ++
  omit_zero "custom-segments" (len (CustomSegmentPlans o)) (items (len (CustomSegmentPlans o))))).

Definition UDP_MarshalJSON (o : UDPOptions) : json := JObj (obj_of (
  [("skip", JBool (udp_Skip o)); ("fake-count", JInt (udp_FakeCount o))] ++
  omit_zero "fake-packet-len" (len (udp_FakePacket o)) (JInt (len (udp_FakePacket o))))).

Definition Match_MarshalJSON (a : MatchAttrs) : json := JObj (obj_of (
  omit_zero "domains" (len (Domains a)) (items (len (Domains a))) ++
  omit_zero "cidrs" (len (CIDRs a)) (items (len (CIDRs a))))).

Definition Config_json (c : RuntimeConfig) : json := JObj (obj_of
  [("conn", Conn_MarshalJSON (Conn c)); ("dns", DNS_MarshalJSON (DNS c));
   ("https", HTTPS_MarshalJSON (HTTPS c)); ("udp", UDP_MarshalJSON (UDP c))]).

Definition Rule_json (r : Rule) : json := JObj (obj_of (
  [("name", JStr (Name r)); ("priority", JInt (Priority r)); ("block", JBool (Block r))] ++
  match Match r with Some a => [("match", Match_MarshalJSON a)] | None => [] end ++
  [("config", Config_json (rule_Config r))])).

(** [Rule.JSON] *)
Definition JSON (r : Rule) : string := encode (Rule_json r).
End RuleJson.

(** ** Reading: a reference parser *)
Definition unshort (x : ascii) : option ascii :=
  let n := nat_of_ascii x in
  if Nat.eqb n 34 || Nat.eqb n 92 then Some x
  else if Nat.eqb n 98 then Some (ascii_of_nat 8)
  else if Nat.eqb n 102 then Some (ascii_of_nat 12)
  else if Nat.eqb n 110 then Some (ascii_of_nat 10)
  else if Nat.eqb n 114 then Some (ascii_of_nat 13)
  else if Nat.eqb n 116 then Some (ascii_of_nat 9)
  else None.
Definition hex_val (c : ascii) : nat :=
  let n := nat_of_ascii c in if Nat.leb 97 n then (n - 87)%nat else (n - 48)%nat.

(** A code point of the basic plane in UTF-8. *)
Definition utf8 (n : nat) : string :=
  if Nat.ltb n 128 then String (ascii_of_nat n) ""
  else if Nat.ltb n 2048 then
    String (ascii_of_nat (192 + n / 64)) (String (ascii_of_nat (128 + n mod 64)) "")
  else
    String (ascii_of_nat (224 + n / 4096)) (String (ascii_of_nat (128 + n / 64 mod 64))
      (String (ascii_of_nat (128 + n mod 64)) "")).

(** The text up to the closing quote, and what follows it. *)
Fixpoint read_text (s : string) : option (string * string) :=
  match s with
  | EmptyString => None
  | String c s1 =>
    if ascii_eqb c quote then Some ("", s1)
    else if ascii_eqb c backslash then
      match s1 with
      | String x s2 =>
        if ascii_eqb x (ascii_of_nat 117) then
          match s2 with
          | String a (String b (String c (String d s3))) =>
            '(t, r) ← read_text s3;
            Some (utf8 (((hex_val a * 16 + hex_val b) * 16 + hex_val c) * 16 + hex_val d)%nat +:+ t, r)
          | _ => None
          end
        else v ← unshort x; '(t, r) ← read_text s2; Some (String v t, r)
      | EmptyString => None
      end
    else '(t, r) ← read_text s1; Some (String c t, r)
  end.

Definition is_digit (c : ascii) : bool := match digit_val c with Some _ => true | None => false end.
Fixpoint read_digits (s : string) : string * string :=
  match s with
  | String c s' =>
    if is_digit c then let '(d, r) := read_digits s' in (String c d, r) else ("", s)
  | EmptyString => ("", "")
  end.
Fixpoint expect (p s : string) : option string :=
  match p, s with
  | EmptyString, _ => Some s
  | String a p, String b s => if ascii_eqb a b then expect p s else None
  | _, _ => None
  end.

Fixpoint parse (fuel : nat) (s : string) : option (json * string) :=
  match fuel, s with
  | S fuel, String c s1 =>
    if ascii_eqb c quote then '(t, r) ← read_text s1; Some (JStr t, r)
    else if ascii_eqb c "{"%char then '(o, r) ← parse_fields fuel s1; Some (JObj o, r)
    else if ascii_eqb c "t"%char then r ← expect "rue" s1; Some (JBool true, r)
    else if ascii_eqb c "f"%char then r ← expect "alse" s1; Some (JBool false, r)
    else let '(d, r) := read_digits s in z ← Atoi d; Some (JInt z, r)
  | _, _ => None
  end
with parse_fields (fuel : nat) (s : string) : option (obj * string) :=
  match fuel, s with
  | S fuel, String c s1 =>
    if ascii_eqb c "}"%char then Some (ONil, s1)
    else if ascii_eqb c quote then
      '(k, r) ← read_text s1;
      r ← expect ":" r;
      '(v, r) ← parse fuel r;
      match r with
      | String d r' =>
        if ascii_eqb d ","%char then '(o, r) ← parse_fields fuel r'; Some (OCons k v o, r)
        else if ascii_eqb d "}"%char then Some (OCons k v ONil, r') else None
      | EmptyString => None
      end
    else None
  | _, _ => None
  end.
Definition decode (s : string) : option (json * string) := parse (S (String.length s)) s.

(** ** Reading back *)
Lemma read_text_escape1 c s :
  read_text (escape1 c +:+ s) = ('(t, r) ← read_text s; Some (String c t, r)).
Proof. destruct c as [[] [] [] [] [] [] [] []]; reflexivity. Qed.

(** The next [k] bytes are there and not ASCII. *)
Fixpoint tail_ok (k : nat) (s : string) : Prop :=
  match k, s with
  | O, _ => True
  | S k, String c s => between 128 255 c = true ∧ tail_ok k s
  | S _, EmptyString => False
  end.

Lemma cont_high c : cont c = true → between 128 255 c = true.
Proof. by destruct c as [[] [] [] [] [] [] [] []]. Qed.
Lemma between_high a b c : (128 <= a)%nat → (b <= 255)%nat → between a b c = true → between 128 255 c = true.
Proof.
  unfold between. intros Ha Hb [H1%Nat.leb_le H2%Nat.leb_le]%andb_prop.
  apply andb_true_intro; split; apply Nat.leb_le; lia.
Qed.
Lemma not_low c : between 0 127 c = false → between 128 255 c = true.
Proof. by destruct c as [[] [] [] [] [] [] [] []]. Qed.

(** What is left of a character is not ASCII, nor is the start of a longer
    one. *)
Lemma rune_size_tail c s n : rune_size (String c s) = Some n →
  n = S (pred n) ∧ tail_ok (pred n) s ∧ (n ≠ 1%nat → between 128 255 c = true).
Proof.
  unfold rune_size. destruct (between 0 127 c) eqn:Hc; [by intros [= <-] |]. apply not_low in Hc.
  destruct s as [| c1 s]; [done |].
  destruct (between 194 223 c).
  { destruct (cont c1) eqn:H1; [| done]. intros [= <-]. by repeat split; [apply cont_high |]. }
  destruct s as [| c2 s]; [done |].
  destruct (between 224 239 c).
  { destruct (between _ _ c1 && cont c2) eqn:H1; [| done]. apply andb_prop in H1 as [H1 H2]. intros [= <-].
    apply between_high in H1; [| destruct (is_byte 224 c); lia | destruct (is_byte 237 c); lia].
    by repeat split; [| apply cont_high |]. }
  destruct s as [| c3 s]; [done |].
  destruct (_ && _) eqn:H1; [| done]. apply andb_prop in H1 as [[[_ H1]%andb_prop H2]%andb_prop H3]. intros [= <-].
  apply between_high in H1; [| destruct (is_byte 240 c); lia | destruct (is_byte 244 c); lia].
  by repeat split; [| apply cont_high | apply cont_high |].
Qed.

Lemma read_text_high c s : between 128 255 c = true →
  read_text (String c s) = ('(t, r) ← read_text s; Some (String c t, r)).
Proof. by destruct c as [[] [] [] [] [] [] [] []]. Qed.

(** Valid UTF-8, [k] bytes into a character. *)
Fixpoint valid_at (k : nat) (s : string) : bool :=
  match s with
  | EmptyString => Nat.eqb k 0
  | String _ s1 =>
    match k with
    | S k => valid_at k s1
    | O => match rune_size s with Some n => valid_at (pred n) s1 | None => false end
    end
  end.
Definition valid_utf8 (s : string) : bool := valid_at 0 s.

Fixpoint sdrop (k : nat) (s : string) : string :=
  match k, s with S k, String _ s => sdrop k s | _, _ => s end.

Lemma is_byte_eq n c : is_byte n c = true → c = ascii_of_nat n.
Proof. intros <-%Nat.eqb_eq. by rewrite ascii_nat_embedding. Qed.

(** A separator is read back from its escape. *)
Lemma line_sep_inv s n d : rune_size s = Some n → line_sep s = Some d →
  n = 3%nat ∧ ∃ sep c s', sep = String c (String "128" (String (ascii_of_nat (if ascii_eqb d "8" then 168 else 169)) "")) ∧
    s = sep +:+ s' ∧ sdrop 2 (sdrop 1 s) = s' ∧
    ∀ r, read_text (unicode ("202" +:+ String d "") +:+ r) = ('(t, r) ← read_text r; Some (sep +:+ t, r)).
Proof.
  destruct s as [| c [| c1 [| c2 s]]]; try done. cbn [line_sep].
  destruct (is_byte 226 c) eqn:H1; [| done]. destruct (is_byte 128 c1) eqn:H2; [| done].
  apply is_byte_eq in H1, H2. subst. cbn [andb].
  destruct (is_byte 168 c2) eqn:H3; [apply is_byte_eq in H3 as -> |
    destruct (is_byte 169 c2) eqn:H4; [apply is_byte_eq in H4 as -> | done]].
  all: intros Hn [= <-]; cbn in Hn; split; [by destruct s; injection Hn as <- |]; eexists _, _, s; split; [reflexivity |].
  all: split; [reflexivity |]; split; [reflexivity |]; intros r; reflexivity.
Qed.

Lemma read_text_escape_at s rest : ∀ keep k, tail_ok k s → valid_at k s = true →
  read_text (escape_at keep k s +:+ String quote rest) = Some (if keep then s else sdrop k s, rest).
Proof.
  induction s as [| c s IH]; intros keep k Ht Hv.
  { by destruct keep, k. }
  destruct k as [| k]; cbn [escape_at].
  - cbn [valid_at] in Hv. destruct (rune_size (String c s)) as [n |] eqn:Hn; [| done].
    destruct (rune_size_tail _ _ _ Hn) as (Hn1 & Htl & _).
    destruct (line_sep (String c s)) as [d |] eqn:Hl.
    + destruct (line_sep_inv _ _ _ Hn Hl) as (-> & sep & c' & s' & Hsep & Hs & Hd & Hr).
      rewrite <- string_app_assoc, Hr, (IH false (pred 3)) by done. cbn [mbind option_bind].
      cbn [sdrop] in Hd. rewrite Hs, <- Hd. by destruct keep.
    + rewrite <- string_app_assoc, read_text_escape1, IH by done. cbn [mbind option_bind].
      by destruct keep.
  - destruct Ht as [Hc Ht]. cbn [valid_at] in Hv. cbn [sdrop]. destruct keep; [| by apply IH].
    change (String c (escape_at true k s) +:+ String quote rest) with (String c (escape_at true k s +:+ String quote rest)).
    rewrite read_text_high by done. by rewrite (IH true k Ht Hv).
Qed.

Lemma read_text_escape s rest : valid_utf8 s = true →
  read_text (escape s +:+ String quote rest) = Some (s, rest).
Proof. by apply (read_text_escape_at s rest true 0). Qed.

Lemma digit_is_digit d : 0 <= d < 10 → is_digit (digit d) = true.
Proof. intros Hd. unfold is_digit. by rewrite digit_val_digit. Qed.

Definition no_digit (s : string) : Prop :=
  match s with String c _ => is_digit c = false | EmptyString => True end.

Lemma read_digits_stop s : no_digit s → read_digits s = ("", s).
Proof. destruct s as [| c s]; [done |]. cbn. by intros ->. Qed.

Lemma read_digits_itoa fuel z acc rest : 0 <= z → no_digit rest →
  (∀ r, read_digits (acc +:+ rest) = r → r = (acc, rest)) →
  read_digits (itoa_loop fuel z acc +:+ rest) = (itoa_loop fuel z acc, rest).
Proof.
  revert z acc. induction fuel as [| fuel IH]; intros z acc Hz Hr Hacc; [by apply Hacc |].
  cbn [itoa_loop].
  assert (read_digits (String (digit (z mod 10)) acc +:+ rest) = (String (digit (z mod 10)) acc, rest)) as Hd.
  { change (String (digit (z mod 10)) acc +:+ rest) with (String (digit (z mod 10)) (acc +:+ rest)).
    cbn [read_digits]. rewrite digit_is_digit by (apply Z.mod_pos_bound; lia).
    by rewrite (Hacc _ eq_refl). }
  destruct (z / 10 =? 0); [done |]. apply IH; [apply Z.div_pos; lia | done |]. by intros r <-.
Qed.

Lemma Itoa_head z : 0 <= z → ∃ d s, 0 <= d < 10 ∧ Itoa z = String (digit d) s.
Proof. intros Hz. unfold Itoa. replace (z <? 0) with false by lia. apply itoa_head. lia. Qed.

Lemma read_digits_Itoa z rest : 0 <= z → no_digit rest → read_digits (Itoa z +:+ rest) = (Itoa z, rest).
Proof.
  intros Hz Hr. unfold Itoa. replace (z <? 0) with false by lia. apply read_digits_itoa; try done.
  intros r <-. by rewrite read_digits_stop.
Qed.

(** The integers of a value fit 63 bits. *)
Fixpoint ints_ok (j : json) : Prop :=
  match j with JInt z => 0 <= z < 2 ^ 63 | JObj o => fields_ok o | _ => True end
with fields_ok (o : obj) : Prop :=
  match o with ONil => True | OCons _ v o => ints_ok v ∧ fields_ok o end.

(** The texts of a value are UTF-8. *)
Fixpoint texts_ok (j : json) : bool :=
  match j with JStr s => valid_utf8 s | JObj o => texts_in o | _ => true end
with texts_in (o : obj) : bool :=
  match o with ONil => true | OCons k v o => valid_utf8 k && texts_ok v && texts_in o end.

Fixpoint size (j : json) : nat :=
  match j with JObj o => S (size_fields o) | _ => 1 end
with size_fields (o : obj) : nat :=
  match o with ONil => 1 | OCons _ v o => S (size v + size_fields o) end.

Lemma string_app_cons c s t : String c s +:+ t = String c (s +:+ t).
Proof. done. Qed.

Lemma json_string_app s t : json_string s +:+ t = String quote (escape s +:+ String quote t).
Proof. unfold json_string. by rewrite string_app_cons, <- string_app_assoc. Qed.

Lemma digit_tests d : 0 <= d < 10 →
  ascii_eqb (digit d) quote = false ∧ ascii_eqb (digit d) "{"%char = false ∧
  ascii_eqb (digit d) "t"%char = false ∧ ascii_eqb (digit d) "f"%char = false.
Proof.
  intros Hd.
  assert ((negb (ascii_eqb (digit d) quote) && negb (ascii_eqb (digit d) "{"%char) &&
    negb (ascii_eqb (digit d) "t"%char) && negb (ascii_eqb (digit d) "f"%char)) = true) as H
    by (revert d Hd; by apply range_check).
  by rewrite !andb_true_iff, !negb_true_iff in H; destruct H as [[[? ?] ?] ?].
Qed.

Lemma parse_int z fuel rest : 0 <= z < 2 ^ 63 → no_digit rest →
  parse (S fuel) (Itoa z +:+ rest) = Some (JInt z, rest).
Proof.
  intros Hz Hr. pose proof (read_digits_Itoa z rest ltac:(lia) Hr) as Hrd.
  destruct (Itoa_head z) as (d & s & Hd & He); [lia |].
  destruct (digit_tests d Hd) as (H1 & H2 & H3 & H4).
  pose proof (Atoi_Itoa z ltac:(lia)) as Ha. rewrite He in *.
  rewrite string_app_cons in *. cbn [parse]. rewrite H1, H2, H3, H4, Hrd. cbn [mbind option_bind]. by rewrite Ha.
Qed.

Lemma parse_json_encode :
  ∀ j, ints_ok j → texts_ok j = true → ∀ fuel rest, (size j <= fuel)%nat → no_digit rest →
    parse fuel (encode j +:+ rest) = Some (j, rest).
Proof.
  apply (json_mut
    (λ j, ints_ok j → texts_ok j = true → ∀ fuel rest, (size j <= fuel)%nat → no_digit rest →
       parse fuel (encode j +:+ rest) = Some (j, rest))
    (λ o, fields_ok o → texts_in o = true → ∀ fuel rest, (size_fields o <= fuel)%nat →
       parse_fields fuel (encode_fields o +:+ rest) = Some (o, rest))).
  - intros s _ Hs [| fuel] rest Hf Hr; [cbn in Hf; lia |]. cbn [encode]. rewrite json_string_app. cbn [parse].
    by rewrite ascii_eqb_refl, read_text_escape.
  - intros z Hz _ [| fuel] rest Hf Hr; [cbn in Hf; lia |]. by apply parse_int.
  - intros b _ _ [| fuel] rest Hf Hr; [cbn in Hf; lia |]. by destruct b.
  - intros o IH Ho Hs [| fuel] rest Hf Hr; [cbn in Hf; lia |]. cbn [encode]. cbn in Hf.
    rewrite <- string_app_assoc. change ("{" +:+ (encode_fields o +:+ rest)) with (String "{" (encode_fields o +:+ rest)).
    cbn [parse]. change (ascii_eqb "{" quote) with false. rewrite ascii_eqb_refl.
    cbn in Ho. rewrite (IH Ho Hs) by lia. done.
  - intros _ _ [| fuel] rest Hf; [cbn in Hf; lia |]. done.
  - intros k v IHv o IHo [Hv Ho] [[Hks Hvs]%andb_prop Hos]%andb_prop [| fuel] rest Hf; [cbn in Hf; lia |]. cbn in Hf.
    assert (∀ tail, no_digit tail →
      parse_fields (S fuel) ((json_string k +:+ (":" +:+ (encode v +:+ tail)))) =
      match tail with
      | String d r' =>
        if ascii_eqb d ","%char then '(o, r) ← parse_fields fuel r'; Some (OCons k v o, r)
        else if ascii_eqb d "}"%char then Some (OCons k v ONil, r') else None
      | EmptyString => None
      end) as Hstep.
    { intros tail Ht. rewrite json_string_app. cbn [parse_fields].
      change (ascii_eqb quote "}") with false. rewrite ascii_eqb_refl, read_text_escape by done.
      cbn [mbind option_bind]. change (expect ":" (":" +:+ (encode v +:+ tail))) with (Some (encode v +:+ tail)).
      cbn [mbind option_bind]. rewrite (IHv Hv Hvs) by (done || lia). done. }
    destruct o as [| k' v' o'].
    + cbn [encode_fields]. rewrite <- !string_app_assoc. by rewrite Hstep.
    + change (encode_fields (OCons k v (OCons k' v' o')))
        with (json_string k +:+ (":" +:+ (encode v +:+ ("," +:+ encode_fields (OCons k' v' o'))))).
      rewrite <- !string_app_assoc. rewrite Hstep by done.
      change ("," +:+ (encode_fields (OCons k' v' o') +:+ rest))
        with (String "," (encode_fields (OCons k' v' o') +:+ rest)).
      cbv beta iota. rewrite ascii_eqb_refl, (IHo Ho Hos) by lia. done.
Qed.

Lemma length_app_s s t : String.length (s +:+ t) = (String.length s + String.length t)%nat.
Proof. induction s as [| c s IH]; [done |]. rewrite string_app_cons. cbn [String.length]. rewrite IH. lia. Qed.

Lemma Itoa_length z : (1 <= String.length (Itoa z))%nat.
Proof.
  unfold Itoa. destruct (z <? 0); [cbn; lia |].
  destruct (itoa_head 20 z "") as (d & s & _ & ->); [lia |]. cbn. lia.
Qed.

(** The length of a text bounds the parser's steps on it. *)
Lemma size_le : ∀ j, (size j <= String.length (encode j))%nat.
Proof.
  apply (json_mut (λ j, (size j <= String.length (encode j))%nat)
    (λ o, (size_fields o <= String.length (encode_fields o))%nat)).
  - intros s. cbn. lia.
  - intros z. apply Itoa_length.
  - intros []; cbn; lia.
  - intros o IH. cbn [size encode]. rewrite length_app_s. cbn [String.length]. lia.
  - cbn. lia.
  - intros k v IHv o IHo. cbn [size_fields].
    assert (String.length (encode_fields (OCons k v o)) =
      String.length (json_string k) + S (String.length (encode v)) +
      match o with ONil => 1 | _ => S (String.length (encode_fields o)) end)%nat as ->.
    { destruct o; cbn [encode_fields]; rewrite !length_app_s; cbn [String.length]; lia. }
    assert (1 <= String.length (json_string k))%nat by (cbn; lia).
    destruct o; cbn [size_fields] in *; lia.
Qed.

(** No byte of a text is a control character. *)
Fixpoint printable (s : string) : bool :=
  match s with String c s => Nat.leb 32 (nat_of_ascii c) && printable s | EmptyString => true end.

Lemma printable_app s t : printable (s +:+ t) = printable s && printable t.
Proof. induction s as [| c s IH]; [done |]. rewrite string_app_cons. cbn [printable]. by rewrite IH, andb_assoc. Qed.

Lemma printable_escape_at s : ∀ keep k, tail_ok k s → printable (escape_at keep k s) = true.
Proof.
  induction s as [| c s IH]; intros keep k Ht; [done |]. destruct k as [| k]; cbn [escape_at].
  - destruct (rune_size (String c s)) as [n |] eqn:Hn.
    + destruct (rune_size_tail _ _ _ Hn) as (_ & Htl & _). destruct (line_sep (String c s)) as [d |] eqn:Hl.
      * destruct (line_sep_inv _ _ _ Hn Hl) as (_ & sep & c' & s' & _).
        rewrite printable_app, (IH false _ Htl), andb_true_r.
        clear -Hl. destruct s as [| c1 [| c2 s]]; try done. cbn in Hl. repeat case_match; by simplify_eq.
      * rewrite printable_app, (IH true _ Htl), andb_true_r. by destruct c as [[] [] [] [] [] [] [] []].
    + rewrite printable_app, IH by done. done.
  - destruct Ht as [Hc Ht]. destruct keep; [| by apply IH]. cbn [printable]. rewrite IH by done.
    by destruct c as [[] [] [] [] [] [] [] []].
Qed.

Lemma printable_escape s : printable (escape s) = true.
Proof. by apply (printable_escape_at s true 0). Qed.

Lemma printable_json_string s : printable (json_string s) = true.
Proof. unfold json_string. cbn [printable]. by rewrite printable_app, printable_escape. Qed.

Lemma printable_itoa_loop fuel z acc : printable acc = true → printable (itoa_loop fuel z acc) = true.
Proof.
  revert z acc. induction fuel as [| fuel IH]; intros z acc Ha; [done |]. cbn [itoa_loop].
  assert (printable (String (digit (z mod 10)) acc) = true) as Hd.
  { cbn [printable]. rewrite Ha, andb_true_r. apply (range_check 10 (λ d, Nat.leb 32 (nat_of_ascii (digit d))));
      [done | apply Z.mod_pos_bound; lia]. }
  destruct (z / 10 =? 0); [done | by apply IH].
Qed.

Lemma printable_Itoa z : printable (Itoa z) = true.
Proof.
  unfold Itoa. destruct (z <? 0); [cbn [printable] |]; by apply printable_itoa_loop.
Qed.

Lemma printable_encode : ∀ j, printable (encode j) = true.
Proof.
  apply (json_mut (λ j, printable (encode j) = true) (λ o, printable (encode_fields o) = true)).
  - intros s. apply printable_json_string.
  - apply printable_Itoa.
  - by intros [].
  - intros o IH. cbn [encode]. by rewrite printable_app, IH.
  - done.
  - intros k v IHv o IHo. destruct o as [| k' v' o']; cbn [encode_fields] in *;
      repeat rewrite printable_app; by rewrite printable_json_string, IHv, ?IHo.
Qed.

(** ** What the log shows of a rule *)
Section Shown.
Context {NT : NetText}.

(** The integers of a rule that are written: all of them are bytes, ports,
    priorities or lengths. *)
Definition rule_ints (r : Rule) : Prop :=
  let c := rule_Config r in
  Forall (λ z, 0 <= z < 2 ^ 63)
    [Priority r; DefaultFakeTTL (Conn c); https_FakeCount (HTTPS c); fakePacketLen (https_FakePacket (HTTPS c));
     ChunkSize (HTTPS c); udp_FakeCount (UDP c); len (udp_FakePacket (UDP c))].

Lemma fields_ok_app l l' : fields_ok (obj_of (l ++ l')) ↔ fields_ok (obj_of l) ∧ fields_ok (obj_of l').
Proof. induction l as [| [k v] l IH]; cbn; [tauto |]. rewrite IH. tauto. Qed.

Lemma Rule_json_ints r : rule_ints r → ints_ok (Rule_json r).
Proof.
  unfold rule_ints. rewrite !Forall_cons. intros (H1 & H2 & H3 & H4 & H5 & H6 & H7 & _).
  assert (∀ k n v, ints_ok v → fields_ok (obj_of (omit_zero k n v))) as Ho
    by (intros k n v Hv; unfold omit_zero; by case_match).
  unfold Rule_json, Config_json, HTTPS_MarshalJSON, UDP_MarshalJSON. cbn [ints_ok]. rewrite !fields_ok_app.
  cbn [obj_of fields_ok ints_ok Conn_MarshalJSON DNS_MarshalJSON]. rewrite !fields_ok_app.
  split; [cbn; tauto |]. split.
  - destruct (Match r) as [a |]; [| done]. split; [| done]. unfold Match_MarshalJSON. cbn [ints_ok].
    rewrite fields_ok_app. by split; apply Ho.
  - repeat first [assumption | exact I | (apply Ho; first [assumption | exact I]) | split].
Qed.

End Shown.

(** A name with a quote, a line feed and a line separator; a resolver over HTTPS. *)
Definition shown_rule : Rule :=
  let c := Runtime DefaultConfig in
  mkRule ("a" +:+ String quote (String (ascii_of_nat 10) (utf8 8232))) 50 true (Some (mkMatchAttrs ["example.com"] []))
    (mkRuntimeConfig (Conn c) (mkDNSOptions DNSModeHTTPS (mkTCPAddr [] 53) "https://dns.google/dns-query" DNSQueryIPv4 true)
      (HTTPS c) (UDP c)).

