(* ===== verification/ConfigToml.v ===== *)
(** * Decoding sections: the [UnmarshalTOML] methods of
      [internal/config/types.go] and [config.go]

    Each method walks over its keys in the source's order, sharing one error
    variable: a key that is absent leaves its field alone, and the first value
    that does not parse stops the fields after it from being set. *)

From S2P Require Import Prelude GoNet GoStrings NetText Tls ConfigTypes ConfigParse.

Local Open Scope string_scope.
Local Open Scope list_scope.
Local Open Scope Z_scope.

(** [if p := findFrom(m, key, parser, &err); isOk(p, err) { set }] *)
Definition on_field {T O} (m : table) (key : string) (parser : tval → outcome cerr T)
    (set : T → O → outcome cerr O) (st : O * option cerr) : outcome cerr (O * option cerr) :=
  let '(o, err) := st in
  '(p, err) ← findFrom m key parser err;
  match p with
  | Some v => if isOk p err then o ← set v o; Ok (o, err) else Ok (o, err)
  | None => Ok (o, err)
  end.

(** [if s := findSliceFrom(m, key, parser, &err); s != nil { set }] *)
Definition on_slice {T O} (find : option cerr → outcome cerr (option (list T) * option cerr))
    (set : list T → O → O) (st : O * option cerr) : outcome cerr (O * option cerr) :=
  let '(o, err) := st in
  '(p, err) ← find err;
  match p with Some l => Ok (set l o, err) | None => Ok (o, err) end.

(** ** Field updates *)
Definition set_NoTUI b o := mkAppOptions b (LogLevel o) (Silent o) (AutoConfigureNetwork o) (Mode o) (ListenAddr o) (FreebsdFIB o).
Definition set_LogLevel l o := mkAppOptions (NoTUI o) l (Silent o) (AutoConfigureNetwork o) (Mode o) (ListenAddr o) (FreebsdFIB o).
Definition set_Silent b o := mkAppOptions (NoTUI o) (LogLevel o) b (AutoConfigureNetwork o) (Mode o) (ListenAddr o) (FreebsdFIB o).
Definition set_Auto b o := mkAppOptions (NoTUI o) (LogLevel o) (Silent o) b (Mode o) (ListenAddr o) (FreebsdFIB o).
Definition set_Mode t o := mkAppOptions (NoTUI o) (LogLevel o) (Silent o) (AutoConfigureNetwork o) t (ListenAddr o) (FreebsdFIB o).
Definition set_ListenAddr a o := mkAppOptions (NoTUI o) (LogLevel o) (Silent o) (AutoConfigureNetwork o) (Mode o) a (FreebsdFIB o).
Definition set_FIB n o := mkAppOptions (NoTUI o) (LogLevel o) (Silent o) (AutoConfigureNetwork o) (Mode o) (ListenAddr o) n.

Definition set_FakeTTL n o := mkConnOptions n (DNSTimeout o) (TCPTimeout o) (UDPIdleTimeout o).
Definition set_DNSTimeout n o := mkConnOptions (DefaultFakeTTL o) n (TCPTimeout o) (UDPIdleTimeout o).
Definition set_TCPTimeout n o := mkConnOptions (DefaultFakeTTL o) (DNSTimeout o) n (UDPIdleTimeout o).
Definition set_UDPIdle n o := mkConnOptions (DefaultFakeTTL o) (DNSTimeout o) (TCPTimeout o) n.

Definition set_dns_Mode t o := mkDNSOptions t (dns_Addr o) (dns_HTTPSURL o) (dns_QType o) (dns_Cache o).
Definition set_dns_Addr a o := mkDNSOptions (dns_Mode o) a (dns_HTTPSURL o) (dns_QType o) (dns_Cache o).
Definition set_dns_URL s o := mkDNSOptions (dns_Mode o) (dns_Addr o) s (dns_QType o) (dns_Cache o).
Definition set_dns_QType t o := mkDNSOptions (dns_Mode o) (dns_Addr o) (dns_HTTPSURL o) t (dns_Cache o).
Definition set_dns_Cache b o := mkDNSOptions (dns_Mode o) (dns_Addr o) (dns_HTTPSURL o) (dns_QType o) b.

Definition set_From t s := mkSegmentPlan t (At s) (plan_Lazy s) (Noise s).
Definition set_At n s := mkSegmentPlan (From s) n (plan_Lazy s) (Noise s).
Definition set_Lazy b s := mkSegmentPlan (From s) (At s) b (Noise s).
Definition set_Noise n s := mkSegmentPlan (From s) (At s) (plan_Lazy s) n.

Definition set_Disorder b o := mkHTTPSOptions b (https_FakeCount o) (https_FakePacket o) (SplitMode o) (ChunkSize o) (https_Skip o) (CustomSegmentPlans o).
Definition set_https_FakeCount n o := mkHTTPSOptions (Disorder o) n (https_FakePacket o) (SplitMode o) (ChunkSize o) (https_Skip o) (CustomSegmentPlans o).
Definition set_https_FakePacket p o := mkHTTPSOptions (Disorder o) (https_FakeCount o) p (SplitMode o) (ChunkSize o) (https_Skip o) (CustomSegmentPlans o).
Definition set_SplitMode t o := mkHTTPSOptions (Disorder o) (https_FakeCount o) (https_FakePacket o) t (ChunkSize o) (https_Skip o) (CustomSegmentPlans o).
Definition set_ChunkSize n o := mkHTTPSOptions (Disorder o) (https_FakeCount o) (https_FakePacket o) (SplitMode o) n (https_Skip o) (CustomSegmentPlans o).
Definition set_https_Skip b o := mkHTTPSOptions (Disorder o) (https_FakeCount o) (https_FakePacket o) (SplitMode o) (ChunkSize o) b (CustomSegmentPlans o).
Definition set_Plans l o := mkHTTPSOptions (Disorder o) (https_FakeCount o) (https_FakePacket o) (SplitMode o) (ChunkSize o) (https_Skip o) l.

Definition set_udp_Skip b o := mkUDPOptions b (udp_FakeCount o) (udp_FakePacket o).
Definition set_udp_FakeCount n o := mkUDPOptions (udp_Skip o) n (udp_FakePacket o).
Definition set_udp_FakePacket p o := mkUDPOptions (udp_Skip o) (udp_FakeCount o) p.

(** An assignment, and an assignment of a value that [MustParse] yields. *)
Definition put_ {A O} (upd : A → O → O) (a : A) (o : O) : outcome cerr O := Ok (upd a o).
Definition put_must {A O} (must : string → outcome cerr A) (upd : A → O → O) (s : string) (o : O)
    : outcome cerr O := a ← must s; Ok (upd a o).

(** [time.Duration(n) * time.Millisecond] *)
Definition millis (n : Z) : Z := n * Millisecond.

(** ** Sections *)
Section Sections.
Context `{!NetText} `{!LogLevels}.

Definition AppOptions_UnmarshalTOML (data : tval) (o : AppOptions)
    : outcome cerr (AppOptions * option cerr) :=
  match data with
  | TTable m =>
    st ← on_field m "no-tui" parseBoolFn (put_ set_NoTUI) (o, None);
    st ← on_field m "silent" parseBoolFn (put_ set_Silent) st;
    st ← on_field m "auto-configure-network" parseBoolFn (put_ set_Auto) st;
    st ← on_field m "log-level" (parseStringFn (Some checkLogLevel))
           (put_must MustParseLogLevel set_LogLevel) st;
    st ← on_field m "mode" (parseStringFn (Some checkAppMode))
           (put_must MustParseServerModeType set_Mode) st;
    st ← on_field m "listen-addr" (parseStringFn (Some checkHostPort))
           (put_must MustParseTCPAddr set_ListenAddr) st;
    on_field m "freebsd-fib" (parseIntFn i64 (Some checkFreeBSDFibID)) (put_ set_FIB) st
  | _ => Ok (o, Some (NotTable "general config"))
  end.

Definition ConnOptions_UnmarshalTOML (data : tval) (o : ConnOptions)
    : outcome cerr (ConnOptions * option cerr) :=
  match data with
  | TTable v =>
    st ← on_field v "default-fake-ttl" (parseIntFn u8 (Some checkUint8NonZero))
           (put_ set_FakeTTL) (o, None);
    st ← on_field v "dns-timeout" (parseIntFn u16 (Some checkUint16))
           (λ n, put_ set_DNSTimeout (millis n)) st;
    st ← on_field v "tcp-timeout" (parseIntFn u16 (Some checkUint16))
           (λ n, put_ set_TCPTimeout (millis n)) st;
    on_field v "udp-idle-timeout" (parseIntFn u16 (Some checkUint16))
      (λ n, put_ set_UDPIdle (millis n)) st
  | _ => Ok (o, Some (NotTable "connection config"))
  end.

Definition DNSOptions_UnmarshalTOML (data : tval) (o : DNSOptions)
    : outcome cerr (DNSOptions * option cerr) :=
  match data with
  | TTable m =>
    st ← on_field m "mode" (parseStringFn (Some checkDNSMode))
           (put_must MustParseDNSModeType set_dns_Mode) (o, None);
    st ← on_field m "addr" (parseStringFn (Some checkHostPort))
           (put_must MustParseTCPAddr set_dns_Addr) st;
    st ← on_field m "https-url" (parseStringFn (Some checkHTTPSEndpoint)) (put_ set_dns_URL) st;
    st ← on_field m "qtype" (parseStringFn (Some checkDNSQueryType))
           (put_must MustParseDNSQueryType set_dns_QType) st;
    on_field m "cache" parseBoolFn (put_ set_dns_Cache) st
  | _ => Ok (o, Some (NotTable "dns"))
  end.

Definition SegmentPlan_UnmarshalTOML (data : tval) (s : SegmentPlan)
    : outcome cerr (SegmentPlan * option cerr) :=
  match data with
  | TTable m =>
    match get "from" m with
    | None => Ok (s, Some (MissingField "from"))
    | Some _ =>
      st ← on_field m "from" (parseStringFn (Some checkSegmentFrom))
             (put_must mustParseSegmentFromType set_From) (s, None);
      match get "at" m with
      | None => Ok (fst st, Some (MissingField "at"))
      | Some _ =>
        st ← on_field m "at" (parseIntFn i64 None) (put_ set_At) st;
        st ← on_field m "lazy" parseBoolFn (put_ set_Lazy) st;
        on_field m "noise" (parseIntFn i64 None) (put_ set_Noise) st
      end
    end
  | _ => Ok (s, Some (NotTable "segment"))
  end.

Definition zero_plan : SegmentPlan := mkSegmentPlan SegmentFromHead 0 false 0.

Definition HTTPSOptions_UnmarshalTOML (data : tval) (o : HTTPSOptions)
    : outcome cerr (HTTPSOptions * option cerr) :=
  match data with
  | TTable m =>
    st ← on_field m "disorder" parseBoolFn (put_ set_Disorder) (o, None);
    st ← on_field m "fake-count" (parseIntFn u8 (Some checkUint8)) (put_ set_https_FakeCount) st;
    st ← on_slice (findSliceFrom m "fake-packet" (parseByteFn None))
           (λ p, set_https_FakePacket (Some (NewFakeTLSMessage p))) st;
    st ← on_field m "split-mode" (parseStringFn (Some checkHTTPSSplitMode))
           (put_must mustParseHTTPSSplitModeType set_SplitMode) st;
    st ← on_field m "chunk-size" (parseIntFn u8 (Some checkUint8NonZero)) (put_ set_ChunkSize) st;
    st ← on_field m "skip" parseBoolFn (put_ set_https_Skip) st;
    st ← on_slice (findStructSliceFrom zero_plan SegmentPlan_UnmarshalTOML m "custom-segments")
           set_Plans st;
    let '(o, err) := st in
    match err with
    | None =>
      if bool_decide (SplitMode o = HTTPSSplitModeCustom) && (len (CustomSegmentPlans o) =? 0)
      then Ok (o, Some NoCustomSegments) else Ok (o, None)
    | Some _ => Ok (o, err)
    end
  | _ => Ok (o, Some (NotTable "https"))
  end.

Definition UDPOptions_UnmarshalTOML (data : tval) (o : UDPOptions)
    : outcome cerr (UDPOptions * option cerr) :=
  match data with
  | TTable m =>
    st ← on_field m "skip" parseBoolFn (put_ set_udp_Skip) (o, None);
    st ← on_field m "fake-count" (parseIntFn u8 (Some checkUint8)) (put_ set_udp_FakeCount) st;
    on_slice (findSliceFrom m "fake-packet" (parseByteFn None)) set_udp_FakePacket st
  | _ => Ok (o, Some (NotTable "udp"))
  end.

Definition checkMatchAttrs (m : MatchAttrs) : option cerr :=
  if (len (Domains m) =? 0) && (len (CIDRs m) =? 0) then Some NoMatchEntry else None.

(** The first element that does not pass a check. *)
Fixpoint first_bad (check : string → option cerr) (l : list string) : option cerr :=
  match l with
  | [] => None
  | d :: l => match check d with Some e => Some e | None => first_bad check l end
  end.

Definition MatchAttrs_UnmarshalTOML (data : tval) (a : MatchAttrs)
    : outcome cerr (MatchAttrs * option cerr) :=
  match data with
  | TTable v =>
    '(domains, err) ← findSliceFrom v "domains" (parseStringFn None) None;
    let bad := match domains with Some l => first_bad checkDomainPattern l | None => None end in
    match bad with
    | Some e => Ok (a, Some e)
    | None =>
      let a := match domains with Some l => mkMatchAttrs l (CIDRs a) | None => a end in
      '(cidrs, err) ← findSliceFrom v "cidrs" (parseStringFn None) err;
      let bad := match cidrs with Some l => first_bad checkCIDR l | None => None end in
      match bad with
      | Some e => Ok (a, Some e)
      | None =>
        let a := match cidrs with Some l => mkMatchAttrs (Domains a) l | None => a end in
        match err with
        | None => Ok (a, checkMatchAttrs a)
        | Some _ => Ok (a, err)
        end
      end
    end
  | _ => Ok (a, Some (NotTable "match"))
  end.

(** [(r *Rule) UnmarshalTOML]: the standalone fields of a rule. *)
Definition set_rule_Name s r := mkRule s (Priority r) (Block r) (Match r) (rule_Config r).
Definition set_rule_Priority n r := mkRule (Name r) n (Block r) (Match r) (rule_Config r).
Definition set_rule_Block b r := mkRule (Name r) (Priority r) b (Match r) (rule_Config r).
Definition set_rule_Match a r := mkRule (Name r) (Priority r) (Block r) a (rule_Config r).
Definition set_rule_Config c r := mkRule (Name r) (Priority r) (Block r) (Match r) c.

Definition Rule_UnmarshalTOML (data : tval) (r : Rule) : outcome cerr (Rule * option cerr) :=
  match data with
  | TTable m =>
    st ← on_field m "name" (parseStringFn None) (put_ set_rule_Name) (r, None);
    st ← on_field m "priority" (parseIntFn u16 (Some checkUint16)) (put_ set_rule_Priority) st;
    '(r, err) ← on_field m "block" parseBoolFn (put_ set_rule_Block) st;
    '(a, err) ← findStructFrom (mkMatchAttrs [] []) MatchAttrs_UnmarshalTOML m "match" err;
    Ok (set_rule_Match a r, err)
  | _ => Ok (r, Some (NotTable "rule"))
  end.
End Sections.

(** ** Checked values *)
Lemma parseInt_range conv lo hi v x :
  parseIntFn conv (Some (int64Range lo hi)) v = Ok x → ∃ z, v = TInt z ∧ x = conv z ∧ lo <= z <= hi.
Proof.
  destruct v; simpl; try done. unfold validated.
  destruct (int64Range lo hi z) eqn:E; [done |]. intros [= <-].
  apply int64Range_None in E. by exists z.
Qed.

Lemma parseString_check check v s :
  parseStringFn (Some check) v = Ok s → v = TString s ∧ check s = None.
Proof. destruct v; simpl; try done. unfold validated. destruct (check s0) eqn:E; [done | by intros [= <-]]. Qed.

Lemma parseByte_range v x : parseByteFn None v = Ok x → byte_ok x.
Proof.
  destruct v; simpl; try done. destruct (_ || _) eqn:E; [done |]. intros [= <-].
  unfold u8, byte_ok. apply Z.mod_pos_bound. lia.
Qed.

(** What a [MustParse] function is given has passed its check, so it returns. *)
Ltac one_of :=
  match goal with
  | H : _ ∈ _ |- _ =>
    unfold availableAppModeValues, availableDNSModeValues, availableDNSQueryValues,
      availableHTTPSModeValues, availableSegmentFromValues in H;
    repeat (rewrite elem_of_cons in H; destruct H as [-> | H]; [eexists; by vm_compute |]);
    by apply not_elem_of_nil in H
  end.

Lemma MustParseServerModeType_ok s : checkAppMode s = None → ∃ t, MustParseServerModeType s = Ok t.
Proof. intros H%checkOneOf_None. one_of. Qed.
Lemma MustParseDNSModeType_ok s : checkDNSMode s = None → ∃ t, MustParseDNSModeType s = Ok t.
Proof. intros H%checkOneOf_None. one_of. Qed.
Lemma MustParseDNSQueryType_ok s : checkDNSQueryType s = None → ∃ t, MustParseDNSQueryType s = Ok t.
Proof. intros H%checkOneOf_None. one_of. Qed.
Lemma mustParseHTTPSSplitModeType_ok s :
  checkHTTPSSplitMode s = None → ∃ t, mustParseHTTPSSplitModeType s = Ok t.
Proof. intros H%checkOneOf_None. one_of. Qed.
Lemma mustParseSegmentFromType_ok s :
  checkSegmentFrom s = None → ∃ t, mustParseSegmentFromType s = Ok t.
Proof. intros H%checkOneOf_None. one_of. Qed.
Lemma MustParseLogLevel_ok `{!LogLevels} s : checkLogLevel s = None → ∃ l, MustParseLogLevel s = Ok l.
Proof.
  intros Hs%checkOneOf_None. apply ParseLevel_known in Hs as [l Hl].
  exists l. unfold MustParseLogLevel. by rewrite Hl.
Qed.

(** ** Well-formed sections: the ranges the checks enforce *)
Definition addr_ok (a : TCPAddr) : Prop :=
  len (addr_IP a) = 16 ∧ bytes_ok (addr_IP a) ∧ 0 <= addr_Port a <= 65535.
Definition timeout_ok (t : Z) : Prop := 0 <= t <= 65535 * Millisecond.
Definition app_wf (o : AppOptions) : Prop :=
  (ListenAddr o = mkTCPAddr [] 0 ∨ addr_ok (ListenAddr o)) ∧ 1 <= FreebsdFIB o <= 15.
Definition conn_wf (o : ConnOptions) : Prop :=
  1 <= DefaultFakeTTL o <= 255 ∧ timeout_ok (DNSTimeout o) ∧ timeout_ok (TCPTimeout o) ∧
  timeout_ok (UDPIdleTimeout o).
Definition dns_wf (o : DNSOptions) : Prop := addr_ok (dns_Addr o).
Definition https_wf (o : HTTPSOptions) : Prop :=
  0 <= https_FakeCount o <= 255 ∧ 1 <= ChunkSize o <= 255 ∧
  ∃ p, https_FakePacket o = Some (NewFakeTLSMessage p) ∧ bytes_ok p.
Definition udp_wf (o : UDPOptions) : Prop :=
  0 <= udp_FakeCount o <= 255 ∧ bytes_ok (udp_FakePacket o).

(** ** The decoding methods never panic and keep a section well formed *)
Definition safe {O} (I : O → Prop) (r : outcome cerr (O * option cerr)) : Prop :=
  ∃ o err, r = Ok (o, err) ∧ I o.

Lemma safe_bind {O} (I : O → Prop) r f :
  safe I r → (∀ st, I st.1 → safe I (f st)) → safe I (r ≫= f).
Proof. intros (o & err & -> & Ho) H. apply (H (o, err)), Ho. Qed.

Lemma on_field_safe {T O} (I : O → Prop) m key (parser : tval → outcome cerr T) set st :
  (∀ v, defined (parser v)) →
  (∀ v x o, parser v = Ok x → I o → ∃ o', set x o = Ok o' ∧ I o') →
  I st.1 → safe I (on_field m key parser set st).
Proof.
  intros Hd Hset Hst. destruct st as [o err]. unfold on_field, findFrom, safe. simpl in *.
  destruct err as [e |]; simpl; [eauto |].
  destruct (get key m) as [v |]; simpl; [| eauto].
  pose proof (Hd v). destruct (parser v) as [x | e | |] eqn:E; simpl; [| eauto | done | done].
  destruct (Hset v x o E Hst) as (o' & -> & Ho'). simpl. eauto.
Qed.

Lemma parse_items_Forall {T} (P : T → Prop) key (parser : tval → outcome cerr T) i l :
  (∀ v, defined (parser v)) → (∀ v x, parser v = Ok x → P x) →
  defined (parse_items key parser i l) ∧
  ∀ xs, parse_items key parser i l = Ok xs → Forall P xs.
Proof.
  intros Hd HP. revert i. induction l as [| v l IH]; intros i; simpl.
  { split; [done |]. intros xs [= <-]. constructor. }
  pose proof (Hd v). destruct (parser v) as [x | e | |] eqn:E; simpl; try done.
  destruct (IH (S i)) as [Hdef Hall].
  destruct (parse_items key parser (S i) l) as [xs | | |] eqn:El; simpl in *; try done.
  split; [done |]. intros ? [= <-]. constructor; [by eapply HP | by apply Hall].
Qed.

Lemma on_slice_safe {T O} (I : O → Prop) (P : T → Prop) m key parser (set : list T → O → O) st :
  (∀ v, defined (parser v)) → (∀ v x, parser v = Ok x → P x) →
  (∀ l o, Forall P l → I o → I (set l o)) →
  I st.1 → safe I (on_slice (findSliceFrom m key parser) set st).
Proof.
  intros Hd HP Hset Hst. destruct st as [o err]. unfold on_slice, findSliceFrom, safe. simpl in *.
  destruct err as [e |]; simpl; [eauto |].
  destruct (get key m) as [[] |]; simpl; eauto.
  destruct (parse_items_Forall P key parser 0 l Hd HP) as [Hdef Hall].
  destruct (parse_items key parser 0 l) as [xs | | |]; simpl in *; [| eauto | done | done].
  eexists _, _. split; [done |]. apply Hset; [by apply Hall | done].
Qed.

Lemma on_structs_safe {T O} (I : O → Prop) zero (unm : tval → T → outcome cerr (T * option cerr))
    m key (set : list T → O → O) st :
  (∀ v o, ∃ r, unm v o = Ok r) → (∀ l o, I o → I (set l o)) →
  I st.1 → safe I (on_slice (findStructSliceFrom zero unm m key) set st).
Proof.
  intros Hd Hset Hst. destruct st as [o err]. unfold on_slice, findStructSliceFrom, safe. simpl in *.
  assert (∀ v, defined (decode_item zero unm v)) as Hdec.
  { intros v. unfold decode_item. destruct (Hd v zero) as [[? []] ->]; done. }
  assert (∀ l, defined (parse_items key (decode_item zero unm) 0 l)) as Hl.
  { intros l. by apply (parse_items_Forall (λ _, True)). }
  destruct err as [e |]; simpl; [eauto |].
  destruct (get key m) as [[| | | | | l | l |] |]; simpl; eauto; [pose proof (Hl l) | pose proof (Hl (TTable <$> l))];
    destruct (parse_items _ _ _ _); simpl in *; eauto 6; done.
Qed.

Lemma parseInt_defined conv check v : defined (parseIntFn conv check v).
Proof. destruct v; simpl; try done. unfold validated. by destruct check as [c |]; [destruct (c z) |]. Qed.
Lemma parseString_defined check v : defined (parseStringFn check v).
Proof. destruct v; simpl; try done. unfold validated. by destruct check as [c |]; [destruct (c s) |]. Qed.
Lemma parseBool_defined v : defined (parseBoolFn v).
Proof. by destruct v. Qed.
Lemma parseByte_defined v : defined (parseByteFn None v).
Proof. destruct v; simpl; try done. by destruct (_ || _). Qed.
#[export] Hint Resolve parseInt_defined parseString_defined parseBool_defined parseByte_defined : spoof.
#[export] Hint Resolve MustParseServerModeType_ok MustParseDNSModeType_ok MustParseDNSQueryType_ok
  mustParseHTTPSSplitModeType_ok mustParseSegmentFromType_ok MustParseLogLevel_ok : spoof.

(** One key after the other: what is left is that a value its parser accepts is
    assigned and keeps the section well formed. *)
Ltac parsed H :=
  first
    [ apply parseInt_range in H as (? & -> & -> & ?)
    | apply parseString_check in H as [-> H]
    | idtac ].
Ltac field_goal :=
  apply on_field_safe; [auto with spoof | intros ? ? ? ?Hparse ?Hwf; parsed Hparse | assumption].
Ltac fields_safe :=
  repeat first [eapply safe_bind; [field_goal | intros ? ?] | field_goal].
Ltac keeps := eexists; split; [reflexivity |]; simpl in *.

Section Safety.
Context `{!NetText} `{!LogLevels}.

Lemma put_must_safe {A O} (I : O → Prop) must (upd : A → O → O) s o :
  (∃ a, must s = Ok a) → (∀ a, must s = Ok a → I (upd a o)) →
  ∃ o', put_must must upd s o = Ok o' ∧ I o'.
Proof. intros [a Hm] Ha. unfold put_must. rewrite Hm. simpl. eauto. Qed.

Lemma MustParseTCPAddr_ok v a :
  checkHostPort v = None → MustParseTCPAddr v = Ok a → addr_ok a.
Proof.
  intros Hc. destruct (checkHostPort_MustParse v Hc) as (b & -> & ?). by intros [= <-].
Qed.
Lemma MustParseTCPAddr_returns v : checkHostPort v = None → ∃ a, MustParseTCPAddr v = Ok a.
Proof. intros Hc. destruct (checkHostPort_MustParse v Hc) as (b & -> & _). eauto. Qed.
#[local] Hint Resolve MustParseTCPAddr_ok MustParseTCPAddr_returns : spoof.

Lemma AppOptions_safe data o : app_wf o → safe app_wf (AppOptions_UnmarshalTOML data o).
Proof.
  intros Ho. destruct data; try (by eexists _, _). unfold AppOptions_UnmarshalTOML.
  fields_safe; try (apply put_must_safe; [auto with spoof |]; intros ? ?);
    try keeps; unfold app_wf in *; simpl in *; eauto with spoof.
  - destruct Hwf as [_ ?]. split; [right; eauto with spoof | done].
  - destruct Hwf. split; [done |]. unfold i64. rewrite Z.mod_small by lia. lia.
Qed.

Lemma ConnOptions_safe data o : conn_wf o → safe conn_wf (ConnOptions_UnmarshalTOML data o).
Proof.
  intros Ho. destruct data; try (by eexists _, _). unfold ConnOptions_UnmarshalTOML.
  fields_safe; keeps; unfold conn_wf, timeout_ok, millis, Millisecond, u8, u16 in *; simpl in *;
    rewrite ?Z.mod_small by lia; lia.
Qed.

Lemma DNSOptions_safe data o : dns_wf o → safe dns_wf (DNSOptions_UnmarshalTOML data o).
Proof.
  intros Ho. destruct data; try (by eexists _, _). unfold DNSOptions_UnmarshalTOML.
  fields_safe; try (apply put_must_safe; [auto with spoof |]; intros ? ?);
    try keeps; unfold dns_wf in *; simpl in *; eauto with spoof.
Qed.

Lemma SegmentPlan_returns v s : ∃ r, SegmentPlan_UnmarshalTOML v s = Ok r.
Proof.
  assert (safe (λ _, True) (SegmentPlan_UnmarshalTOML v s)) as (o & e & -> & _); [| eauto].
  destruct v; try (by eexists _, _). unfold SegmentPlan_UnmarshalTOML.
  destruct (get "from" m); [| by eexists _, _].
  eapply safe_bind; [| intros ? ?; destruct (get "at" m) as [|]; [| by eexists _, _]]; [| fields_safe];
    try (apply on_field_safe; [auto with spoof | intros ? ? ? ?Hparse ?Hwf; parsed Hparse | done];
         apply put_must_safe; auto with spoof).
  all: by keeps.
Qed.

Lemma HTTPSOptions_safe data o : https_wf o → safe https_wf (HTTPSOptions_UnmarshalTOML data o).
Proof.
  intros Ho. destruct data; try (by eexists _, _). unfold HTTPSOptions_UnmarshalTOML.
  eapply safe_bind; [field_goal | intros ? ?]; [by keeps |].
  eapply safe_bind; [field_goal | intros ? ?].
  { keeps. unfold https_wf, u8 in *; simpl in *. rewrite Z.mod_small by lia. naive_solver. }
  eapply safe_bind.
  { apply (on_slice_safe https_wf byte_ok); [auto with spoof | apply parseByte_range | | done].
    unfold https_wf. simpl. naive_solver. }
  intros ? ?. eapply safe_bind; [field_goal | intros ? ?].
  { apply put_must_safe; [auto with spoof | done]. }
  eapply safe_bind; [field_goal | intros ? ?].
  { keeps. unfold https_wf, u8 in *; simpl in *. rewrite Z.mod_small by lia. naive_solver. }
  eapply safe_bind; [field_goal | intros ? ?]; [by keeps |].
  eapply safe_bind.
  { apply on_structs_safe; [apply SegmentPlan_returns | done | done]. }
  intros [o' [e |]] ?; [by eexists _, _ |]. destruct (_ && _); by eexists _, _.
Qed.

Lemma UDPOptions_safe data o : udp_wf o → safe udp_wf (UDPOptions_UnmarshalTOML data o).
Proof.
  intros Ho. destruct data; try (by eexists _, _). unfold UDPOptions_UnmarshalTOML.
  eapply safe_bind; [field_goal | intros ? ?]; [by keeps |].
  eapply safe_bind; [field_goal | intros ? ?].
  { keeps. unfold udp_wf, u8 in *; simpl in *. rewrite Z.mod_small by lia. naive_solver. }
  apply (on_slice_safe udp_wf byte_ok); [auto with spoof | apply parseByte_range | | done].
  unfold udp_wf. simpl. naive_solver.
Qed.

(** A decoded match names at least one pattern or network, all valid. *)
Definition match_wf (a : MatchAttrs) : Prop :=
  (Domains a ≠ [] ∨ CIDRs a ≠ []) ∧
  Forall (λ d, checkDomainPattern d = None) (Domains a) ∧
  Forall (λ c, checkCIDR c = None) (CIDRs a).

Lemma first_bad_None check l : first_bad check l = None → Forall (λ d, check d = None) l.
Proof.
  induction l as [| d l IH]; simpl; [constructor |]. destruct (check d) eqn:E; [done |].
  intros H1. constructor; auto.
Qed.

Lemma findSlice_returns {T} m key (parser : tval → outcome cerr T) err :
  (∀ v, defined (parser v)) → ∃ p err', findSliceFrom m key parser err = Ok (p, err') ∧
    (is_Some p → err' = None).
Proof.
  intros Hd. unfold findSliceFrom. destruct err; [eexists _, _; split; [done | by intros []] |].
  destruct (get key m) as [[] |]; try (eexists _, _; split; [done | by intros []]).
  destruct (parse_items_Forall (λ _, True) key parser 0 l Hd) as [Hdef _]; [done |].
  destruct (parse_items key parser 0 l); [| | done | done];
    (eexists _, _; split; [done |]); [done | by intros []].
Qed.

Lemma MatchAttrs_safe data :
  ∃ a err, MatchAttrs_UnmarshalTOML data (mkMatchAttrs [] []) = Ok (a, err) ∧
    (err = None → match_wf a).
Proof.
  destruct data; try (by eexists _, _). unfold MatchAttrs_UnmarshalTOML.
  destruct (findSlice_returns m "domains" (parseStringFn None) None) as (ds & e1 & -> & _);
    [auto with spoof |]. simpl.
  destruct (match ds with Some l => _ | None => None end) eqn:Hbd; [by eexists _, _ |].
  destruct (findSlice_returns m "cidrs" (parseStringFn None) e1) as (cs & e2 & -> & _);
    [auto with spoof |]. simpl.
  destruct (match cs with Some l => _ | None => None end) eqn:Hbc; [by eexists _, _ |].
  destruct e2; [by eexists _, _ |]. eexists _, _. split; [done |].
  unfold checkMatchAttrs. destruct (_ && _) eqn:E; [done |]. intros _. split_and!.
  - apply andb_false_iff in E as [E | E]; [left | right]; intros Hn; rewrite Hn in E; done.
  - destruct ds as [l |]; [apply first_bad_None in Hbd |]; destruct cs; simpl; try done; by constructor.
  - destruct cs as [l |]; [apply first_bad_None in Hbc |]; destruct ds; simpl; try done; by constructor.
Qed.
End Safety.

(** ** What a successful decoding yields, key by key

    [takes m key parser conv old new]: a field whose key is absent keeps its
    value; a field whose key is present has the value parsed. *)
Definition takes {T A} (m : table) (key : string) (parser : tval → outcome cerr T)
    (conv : T → A → Prop) (old new : A) : Prop :=
  match get key m with
  | None => new = old
  | Some v => ∃ x, parser v = Ok x ∧ conv x new
  end.

Definition list_of {T} (key : string) (elementParser : tval → outcome cerr T) (v : tval)
    : outcome cerr (list T) :=
  match v with TList l => parse_items key elementParser 0 l | _ => Err (NotList key) end.
Definition structs_of {T} (key : string) (elementParser : tval → outcome cerr T) (v : tval)
    : outcome cerr (list T) :=
  match v with
  | TList l => parse_items key elementParser 0 l
  | TTables l => parse_items key elementParser 0 (TTable <$> l)
  | _ => Err (NotList key)
  end.

Lemma bind_Ok_inv {E A B} (r : outcome E A) (f : A → outcome E B) y :
  r ≫= f = Ok y → ∃ x, r = Ok x ∧ f x = Ok y.
Proof. destruct r; simpl; try done. eauto. Qed.

Lemma on_field_takes {T A O} (upd : A → O → O) (fld : O → A) (conv : T → A → Prop)
    m key parser set st o' :
  (∀ o, upd (fld o) o = o) →
  (∀ x o o1, set x o = Ok o1 → ∃ a, conv x a ∧ o1 = upd a o) →
  on_field m key parser set st = Ok (o', None) →
  st.2 = None ∧ ∃ a, o' = upd a st.1 ∧ takes m key parser conv (fld st.1) a.
Proof.
  intros Hupd Hset. destruct st as [o err]. unfold on_field, findFrom, takes. simpl.
  destruct err; simpl; [done |]. destruct (get key m) as [v |]; simpl.
  - destruct (parser v) as [x | | |]; simpl; try done.
    destruct (set x o) as [o1 | | |] eqn:E; simpl; try done. intros [= <-].
    destruct (Hset _ _ _ E) as (a & Ha & ->). split; [done |]. eauto.
  - intros [= <-]. split; [done |]. eexists. by split.
Qed.

Lemma on_slice_takes {T A O} (upd : A → O → O) (fld : O → A) (conv : list T → A → Prop)
    m key parser set st o' :
  (∀ o, upd (fld o) o = o) → (∀ l o, ∃ a, conv l a ∧ set l o = upd a o) →
  on_slice (findSliceFrom m key parser) set st = Ok (o', None) →
  st.2 = None ∧ ∃ a, o' = upd a st.1 ∧ takes m key (list_of key parser) conv (fld st.1) a.
Proof.
  intros Hupd Hset. destruct st as [o err]. unfold on_slice, findSliceFrom, takes, list_of. simpl.
  destruct err; simpl; [done |]. destruct (get key m) as [[] |]; simpl; try done.
  - destruct (parse_items _ _ _ _) as [x | | |]; simpl; try done. intros [= <-].
    destruct (Hset x o) as (a & Ha & ->). split; [done |]. eauto.
  - intros [= <-]. split; [done |]. eexists. by split.
Qed.

Lemma on_structs_takes {T A O} (upd : A → O → O) (fld : O → A) (conv : list T → A → Prop)
    zero unm m key set st o' :
  (∀ o, upd (fld o) o = o) → (∀ l o, ∃ a, conv l a ∧ set l o = upd a o) →
  on_slice (findStructSliceFrom (O:=T) zero unm m key) set st = Ok (o', None) →
  st.2 = None ∧ ∃ a, o' = upd a st.1 ∧
    takes m key (structs_of key (decode_item zero unm)) conv (fld st.1) a.
Proof.
  intros Hupd Hset. destruct st as [o err]. unfold on_slice, findStructSliceFrom, takes, structs_of. simpl.
  destruct err; simpl; [done |]. destruct (get key m) as [[] |]; simpl; try done;
    try (destruct (parse_items _ _ _ _) as [x | | |]; simpl; try done; intros [= <-];
         destruct (Hset x o) as (a & Ha & ->); split; [done |]; by eauto).
  intros [= <-]. split; [done |]. eexists. by split.
Qed.

Section Decoded.
Context `{!NetText} `{!LogLevels}.

Definition conn_decoded (m : table) (o o' : ConnOptions) : Prop :=
  let duration n t := t = millis n in
  takes m "default-fake-ttl" (parseIntFn u8 (Some checkUint8NonZero)) eq
    (DefaultFakeTTL o) (DefaultFakeTTL o') ∧
  takes m "dns-timeout" (parseIntFn u16 (Some checkUint16)) duration (DNSTimeout o) (DNSTimeout o') ∧
  takes m "tcp-timeout" (parseIntFn u16 (Some checkUint16)) duration (TCPTimeout o) (TCPTimeout o') ∧
  takes m "udp-idle-timeout" (parseIntFn u16 (Some checkUint16)) duration
    (UDPIdleTimeout o) (UDPIdleTimeout o').

Definition dns_decoded (m : table) (o o' : DNSOptions) : Prop :=
  takes m "mode" (parseStringFn (Some checkDNSMode)) (λ s t, MustParseDNSModeType s = Ok t)
    (dns_Mode o) (dns_Mode o') ∧
  takes m "addr" (parseStringFn (Some checkHostPort)) (λ s a, MustParseTCPAddr s = Ok a)
    (dns_Addr o) (dns_Addr o') ∧
  takes m "https-url" (parseStringFn (Some checkHTTPSEndpoint)) eq
    (dns_HTTPSURL o) (dns_HTTPSURL o') ∧
  takes m "qtype" (parseStringFn (Some checkDNSQueryType)) (λ s t, MustParseDNSQueryType s = Ok t)
    (dns_QType o) (dns_QType o') ∧
  takes m "cache" parseBoolFn eq (dns_Cache o) (dns_Cache o').

Definition https_decoded (m : table) (o o' : HTTPSOptions) : Prop :=
  takes m "disorder" parseBoolFn eq (Disorder o) (Disorder o') ∧
  takes m "fake-count" (parseIntFn u8 (Some checkUint8)) eq
    (https_FakeCount o) (https_FakeCount o') ∧
  takes m "fake-packet" (list_of "fake-packet" (parseByteFn None))
    (λ p t, t = Some (NewFakeTLSMessage p)) (https_FakePacket o) (https_FakePacket o') ∧
  takes m "split-mode" (parseStringFn (Some checkHTTPSSplitMode))
    (λ s t, mustParseHTTPSSplitModeType s = Ok t) (SplitMode o) (SplitMode o') ∧
  takes m "chunk-size" (parseIntFn u8 (Some checkUint8NonZero)) eq (ChunkSize o) (ChunkSize o') ∧
  takes m "skip" parseBoolFn eq (https_Skip o) (https_Skip o') ∧
  takes m "custom-segments"
    (structs_of "custom-segments" (decode_item zero_plan SegmentPlan_UnmarshalTOML)) eq
    (CustomSegmentPlans o) (CustomSegmentPlans o') ∧
  (SplitMode o' = HTTPSSplitModeCustom → CustomSegmentPlans o' ≠ []).

Definition udp_decoded (m : table) (o o' : UDPOptions) : Prop :=
  takes m "skip" parseBoolFn eq (udp_Skip o) (udp_Skip o') ∧
  takes m "fake-count" (parseIntFn u8 (Some checkUint8)) eq (udp_FakeCount o) (udp_FakeCount o') ∧
  takes m "fake-packet" (list_of "fake-packet" (parseByteFn None)) eq
    (udp_FakePacket o) (udp_FakePacket o').

Lemma put_inv {A O} (upd : A → O → O) x o o1 :
  put_ upd x o = Ok o1 → ∃ a, x = a ∧ o1 = upd a o.
Proof. intros [= <-]. eauto. Qed.
Lemma put_must_inv {A O} must (upd : A → O → O) s o o1 :
  put_must must upd s o = Ok o1 → ∃ a, must s = Ok a ∧ o1 = upd a o.
Proof. unfold put_must. destruct (must s); simpl; try done. intros [= <-]. eauto. Qed.

(** Peels the last step off a successful run: the one whose error is known to
    be nil. *)
Ltac unchain E :=
  match type of E with
  | (_ ≫= _) = Ok _ => apply bind_Ok_inv in E as ([? ?] & ? & E); unchain E
  | _ => idtac
  end.
Ltac sets :=
  first
    [ by intros []
    | apply put_inv
    | apply put_must_inv
    | intros ? ? ? [= <-]; eexists; by split
    | intros ? ?; eexists; by split ].
Ltac peel_with lem :=
  match goal with
  | E : _ = Ok (_, None) |- _ =>
    apply lem in E as (?He & ?a & -> & ?Ht); [| sets | sets]; simpl in He; subst
  end.
Ltac peel upd fld conv := peel_with (on_field_takes upd fld conv).

Lemma ConnOptions_takes m o o' :
  ConnOptions_UnmarshalTOML (TTable m) o = Ok (o', None) → conn_decoded m o o'.
Proof.
  unfold ConnOptions_UnmarshalTOML. intros E. unchain E.
  peel set_UDPIdle UDPIdleTimeout (λ n t, t = millis n).
  peel set_TCPTimeout TCPTimeout (λ n t, t = millis n).
  peel set_DNSTimeout DNSTimeout (λ n t, t = millis n).
  peel set_FakeTTL DefaultFakeTTL (@eq Z). by split_and!.
Qed.

Lemma DNSOptions_takes m o o' :
  DNSOptions_UnmarshalTOML (TTable m) o = Ok (o', None) → dns_decoded m o o'.
Proof.
  unfold DNSOptions_UnmarshalTOML. intros E. unchain E.
  peel set_dns_Cache dns_Cache (@eq bool).
  peel set_dns_QType dns_QType (λ s t, MustParseDNSQueryType s = Ok t).
  peel set_dns_URL dns_HTTPSURL (@eq string).
  peel set_dns_Addr dns_Addr (λ s a, MustParseTCPAddr s = Ok a).
  peel set_dns_Mode dns_Mode (λ s t, MustParseDNSModeType s = Ok t). by split_and!.
Qed.

Lemma UDPOptions_takes m o o' :
  UDPOptions_UnmarshalTOML (TTable m) o = Ok (o', None) → udp_decoded m o o'.
Proof.
  unfold UDPOptions_UnmarshalTOML. intros E. unchain E.
  peel_with (on_slice_takes set_udp_FakePacket udp_FakePacket (@eq bytes)).
  peel set_udp_FakeCount udp_FakeCount (@eq Z).
  peel set_udp_Skip udp_Skip (@eq bool). by split_and!.
Qed.

Lemma HTTPSOptions_takes m o o' :
  HTTPSOptions_UnmarshalTOML (TTable m) o = Ok (o', None) → https_decoded m o o'.
Proof.
  unfold HTTPSOptions_UnmarshalTOML. intros E. unchain E.
  match type of E with match ?e with _ => _ end = _ => destruct e; [done |] end.
  match type of E with context [CustomSegmentPlans ?h] => rename h into r end.
  destruct (bool_decide _ && _) eqn:Ec; [done |]. injection E as ->.
  assert (SplitMode o' = HTTPSSplitModeCustom → CustomSegmentPlans o' ≠ []) as Hc.
  { intros Hm Hn. by rewrite Hm, Hn, bool_decide_true in Ec. }
  clear Ec. revert Hc.
  peel_with (on_structs_takes set_Plans CustomSegmentPlans (@eq (list SegmentPlan))).
  peel set_https_Skip https_Skip (@eq bool).
  peel set_ChunkSize ChunkSize (@eq Z).
  peel set_SplitMode SplitMode (λ s t, mustParseHTTPSSplitModeType s = Ok t).
  peel_with (on_slice_takes set_https_FakePacket https_FakePacket
    (λ p t, t = Some (NewFakeTLSMessage p))).
  peel set_https_FakeCount https_FakeCount (@eq Z).
  peel set_Disorder Disorder (@eq bool). intros Hc. by split_and!.
Qed.
End Decoded.
