(* ===== verification/ConfigLoad.v ===== *)
(** * Loading the configuration: [internal/config/load.go], [fileutil.go],
      [config.go], [validate.go] and the flags of [cli.go]

    Defaults, then the TOML file, then the flags, then the rules resolved over
    the result. The file system, the environment and the TOML decoder are
    arguments; the warnings a step adds are part of its result. *)

From S2P Require Import Prelude GoNet GoStrings NetText Tls ConfigTypes ConfigParse ConfigToml.
From Stdlib Require Import Ascii.

Local Open Scope string_scope.
Local Open Scope list_scope.
Local Open Scope Z_scope.

Definition set_App a c := mkConfig (mkStartupConfig a (Rules (Startup c))) (Runtime c).
Definition set_Rules r c := mkConfig (mkStartupConfig (App (Startup c)) r) (Runtime c).
Definition set_Runtime r c := mkConfig (Startup c) r.
Definition set_Conn x r := mkRuntimeConfig x (DNS r) (HTTPS r) (UDP r).
Definition set_DNS x r := mkRuntimeConfig (Conn r) x (HTTPS r) (UDP r).
Definition set_HTTPS x r := mkRuntimeConfig (Conn r) (DNS r) x (UDP r).
Definition set_UDP x r := mkRuntimeConfig (Conn r) (DNS r) (HTTPS r) x.
Definition on_Conn f c := set_Runtime (set_Conn (f (Conn (Runtime c))) (Runtime c)) c.
Definition on_DNS f c := set_Runtime (set_DNS (f (DNS (Runtime c))) (Runtime c)) c.
Definition on_HTTPS f c := set_Runtime (set_HTTPS (f (HTTPS (Runtime c))) (Runtime c)) c.
Definition on_UDP f c := set_Runtime (set_UDP (f (UDP (Runtime c))) (Runtime c)) c.
Definition on_App f c := set_App (f (App (Startup c))) c.

(** [if v, ok := m[key]; ok && err == nil { err = o.Section.UnmarshalTOML(v) }] *)
Definition on_section {S O} (m : table) (key : string)
    (unmarshal : tval → S → outcome cerr (S * option cerr)) (proj : O → S) (upd : S → O → O)
    (st : O * option cerr) : outcome cerr (O * option cerr) :=
  let '(o, err) := st in
  match get key m, err with
  | Some v, None => '(s, err) ← unmarshal v (proj o); Ok (upd s o, err)
  | _, _ => Ok (o, err)
  end.

Section Load.
Context `{!NetText} `{!LogLevels}.

(** ** [Config.UnmarshalTOML] and [Finalize] *)
Definition Config_UnmarshalTOML (data : tval) (c : Config)
    : outcome cerr (Config * option cerr * list string) :=
  match data with
  | TTable m =>
    st ← on_section m "app" AppOptions_UnmarshalTOML (λ c, App (Startup c)) set_App (c, None);
    st ← on_section m "connection" ConnOptions_UnmarshalTOML (λ c, Conn (Runtime c))
           (λ x, on_Conn (λ _, x)) st;
    st ← on_section m "dns" DNSOptions_UnmarshalTOML (λ c, DNS (Runtime c))
           (λ x, on_DNS (λ _, x)) st;
    st ← on_section m "https" HTTPSOptions_UnmarshalTOML (λ c, HTTPS (Runtime c))
           (λ x, on_HTTPS (λ _, x)) st;
    st ← on_section m "udp" UDPOptions_UnmarshalTOML (λ c, UDP (Runtime c))
           (λ x, on_UDP (λ _, x)) st;
    let warns :=
      match get "policy" m with
      | Some (TTable policyMap) =>
        match get "template" policyMap with
        | Some _ => ["'policy.template' is deprecated and ignored"]
        | None => []
        end
      | _ => []
      end in
    Ok (st, warns)
  | _ => Ok (c, Some (NotTable "config file"), [])
  end.

Definition Finalize (c : Config) : Config * list string :=
  let a := App (Startup c) in
  let c :=
    if bool_decide (addr_IP (ListenAddr a) = []) && (addr_Port (ListenAddr a) =? 0) then
      let port := if decide (Mode a = AppModeSOCKS5) then 1080 else 8080 in
      on_App (set_ListenAddr (mkTCPAddr (IPv4 127 0 0 1) port)) c
    else c in
  let warns :=
    match Mode a with
    | AppModeSOCKS5 => ["'socks5' mode is an experimental feature"]
    | AppModeTUN => ["'tun' mode is an experimental feature"]
    | AppModeHTTP => []
    end in
  (c, warns).

(** ** [Validate] *)
Definition checkRule (r : Rule) : option cerr :=
  match Match r with None => Some NoMatch | Some _ => None end.

Fixpoint validate_rules (i : nat) (rules : list Rule) : option cerr :=
  match rules with
  | [] => None
  | rule :: rules =>
    match checkRule rule with
    | Some e => Some (InRule i "rules" e)
    | None => validate_rules (S i) rules
    end
  end.
Definition Validate (c : Config) : option cerr := validate_rules 0 (Rules (Startup c)).

(** ** Raw rules *)
Definition rulesFromMap (m : table) : list table * list string :=
  let rules := match get "rules" m with Some (TTables r) => r | _ => [] end in
  match get "policy" m with
  | Some (TTable policy) =>
    match get "overrides" policy with
    | Some (TTables overrides) =>
      (rules ++ overrides, ["'[[policy.overrides]]' is deprecated; rename to '[[rules]]'"])
    | _ => (rules, [])
    end
  | _ => (rules, [])
  end.

(** [if v, ok := item[key]; ok { if err := section.UnmarshalTOML(v) ... }] *)
Definition overlay {S} (i : nat) (item : table) (key : string)
    (unmarshal : tval → S → outcome cerr (S * option cerr)) (s : S) : outcome cerr S :=
  match get key item with
  | None => Ok s
  | Some v =>
    match unmarshal v s with
    | Ok (s, None) => Ok s
    | Ok (_, Some e) | Err e => Err (InRule i key e)
    | Panic => Panic
    | Diverge => Diverge
    end
  end.

Definition base_for_rule (base : RuntimeConfig) : RuntimeConfig :=
  mkRuntimeConfig (Conn base) (DNS base)
    (set_https_Skip false (HTTPS base)) (set_udp_Skip false (UDP base)).

Definition resolve_rule (i : nat) (item : table) (base : RuntimeConfig) : outcome cerr Rule :=
  let cfg := base_for_rule base in
  let name := match get "name" item with Some (TString v) => v | _ => "" end in
  priority ← match get "priority" item with
             | None => Ok 0
             | Some v =>
               match parseIntFn u16 (Some checkUint16) v with
               | Err e => Err (InRule i "priority" e)
               | r => r
               end
             end;
  let block := match get "block" item with Some (TBool v) => v | _ => false end in
  m ← match get "match" item with
      | None => Ok None
      | Some _ =>
        Some <$> overlay i item "match" MatchAttrs_UnmarshalTOML (mkMatchAttrs [] [])
      end;
  dns ← overlay i item "dns" DNSOptions_UnmarshalTOML (DNS cfg);
  https ← overlay i item "https" HTTPSOptions_UnmarshalTOML (HTTPS cfg);
  udp ← overlay i item "udp" UDPOptions_UnmarshalTOML (UDP cfg);
  conn ← overlay i item "connection" ConnOptions_UnmarshalTOML (Conn cfg);
  Ok (mkRule name priority block m (mkRuntimeConfig conn dns https udp)).

Fixpoint resolve_from (i : nat) (raw : list table) (base : RuntimeConfig)
    : outcome cerr (list Rule) :=
  match raw with
  | [] => Ok []
  | item :: raw =>
    r ← resolve_rule i item base;
    rules ← resolve_from (S i) raw base;
    Ok (r :: rules)
  end.
Definition resolveRules (raw : list table) (base : RuntimeConfig) : outcome cerr (list Rule) :=
  resolve_from 0 raw base.

(** ** Files *)
(** Opening a list file: it is missing, it cannot be opened, or its lines are
    read up to the end or to an error. *)
Inductive file_result : Type :=
| FileMissing
| FileFails
| FileLines (lines : list string) (err : bool).

Record fs_env : Type := mkFsEnv {
  Stat : string → bool;                          (* os.Stat succeeds *)
  DecodeFile : string → outcome cerr table;      (* toml.DecodeFile *)
  Open : string → file_result;
  ExpandEnv : string → string;                   (* os.ExpandEnv *)
  UserHomeDir : option string;
  Join : string → string → string;               (* filepath.Join *)
  IsAbs : string → bool;
  Dir : string → string;
  configDirs : list string;                      (* the default locations *)
}.

Definition filePrefix : string := "file:".

Definition expandPath (e : fs_env) (p configDir : string) : string :=
  let p := ExpandEnv e p in
  if HasPrefix p "~/" then
    match UserHomeDir e with
    | Some home => Join e home (drop_prefix p "~/")
    | None => p
    end
  else if negb (bool_decide (configDir = "")) && negb (IsAbs e p) then Join e configDir p
  else p.

Definition keep_line (line : string) : option string :=
  let line := TrimSpace line in
  if bool_decide (line = "") || HasPrefix line "#" then None else Some line.

Inductive lines_result : Type :=
| LinesMissing
| LinesFail
| Lines (l : list string).

Definition readLines (e : fs_env) (path : string) : lines_result :=
  match Open e path with
  | FileMissing => LinesMissing
  | FileFails => LinesFail
  | FileLines l err => if err then LinesFail else Lines (omap keep_line l)
  end.

Fixpoint resolveEntries (e : fs_env) (entries : list string) (configDir : string)
    : outcome cerr (list string * list string) :=
  match entries with
  | [] => Ok ([], [])
  | x :: entries =>
    if negb (HasPrefix x filePrefix) then
      '(result, warns) ← resolveEntries e entries configDir; Ok (x :: result, warns)
    else
      let path := expandPath e (drop_prefix x filePrefix) configDir in
      match readLines e path with
      | LinesMissing =>
        '(result, warns) ← resolveEntries e entries configDir;
        Ok (result, ("file not found, skipping: " +:+ path) :: warns)
      | LinesFail => Err (FileError path)
      | Lines l =>
        '(result, warns) ← resolveEntries e entries configDir; Ok (l ++ result, warns)
      end
  end.

Definition strings_of (arr : list tval) : list string :=
  omap (λ v, match v with TString s => Some s | _ => None end) arr.

(** One key of the match table, rewritten in place. *)
Definition expand_key (e : fs_env) (ruleIdx : nat) (configDir key : string) (m : table)
    : outcome cerr (table * list string) :=
  match get key m with
  | Some (TList arr) =>
    match resolveEntries e (strings_of arr) configDir with
    | Ok (expanded, warns) => Ok (put key (TList (TString <$> expanded)) m, warns)
    | Err err => Err (InRule ruleIdx key err)
    | Panic => Panic
    | Diverge => Diverge
    end
  | _ => Ok (m, [])
  end.

Definition expandFileMatchList (e : fs_env) (v : tval) (ruleIdx : nat) (configDir : string)
    : outcome cerr (tval * list string) :=
  match v with
  | TTable m =>
    '(m, w1) ← expand_key e ruleIdx configDir "domains" m;
    '(m, w2) ← expand_key e ruleIdx configDir "cidrs" m;
    Ok (TTable m, w1 ++ w2)
  | _ => Ok (v, [])
  end.

Fixpoint expand_rules (e : fs_env) (i : nat) (raw : list table) (configDir : string)
    : outcome cerr (list table * list string) :=
  match raw with
  | [] => Ok ([], [])
  | rule :: raw =>
    '(rule, w) ← match get "match" rule with
                 | Some v =>
                   '(v, w) ← expandFileMatchList e v i configDir; Ok (put "match" v rule, w)
                 | None => Ok (rule, [])
                 end;
    '(raw, ws) ← expand_rules e (S i) raw configDir;
    Ok (rule :: raw, w ++ ws)
  end.

(** ** [searchTomlFile], [fromTomlFile] and [loadTOML] *)
Fixpoint first_existing (e : fs_env) (dirs : list string) : string :=
  match dirs with
  | [] => ""
  | p :: dirs =>
    if negb (bool_decide (p = "")) && Stat e p then p else first_existing e dirs
  end.

Definition searchTomlFile (e : fs_env) (customDir : string) : outcome cerr string :=
  if negb (bool_decide (customDir = "")) then
    if Stat e customDir then Ok customDir else Err (NoSuchFile customDir)
  else Ok (first_existing e (configDirs e)).

Definition fromTomlFile (e : fs_env) (dir : string) (c : Config)
    : outcome cerr (Config * table * list string) :=
  m ← DecodeFile e dir;
  '(c, err, warns) ← Config_UnmarshalTOML (TTable m) c;
  match err with Some er => Err er | None => Ok (c, m, warns) end.

Definition loadTOML (e : fs_env) (clean : bool) (config : string) (c : Config)
    : outcome cerr (Config * string * list table * list string) :=
  if clean then Ok (c, "", [], [])
  else
    configPath ← searchTomlFile e config;
    if decide (configPath = "") then Ok (c, "", [], [])
    else
      match fromTomlFile e configPath c with
      | Ok (c, m, warns) =>
        let '(rules, w) := rulesFromMap m in Ok (c, configPath, rules, warns ++ w)
      | Err er => Err (InFile configPath er)
      | Panic => Panic
      | Diverge => Diverge
      end.

(** ** [Load] *)
Definition Load (e : fs_env) (clean : bool) (config : string)
    (cliOverrides : list (Config → Config)) : outcome cerr (Config * string * list string) :=
  '(c, configPath, rawRules, w1) ← loadTOML e clean config DefaultConfig;
  let c := foldl (λ c apply, apply c) c cliOverrides in
  let '(c, w2) := Finalize c in
  '(rawRules, w3) ← expand_rules e 0 rawRules (Dir e configPath);
  rules ← resolveRules rawRules (Runtime c);
  let c := set_Rules rules c in
  match Validate c with
  | Some er => Err er
  | None => Ok (c, configPath, w1 ++ w2 ++ w3)
  end.

(** ** Flags: the validator and the action of each flag of [CreateCommand] *)
Inductive flag : Type :=
| FAppMode (v : string)
| FDefaultFakeTTL (v : Z)
| FDNSAddr (v : string)
| FDNSCache (v : bool)
| FDNSMode (v : string)
| FDNSHTTPSURL (v : string)
| FDNSQType (v : string)
| FDNSTimeout (v : Z)
| FHTTPSFakeCount (v : Z)
| FHTTPSFakePacket (v : string)
| FHTTPSDisorder (v : bool)
| FHTTPSSplitMode (v : string)
| FHTTPSSkip (v : bool)
| FHTTPSChunkSize (v : Z)
| FUDPFakeCount (v : Z)
| FUDPFakePacket (v : string)
| FUDPSkip (v : bool)
| FUDPIdleTimeout (v : Z)
| FListenAddr (v : string)
| FLogLevel (v : string)
| FNoTUI (v : bool)
| FAutoConfigure (v : bool)
| FTCPTimeout (v : Z)
| FFreebsdFIB (v : Z).

Definition Validator (f : flag) : option cerr :=
  match f with
  | FAppMode v => checkAppMode v
  | FDefaultFakeTTL v => checkUint8NonZero v
  | FDNSAddr v | FListenAddr v => checkHostPort v
  | FDNSMode v => checkDNSMode v
  | FDNSHTTPSURL v => checkHTTPSEndpoint v
  | FDNSQType v => checkDNSQueryType v
  | FDNSTimeout v | FUDPIdleTimeout v | FTCPTimeout v => checkUint16 v
  | FHTTPSFakeCount v => checkUint8 v
  | FUDPFakeCount v => int64Range 0 255 v
  | FHTTPSFakePacket v | FUDPFakePacket v => checkHexBytesStr v
  | FHTTPSSplitMode v => checkHTTPSSplitMode v
  | FHTTPSChunkSize v => checkUint8NonZero v
  | FLogLevel v => checkLogLevel v
  | FFreebsdFIB v => checkFreeBSDFibID v
  | FDNSCache _ | FHTTPSDisorder _ | FHTTPSSkip _ | FUDPSkip _ | FNoTUI _ | FAutoConfigure _ => None
  end.

(** [time.Duration(v * int64(time.Millisecond))] *)
Definition millis64 (v : Z) : Z := i64 (v * Millisecond).

Definition Action (f : flag) : outcome cerr (option (Config → Config)) :=
  let app g := Some (on_App g) in
  match f with
  | FAppMode v => t ← MustParseServerModeType v; Ok (app (set_Mode t))
  | FDefaultFakeTTL v => Ok (Some (on_Conn (set_FakeTTL (u8 v))))
  | FDNSAddr v => a ← MustParseTCPAddr v; Ok (Some (on_DNS (set_dns_Addr a)))
  | FDNSCache v => Ok (Some (on_DNS (set_dns_Cache v)))
  | FDNSMode v => t ← MustParseDNSModeType v; Ok (Some (on_DNS (set_dns_Mode t)))
  | FDNSHTTPSURL v => Ok (Some (on_DNS (set_dns_URL v)))
  | FDNSQType v => t ← MustParseDNSQueryType v; Ok (Some (on_DNS (set_dns_QType t)))
  | FDNSTimeout v => Ok (Some (on_Conn (set_DNSTimeout (millis64 v))))
  | FHTTPSFakeCount v => Ok (Some (on_HTTPS (set_https_FakeCount (u8 v))))
  | FHTTPSFakePacket v =>
    p ← MustParseBytes v; Ok (Some (on_HTTPS (set_https_FakePacket (Some (NewFakeTLSMessage p)))))
  | FHTTPSDisorder v => Ok (Some (on_HTTPS (set_Disorder v)))
  | FHTTPSSplitMode v => t ← mustParseHTTPSSplitModeType v; Ok (Some (on_HTTPS (set_SplitMode t)))
  | FHTTPSSkip v => Ok (Some (on_HTTPS (set_https_Skip v)))
  | FHTTPSChunkSize v => Ok (Some (on_HTTPS (set_ChunkSize (u8 v))))
  | FUDPFakeCount v => Ok (Some (on_UDP (set_udp_FakeCount (u8 v))))
  | FUDPFakePacket v => p ← MustParseBytes v; Ok (Some (on_UDP (set_udp_FakePacket p)))
  | FUDPSkip v => Ok (Some (on_UDP (set_udp_Skip v)))
  | FUDPIdleTimeout v => Ok (Some (on_Conn (set_UDPIdle (millis64 v))))
  | FListenAddr v =>
    if decide (v = "") then Ok None
    else a ← MustParseTCPAddr v; Ok (app (set_ListenAddr a))
  | FLogLevel v => l ← MustParseLogLevel v; Ok (app (set_LogLevel l))
  | FNoTUI v => Ok (app (set_NoTUI v))
  | FAutoConfigure v => Ok (app (set_Auto v))
  | FTCPTimeout v => Ok (Some (on_Conn (set_TCPTimeout (millis64 v))))
  | FFreebsdFIB v => Ok (app (set_FIB v))
  end.

(** The flags the user set, each validated and then run: the closures they
    append to [cliOverrides]. *)
Fixpoint run_flags (flags : list flag) : outcome cerr (list (Config → Config)) :=
  match flags with
  | [] => Ok []
  | f :: flags =>
    match Validator f with
    | Some e => Err e
    | None =>
      a ← Action f;
      rest ← run_flags flags;
      Ok (match a with Some g => g :: rest | None => rest end)
    end
  end.
End Load.

(** ** Rules inherit *)
Section Inherit.
Context `{!NetText} `{!LogLevels}.

(** A section of a rule: the base's, overridden by the keys the rule gives. *)
Definition inherited {S} (item : table) (key : string) (decoded : table → S → S → Prop)
    (base own : S) : Prop :=
  match get key item with
  | None => own = base
  | Some v => ∃ m, v = TTable m ∧ decoded m base own
  end.

Definition rule_resolved (base : RuntimeConfig) (item : table) (r : Rule) : Prop :=
  takes item "priority" (parseIntFn u16 (Some checkUint16)) eq 0 (Priority r) ∧
  (Block r = true ↔ get "block" item = Some (TBool true)) ∧
  inherited item "dns" dns_decoded (DNS base) (DNS (rule_Config r)) ∧
  inherited item "https" https_decoded (set_https_Skip false (HTTPS base)) (HTTPS (rule_Config r)) ∧
  inherited item "udp" udp_decoded (set_udp_Skip false (UDP base)) (UDP (rule_Config r)) ∧
  inherited item "connection" conn_decoded (Conn base) (Conn (rule_Config r)).

Lemma overlay_inherited {S} i item key unm decoded (s s' : S) :
  (∀ data o o', unm data o = Ok (o', None) → ∃ m, data = TTable m ∧ decoded m o o') →
  overlay i item key unm s = Ok s' → inherited item key decoded s s'.
Proof.
  intros Hunm. unfold overlay, inherited. destruct (get key item) as [v |]; [| by intros [= <-]].
  destruct (unm v s) as [[o [e |]] | | |] eqn:E; try done. intros [= <-]. by apply Hunm.
Qed.

Lemma dns_table data o o' :
  DNSOptions_UnmarshalTOML data o = Ok (o', None) → ∃ m, data = TTable m ∧ dns_decoded m o o'.
Proof. destruct data; try done. intros Hd. eexists. split; [done | by apply DNSOptions_takes]. Qed.
Lemma https_table data o o' :
  HTTPSOptions_UnmarshalTOML data o = Ok (o', None) → ∃ m, data = TTable m ∧ https_decoded m o o'.
Proof. destruct data; try done. intros Hd. eexists. split; [done | by apply HTTPSOptions_takes]. Qed.
Lemma udp_table data o o' :
  UDPOptions_UnmarshalTOML data o = Ok (o', None) → ∃ m, data = TTable m ∧ udp_decoded m o o'.
Proof. destruct data; try done. intros Hd. eexists. split; [done | by apply UDPOptions_takes]. Qed.
Lemma conn_table data o o' :
  ConnOptions_UnmarshalTOML data o = Ok (o', None) → ∃ m, data = TTable m ∧ conn_decoded m o o'.
Proof. destruct data; try done. intros Hd. eexists. split; [done | by apply ConnOptions_takes]. Qed.

Lemma resolve_rule_resolved i item base r :
  resolve_rule i item base = Ok r → rule_resolved base item r.
Proof.
  unfold resolve_rule. intros (p & Hp & E)%bind_Ok_inv. apply bind_Ok_inv in E as (a & _ & E).
  apply bind_Ok_inv in E as (dns & Hd & E). apply bind_Ok_inv in E as (https & Hh & E).
  apply bind_Ok_inv in E as (udp & Hu & E). apply bind_Ok_inv in E as (conn & Hc & E).
  injection E as <-. unfold rule_resolved. cbn [Priority Block rule_Config DNS HTTPS UDP Conn].
  split_and!.
  - unfold takes. destruct (get "priority" item) as [v |]; [| by injection Hp as <-].
    exists p. split; [| done]. by destruct (parseIntFn _ _ v).
  - destruct (get "block" item) as [[[] | | | | | | |] |]; done.
  - eapply overlay_inherited; [apply dns_table | exact Hd].
  - eapply overlay_inherited; [apply https_table | exact Hh].
  - eapply overlay_inherited; [apply udp_table | exact Hu].
  - eapply overlay_inherited; [apply conn_table | exact Hc].
Qed.

(** C33. Rules inherit from the finalized base configuration: when the rule
    tables are accepted, there is one rule per table, in order, and in each
    of its sections every key the table leaves out has the base's value and
    every key it gives has the parsed one; only the two [skip] flags start
    from false instead of the base's. *)
Theorem resolveRules_inherit (raw : list table) (base : RuntimeConfig) (rules : list Rule) :
  resolveRules raw base = Ok rules → Forall2 (rule_resolved base) raw rules.
Proof.
  unfold resolveRules. generalize 0%nat. revert rules.
  induction raw as [| item raw IH]; intros rules i; simpl.
  - intros [= <-]. constructor.
  - intros (r & Hr & E)%bind_Ok_inv. apply bind_Ok_inv in E as (rs & Hrs & [= <-]).
    constructor; [by eapply resolve_rule_resolved | by eapply IH].
Qed.
End Inherit.

(** ** The loaded configuration is well formed *)
Definition runtime_wf (r : RuntimeConfig) : Prop :=
  conn_wf (Conn r) ∧ dns_wf (DNS r) ∧ https_wf (HTTPS r) ∧ udp_wf (UDP r).

Section Safe.
Context `{!NetText} `{!LogLevels}.

Definition rule_wf (r : Rule) : Prop :=
  0 <= Priority r <= 65535 ∧ (∃ a, Match r = Some a ∧ match_wf a) ∧ runtime_wf (rule_Config r).

Definition config_wf (c : Config) : Prop :=
  addr_ok (ListenAddr (App (Startup c))) ∧ 1 <= FreebsdFIB (App (Startup c)) <= 15 ∧
  runtime_wf (Runtime c) ∧ Forall rule_wf (Rules (Startup c)).

(** Before [Finalize] the listen address may still be unset. *)
Definition base_wf (c : Config) : Prop := app_wf (App (Startup c)) ∧ runtime_wf (Runtime c).

Lemma DefaultConfig_wf : base_wf DefaultConfig.
Proof.
  unfold base_wf, app_wf, runtime_wf, conn_wf, timeout_ok, dns_wf, addr_ok, https_wf, udp_wf.
  cbn [DefaultConfig Startup Runtime App Conn DNS HTTPS UDP ListenAddr FreebsdFIB DefaultFakeTTL
    DNSTimeout TCPTimeout UDPIdleTimeout dns_Addr addr_IP addr_Port https_FakeCount ChunkSize
    https_FakePacket udp_FakeCount udp_FakePacket].
  unfold Millisecond. split_and!; try lia; try done; try (by left).
  - by repeat constructor.
  - exists FakeClientHello. split; [done |]. by vm_compute; repeat constructor.
  - by repeat constructor.
Qed.

(** *** The TOML file *)
Lemma on_section_safe {S} m key (unm : tval → S → outcome cerr (S * option cerr)) proj upd
    (J : S → Prop) st :
  (∀ data s, J s → safe J (unm data s)) →
  (∀ c, base_wf c → J (proj c)) → (∀ s c, J s → base_wf c → base_wf (upd s c)) →
  base_wf st.1 → safe base_wf (on_section m key unm proj upd st).
Proof.
  intros Hu Hp Hs Hst. destruct st as [c err]. unfold on_section. simpl in *.
  destruct (get key m) as [v |], err as [e |]; try (by eexists _, _).
  destruct (Hu v (proj c) (Hp c Hst)) as (s & err & -> & HJ). simpl.
  eexists _, _. split; [done | by apply Hs].
Qed.

Lemma Config_UnmarshalTOML_safe m c :
  base_wf c → ∃ c' err w, Config_UnmarshalTOML (TTable m) c = Ok (c', err, w) ∧ base_wf c'.
Proof.
  intros Hc. unfold Config_UnmarshalTOML.
  assert (∀ r (w : list string), safe base_wf r →
    ∃ c' err w', (st ← r; Ok (st, w)) = Ok (c', err, w') ∧ base_wf c') as Hw.
  { intros r w (c' & err & -> & Hc'). simpl. by eexists _, _, _. }
  assert (∀ r (f : _ → outcome cerr (Config * option cerr * list string)), safe base_wf r →
    (∀ st, base_wf st.1 → ∃ c' err w', f st = Ok (c', err, w') ∧ base_wf c') →
    ∃ c' err w', (r ≫= f) = Ok (c', err, w') ∧ base_wf c') as Hb.
  { intros r f (c' & err & -> & Hc') Hf. apply (Hf (c', err)), Hc'. }
  apply Hb; [apply (on_section_safe _ _ _ _ _ app_wf); [apply AppOptions_safe | by intros ? [] | | done] |].
  { intros s c0 Hs [_ ?]. by split. }
  intros st1 H1.
  apply Hb; [apply (on_section_safe _ _ _ _ _ conn_wf); [apply ConnOptions_safe | by intros ? (? & ? & ?) | | done] |].
  { intros s c0 Hs (? & ? & ? & ? & ?). by split_and!. }
  intros st2 H2.
  apply Hb; [apply (on_section_safe _ _ _ _ _ dns_wf); [apply DNSOptions_safe | by intros ? (? & ? & ? & ?) | | done] |].
  { intros s c0 Hs (? & ? & ? & ? & ?). by split_and!. }
  intros st3 H3.
  apply Hb; [apply (on_section_safe _ _ _ _ _ https_wf); [apply HTTPSOptions_safe | by intros ? (? & ? & ? & ? & ?) | | done] |].
  { intros s c0 Hs (? & ? & ? & ? & ?). by split_and!. }
  intros st4 H4. apply Hw, (on_section_safe _ _ _ _ _ udp_wf); [apply UDPOptions_safe | by intros ? (? & ? & ? & ? & ?) | | done].
  intros s c0 Hs (? & ? & ? & ? & ?). by split_and!.
Qed.

Definition decoder_ok (e : fs_env) : Prop := ∀ path, defined (DecodeFile e path).

Lemma loadTOML_safe e clean config c :
  decoder_ok e → base_wf c →
  defined (loadTOML e clean config c) ∧
  ∀ c' p raw w, loadTOML e clean config c = Ok (c', p, raw, w) → base_wf c'.
Proof.
  intros He Hc. unfold loadTOML. destruct clean; [by split; [| by intros ? ? ? ? [= <-]] |].
  unfold searchTomlFile.
  assert (∀ path, defined (if decide (path = "") then Ok (c, "", [], []) else
      match fromTomlFile e path c with
      | Ok (c, m, warns) => let '(rules, w) := rulesFromMap m in Ok (c, path, rules, warns ++ w)
      | Err er => Err (InFile path er) | Panic => Panic | Diverge => Diverge end) ∧
    ∀ c' p raw w, (if decide (path = "") then Ok (c, "", [], []) else
      match fromTomlFile e path c with
      | Ok (c, m, warns) => let '(rules, w) := rulesFromMap m in Ok (c, path, rules, warns ++ w)
      | Err er => Err (InFile path er) | Panic => Panic | Diverge => Diverge end)
      = Ok (c', p, raw, w) → base_wf c') as Hpath.
  { intros path. case_decide; [by split; [| by intros ? ? ? ? [= <-]] |].
    unfold fromTomlFile. pose proof (He path) as Hdef. destruct (DecodeFile e path) as [m | | |]; try done.
    cbn [mbind outcome_bind].
    destruct (Config_UnmarshalTOML_safe m c Hc) as (c1 & err & w1 & -> & Hc1).
    cbn [mbind outcome_bind].
    destruct err; [done |]. destruct (rulesFromMap m) as [rs w2].
    split; [done |]. by intros ? ? ? ? [= <-]. }
  destruct (negb _); [destruct (Stat e config); [| done] |]; apply Hpath.
Qed.

(** *** Flags *)
Definition keeps_base (g : Config → Config) : Prop := ∀ c, base_wf c → base_wf (g c).

Lemma MustParseBytes_ok s p : MustParseBytes s = Ok p → bytes_ok p.
Proof.
  unfold MustParseBytes. destruct (checkHexBytesStr s); [done |]. intros [= <-].
  induction (Split ","%char s) as [| x l IH]; simpl; [by constructor |].
  case_decide; [done |]. constructor; [| done]. unfold byte_ok, ParseUint8.
  repeat case_match; subst; try lia.
  match goal with Hp : parse_hex _ _ = Some ?z |- _ =>
    assert (∀ s a z, 0 <= a → parse_hex s a = Some z → 0 <= z) as Hnn;
    [| pose proof (Hnn _ 0 _ ltac:(lia) Hp); lia] end.
  clear. intros s. induction s as [| c s IH]; intros a z Ha; simpl; [by intros [= <-] |].
  destruct (hex_val c) as [d |] eqn:Ed; [| done]. simpl. apply IH.
  unfold hex_val in Ed. repeat case_match; simplify_eq; case_bool; lia.
Qed.

Lemma MustParseBytes_returns s :
  checkHexBytesStr s = None → ∃ p, MustParseBytes s = Ok p ∧ bytes_ok p.
Proof.
  intros Hc. assert (∃ p, MustParseBytes s = Ok p) as [p Hp]
    by (unfold MustParseBytes; rewrite Hc; eauto).
  exists p. split; [done | by eapply MustParseBytes_ok].
Qed.

Lemma Action_ok f :
  Validator f = None → ∃ g, Action f = Ok g ∧ ∀ h, g = Some h → keeps_base h.
Proof.
  unfold keeps_base, base_wf, runtime_wf. intros Hv.
  destruct f; simpl in Hv |- *;
    try (eexists; split; [done |]; intros ? [= <-] c (? & ? & ? & ? & ?);
         unfold app_wf, conn_wf, timeout_ok, https_wf, udp_wf, millis64, Millisecond in *; simpl in *;
         try apply int64Range_None in Hv; unfold u8, i64; rewrite ?Z.mod_small by lia;
         naive_solver lia).
  - destruct (MustParseServerModeType_ok v Hv) as [t ->]. simpl.
    eexists. split; [done |]. by intros ? [= <-] c.
  - destruct (MustParseTCPAddr_returns v Hv) as [a Ha]. rewrite Ha. simpl.
    eexists. split; [done |]. intros ? [= <-] c (? & ? & ? & ? & ?). split_and!; try done.
    simpl. by eapply MustParseTCPAddr_ok.
  - destruct (MustParseDNSModeType_ok v Hv) as [t ->]. simpl.
    eexists. split; [done |]. by intros ? [= <-] c.
  - destruct (MustParseDNSQueryType_ok v Hv) as [t ->]. simpl.
    eexists. split; [done |]. by intros ? [= <-] c.
  - destruct (MustParseBytes_returns v Hv) as (p & -> & Hp). simpl.
    eexists. split; [done |]. intros ? [= <-] c (? & ? & ? & (? & ? & _) & ?).
    simpl. split; [done |]. split; [done |]. split; [done |]. split; [| done].
    split; [done |]. split; [done |]. by exists p.
  - destruct (mustParseHTTPSSplitModeType_ok v Hv) as [t ->]. simpl.
    eexists. split; [done |]. by intros ? [= <-] c.
  - destruct (MustParseBytes_returns v Hv) as (p & -> & Hp). simpl.
    eexists. split; [done |]. intros ? [= <-] c (? & ? & ? & ? & (? & _)). by split_and!.
  - case_decide; [by eexists |]. destruct (MustParseTCPAddr_returns v Hv) as [a Ha]. rewrite Ha. simpl.
    eexists. split; [done |]. intros ? [= <-] c ([_ ?] & ?). split; [| done]. split; [| done].
    right. by eapply MustParseTCPAddr_ok.
  - destruct (MustParseLogLevel_ok v Hv) as [t ->]. simpl.
    eexists. split; [done |]. by intros ? [= <-] c.
Qed.

Lemma run_flags_ok flags ov : run_flags flags = Ok ov → Forall keeps_base ov.
Proof.
  revert ov. induction flags as [| f flags IH]; intros ov; simpl; [intros [= <-]; constructor |].
  destruct (Validator f) eqn:Hv; [done |].
  destruct (Action_ok f Hv) as (g & -> & Hg). simpl.
  destruct (run_flags flags) as [rest | | |]; simpl; try done. intros [= <-].
  specialize (IH rest eq_refl). destruct g; [constructor; auto | done].
Qed.

Lemma foldl_base ov c : Forall keeps_base ov → base_wf c → base_wf (foldl (λ c apply, apply c) c ov).
Proof. intros Hov. revert c. induction Hov as [| g ov Hg _ IH]; intros c Hc; simpl; auto. Qed.

Lemma Finalize_wf c :
  base_wf c → addr_ok (ListenAddr (App (Startup (Finalize c).1))) ∧
    1 <= FreebsdFIB (App (Startup (Finalize c).1)) <= 15 ∧ runtime_wf (Runtime (Finalize c).1).
Proof.
  intros [[Ha Hf] Hr]. unfold Finalize. simpl.
  destruct (bool_decide (addr_IP _ = []) && _) eqn:E; simpl.
  - split; [| done]. split; [done |]. simpl. split; [by repeat constructor |].
    destruct (decide _); lia.
  - split; [| done]. destruct Ha as [Ha | Ha]; [| done].
    by rewrite Ha in E.
Qed.

(** *** Rules *)
Lemma overlay_safe {S} (J : S → Prop) i item key unm (s : S) :
  (∀ data s, J s → safe J (unm data s)) → J s →
  defined (overlay i item key unm s) ∧ ∀ s', overlay i item key unm s = Ok s' → J s'.
Proof.
  intros Hu Hs. unfold overlay. destruct (get key item) as [v |]; [| by split; [| intros ? [= <-]]].
  destruct (Hu v s Hs) as (s1 & [e |] & -> & H1); [done |]. split; [done | by intros ? [= <-]].
Qed.

Lemma resolve_rule_safe i item base :
  runtime_wf base →
  defined (resolve_rule i item base) ∧
  ∀ r, resolve_rule i item base = Ok r →
    0 <= Priority r <= 65535 ∧ (∀ a, Match r = Some a → match_wf a) ∧ runtime_wf (rule_Config r).
Proof.
  intros (Hc & Hd & Hh & Hu). unfold resolve_rule.
  set (pr := match get "priority" item with None => _ | Some v => _ end).
  assert (defined pr ∧ ∀ p, pr = Ok p → 0 <= p <= 65535) as [Hpd Hp].
  { subst pr. destruct (get "priority" item) as [v |]; [| split; [done | intros ? [= <-]; lia]].
    pose proof (parseInt_defined u16 (Some checkUint16) v) as Hdef.
    destruct (parseIntFn u16 (Some checkUint16) v) as [x | | |] eqn:E; try done.
    split; [done |]. intros ? [= <-]. apply parseInt_range in E as (z & _ & -> & Hz).
    unfold u16. rewrite Z.mod_small by lia. lia. }
  set (ma := match get "match" item with None => _ | Some _ => _ end).
  assert (defined ma ∧ ∀ a b, ma = Ok a → a = Some b → match_wf b) as [Hmd Hm].
  { subst ma. destruct (get "match" item) as [v |] eqn:Ev; [| split; [done | by intros ? ? [= <-]]].
    unfold overlay. rewrite Ev.
    destruct (MatchAttrs_safe v) as (a & [e |] & -> & Hwf); [done |]. simpl.
    split; [done |]. intros ? ? [= <-] [= <-]. by apply Hwf. }
  destruct (overlay_safe dns_wf i item "dns" DNSOptions_UnmarshalTOML (DNS (base_for_rule base)))
    as [Hdd Hdw]; [apply DNSOptions_safe | done |].
  destruct (overlay_safe https_wf i item "https" HTTPSOptions_UnmarshalTOML (HTTPS (base_for_rule base)))
    as [Hhd Hhw]; [apply HTTPSOptions_safe | done |].
  destruct (overlay_safe udp_wf i item "udp" UDPOptions_UnmarshalTOML (UDP (base_for_rule base)))
    as [Hud Huw]; [apply UDPOptions_safe | done |].
  destruct (overlay_safe conn_wf i item "connection" ConnOptions_UnmarshalTOML (Conn (base_for_rule base)))
    as [Hcd Hcw]; [apply ConnOptions_safe | done |].
  split.
  - repeat (apply defined_bind; [done | intros ? _]). done.
  - intros r (p & Ep & E)%bind_Ok_inv. apply bind_Ok_inv in E as (a & Ea & E).
    apply bind_Ok_inv in E as (dns & Edns & E). apply bind_Ok_inv in E as (https & Ehttps & E).
    apply bind_Ok_inv in E as (udp & Eudp & E). apply bind_Ok_inv in E as (conn & Econn & E).
    injection E as <-. cbn [Priority Match rule_Config]. split; [by apply Hp |].
    split; [intros b ->; by eapply Hm |]. unfold runtime_wf. cbn [Conn DNS HTTPS UDP]. auto.
Qed.

Lemma resolve_from_safe i raw base :
  runtime_wf base →
  defined (resolve_from i raw base) ∧
  ∀ rules, resolve_from i raw base = Ok rules →
    Forall (λ r, 0 <= Priority r <= 65535 ∧ (∀ a, Match r = Some a → match_wf a) ∧
      runtime_wf (rule_Config r)) rules.
Proof.
  intros Hb. revert i. induction raw as [| item raw IH]; intros i; simpl.
  { split; [done |]. intros ? [= <-]. constructor. }
  destruct (resolve_rule_safe i item base Hb) as [Hd Hw]. destruct (IH (S i)) as [Hd2 Hw2]. split.
  - apply defined_bind; [done |]. intros ? _. by apply defined_bind.
  - intros rules (r & Hr & E)%bind_Ok_inv. apply bind_Ok_inv in E as (rs & Hrs & [= <-]).
    constructor; auto.
Qed.

Lemma resolveEntries_defined e entries dir : defined (resolveEntries e entries dir).
Proof.
  induction entries as [| x entries IH]; simpl; [done |].
  destruct (negb _); [by apply defined_bind; [| intros []] |].
  destruct (readLines _ _); [| done |]; (apply defined_bind; [done |]; by intros []).
Qed.

Lemma expand_key_defined e i dir key m : defined (expand_key e i dir key m).
Proof.
  unfold expand_key. destruct (get key m) as [[] |]; try done.
  pose proof (resolveEntries_defined e (strings_of l) dir). by destruct (resolveEntries _ _ _) as [[] | | |].
Qed.

Lemma expand_rules_defined e i raw dir : defined (expand_rules e i raw dir).
Proof.
  revert i. induction raw as [| item raw IH]; intros i; simpl; [done |].
  apply defined_bind.
  - destruct (get "match" item) as [v |]; [| done]. apply defined_bind; [| by intros []].
    destruct v; try done. simpl. apply defined_bind; [apply expand_key_defined |]. intros [m1 w1] _.
    apply defined_bind; [apply expand_key_defined |]. by intros [].
  - intros [r w] _. apply defined_bind; [done |]. by intros [].
Qed.

Lemma validate_rules_match i rules :
  validate_rules i rules = None → Forall (λ r, is_Some (Match r)) rules.
Proof.
  revert i. induction rules as [| r rules IH]; intros i; simpl; [constructor |].
  unfold checkRule. destruct (Match r) eqn:E; [| done]. intros Hv.
  constructor; [by rewrite E | by eapply IH].
Qed.

(** What loading guarantees. *)
Lemma Load_safe (e : fs_env) (clean : bool) (config : string) (flags : list flag)
    (ov : list (Config → Config)) :
  decoder_ok e → run_flags flags = Ok ov →
  defined (Load e clean config ov) ∧
  ∀ c path w, Load e clean config ov = Ok (c, path, w) → config_wf c.
Proof.
  intros He Hov%run_flags_ok. unfold Load.
  destruct (loadTOML_safe e clean config DefaultConfig He DefaultConfig_wf) as [Hd Hw].
  destruct (loadTOML e clean config DefaultConfig) as [[[[c p] raw] w1] | | |]; try done.
  cbn [mbind outcome_bind]. specialize (Hw c p raw w1 eq_refl).
  pose proof (Finalize_wf _ (foldl_base ov c Hov Hw)) as Hf.
  destruct (Finalize (foldl _ c ov)) as [c1 w2]. simpl in Hf. destruct Hf as (Ha & Hfib & Hr).
  pose proof (expand_rules_defined e 0 raw (Dir e p)) as Hex.
  destruct (expand_rules e 0 raw (Dir e p)) as [[raw' w3] | | |]; try done. cbn [mbind outcome_bind].
  destruct (resolve_from_safe 0 raw' (Runtime c1) Hr) as [Hrd Hrw]. unfold resolveRules.
  destruct (resolve_from 0 raw' (Runtime c1)) as [rules | | |]; try done. cbn [mbind outcome_bind].
  specialize (Hrw rules eq_refl). unfold Validate. cbn [set_Rules Startup Rules].
  destruct (validate_rules 0 rules) eqn:Hv; [done |]. split; [done |]. intros ? ? ? [= <- <- <-].
  apply validate_rules_match in Hv. unfold config_wf. simpl.
  split; [done |]. split; [done |]. split; [done |].
  eapply Forall_impl; [by apply Forall_and; split; [exact Hrw | exact Hv] |].
  intros r ((? & Hm & ?) & [a Ha']). unfold rule_wf. split; [done |]. split; [| done]. exists a. auto.
Qed.
(** C32. Loading: for flags whose values pass their validators, any files and
    any decoded table, [Load] never panics; and a configuration it returns is
    well formed: the listen address is set, every byte-sized option, port,
    timeout and priority is in its range, chunk sizes are not zero, and every
    rule has a match with at least one entry, whose domain patterns and
    networks are valid. *)
Theorem Load_wf (e : fs_env) (clean : bool) (config : string) (flags : list flag)
    (ov : list (Config → Config)) :
  decoder_ok e → run_flags flags = Ok ov →
  defined (Load e clean config ov) ∧
  ∀ c path w, Load e clean config ov = Ok (c, path, w) → config_wf c.
Proof. intros He Hov. by apply (Load_safe e clean config flags). Qed.
End Safe.

(** The flags can select [custom] splitting without any segment plan, which the
    TOML decoder refuses. *)
Lemma custom_flag_without_plans `{!NetText} `{!LogLevels} :
  ∃ g, run_flags [FHTTPSSplitMode "custom"] = Ok [g] ∧
  SplitMode (HTTPS (Runtime (g DefaultConfig))) = HTTPSSplitModeCustom ∧
  CustomSegmentPlans (HTTPS (Runtime (g DefaultConfig))) = [].
Proof. eexists. split; [done |]. done. Qed.

(** Entries of a match list that are not strings are dropped before the decoder,
    which would refuse them, sees the list. *)
Lemma non_string_patterns_dropped (e : fs_env) :
  expandFileMatchList e (TTable [("domains", TList [TInt 1; TString "a.com"])]) 0 "" =
    Ok (TTable [("domains", TList [TString "a.com"])], []).
Proof. done. Qed.

(** ** Witnesses *)
#[export] Program Instance zerolog_levels : LogLevels := {
  ParseLevel s :=
    if decide (s = "trace") then Some (-1) else if decide (s = "debug") then Some 0
    else if decide (s = "info") then Some 1 else if decide (s = "warn") then Some 2
    else if decide (s = "error") then Some 3 else if decide (s = "disabled") then Some 7 else None;
}.
Next Obligation.
  intros s Hs. unfold availableLogLevelValues in Hs.
  repeat (apply elem_of_cons in Hs as [-> | Hs]; [by eexists |]). by apply not_elem_of_nil in Hs.
Qed.

Definition sample_rule_table : table :=
  [("name", TString "r"); ("priority", TInt 7);
   ("match", TTable [("domains", TList [TString "*.a.com"])]);
   ("https", TTable [("split-mode", TString "chunk"); ("chunk-size", TInt 5)])].

Definition sample_fs : fs_env :=
  mkFsEnv (λ _, true) (λ _, Ok [("rules", TTables [sample_rule_table])]) (λ _, FileMissing)
    (λ s, s) None (λ a b, a +:+ "/" +:+ b) (λ _, true) (λ s, s) [].

Lemma resolveRules_inherit_witness :
  ∃ rules, resolveRules [sample_rule_table] (Runtime DefaultConfig) = Ok rules ∧
    Forall2 (rule_resolved (Runtime DefaultConfig)) [sample_rule_table] rules.
Proof.
  eexists. split; [by vm_compute |]. apply resolveRules_inherit. by vm_compute.
Defined.

Lemma Load_wf_witness :
  ∃ ov c w, run_flags [FHTTPSChunkSize 3; FTCPTimeout 100] = Ok ov ∧
    Load sample_fs false "x.toml" ov = Ok (c, "x.toml", w) ∧ config_wf c ∧
    ChunkSize (HTTPS (Runtime c)) = 3.
Proof.
  destruct (run_flags [FHTTPSChunkSize 3; FTCPTimeout 100]) as [ov | | |] eqn:Hov; try done.
  destruct (Load_wf sample_fs false "x.toml" _ ov (λ _, I) Hov) as [_ Hw].
  destruct (Load sample_fs false "x.toml" ov) as [[[c p] w] | | |] eqn:E;
    simpl in Hov; injection Hov as <-; [| by vm_compute in E ..].
  eexists _, c, w. split; [done |].
  assert (p = "x.toml" ∧ ChunkSize (HTTPS (Runtime c)) = 3) as [-> Hc].
  { vm_compute in E. by injection E as <- <- <-. }
  split; [exact E |]. split; [by eapply Hw | done].
Defined.
