(* ===== verification/Cli.v ===== *)
(** * The command line: [CreateCommand] and the rest of
      [internal/config/cli.go], [internal/config/warn.go], and [main]

    The declarations of the flags, what their usage texts promise, the root
    action, the places a configuration is looked for, and the exit status.
    Parsing the arguments belongs to the library: a run is given by the flags
    the user set. The validators and actions of the flags are in [ConfigLoad]. *)

From S2P Require Import Prelude GoIO GoNet GoStrings NetText Tls ConfigTypes ConfigParse ConfigToml ConfigLoad.

Local Open Scope string_scope.
Local Open Scope list_scope.
Local Open Scope Z_scope.

(** ** The declarations *)
Inductive flag_kind : Type :=
| KString (mk : string → flag) | KInt (mk : Z → flag) | KBool (mk : bool → flag)
| KPlainString (env : list string) | KPlainBool.     (* read by the root action *)

(** A declaration: besides its name and kind, the [Value] declared as its default
    and the default its usage text states, each as the flag that would set it. *)
Record cli_flag : Type := mkFlag {
  fl_Name : string; fl_Aliases : list string; fl_kind : flag_kind;
  fl_Value : option flag; fl_doc : option flag;
}.

Definition Flags_general : list cli_flag := [
  mkFlag "app-mode" [] (KString FAppMode) None (Some (FAppMode "http"));
  mkFlag "clean" [] KPlainBool None None;
  mkFlag "config" ["c"] (KPlainString ["SPOOFDPI_CONFIG"]) None None;
  mkFlag "default-fake-ttl" [] (KInt FDefaultFakeTTL) None (Some (FDefaultFakeTTL 8))].

Definition Flags_dns : list cli_flag := [
  mkFlag "dns-addr" [] (KString FDNSAddr) None (Some (FDNSAddr "8.8.8.8:53"));
  mkFlag "dns-cache" [] (KBool FDNSCache) (Some (FDNSCache false)) (Some (FDNSCache false));
  mkFlag "dns-mode" [] (KString FDNSMode) (Some (FDNSMode "udp")) (Some (FDNSMode "udp"));
  mkFlag "dns-https-url" [] (KString FDNSHTTPSURL) (Some (FDNSHTTPSURL "https://dns.google/dns-query"))
    (Some (FDNSHTTPSURL "https://dns.google/dns-query"));
  mkFlag "dns-qtype" [] (KString FDNSQType) (Some (FDNSQType "ipv4")) (Some (FDNSQType "ipv4"));
  mkFlag "dns-timeout" [] (KInt FDNSTimeout) (Some (FDNSTimeout 0)) (Some (FDNSTimeout 5000))].

Definition Flags_https : list cli_flag := [
  mkFlag "https-fake-count" [] (KInt FHTTPSFakeCount) (Some (FHTTPSFakeCount 0)) (Some (FHTTPSFakeCount 0));
  mkFlag "https-fake-packet" [] (KString FHTTPSFakePacket)
    (Some (FHTTPSFakePacket (MustParseHexCSV FakeClientHello)))
    (Some (FHTTPSFakePacket (MustParseHexCSV FakeClientHello)));   (* "built-in fake packet" *)
  mkFlag "https-disorder" [] (KBool FHTTPSDisorder) None (Some (FHTTPSDisorder false));
  mkFlag "https-split-mode" [] (KString FHTTPSSplitMode) (Some (FHTTPSSplitMode "chunk"))
    (Some (FHTTPSSplitMode "sni"));
  mkFlag "https-skip" [] (KBool FHTTPSSkip) None (Some (FHTTPSSkip false));
  mkFlag "https-chunk-size" [] (KInt FHTTPSChunkSize) None (Some (FHTTPSChunkSize 35))].

Definition Flags_udp : list cli_flag := [
  mkFlag "udp-fake-count" [] (KInt FUDPFakeCount) (Some (FUDPFakeCount 0)) (Some (FUDPFakeCount 0));
  mkFlag "udp-fake-packet" [] (KString FUDPFakePacket)
    (Some (FUDPFakePacket (MustParseHexCSV (udp_FakePacket (UDP (Runtime DefaultConfig))))))
    (Some (FUDPFakePacket (MustParseHexCSV (udp_FakePacket (UDP (Runtime DefaultConfig))))));
  mkFlag "udp-skip" [] (KBool FUDPSkip) None (Some (FUDPSkip false));
  mkFlag "udp-idle-timeout" [] (KInt FUDPIdleTimeout) (Some (FUDPIdleTimeout 0)) (Some (FUDPIdleTimeout 25000))].

Definition Flags_app : list cli_flag := [
  mkFlag "listen-addr" [] (KString FListenAddr) None None;   (* its default depends on the mode *)
  mkFlag "log-level" [] (KString FLogLevel) None (Some (FLogLevel "info"));
  mkFlag "no-tui" [] (KBool FNoTUI) None (Some (FNoTUI false));
  mkFlag "auto-configure-network" [] (KBool FAutoConfigure) None (Some (FAutoConfigure false));
  mkFlag "tcp-timeout" [] (KInt FTCPTimeout) (Some (FTCPTimeout 0)) (Some (FTCPTimeout 10000));
  mkFlag "freebsd-fib" [] (KInt FFreebsdFIB) (Some (FFreebsdFIB 1)) (Some (FFreebsdFIB 1));
  mkFlag "version" ["v"] KPlainBool None None].

Definition Flags : list cli_flag := Flags_general ++ Flags_dns ++ Flags_https ++ Flags_udp ++ Flags_app.

(** [cli.HelpFlag] *)
Definition HelpFlag : cli_flag := mkFlag "help" ["h"] KPlainBool None None.

Definition flag_names (fs : list cli_flag) : list string := f ← fs; fl_Name f :: fl_Aliases f.

(** The declaration makes the flag [f] of some value. *)
Definition makes (d : cli_flag) (f : flag) : Prop :=
  match fl_kind d with
  | KString mk => ∃ v, mk v = f | KInt mk => ∃ v, mk v = f | KBool mk => ∃ v, mk v = f
  | KPlainString _ | KPlainBool => False
  end.

#[local] Arguments MustParseHexCSV : simpl never.

(** No two flags share a name or an alias, help included, and every setting
    that a flag can carry has exactly one declaration. *)
Lemma Flags_unambiguous :
  NoDup (flag_names (HelpFlag :: Flags)) ∧
  ∀ f, ∃ before d after, Flags = before ++ d :: after ∧ makes d f ∧
    Forall (λ d', ¬ makes d' f) (before ++ after).
Proof.
  split; [by apply (bool_decide_eq_true_1 _); vm_compute |].
  assert (∀ (f : flag) n, (n < length Flags)%nat →
    (∃ d, Flags !! n = Some d ∧ makes d f) →
    Forall (λ d', ¬ makes d' f) (take n Flags ++ drop (S n) Flags) →
    ∃ before d after, Flags = before ++ d :: after ∧ makes d f ∧ Forall (λ d', ¬ makes d' f) (before ++ after)) as Hat.
  { intros f n Hn (d & Hd & Hm) Hno. exists (take n Flags), d, (drop (S n) Flags).
    split; [by rewrite take_drop_middle | done]. }
  intros f.
  pose (n := match f with
    | FAppMode _ => 0 | FDefaultFakeTTL _ => 3 | FDNSAddr _ => 4 | FDNSCache _ => 5 | FDNSMode _ => 6
    | FDNSHTTPSURL _ => 7 | FDNSQType _ => 8 | FDNSTimeout _ => 9 | FHTTPSFakeCount _ => 10
    | FHTTPSFakePacket _ => 11 | FHTTPSDisorder _ => 12 | FHTTPSSplitMode _ => 13 | FHTTPSSkip _ => 14
    | FHTTPSChunkSize _ => 15 | FUDPFakeCount _ => 16 | FUDPFakePacket _ => 17 | FUDPSkip _ => 18
    | FUDPIdleTimeout _ => 19 | FListenAddr _ => 20 | FLogLevel _ => 21 | FNoTUI _ => 22
    | FAutoConfigure _ => 23 | FTCPTimeout _ => 24 | FFreebsdFIB _ => 25 end%nat).
  apply (Hat f n); destruct f; cbn; try lia;
    try (eexists; split; [done | by eexists]);
    repeat (apply Forall_cons; split; [unfold makes; cbn; first [by intros [? [=]] | by intros []] |]);
    apply Forall_nil; done.
Qed.

(** ** [enumUsage]: the values of a flag as its usage text shows them *)
Definition go_quote (v : string) : string :=
  let q := String (Ascii.ascii_of_nat 34) EmptyString in q +:+ v +:+ q.
Definition enumUsage (values : list string) : string :=
  "<" +:+ GoStrings.Join (Ascii.ascii_of_nat 124) (go_quote <$> values) +:+ ">".

(** The enum flags, with the values their usage text is made of. *)
Definition enum_flags : list ((string → flag) * list string) :=
  [(FAppMode, availableAppModeValues); (FDNSMode, availableDNSModeValues);
   (FDNSQType, availableDNSQueryValues); (FHTTPSSplitMode, availableHTTPSModeValues)].

Section Cli.
Context {NT : NetText} {LL : LogLevels}.

(** The usage text of an enum flag lists exactly the values its validator
    accepts, and each of them is one its action can set. *)
Lemma enumUsage_exact mk values v :
  (mk, values) ∈ enum_flags →
  (Validator (mk v) = None ↔ v ∈ values) ∧
  (v ∈ values → match Action (mk v) with Ok (Some _) => True | _ => False end).
Proof.
  intros Hin. assert (∀ allowed, checkOneOf allowed v = None ↔ v ∈ allowed) as Hone.
  { intros allowed. unfold checkOneOf. by case_decide. }
  unfold enum_flags in Hin. rewrite !elem_of_cons, elem_of_nil in Hin.
  destruct Hin as [[= -> ->] | [[= -> ->] | [[= -> ->] | [[= -> ->] | []]]]];
    (split; [apply Hone |]); intros Hv;
    repeat (apply elem_of_cons in Hv as [-> | Hv]; [done |]); by apply elem_of_nil in Hv.
Qed.

(** ** The defaults the usage texts state *)
Definition documented_defaults : list flag := omap fl_doc Flags.
End Cli.

(** Giving a flag the default its usage text states changes nothing: the value
    is accepted and the default configuration stays as it is. *)
Lemma documented_defaults_neutral :
  Forall (λ f, Validator f = None ∧ ∃ g, Action f = Ok (Some g) ∧ g DefaultConfig = DefaultConfig)
    documented_defaults.
Proof.
  change documented_defaults with (omap fl_doc Flags_general ++ omap fl_doc Flags_dns ++
    omap fl_doc Flags_https ++ omap fl_doc Flags_udp ++ omap fl_doc Flags_app).
  cbn [omap list_omap fl_doc Flags_general Flags_dns Flags_https Flags_udp Flags_app app].
  repeat (apply Forall_cons; split; [split; [by vm_compute | eexists; split; [by vm_compute | by vm_compute]] |]).
  apply Forall_nil. done.
Qed.

#[export] Instance flag_eq_dec : EqDecision flag.
Proof. solve_decision. Defined.

(** The flags whose declared [Value] is not the default they document: since
    the actions only run for flags that were set, the declared one is unused. *)
Lemma declared_values_differ :
  fl_Name <$> filter (λ d, is_Some (fl_Value d) ∧ fl_Value d ≠ fl_doc d) Flags =
    ["dns-timeout"; "https-split-mode"; "udp-idle-timeout"; "tcp-timeout"].
Proof. by vm_compute. Qed.

(** The usage text of [https-chunk-size] speaks of setting it to 0, which the
    validator refuses. *)
Lemma chunk_size_zero_refused : Validator (FHTTPSChunkSize 0) ≠ None ∧ Validator (FHTTPSChunkSize 1) = None.
Proof. done. Qed.

(** ** Where a configuration is looked for *)

(** [path.Clean], on the components between slashes; [stack] holds the ones kept,
    the last first. *)
Fixpoint clean_loop (rooted : bool) (comps stack : list string) : list string :=
  match comps with
  | [] => rev stack
  | c :: comps =>
    if bool_decide (c = "") || bool_decide (c = ".") then clean_loop rooted comps stack
    else if bool_decide (c = "..") then
      match stack with
      | top :: stack' =>
        if bool_decide (top = "..") then clean_loop rooted comps (".." :: stack)
        else clean_loop rooted comps stack'
      | [] => clean_loop rooted comps (if rooted then [] else [".."])
      end
    else clean_loop rooted comps (c :: stack)
  end.
Definition slash : Ascii.ascii := Ascii.ascii_of_nat 47.
Definition Clean (p : string) : string :=
  if bool_decide (p = "") then "."
  else
    let rooted := HasPrefix p "/" in
    let out := GoStrings.Join slash (clean_loop rooted (Split slash p) []) in
    if rooted then "/" +:+ out else if bool_decide (out = "") then "." else out.
(** [path.Join] *)
Definition path_Join (elems : list string) : string :=
  let elems := filter (λ s, s ≠ "") elems in
  match elems with [] => "" | _ => Clean (GoStrings.Join slash elems) end.

Definition configFilename : string := "spoofdpi.toml".
Definition config_locations (xdg home : string) : list string :=
  [path_Join ["/"; "etc"; configFilename];
   path_Join [xdg; "spoofdpi"; configFilename];
   path_Join [home; ".config"; "spoofdpi"; configFilename]].

(** [determineRealHome]: [lookup] is [user.Lookup], [current] is [user.Current];
    [None] is [log.Fatal], which ends the program. *)
Definition determineRealHome (SUDO_USER : string) (lookup : string → option string) (current : option string)
    : option string :=
  match (if bool_decide (SUDO_USER ≠ "") then lookup SUDO_USER else None) with
  | Some home => Some home
  | None => current
  end.

Lemma HasPrefix_head c (s : string) : HasPrefix (String c s) "/" = ascii_eqb (Ascii.ascii_of_nat 47) c.
Proof. cbn. rewrite <- (andb_true_r (ascii_eqb _ c)). f_equal. by destruct s. Qed.

Lemma Join_rooted (p : string) (ps : list string) :
  HasPrefix p "/" = true → HasPrefix (GoStrings.Join slash (p :: ps)) "/" = true.
Proof.
  destruct p as [| c p]; [done |]. destruct ps as [| q ps]; [done |].
  change (GoStrings.Join slash (String c p :: q :: ps))
    with (String c (p +:+ String slash (GoStrings.Join slash (q :: ps)))). by rewrite !HasPrefix_head.
Qed.

Lemma HasPrefix_slash (s : string) : HasPrefix ("/" +:+ s) "/" = true.
Proof. apply HasPrefix_head. Qed.

Lemma Clean_rooted (p : string) : HasPrefix p "/" = true → HasPrefix (Clean p) "/" = true.
Proof.
  intros H. unfold Clean. rewrite bool_decide_false by (by intros ->). rewrite H. apply HasPrefix_slash.
Qed.

Lemma path_Join_rooted (p : string) (ps : list string) :
  HasPrefix p "/" = true → HasPrefix (path_Join (p :: ps)) "/" = true.
Proof.
  intros H. assert (p ≠ "") as Hne by (by intros ->). unfold path_Join. rewrite filter_cons_True by done.
  by apply Clean_rooted, Join_rooted.
Qed.

(** With absolute directories in the environment all three locations are
    absolute; when XDG_CONFIG_HOME is not set the second is relative, so a file
    below the current directory is used before the one in the home directory. *)
Lemma config_locations_rooted (xdg home : string) :
  (HasPrefix xdg "/" = true → HasPrefix home "/" = true →
   Forall (λ p, HasPrefix p "/" = true) (config_locations xdg home)) ∧
  config_locations "" home !! 1%nat = Some "spoofdpi/spoofdpi.toml".
Proof.
  split; [| by vm_compute]. intros Hx Hh.
  repeat (apply Forall_cons; split; [by apply path_Join_rooted |]). by apply Forall_nil.
Qed.

Example Clean_examples :
  path_Join ["/home/u"; ".config"; "spoofdpi"; configFilename] = "/home/u/.config/spoofdpi/spoofdpi.toml" ∧
  Clean "/a/../../b/./c//" = "/b/c" ∧ Clean "../a/.." = "..".
Proof. by vm_compute. Qed.

(** ** [WarnMsgs] *)
Definition AddWarnMsg (msg : string) (WarnMsgs : list string) : list string := WarnMsgs ++ [msg].

(** ** The root action and [main] *)
Section Main.
Context {NT : NetText} {LL : LogLevels}.

(** What ends a run of the command: [os.Exit] with a status, or a return with
    an error or none. [Out] holds the lines printed on the standard output. *)
Inductive ended : Type := Exited (status : Z) | Returned (err : option cerr).
Record cmd_result : Type := mkResult { Out : list string; how : ended; ran : option (Config * string) }.

(** The root action, after the actions of the flags were run. [runFunc] is
    called with the configuration and the path it was read from. *)
Definition root_Action (e : fs_env) (version_line : string) (version clean : bool) (config : string)
    (cliOverrides : list (Config → Config)) (runFunc : string → Config → option cerr) : cmd_result :=
  if version then
    mkResult [version_line; "Official docs at https://spoofdpi.xvzc.dev"] (Exited 0) None
  else
    match Load e clean config cliOverrides with
    | Ok (cfg, configDir, _) => mkResult [] (Returned (runFunc configDir cfg)) (Some (cfg, configDir))
    | Err er => mkResult [] (Returned (Some er)) None
    | Panic | Diverge => mkResult [] (Exited 2) None
    end.

(** [cmd.Run]: a flag that is refused ends the run before the root action. *)
Definition cmd_Run (e : fs_env) (version_line : string) (version clean : bool) (config : string)
    (flags : list flag) (runFunc : string → Config → option cerr) : cmd_result :=
  match run_flags flags with
  | Ok cliOverrides => root_Action e version_line version clean config cliOverrides runFunc
  | Err er => mkResult [] (Returned (Some er)) None
  | Panic | Diverge => mkResult [] (Exited 2) None
  end.

(** [main]: the exit status and the output; an error is also written, in full,
    on the standard error. *)
Definition main (r : cmd_result) : Z * list string :=
  match how r with
  | Exited s => (s, Out r)
  | Returned None => (0, Out r)
  | Returned (Some _) => (1, Out r ++ ["application failed to start"])
  end.

Lemma run_flags_defined flags : defined (run_flags flags).
Proof.
  induction flags as [| f flags IH]; [done |]. cbn [run_flags].
  destruct (Validator f) as [er |] eqn:Hv; [done |].
  destruct (Action_ok f Hv) as (g & -> & _). cbn [mbind outcome_bind].
  by destruct (run_flags flags) as [rest | | |].
Qed.

(** The program's exit status. [--version] with flags that are accepted prints
    the version and exits with 0 without looking at any configuration; otherwise
    the program runs exactly when the flags are accepted and a configuration is
    loaded, and then with that configuration; and the status is 0 if it ran
    without an error and 1 if a flag, the configuration or the run failed. It
    never ends by a panic. *)
Lemma cmd_Run_exit e vl version clean config flags runFunc :
  decoder_ok e →
  let r := cmd_Run e vl version clean config flags runFunc in
  match run_flags flags with
  | Err _ => ran r = None ∧ (main r).1 = 1
  | Ok ov =>
    if version then ran r = None ∧ (main r).1 = 0
    else
      match Load e clean config ov with
      | Ok (cfg, path, _) => ran r = Some (cfg, path) ∧
          (main r).1 = match runFunc path cfg with None => 0 | Some _ => 1 end
      | Err _ => ran r = None ∧ (main r).1 = 1
      | _ => False
      end
  | _ => False
  end.
Proof.
  intros He r. subst r. unfold cmd_Run. pose proof (run_flags_defined flags) as Hd.
  destruct (run_flags flags) as [ov | er | |] eqn:Hf; try done. unfold root_Action.
  destruct version; [done |]. destruct (Load_safe e clean config flags ov He Hf) as [HL _].
  destruct (Load e clean config ov) as [[[cfg path] w] | er | |]; try done.
  unfold main. cbn [how ran]. split; [done |]. by destruct (runFunc path cfg).
Qed.
End Main.
