(* ===== verification/NetUtil.v ===== *)
(** * Dialing and tunnelling: [internal/netutil/{dst,dial,conn,error}.go]

    [DialFastest] is a transition system of its feeder, its workers and its
    collecting loop; the tunnel functions are their effect on the results that
    cross the channel. *)

From S2P Require Import Prelude GoIO GoNet GoStrings NetText HostPort.

Local Open Scope string_scope.
Local Open Scope list_scope.
Local Open Scope Z_scope.

(** ** Destinations *)
Record Destination : Type := mkDestination {
  Host : string;
  Addrs : list IP;
  dst_Port : Z;
}.

Definition Destination_String (d : Destination) : string :=
  JoinHostPort (Host d) (Itoa (dst_Port d)).

(** What [net.InterfaceAddrs] lists: networks, with their text, and addresses of
    other types. *)
Inductive iface_addr : Type := IfNet (ip : IP) (text : string) | IfOther.

Section IsValid.
Context {NT : NetText}.

Definition ErrLoopback (ip : IP) : error := ErrText ("loopback addr detected " +:+ IP_String ip).
Definition ErrInterface (text : string) : error := ErrText ("interface addr detected " +:+ text).

(** The first interface network whose address is [ip]. *)
Fixpoint own_addr (ip : IP) (ifAddrs : list iface_addr) : option string :=
  match ifAddrs with
  | [] => None
  | IfNet x text :: ifAddrs => if IP_Equal x ip then Some text else own_addr ip ifAddrs
  | IfOther :: ifAddrs => own_addr ip ifAddrs
  end.

Fixpoint valid_loop (addrs : list IP) (ifAddrs : list iface_addr) : bool * option error :=
  match addrs with
  | [] => (true, None)
  | ip :: addrs =>
    if IsLoopback ip then (false, Some (ErrLoopback ip))
    else
      match own_addr ip ifAddrs with
      | Some text => (false, Some (ErrInterface text))
      | None => valid_loop addrs ifAddrs
      end
  end.

Definition IsValid (interfaceAddrs : outcome error (list iface_addr)) (d : Destination)
    (listenAddr : TCPAddr) : bool * option error :=
  if negb (dst_Port d =? addr_Port listenAddr) then (true, None)
  else
    match interfaceAddrs with
    | Ok ifAddrs => valid_loop (Addrs d) ifAddrs
    | Err e => (false, Some e)
    | Panic | Diverge => (false, None)
    end.

(** The destinations that would lead back to the proxy. *)
Definition leads_back (ifAddrs : list iface_addr) (ip : IP) : Prop :=
  IsLoopback ip = true ∨ ∃ x text, IfNet x text ∈ ifAddrs ∧ IP_Equal x ip = true.

Lemma own_addr_spec ip l :
  is_Some (own_addr ip l) ↔ ∃ x text, IfNet x text ∈ l ∧ IP_Equal x ip = true.
Proof.
  induction l as [| [x text |] l IH]; simpl.
  - split; [by intros [] | intros (x & t & ?%not_elem_of_nil & _); done].
  - destruct (IP_Equal x ip) eqn:E.
    + split; [intros _; exists x, text; split; [by left | done] | by eexists].
    + rewrite IH. split; intros (y & t & Hin & Hy); exists y, t; (split; [| done]); [by right |].
      apply elem_of_cons in Hin as [[= -> ->] | ?]; [congruence | done].
  - rewrite IH. split; intros (y & t & Hin & Hy); exists y, t; (split; [| done]); [by right |].
    by apply elem_of_cons in Hin as [? | ?].
Qed.

(** A destination is refused exactly when it has the proxy's port and one of its
    addresses is a loopback or an interface address. *)
Lemma IsValid_spec ifAddrs d listen :
  (IsValid (Ok ifAddrs) d listen).1 = false ↔
  dst_Port d = addr_Port listen ∧ ∃ ip, ip ∈ Addrs d ∧ leads_back ifAddrs ip.
Proof.
  unfold IsValid. destruct (Z.eqb_spec (dst_Port d) (addr_Port listen)) as [Hp | Hp]; simpl;
    [| naive_solver].
  induction (Addrs d) as [| ip l IH]; simpl.
  - split; [done | intros (_ & ip & ?%not_elem_of_nil & _); done].
  - assert (leads_back ifAddrs ip ↔ IsLoopback ip = true ∨ is_Some (own_addr ip ifAddrs)) as Hb.
    { unfold leads_back. by rewrite own_addr_spec. }
    setoid_rewrite elem_of_cons. destruct (IsLoopback ip); [naive_solver |].
    destruct (own_addr ip ifAddrs) as [t |] eqn:E.
    + assert (leads_back ifAddrs ip) by (apply Hb; right; by eexists). naive_solver.
    + assert (¬ leads_back ifAddrs ip) by (rewrite Hb; by intros [? | [? ?]]).
      rewrite IH. naive_solver.
Qed.
End IsValid.

(** ** [IsConnectionResetByPeer] *)
Fixpoint IsConnectionResetByPeer (e : error) : bool :=
  match e with
  | ErrConnReset => true
  | ErrWrap _ e => IsConnectionResetByPeer e
  | _ => false
  end.

(** ** Tunnels *)
Inductive TunnelDirType : Type := TunnelDirOut | TunnelDirIn | TunnelDirOther (n : Z).

Record TransferResult : Type := mkTransfer {
  Written : Z;
  Dir : TunnelDirType;
  tr_Err : option error;
}.

(** The connections a step closes. *)
Inductive endpoint : Type := Src | Dst.

(** [os.IsTimeout] looks at the error itself, not at what it wraps. *)
Definition IsTimeout (e : error) : bool := bool_decide (e = ErrTimeout).

(** [TunnelConns], given what [io.CopyBuffer] returned: the result sent, and
    the connections closed by the deferred function. *)
Definition TunnelConns (copied : Z * option error) (dir : TunnelDirType)
    : TransferResult * list endpoint :=
  let '(n, err) := copied in
  let res :=
    match err with
    | Some e =>
      if negb (Is e ErrClosed) && negb (Is e EOF) && negb (Is e ErrBrokenPipe) && negb (IsTimeout e)
      then mkTransfer n dir (Some e) else mkTransfer n dir None
    | None => mkTransfer n dir None
    end in
  (res, [Src; Dst]).

Record tunnel_sum : Type := mkSum { outBytes : Z; inBytes : Z; errs : list error }.

(** The loop that takes [k] results off the channel. *)
Fixpoint wait_loop (k : nat) (results : list TransferResult) (s : tunnel_sum)
    : outcome error tunnel_sum :=
  match k, results with
  | O, _ => Ok s
  | S _, [] => Diverge                  (* blocked on the channel *)
  | S k, res :: results =>
    let errs' := errs s ++ match tr_Err res with Some e => [e] | None => [] end in
    match Dir res with
    | TunnelDirOut => wait_loop k results (mkSum (Written res) (inBytes s) errs')
    | TunnelDirIn => wait_loop k results (mkSum (outBytes s) (Written res) errs')
    | TunnelDirOther _ => Err (ErrText "invalid tunnel dir")
    end
  end.

Definition WaitForTunnelCompletion (results : list TransferResult)
    (errHandler : option (list error → option error)) : outcome error (option error) :=
  s ← wait_loop 2 results (mkSum 0 0 []);
  Ok match errHandler with
     | Some h => h (errs s)
     | None => head (errs s)
     end.

(** ** [DialFastest] *)
Definition maxConcurrency : nat := 10.

(** [dialResult]: a connection, by number, or an error. *)
Inductive dialResult : Type := DialOk (conn : nat) | DialErr (err : error).

(** The worker of an address: not started, dialing, holding a result it has to
    hand over, finished; a finished worker either delivered its result or, once
    the context was cancelled, gave it up and closed its connection. *)
Inductive wstate : Type :=
| Waiting
| Dialing
| Holding (r : dialResult)       (* a connection, by number, or an error *)
| Delivered
| Dropped.

Inductive mstate : Type :=
| Collecting (left : nat) (firstError : option error) (failureCount : nat)
| ReturnedConn (c : nat)
| ReturnedErr (e : error).

Record dstate : Type := mkDial {
  workers : list wstate;
  queue : list (dialResult);      (* the buffered channel [results] *)
  main : mstate;
  open : gset nat;                       (* connections established, not closed *)
  cancelled : bool;
}.

Definition running (w : wstate) : bool :=
  match w with Dialing | Holding _ => true | _ => false end.
Definition busy (d : dstate) : nat := length (filter (λ w, running w = true) (workers d)).

Definition ErrNoAddrs : error := ErrText "no addresses provided to dial".

(** The state when the feeder and the collecting loop start; without an address
    the function returns at once. *)
Definition dial_start (n : nat) : dstate :=
  mkDial (replicate n Waiting) []
    (match n with O => ReturnedErr ErrNoAddrs | S _ => Collecting n None 0 end) ∅ false.

(** [fmt.Errorf("all connection attempts failed (total %d): %w", ...)] *)
Definition all_failed (count : nat) (e : error) : error :=
  ErrWrap ("all connection attempts failed (total " +:+ Itoa (Z.of_nat count) +:+ "): ") e.

Definition set_worker (i : nat) (w : wstate) (d : dstate) : dstate :=
  mkDial (<[i := w]> (workers d)) (queue d) (main d) (open d) (cancelled d).

Inductive dial_step : dstate → dstate → Prop :=
| dial_spawn d i :
    (* the feeder takes the next address and a slot of the semaphore *)
    workers d !! i = Some Waiting → (∀ j, (j < i)%nat → workers d !! j ≠ Some Waiting) →
    (busy d < maxConcurrency)%nat →
    dial_step d (set_worker i Dialing d)
| dial_bind_or_connect_fails d i e :
    workers d !! i = Some Dialing →
    dial_step d (set_worker i (Holding (DialErr e)) d)
| dial_connects d i c :
    workers d !! i = Some Dialing → c ∉ open d →
    dial_step d
      (mkDial (<[i := Holding (DialOk c)]> (workers d)) (queue d) (main d) ({[c]} ∪ open d) (cancelled d))
| dial_delivers d i r :
    (* [case results <- r]: the channel has room for every address *)
    workers d !! i = Some (Holding r) →
    dial_step d
      (mkDial (<[i := Delivered]> (workers d)) (queue d ++ [r]) (main d) (open d) (cancelled d))
| dial_gives_up d i r :
    (* [case <-ctx.Done()] *)
    workers d !! i = Some (Holding r) → cancelled d = true →
    dial_step d
      (mkDial (<[i := Dropped]> (workers d)) (queue d) (main d)
         (match r with DialOk c => open d ∖ {[c]} | _ => open d end) (cancelled d))
| dial_success d k fe n c q :
    main d = Collecting (S k) fe n → queue d = DialOk c :: q →
    dial_step d (mkDial (workers d) q (ReturnedConn c) (open d) true)
| dial_failure d k fe n e q :
    main d = Collecting (S k) fe n → queue d = DialErr e :: q →
    dial_step d
      (mkDial (workers d) q
         (Collecting k (match fe with None => Some e | _ => fe end) (S n)) (open d) (cancelled d))
| dial_all_failed d e n :
    main d = Collecting 0 (Some e) n →
    dial_step d (mkDial (workers d) (queue d) (ReturnedErr (all_failed n e)) (open d) true)
| dial_parent_cancels d k fe n :
    (* the caller's context ends: seen by the workers first, perhaps *)
    main d = Collecting k fe n → cancelled d = false →
    dial_step d (mkDial (workers d) (queue d) (main d) (open d) true)
| dial_parent_done d k fe n e :
    main d = Collecting (S k) fe n → cancelled d = true →
    dial_step d (mkDial (workers d) (queue d) (ReturnedErr e) (open d) true).

Definition dial_steps : dstate → dstate → Prop := rtc dial_step.

(** *** Counting *)
Definition b2n (b : bool) : nat := if b then 1 else 0.
Definition cnt {A} (f : A → bool) (l : list A) : nat := foldr (λ x n, b2n (f x) + n)%nat 0%nat l.

Lemma cnt_insert {A} (f : A → bool) l i x y :
  l !! i = Some x → (cnt f (<[i := y]> l) + b2n (f x) = cnt f l + b2n (f y))%nat.
Proof.
  revert i. induction l as [| a l IH]; intros [| i] Hi; simpl in *; try done.
  - injection Hi as ->. lia.
  - specialize (IH i Hi). lia.
Qed.

Lemma cnt_app {A} (f : A → bool) l k : cnt f (l ++ k) = (cnt f l + cnt f k)%nat.
Proof. induction l as [| a l IH]; simpl; [done |]. rewrite IH. lia. Qed.

Lemma cnt_replicate {A} (f : A → bool) n x : f x = false → cnt f (replicate n x) = 0%nat.
Proof. intros H. induction n as [| n IH]; simpl; [done |]. by rewrite H, IH. Qed.

Lemma cnt_length {A} (f : A → bool) l : (cnt f l <= length l)%nat.
Proof. induction l as [| a l IH]; simpl; [done |]. destruct (f a); simpl; lia. Qed.

Lemma cnt_full {A} (f : A → bool) l :
  cnt f l = length l → Forall (λ x, f x = true) l.
Proof.
  induction l as [| a l IH]; simpl; intros H; [constructor |].
  pose proof (cnt_length f l). destruct (f a) eqn:E; simpl in H; [| lia].
  constructor; [done | apply IH; lia].
Qed.

Lemma cnt_zero {A} (f g : A → bool) l :
  Forall (λ x, f x = true) l → (∀ x, f x = true → g x = false) → cnt g l = 0%nat.
Proof. intros Hf Hg. induction Hf as [| x l Hx _ IH]; simpl; [done |]. by rewrite (Hg x Hx), IH. Qed.

Lemma busy_cnt d : busy d = cnt running (workers d).
Proof.
  unfold busy. induction (workers d) as [| w l IH]; [done |].
  rewrite filter_cons. simpl. destruct (running w); simpl; rewrite <- IH; done.
Qed.

(** *** Where a connection can be *)
Definition is_conn (c : nat) (r : dialResult) : bool :=
  match r with DialOk c' => (c =? c')%nat | _ => false end.
Definition holds (c : nat) (w : wstate) : bool :=
  match w with Holding r => is_conn c r | _ => false end.
Definition returned (c : nat) (m : mstate) : bool :=
  match m with ReturnedConn c' => (c =? c')%nat | _ => false end.

(** How many owners a connection has: the worker that holds it, the channel,
    the caller. *)
Definition owners (c : nat) (d : dstate) : nat :=
  (cnt (holds c) (workers d) + cnt (is_conn c) (queue d) + b2n (returned c (main d)))%nat.

Definition delivered (w : wstate) : bool := match w with Delivered => true | _ => false end.

Record dial_inv (n : nat) (d : dstate) : Prop := {
  inv_len : length (workers d) = n;
  inv_busy : (cnt running (workers d) <= maxConcurrency)%nat;
  inv_owners c : owners c d = if decide (c ∈ open d) then 1%nat else 0%nat;
  inv_count k fe m : main d = Collecting k fe m →
    (k + m = n)%nat ∧ cnt delivered (workers d) = (m + length (queue d))%nat ∧
    (fe = None → m = 0%nat) ∧ (0 < n)%nat;
  inv_dropped i : workers d !! i = Some Dropped → cancelled d = true;
}.

Lemma dial_start_inv n : dial_inv n (dial_start n).
Proof.
  split; simpl.
  - by rewrite length_replicate.
  - rewrite cnt_replicate by done. lia.
  - intros c. unfold owners. simpl. rewrite cnt_replicate by done. by destruct n.
  - intros k fe m Hm. destruct n; [done |]. injection Hm as <- <- <-.
    rewrite cnt_replicate by done. split_and!; [lia | done | done | lia].
  - intros i [? _]%lookup_replicate. done.
Qed.

Ltac counted i x y :=
  match goal with
  | Hi : workers ?d !! i = Some x |- _ =>
    pose proof (cnt_insert running (workers d) i x y Hi) as Hrun;
    pose proof (cnt_insert delivered (workers d) i x y Hi) as Hdel;
    pose proof (λ c, cnt_insert (holds c) (workers d) i x y Hi) as Hhold;
    simpl in Hrun, Hdel, Hhold
  end.

(** Another worker than the one that moved. *)
Lemma dropped_insert (l : list wstate) i j w (P : Prop) :
  (l !! j = Some Dropped → P) → (w = Dropped → P) → <[i := w]> l !! j = Some Dropped → P.
Proof. intros H1 H2 [(_ & ? & _) | (_ & ?)]%list_lookup_insert_Some; auto. Qed.

Lemma dial_worker_inv n d d' :
  dial_step d d' → main d' = main d → cancelled d' = cancelled d → dial_inv n d → dial_inv n d'.
Proof.
  intros Hst Hmain Hc' [Hlen Hbusy Hown Hcnt Hdrop].
  destruct Hst as [d i Hi Hfirst Hb | d i e Hi | d i c Hi Hc | d i r Hi | d i r Hi Hx
    | d k fe m c q Hm Hq | d k fe m e q Hm Hq | d e m Hm | d k fe m Hm Hx | d k fe m e Hm Hx];
    simpl in Hmain, Hc'; rewrite ?Hm in Hmain; simplify_eq;
    [| | | | | exfalso; lia | congruence].
  - counted i Waiting Dialing. rewrite busy_cnt in Hb.
    split; simpl; [by rewrite length_insert | lia | | | intros j; by apply dropped_insert; [apply Hdrop |]].
    + intros c. specialize (Hown c). specialize (Hhold c). unfold owners in *. simpl. lia.
    + intros k fe m Hm. destruct (Hcnt k fe m Hm) as (? & ? & ? & ?). split_and!; [lia | lia | done | done].
  - counted i Dialing (Holding (DialErr e)).
    split; simpl; [by rewrite length_insert | lia | | | intros j; by apply dropped_insert; [apply Hdrop |]].
    + intros c. specialize (Hown c). specialize (Hhold c). unfold owners in *. simpl. lia.
    + intros k fe m Hm. destruct (Hcnt k fe m Hm) as (? & ? & ? & ?). split_and!; [lia | lia | done | done].
  - counted i Dialing (Holding (DialOk c)).
    split; simpl; [by rewrite length_insert | lia | | | intros j; by apply dropped_insert; [apply Hdrop |]].
    + intros c1. specialize (Hown c1). specialize (Hhold c1). unfold owners in *. simpl.
      destruct (Nat.eqb_spec c1 c) as [-> | Hne]; simpl in Hhold.
      * rewrite decide_False in Hown by done. rewrite decide_True by set_solver. lia.
      * rewrite (decide_ext _ (c1 ∈ open d)) by set_solver. lia.
    + intros k fe m Hm. destruct (Hcnt k fe m Hm) as (? & ? & ? & ?). split_and!; [lia | lia | done | done].
  - counted i (Holding r) Delivered.
    split; simpl; [by rewrite length_insert | lia | | | intros j; by apply dropped_insert; [apply Hdrop |]].
    + intros c. specialize (Hown c). specialize (Hhold c). unfold owners in *. simpl.
      rewrite cnt_app. simpl. lia.
    + intros k fe m Hm. destruct (Hcnt k fe m Hm) as (? & ? & ? & ?). rewrite length_app. simpl.
      split_and!; [lia | lia | done | done].
  - counted i (Holding r) Dropped.
    split; simpl; [by rewrite length_insert | lia | | | intros j; by apply dropped_insert; [apply Hdrop |]].
    + intros c. specialize (Hown c). specialize (Hhold c). unfold owners in *. simpl.
      destruct r as [c1 | e]; simpl in Hhold; try lia.
      destruct (Nat.eqb_spec c c1) as [-> | Hne]; simpl in Hhold.
      * rewrite (decide_False (P := c1 ∈ _ ∖ _)) by set_solver.
        destruct (decide (c1 ∈ open d)); lia.
      * rewrite (decide_ext (c ∈ open d ∖ {[c1]}) (c ∈ open d)) by set_solver. lia.
    + intros k fe m Hm. destruct (Hcnt k fe m Hm) as (? & ? & ? & ?). split_and!; [lia | lia | done | done].
Qed.

Lemma dial_step_inv n d d' : dial_step d d' → dial_inv n d → dial_inv n d'.
Proof.
  intros Hst. pose proof (dial_worker_inv n d d' Hst) as Hw.
  destruct Hst as [d i Hi Hfirst Hb | d i e Hi | d i c Hi Hc | d i r Hi | d i r Hi Hx
    | d k fe m c q Hm Hq | d k fe m e q Hm Hq | d e m Hm | d k fe m Hm Hx | d k fe m e Hm Hx];
    try (by apply Hw); clear Hw; intros [Hlen Hbusy Hown Hcnt Hdrop].
  - split; simpl; [done.. | | done | done].
    intros c1. specialize (Hown c1). unfold owners in *. simpl. rewrite Hm, Hq in Hown.
    simpl in Hown. lia.
  - split; simpl; [done.. | | | done].
    + intros c1. specialize (Hown c1). unfold owners in *. simpl. rewrite Hm, Hq in Hown.
      simpl in Hown. lia.
    + intros k1 fe1 m1 [= <- <- <-]. destruct (Hcnt _ _ _ Hm) as (H1 & H2 & H3 & H4).
      rewrite Hq in H2. simpl in H2. split_and!; [lia | lia | by destruct fe | done].
  - split; simpl; [done.. | | done | done].
    intros c1. specialize (Hown c1). unfold owners in *. simpl. rewrite Hm in Hown. done.
  - split; simpl; [done.. | | done | done]. intros c1. specialize (Hown c1). done.
  - split; simpl; [done.. | | done | done].
    intros c1. specialize (Hown c1). unfold owners in *. simpl. rewrite Hm in Hown. done.
Qed.

Lemma dial_steps_inv n d : dial_steps (dial_start n) d → dial_inv n d.
Proof.
  intros H. assert (∀ d0, dial_steps d0 d → dial_inv n d0 → dial_inv n d) as Hs.
  { clear H. induction 1 as [| d0 d1 d2 Hst _ IH]; [done |]. eauto using dial_step_inv. }
  apply (Hs _ H), dial_start_inv.
Qed.

(** C29. Dialing every address at once: at any point of any run, at most ten
    dials are under way; the connection the caller is given is open, and no
    later step closes it; the failure of all dials is only reported when every
    worker has failed and no connection is left; and a connection still open
    belongs to a worker, to the channel or to the caller, to one of them only. *)
Theorem DialFastest_safe (n : nat) (d : dstate) :
  dial_steps (dial_start n) d →
  (busy d <= maxConcurrency)%nat ∧
  (∀ c, main d = ReturnedConn c → c ∈ open d ∧
     ∀ d', dial_step d d' → main d' = ReturnedConn c ∧ c ∈ open d') ∧
  (∀ fe m, main d = Collecting 0 fe m → open d = ∅ ∧ m = n ∧ Forall (λ w, delivered w = true) (workers d)) ∧
  (∀ c, c ∈ open d ↔ owners c d = 1%nat) ∧ (∀ c, (owners c d <= 1)%nat).
Proof.
  intros Hinv%dial_steps_inv. pose proof Hinv as [Hlen Hbusy Hown Hcnt _].
  assert (∀ d c, dial_inv n d → main d = ReturnedConn c → c ∈ open d) as Hret.
  { intros d1 c Hi Hm. pose proof (inv_owners _ _ Hi c) as Ho. unfold owners in Ho. rewrite Hm in Ho.
    simpl in Ho. rewrite Nat.eqb_refl in Ho. simpl in Ho.
    destruct (decide (c ∈ open d1)); [done | lia]. }
  split_and!.
  - by rewrite busy_cnt.
  - intros c Hm. split; [by eapply Hret |]. intros d' Hst.
    assert (main d' = ReturnedConn c) as Hm' by (destruct Hst; simpl; congruence).
    split; [done |]. eapply Hret; [by eapply dial_step_inv | done].
  - intros fe m Hm. destruct (Hcnt 0%nat fe m Hm) as (H1 & H2 & _ & _).
    pose proof (cnt_length delivered (workers d)) as Hle.
    assert (queue d = []) as Hq by (apply nil_length_inv; lia).
    assert (Forall (λ w, delivered w = true) (workers d)) as Hall by (apply cnt_full; lia).
    split_and!; [| lia | done]. apply set_eq. intros c. split; [| set_solver]. intros Hc.
    specialize (Hown c). rewrite decide_True in Hown by done. unfold owners in Hown.
    rewrite Hq, Hm in Hown. simpl in Hown.
    rewrite (cnt_zero delivered (holds c) (workers d) Hall) in Hown; [lia | by intros []].
  - intros c. rewrite Hown. destruct (decide (c ∈ open d)); naive_solver.
  - intros c. rewrite Hown. destruct (decide _); lia.
Qed.

(** *** Termination *)
Definition returned_main (m : mstate) : bool :=
  match m with Collecting _ _ _ => false | _ => true end.

(** What is left to do: of a worker, and in all. *)
Definition worker_left (w : wstate) : nat :=
  match w with Waiting => 4 | Dialing => 3 | Holding _ => 2 | Delivered | Dropped => 0 end.
Definition work_left (l : list wstate) : nat := foldr (λ w n, worker_left w + n)%nat 0%nat l.
Definition dial_left (d : dstate) : nat :=
  (work_left (workers d) + length (queue d) +
   match main d with Collecting k _ _ => S k | _ => 0 end + b2n (negb (cancelled d)))%nat.

Lemma work_left_insert l i x y :
  l !! i = Some x →
  (work_left (<[i := y]> l) + worker_left x = work_left l + worker_left y)%nat.
Proof.
  revert i. induction l as [| a l IH]; intros [| i] Hi; simpl in *; try done.
  - injection Hi as ->. lia.
  - specialize (IH i Hi). lia.
Qed.

Lemma dial_step_left d d' : dial_step d d' → (dial_left d' < dial_left d)%nat.
Proof.
  intros Hst. unfold dial_left. destruct Hst as [d i Hi _ _ | d i e Hi | d i c Hi _ | d i r Hi
    | d i r Hi _ | d k fe m c q Hm Hq | d k fe m e q Hm Hq | d e m Hm | d k fe m Hm Hc
    | d k fe m e Hm Hc]; simpl;
    try match goal with |- context [<[?i := ?y]> _] =>
      pose proof (work_left_insert _ i _ y Hi) as Hw; simpl in Hw end;
    rewrite ?Hm, ?Hq, ?Hc, ?length_app; simpl; try lia; destruct (cancelled d); simpl; lia.
Qed.

Lemma work_left_start n : work_left (replicate n Waiting) = (4 * n)%nat.
Proof. induction n as [| n IH]; [done |]. simpl. rewrite IH. lia. Qed.

Lemma is_waiting_dec (w : wstate) : w = Waiting ∨ w ≠ Waiting.
Proof. destruct w; auto. Qed.

Lemma first_waiting (l : list wstate) i :
  l !! i = Some Waiting →
  ∃ j, l !! j = Some Waiting ∧ ∀ k, (k < j)%nat → l !! k ≠ Some Waiting.
Proof.
  revert i. induction l as [| w l IH]; intros i Hi; [done |].
  destruct (is_waiting_dec w) as [-> | Hw].
  - exists 0%nat. split; [done | lia].
  - destruct i as [| i]; [by injection Hi |]. destruct (IH i Hi) as (j & Hj & Hmin).
    exists (S j). split; [done |]. intros [| k] Hk; simpl; [by intros [= ?] | apply Hmin; lia].
Qed.

Lemma cnt_below {A} (f : A → bool) (l : list A) :
  (cnt f l < length l)%nat → ∃ i x, l !! i = Some x ∧ f x = false.
Proof.
  induction l as [| a l IH]; simpl; intros H; [lia |]. destruct (f a) eqn:E; simpl in H.
  - destruct IH as (i & x & ? & ?); [lia |]. by exists (S i), x.
  - by exists 0%nat, a.
Qed.

Lemma cnt_above {A} (f : A → bool) (l : list A) :
  (0 < cnt f l)%nat → ∃ i x, l !! i = Some x ∧ f x = true.
Proof.
  induction l as [| a l IH]; simpl; intros H; [lia |]. destruct (f a) eqn:E; simpl in H.
  - by exists 0%nat, a.
  - destruct IH as (i & x & ? & ?); [lia |]. by exists (S i), x.
Qed.

Lemma running_steps d i w : workers d !! i = Some w → running w = true → ∃ d', dial_step d d'.
Proof.
  intros Hi Hr. destruct w as [| | r | |]; try done; eexists.
  - by apply (dial_bind_or_connect_fails d i EOF).
  - by eapply dial_delivers.
Qed.

(** While the loop collects, something can happen. *)
Lemma dial_progress n d :
  dial_inv n d → returned_main (main d) = false → ∃ d', dial_step d d'.
Proof.
  intros [Hlen Hbusy _ Hcnt Hdrop] Hm. destruct (main d) as [k fe m | |] eqn:E; try done.
  destruct (Hcnt k fe m eq_refl) as (H1 & H2 & H3 & H4).
  destruct k as [| k].
  { destruct fe as [e |]; [| specialize (H3 eq_refl); lia]. eexists. by eapply dial_all_failed. }
  destruct (queue d) as [| [c | e] q] eqn:Eq.
  2: { eexists. by eapply dial_success. }
  2: { eexists. by eapply dial_failure. }
  destruct (cnt_below delivered (workers d)) as (i & w & Hi & Hw); [simpl in H2; lia |].
  destruct w as [| | r | |]; try done; [| by eapply running_steps.. |].
  - destruct (decide (cnt running (workers d) < maxConcurrency)%nat) as [Hlt | Hge].
    + destruct (first_waiting _ _ Hi) as (j & Hj & Hmin). eexists. eapply dial_spawn; [done.. |].
      by rewrite busy_cnt.
    + destruct (cnt_above running (workers d)) as (j & x & Hj & Hx); [unfold maxConcurrency in *; lia |].
      by eapply running_steps.
  - eexists. eapply (dial_parent_done d k fe m EOF); [done | by eapply Hdrop].
Qed.

(** C30. Dialing always comes to an end: every run has at most [6 n + 2] steps for
    [n] addresses, whatever the network does, and a run that cannot go on has
    returned a connection or an error to the caller. *)
Theorem DialFastest_returns (n k : nat) (d : dstate) :
  nsteps dial_step k (dial_start n) d →
  (k <= 6 * n + 2)%nat ∧
  ((∀ d', ¬ dial_step d d') → returned_main (main d) = true).
Proof.
  intros Hk. split.
  - assert (∀ d0, nsteps dial_step k d0 d → (k + dial_left d <= dial_left d0)%nat) as Hle.
    { clear Hk. induction k as [| k IH]; intros d0 Hs; inversion Hs as [| ? ? d1 ? Hst Hs']; subst; [lia |].
      apply dial_step_left in Hst. specialize (IH _ Hs'). lia. }
    specialize (Hle _ Hk). unfold dial_left in Hle. simpl in Hle. rewrite work_left_start in Hle.
    destruct n; simpl in Hle; lia.
  - intros Hstuck. pose proof (rtc_nsteps_2 _ _ _ Hk) as Hr. apply dial_steps_inv in Hr.
    destruct (returned_main (main d)) eqn:E; [done |].
    destruct (dial_progress n d Hr E) as [d' Hd]. by destruct (Hstuck d').
Qed.

(** Two dials succeed; the caller takes the first, and the second connection
    stays in the channel, where nobody closes it. *)
Definition leaked : dstate :=
  mkDial [Delivered; Delivered] [DialOk 1%nat] (ReturnedConn 0) {[1%nat; 0%nat]} true.

Lemma leaked_nsteps : nsteps dial_step 7 (dial_start 2) leaked.
Proof.
  eapply nsteps_l; [apply (dial_spawn _ 0); [done | lia | vm_compute; lia] |].
  eapply nsteps_l; [apply (dial_spawn _ 1); [done | | vm_compute; lia] |].
  { intros [| j] Hj; [done | lia]. }
  eapply nsteps_l; [apply (dial_connects _ 0 0); [done | simpl; set_solver] |].
  eapply nsteps_l; [apply (dial_connects _ 1 1); [done | simpl; set_solver] |].
  eapply nsteps_l; [by apply (dial_delivers _ 0 (DialOk 0%nat)) |].
  eapply nsteps_l; [by apply (dial_delivers _ 1 (DialOk 1%nat)) |].
  eapply nsteps_l; [by apply (dial_success _ 1 None 0 0 [DialOk 1%nat]) |].
  simpl. rewrite union_empty_r_L. apply nsteps_O.
Qed.

Lemma leaked_reachable : dial_steps (dial_start 2) leaked.
Proof. exact (rtc_nsteps_2 _ _ _ leaked_nsteps). Qed.

Lemma DialFastest_leaks :
  ∃ d, dial_steps (dial_start 2) d ∧ main d = ReturnedConn 0 ∧ 1%nat ∈ open d ∧
    ∀ d', ¬ dial_step d d'.
Proof.
  exists leaked. split; [apply leaked_reachable |]. split; [done |]. split; [set_solver |].
  intros d' Hst. inversion Hst; subst; simpl in *;
    repeat match goal with H : _ !! ?i = Some _ |- _ => destruct i as [| [| i]]; simpl in H; simplify_eq end;
    simplify_eq.
Qed.

Lemma DialFastest_safe_witness :
  dial_steps (dial_start 2) leaked ∧ 0%nat ∈ open leaked ∧ owners 1 leaked = 1%nat.
Proof.
  destruct (DialFastest_safe 2 leaked leaked_reachable) as (_ & H & _ & Ho & _).
  split; [apply leaked_reachable |]. split; [exact (proj1 (H 0%nat eq_refl)) |]. apply Ho. unfold leaked. simpl. set_solver.
Defined.

Lemma DialFastest_returns_witness :
  nsteps dial_step 7 (dial_start 2) leaked ∧ (7 <= 14)%nat.
Proof.
  split; [exact leaked_nsteps |]. exact (proj1 (DialFastest_returns 2 7 leaked leaked_nsteps)).
Defined.
