(* ===== verification/Conns.v ===== *)
(** * Wrapped connections: the rest of [internal/netutil/conn.go]

    [BufferedConn] lets a handler look at the first bytes of a client and still
    forward them. It is modelled as the buffer of [bufio.Reader] over a source
    that delivers its bytes in chunks of any size, and refines the byte reader
    ([GoIO.reader]) that the handlers and parsers are proved with. The copy loop
    of a tunnel and the byte counters of [TrackingConn] are here too. *)

From S2P Require Import Prelude GoIO GoNet GoStrings NetText NetUtil.

Local Open Scope list_scope.
Local Open Scope Z_scope.

(** ** Sources: a connection's bytes as the system delivers them *)
Record source : Type := mkSource { chunks : list bytes; s_final : error }.

(** [conn.Read(p)] with [len(p) = n]. *)
Definition conn_Read (n : Z) (s : source) : bytes * option error * source :=
  match chunks s with
  | [] => ([], Some (s_final s), s)
  | c :: cs =>
    if len c <=? n then (c, None, mkSource cs (s_final s))
    else (take (Z.to_nat n) c, None, mkSource (drop (Z.to_nat n) c :: cs) (s_final s))
  end.

(** ** [bufio.Reader] over a source *)
Record BufferedConn : Type := mkBuffered { b_buf : bytes; b_err : option error; b_src : source }.

Definition bufSize : Z := 4096.
Definition ErrBufferFull : error := ErrText "bufio: buffer full".
Definition ErrNegativeCount : error := ErrText "bufio: negative count".

Definition NewBufferedConn (s : source) : BufferedConn := mkBuffered [] None s.

(** [b.fill()]: one read into the free part of the buffer. *)
Definition fill (b : BufferedConn) : BufferedConn :=
  let '(d, err, s) := conn_Read (bufSize - len (b_buf b)) (b_src b) in
  mkBuffered (b_buf b ++ d) err s.

Fixpoint peek_loop (fuel : nat) (n : Z) (b : BufferedConn) : outcome error BufferedConn :=
  if (len (b_buf b) <? n) && (len (b_buf b) <? bufSize) && bool_decide (b_err b = None) then
    match fuel with O => Diverge | S fuel => peek_loop fuel n (fill b) end
  else Ok b.

(** [BufferedConn.Peek]: the bytes and the error. *)
Definition Peek (n : Z) (b : BufferedConn) : outcome error (bytes * option error * BufferedConn) :=
  if n <? 0 then Ok ([], Some ErrNegativeCount, b)
  else
    b ← peek_loop (Z.to_nat bufSize) n b;
    if bufSize <? n then Ok (b_buf b, Some ErrBufferFull, b)
    else if len (b_buf b) <? n then
      Ok (b_buf b, Some (default ErrBufferFull (b_err b)), mkBuffered (b_buf b) None (b_src b))
    else Ok (take (Z.to_nat n) (b_buf b), None, b).

(** [BufferedConn.Read(p)] with [len(p) = n]. *)
Definition Read (n : Z) (b : BufferedConn) : bytes * option error * BufferedConn :=
  let copy b :=
    (take (Z.to_nat n) (b_buf b), None, mkBuffered (drop (Z.to_nat n) (b_buf b)) (b_err b) (b_src b)) in
  if n =? 0 then
    if 0 <? len (b_buf b) then ([], None, b) else ([], b_err b, mkBuffered [] None (b_src b))
  else if len (b_buf b) =? 0 then
    match b_err b with
    | Some er => ([], Some er, mkBuffered [] None (b_src b))
    | None =>
      if bufSize <=? n then
        let '(d, err, s) := conn_Read n (b_src b) in (d, err, mkBuffered [] None s)
      else
        let '(d, err, s) := conn_Read bufSize (b_src b) in
        if len d =? 0 then ([], err, mkBuffered [] None s) else copy (mkBuffered d err s)
    end
  else copy b.

(** [io.ReadFull] over [Read]: [acc] holds the bytes read so far. *)
Fixpoint read_full_loop (fuel : nat) (n : Z) (acc : bytes) (b : BufferedConn)
    : outcome error (bytes * BufferedConn) :=
  if n <=? len acc then Ok (acc, b)
  else
    match fuel with
    | O => Diverge
    | S fuel =>
      let '(d, err, b) := Read (n - len acc) b in
      let acc := acc ++ d in
      match err with
      | None => read_full_loop fuel n acc b
      | Some er =>
        if n <=? len acc then Ok (acc, b)
        else Err (if (0 <? len acc) && bool_decide (er = EOF) then ErrUnexpectedEOF else er)
      end
    end.
Definition ReadFull_conn (n : Z) (b : BufferedConn) : outcome error (bytes * BufferedConn) :=
  read_full_loop (Z.to_nat n) n [] b.

(** ** The reader a buffered connection stands for *)
Definition view (b : BufferedConn) : reader :=
  mkReader (b_buf b ++ mjoin (chunks (b_src b))) (s_final (b_src b)).

Record buffered_wf (b : BufferedConn) : Prop := {
  wf_chunks : Forall (λ c, c ≠ []) (chunks (b_src b));
  wf_buf : len (b_buf b) <= bufSize;
  wf_err : ∀ er, b_err b = Some er → er = s_final (b_src b) ∧ chunks (b_src b) = [];
}.

Lemma NewBufferedConn_wf s : Forall (λ c, c ≠ []) (chunks s) → buffered_wf (NewBufferedConn s).
Proof. intros H. by split. Qed.

Lemma conn_Read_spec n s d err s' : 0 < n → Forall (λ c, c ≠ []) (chunks s) →
  conn_Read n s = (d, err, s') →
  mjoin (chunks s) = d ++ mjoin (chunks s') ∧ s_final s' = s_final s ∧ len d <= n ∧
  Forall (λ c, c ≠ []) (chunks s') ∧
  (err = None ∧ 0 < len d ∨ err = Some (s_final s) ∧ d = [] ∧ s' = s ∧ chunks s = []).
Proof.
  unfold conn_Read. intros Hn Hwf E. destruct s as [[| c cs] fin]; cbn [chunks s_final] in *.
  - injection E as <- <- <-. split_and!; try done; [unfold len; simpl; lia |]. by right.
  - apply Forall_cons in Hwf as [Hc Hcs].
    assert (0 < len c) as Hlc by (destruct c; [done | rewrite len_cons; pose proof (len_nonneg c); lia]).
    destruct (Z.leb_spec (len c) n); injection E as <- <- <-.
    + split_and!; try done. left. by split.
    + cbn [chunks s_final]. split_and!; try done.
      * change (c ++ mjoin cs = take (Z.to_nat n) c ++ drop (Z.to_nat n) c ++ mjoin cs).
        by rewrite app_assoc, take_drop.
      * len_lia.
      * apply Forall_cons. split; [| done]. intros Hd. apply (f_equal len) in Hd. len_lia.
      * left. split; [done | len_lia].
Qed.

(** Peeking: the loop ends, and does not change what is to be read. *)
Lemma fill_spec b : buffered_wf b → b_err b = None → len (b_buf b) < bufSize →
  buffered_wf (fill b) ∧ view (fill b) = view b ∧
  (b_err (fill b) = None ∧ len (b_buf b) < len (b_buf (fill b)) ∨ is_Some (b_err (fill b))).
Proof.
  intros [Hc Hb He] Herr Hlt. unfold fill.
  destruct (conn_Read (bufSize - len (b_buf b)) (b_src b)) as [[d err] s] eqn:E.
  apply conn_Read_spec in E as (Hj & Hf & Hl & Hc' & Hcase); [| lia | done].
  split; [split; cbn [b_src b_buf b_err] | split].
  - done.
  - rewrite len_app. lia.
  - intros er ->. destruct Hcase as [[? _] | (He' & _ & -> & Hnil)]; [done |]. injection He' as ->. done.
  - unfold view. cbn [b_buf b_src]. by rewrite <- app_assoc, <- Hj, Hf.
  - cbn [b_err b_buf]. destruct Hcase as [[-> ?] | (-> & _)]; [left | right; done].
    split; [done |]. rewrite len_app. lia.
Qed.

Lemma peek_loop_spec fuel n b : buffered_wf b → bufSize - len (b_buf b) <= Z.of_nat fuel →
  ∃ b', peek_loop fuel n b = Ok b' ∧ buffered_wf b' ∧ view b' = view b ∧
    (n <= len (b_buf b') ∨ bufSize <= len (b_buf b') ∨ is_Some (b_err b')).
Proof.
  revert b. induction fuel as [| fuel IH]; intros b Hwf Hfuel; cbn [peek_loop].
  - destruct ((len (b_buf b) <? n) && (len (b_buf b) <? bufSize) && bool_decide (b_err b = None)) eqn:E;
      [case_bool; lia |]. exists b. split; [done |]. split; [done |]. split; [done |]. right; left. lia.
  - destruct ((len (b_buf b) <? n) && (len (b_buf b) <? bufSize) && bool_decide (b_err b = None)) eqn:E.
    + apply andb_true_iff in E as [E He%bool_decide_eq_true]. case_bool.
      destruct (fill_spec b Hwf He) as (Hwf' & Hv & Hcase); [done |].
      destruct Hcase as [[He' Hlt] | He'].
      * destruct (IH (fill b) Hwf') as (b' & -> & Hb' & Hv' & Hend); [lia |].
        exists b'. split; [done |]. split; [done |]. split; [congruence | done].
      * exists (fill b). split; [| by auto].
        destruct fuel; cbn [peek_loop]; rewrite (bool_decide_false (b_err (fill b) = None)), andb_false_r;
          try done; intros Hbad; rewrite Hbad in He'; by destruct He'.
    + exists b. split; [done |]. split; [done |]. split; [done |].
      apply andb_false_iff in E as [[E | E]%andb_false_iff | E%bool_decide_eq_false]; case_bool; auto.
      right; right. destruct (b_err b); [by eexists | done].
Qed.

Lemma Peek_spec n b : buffered_wf b → 0 <= n <= bufSize →
  ∃ b', Peek n b = Ok (take (Z.to_nat n) (pending (view b)),
      if n <=? len (pending (view b)) then None else Some (final (view b)), b') ∧
    buffered_wf b' ∧ view b' = view b.
Proof.
  intros Hwf Hn. unfold Peek. replace (n <? 0) with false by lia.
  destruct (peek_loop_spec (Z.to_nat bufSize) n b Hwf) as (b' & -> & Hwf' & Hv & Hend);
    [pose proof (len_nonneg (b_buf b)); unfold bufSize in *; lia |].
  cbn [mbind outcome_bind]. replace (bufSize <? n) with false by lia. rewrite <- Hv. clear b Hwf Hv.
  unfold view. cbn [pending final]. rewrite len_app.
  destruct (Z.ltb_spec (len (b_buf b')) n) as [Hlt | Hge].
  - destruct Hend as [? | [? | [er Her]]]; [lia | unfold bufSize in *; lia |].
    destruct (wf_err b' Hwf' er Her) as [-> Hnil]. rewrite Her, Hnil. cbn [default].
    change (mjoin []) with (@nil Z). rewrite app_nil_r. exists (mkBuffered (b_buf b') None (b_src b')).
    change (len (@nil Z)) with 0. replace (n <=? len (b_buf b') + 0) with false by lia.
    rewrite take_ge by (unfold len in Hlt; lia). cbn [b_buf b_src]. rewrite Hnil.
    split; [done |]. split; [| by rewrite app_nil_r]. destruct Hwf' as [Hc Hb _].
    split; cbn [b_buf b_src b_err]; [by rewrite Hnil in * | done | done].
  - exists b'. pose proof (len_nonneg (mjoin (chunks (b_src b')))).
    replace (n <=? len (b_buf b') + len (mjoin (chunks (b_src b')))) with true by lia.
    rewrite take_app_le by (unfold len in Hge; lia). done.
Qed.

(** A read returns the front of what is to be read, or the error of the source
    when nothing is left. *)
Lemma Read_spec n b d err b' : buffered_wf b → 0 < n → Read n b = (d, err, b') →
  buffered_wf b' ∧ pending (view b) = d ++ pending (view b') ∧ final (view b') = final (view b) ∧
  len d <= n ∧
  (err = None ∧ 0 < len d ∨ err = Some (final (view b)) ∧ d = [] ∧ pending (view b) = []).
Proof.
  intros Hwf Hn. unfold Read. replace (n =? 0) with false by lia.
  assert (∀ b, buffered_wf b → 0 < len (b_buf b) →
    (take (Z.to_nat n) (b_buf b), None, mkBuffered (drop (Z.to_nat n) (b_buf b)) (b_err b) (b_src b)) =
      (d, err, b') →
    buffered_wf b' ∧ pending (view b) = d ++ pending (view b') ∧ final (view b') = final (view b) ∧
    len d <= n ∧ err = None ∧ 0 < len d) as Hcopy.
  { intros b0 [Hc Hb He] Hpos [= <- <- <-]. unfold view. cbn [pending final b_buf b_src].
    split; [split; cbn [b_buf b_src b_err]; [done | len_lia | done] |].
    rewrite app_assoc, take_drop. split; [done |]. split; [done |]. split; [len_lia |]. split; [done | len_lia]. }
  destruct (Z.eqb_spec (len (b_buf b)) 0) as [H0 | H0].
  - apply len_nil_inv in H0. destruct Hwf as [Hc Hb He]. destruct (b_err b) as [er |] eqn:Eerr.
    + intros [= <- <- <-]. destruct (He er eq_refl) as [-> Hnil]. unfold view. cbn [pending final b_buf b_src].
      rewrite H0, Hnil. split; [split; cbn [b_buf b_src b_err]; [by rewrite Hnil | unfold len; simpl; unfold bufSize; lia | done] |].
      split; [done |]. split; [done |]. split; [unfold len; simpl; lia |]. by right.
    + destruct (Z.leb_spec bufSize n) as [Hbig | Hsmall].
      * destruct (conn_Read n (b_src b)) as [[d0 err0] s] eqn:E. intros [= <- <- <-].
        apply conn_Read_spec in E as (Hj & Hf & Hl & Hc' & Hcase); [| lia | done].
        unfold view. cbn [pending final b_buf b_src]. rewrite H0. cbn [app].
        split; [split; cbn [b_buf b_src b_err]; [done | unfold len; simpl; unfold bufSize; lia | done] |].
        split; [done |]. split; [done |]. split; [done |].
        destruct Hcase as [? | (-> & -> & -> & Hnil)]; [by left |]. right. by rewrite Hnil.
      * destruct (conn_Read bufSize (b_src b)) as [[d0 err0] s] eqn:E.
        apply conn_Read_spec in E as (Hj & Hf & Hl & Hc' & Hcase); [| unfold bufSize; lia | done].
        destruct (Z.eqb_spec (len d0) 0) as [Hd0 | Hd0].
        -- intros [= <- <- <-]. destruct Hcase as [[_ ?] | (-> & -> & -> & Hnil)]; [lia |].
           unfold view. cbn [pending final b_buf b_src]. rewrite H0, Hnil.
           split; [split; cbn [b_buf b_src b_err]; [by rewrite Hnil | unfold len; simpl; unfold bufSize; lia | done] |].
           split; [done |]. split; [done |]. split; [unfold len; simpl; lia |]. by right.
        -- destruct Hcase as [[-> Hpos] | (_ & -> & _)]; [| done].
           intros Heq. destruct (Hcopy (mkBuffered d0 None s)) as (Hw & Hp & Hfin & Hld & Herr & Hpd);
             [by split | done | done |].
           unfold view in Hp, Hfin |- *. cbn [pending final b_buf b_src] in *. rewrite H0. cbn [app].
           rewrite Hj, Hp, Hfin. split_and!; try done. by left.
  - intros Heq. pose proof (len_nonneg (b_buf b)).
    destruct (Hcopy b Hwf ltac:(lia) Heq) as (? & ? & ? & ? & ? & ?). split_and!; try done. by left.
Qed.

(** Reading [n] bytes through a buffered connection is reading them from the
    reader it stands for. *)
Lemma read_full_loop_spec fuel n acc b : buffered_wf b → 0 <= n → n - len acc <= Z.of_nat fuel →
  len acc <= n →
  match GoIO.ReadFull n (mkReader (acc ++ pending (view b)) (final (view b))) with
  | Ok (l, r) => ∃ b', read_full_loop fuel n acc b = Ok (l, b') ∧ view b' = r ∧ buffered_wf b'
  | Err er => read_full_loop fuel n acc b = Err er
  | _ => False
  end.
Proof.
  revert acc b. induction fuel as [| fuel IH]; intros acc b Hwf Hn Hfuel Hacc; cbn [read_full_loop].
  - assert (n = len acc) as Heq by lia. rewrite (ReadFull_app_n n acc) by done.
    replace (n <=? len acc) with true by lia. by exists b.
  - destruct (Z.leb_spec n (len acc)) as [Hge | Hlt].
    { assert (n = len acc) as Heq by lia. rewrite (ReadFull_app_n n acc) by done. by exists b. }
    destruct (Read (n - len acc) b) as [[d err] b'] eqn:E.
    destruct (Read_spec (n - len acc) b d err b' Hwf ltac:(lia) E) as (Hwf' & Hp & Hf & Hld & Hcase).
    destruct Hcase as [[-> Hpos] | (-> & -> & Hnil)].
    + specialize (IH (acc ++ d) b' Hwf' Hn). rewrite len_app in IH.
      specialize (IH ltac:(lia) ltac:(lia)). by rewrite Hp, app_assoc, <- Hf.
    + rewrite Hnil, !app_nil_r. rewrite ReadFull_short by done.
      replace (n <=? len acc) with false by lia. destruct (decide (acc = [])) as [-> | Hne].
      * done.
      * assert (0 < len acc) as Hl by (destruct acc; [done | rewrite len_cons; pose proof (len_nonneg acc); lia]).
        replace (0 <? len acc) with true by lia. cbn [andb]. by destruct (decide (final (view b) = EOF)) as [-> |];
          [rewrite bool_decide_true | rewrite bool_decide_false].
Qed.

(** C31. A buffered connection refines the byte reader. However the network cuts the
    stream into chunks: peeking (up to the size of the buffer) shows the bytes
    that come next and takes none of them, reporting the source's error only
    when there are fewer; and reading [n] bytes afterwards returns exactly what
    reading them from the stream would, errors included, and never blocks on a
    stream that has them. *)
Theorem BufferedConn_refines (s : source) (p n : Z) :
  Forall (λ c, c ≠ []) (chunks s) → 0 <= p <= bufSize → 0 <= n →
  let stream := mkReader (mjoin (chunks s)) (s_final s) in
  ∃ b, Peek p (NewBufferedConn s) =
      Ok (take (Z.to_nat p) (pending stream),
          if p <=? len (pending stream) then None else Some (final stream), b) ∧
    match GoIO.ReadFull n stream with
    | Ok (l, r) => ∃ b', ReadFull_conn n b = Ok (l, b') ∧ view b' = r
    | Err er => ReadFull_conn n b = Err er
    | _ => False
    end.
Proof.
  intros Hs Hp Hn stream. destruct (Peek_spec p _ (NewBufferedConn_wf s Hs) Hp) as (b & HP & Hwf & Hv).
  exists b. split; [exact HP |].
  pose proof (read_full_loop_spec (Z.to_nat n) n [] b Hwf Hn ltac:(unfold len; simpl; lia)
    ltac:(unfold len; simpl; lia)) as H. rewrite Hv in H.
  change (mkReader ([] ++ pending (view (NewBufferedConn s))) (final (view (NewBufferedConn s)))) with stream in H.
  unfold ReadFull_conn. destruct (GoIO.ReadFull n stream) as [[l r] | er | |]; try done.
  destruct H as (b' & ? & ? & ?). by exists b'.
Qed.

(** ** The copy of a tunnel: [io.CopyBuffer(dst, src, buf)] with 32 KiB *)

(** A connection written to: what it took, and how many bytes more it takes
    before a write fails, if it ever does. *)
Record sink : Type := mkSink { took : bytes; room : option (Z * error) }.

Definition conn_Write (d : bytes) (k : sink) : Z * option error * sink :=
  match room k with
  | None => (len d, None, mkSink (took k ++ d) None)
  | Some (r, er) =>
    if len d <=? r then (len d, None, mkSink (took k ++ d) (Some (r - len d, er)))
    else (r, Some er, mkSink (took k ++ take (Z.to_nat r) d) (Some (0, er)))
  end.

Definition copyBufSize : Z := 32 * 1024.
Definition ErrShortWrite : error := ErrText "short write".

(** [written] counts the bytes written so far. *)
Fixpoint copy_loop (fuel : nat) (b : BufferedConn) (k : sink) (written : Z)
    : outcome error (Z * option error * sink) :=
  match fuel with
  | O => Diverge
  | S fuel =>
    let '(d, er, b) := Read copyBufSize b in
    let continue k written :=
      match er with
      | Some e => Ok (written, if bool_decide (e = EOF) then None else Some e, k)
      | None => copy_loop fuel b k written
      end in
    if 0 <? len d then
      let '(nw, ew, k) := conn_Write d k in
      let written := written + nw in
      match ew with
      | Some e => Ok (written, Some e, k)
      | None => if negb (len d =? nw) then Ok (written, Some ErrShortWrite, k) else continue k written
      end
    else continue k written
  end.
Definition CopyBuffer (b : BufferedConn) (k : sink) : outcome error (Z * option error * sink) :=
  copy_loop (S (length (pending (view b)))) b k 0.

(** The bytes of [l] the sink takes, and the error if it fails before the end. *)
Definition accepted (k : sink) (l : bytes) : bytes :=
  match room k with Some (r, _) => take (Z.to_nat r) l | None => l end.
Definition copy_error (k : sink) (r : reader) : option error :=
  match room k with
  | Some (n, er) => if n <? len (pending r) then Some er else if decide (final r = EOF) then None else Some (final r)
  | None => if decide (final r = EOF) then None else Some (final r)
  end.

Definition sink_ok (k : sink) : Prop := ∀ r er, room k = Some (r, er) → 0 <= r.

Lemma copy_loop_spec fuel b k written : buffered_wf b → sink_ok k →
  (length (pending (view b)) < fuel)%nat →
  ∃ k', copy_loop fuel b k written =
      Ok (written + len (accepted k (pending (view b))), copy_error k (view b), k') ∧
    took k' = took k ++ accepted k (pending (view b)).
Proof.
  revert b k written. induction fuel as [| fuel IH]; intros b k written Hwf Hk Hfuel; [lia |].
  cbn [copy_loop]. destruct (Read copyBufSize b) as [[d er] b'] eqn:E.
  destruct (Read_spec copyBufSize b d er b' Hwf ltac:(unfold copyBufSize; lia) E)
    as (Hwf' & Hp & Hf & Hld & Hcase).
  destruct Hcase as [[-> Hpos] | (-> & -> & Hnil)].
  - replace (0 <? len d) with true by lia. unfold conn_Write, accepted, copy_error.
    assert ((length (pending (view b')) < fuel)%nat) as Hfuel'
      by (rewrite Hp, length_app in Hfuel; unfold len in Hpos; lia).
    assert (∀ k1, sink_ok k1 → took k1 = took k ++ d →
      accepted k (pending (view b)) = d ++ accepted k1 (pending (view b')) →
      copy_error k (view b) = copy_error k1 (view b') →
      ∃ k', copy_loop fuel b' k1 (written + len d) =
        Ok (written + len (accepted k (pending (view b))), copy_error k (view b), k') ∧
        took k' = took k ++ accepted k (pending (view b))) as Hrec.
    { intros k1 Hk1 Ht Ha Hc. destruct (IH b' k1 (written + len d) Hwf' Hk1 Hfuel') as (k' & -> & Ht').
      exists k'. rewrite Ha, Hc, len_app, Ht', Ht, app_assoc. split; [f_equal; f_equal; f_equal; lia | done]. }
    unfold accepted, copy_error in Hrec. destruct (room k) as [[r er] |] eqn:Er.
    + specialize (Hk r er Er). destruct (Z.leb_spec (len d) r) as [Hle | Hgt].
      * rewrite Z.eqb_refl. cbn [negb]. apply Hrec; cbn [room took]; try done.
        -- intros r0 er0 [= <- <-]. lia.
        -- rewrite Hp, take_app_ge by (unfold len in Hle; lia). f_equal. f_equal. unfold len in *. lia.
        -- rewrite Hp, Hf, len_app. by replace (r <? len d + len (pending (view b'))) with (r - len d <? len (pending (view b'))) by lia.
      * exists (mkSink (took k ++ take (Z.to_nat r) d) (Some (0, er))). rewrite Hp, len_app.
        pose proof (len_nonneg (pending (view b'))). replace (r <? len d + len (pending (view b'))) with true by lia.
        rewrite take_app_le by (unfold len in Hgt; lia).
        split; [do 3 f_equal; unfold len in *; rewrite length_take; lia | done].
    + rewrite Z.eqb_refl. cbn [negb]. apply Hrec; cbn [room took]; try done. by rewrite Hf.
  - change (0 <? len []) with false. cbn [negb]. exists k. rewrite Hnil. unfold accepted, copy_error. rewrite Hnil.
    assert (match room k with Some (r, _) => take (Z.to_nat r) [] | None => [] end = @nil Z) as ->
      by (destruct (room k) as [[r er] |]; [by rewrite take_nil | done]).
    change (len (@nil Z)) with 0. rewrite app_nil_r, Z.add_0_r. split; [| done]. do 2 f_equal.
    f_equal. destruct (room k) as [[r er] |] eqn:Er.
    + specialize (Hk r er Er). replace (r <? 0) with false by lia.
      by destruct (decide (final (view b) = EOF)); [rewrite bool_decide_true | rewrite bool_decide_false].
    + by destruct (decide (final (view b) = EOF)); [rewrite bool_decide_true | rewrite bool_decide_false].
Qed.

(** A tunnel after a peek. The handlers look at the first byte of the client
    through a buffer and then tunnel that buffer: whatever chunks the network
    makes, the other side gets the client's whole stream from its first byte, in
    order, or the front of it that it took before it failed; the result counts
    exactly those bytes; and neither the end of the stream nor a closed, broken
    or timed out connection is reported as an error. *)
Theorem tunnel_copies (s : source) (p : Z) (k : sink) (dir : TunnelDirType) :
  Forall (λ c, c ≠ []) (chunks s) → 0 <= p <= bufSize → sink_ok k →
  let stream := mkReader (mjoin (chunks s)) (s_final s) in
  ∃ shown err b n e k', Peek p (NewBufferedConn s) = Ok (shown, err, b) ∧
    CopyBuffer b k = Ok (n, e, k') ∧
    took k' = took k ++ accepted k (pending stream) ∧
    let '(res, closed) := TunnelConns (n, e) dir in
    Written res = len (accepted k (pending stream)) ∧ Dir res = dir ∧ closed = [Src; Dst] ∧
    (room k = None → s_final s ∈ [EOF; ErrClosed; ErrBrokenPipe; ErrTimeout] → tr_Err res = None) ∧
    (room k = None → accepted k (pending stream) = pending stream).
Proof.
  intros Hs Hp Hk stream. destruct (Peek_spec p _ (NewBufferedConn_wf s Hs) Hp) as (b & HP & Hwf & Hv).
  destruct (copy_loop_spec (S (length (pending (view b)))) b k 0 Hwf Hk ltac:(lia)) as (k' & HC & Ht).
  rewrite Hv in HC, Ht. change (view (NewBufferedConn s)) with stream in HC, Ht, HP.
  eexists _, _, b, _, _, k'. split; [exact HP |].
  split; [unfold CopyBuffer; rewrite Hv; exact HC |]. split; [exact Ht |].
  rewrite Z.add_0_l. unfold TunnelConns.
  assert (∀ (o : option error) n, Written (match o with
    | Some e => if negb (Is e ErrClosed) && negb (Is e EOF) && negb (Is e ErrBrokenPipe) && negb (IsTimeout e)
                then mkTransfer n dir (Some e) else mkTransfer n dir None
    | None => mkTransfer n dir None end) = n ∧ Dir (match o with
    | Some e => if negb (Is e ErrClosed) && negb (Is e EOF) && negb (Is e ErrBrokenPipe) && negb (IsTimeout e)
                then mkTransfer n dir (Some e) else mkTransfer n dir None
    | None => mkTransfer n dir None end) = dir) as Hres by (intros [e |] n; [by repeat case_match | done]).
  split; [apply Hres |]. split; [apply Hres |]. split; [done |].
  unfold copy_error, accepted. split; intros ->; [| done]. cbn [final stream].
  intros [-> | [-> | [-> | [-> | H]%elem_of_cons]%elem_of_cons]%elem_of_cons]%elem_of_cons; try done.
  by apply not_elem_of_nil in H.
Qed.

(** ** [TrackingConn]: what is read and written is counted *)
Record counters : Type := mkCounters { rxBytes : Z; txBytes : Z }.   (* uint64, atomic *)
Inductive tracked : Type := TRead (n : Z) | TWrite (n : Z).   (* the result of the connection *)

Definition track (x : tracked) (c : counters) : counters :=
  match x with
  | TRead n => if 0 <? n then mkCounters (u64 (rxBytes c + u64 n)) (txBytes c) else c
  | TWrite n => if 0 <? n then mkCounters (rxBytes c) (u64 (txBytes c + u64 n)) else c
  end.
Definition GetRxBytes (c : counters) : Z := rxBytes c.
Definition GetTxBytes (c : counters) : Z := txBytes c.

Definition bytes_in (x : tracked) : Z := match x with TRead n => Z.max n 0 | _ => 0 end.
Definition bytes_out (x : tracked) : Z := match x with TWrite n => Z.max n 0 | _ => 0 end.

Lemma u64_add a n s : u64 (u64 (a + u64 n) + s) = u64 (a + (n + s)).
Proof. unfold u64. rewrite Zplus_mod_idemp_l, <- Z.add_assoc, (Z.add_comm (n mod _)), Z.add_assoc, Zplus_mod_idemp_r. f_equal. lia. Qed.

(** The counters are the bytes read and written since the start, modulo 2^64,
    whatever connections they came from and in whatever order. *)
Lemma tracked_total (xs : list tracked) (c : counters) :
  0 <= rxBytes c < 2 ^ 64 → 0 <= txBytes c < 2 ^ 64 →
  let c' := foldl (λ c x, track x c) c xs in
  GetRxBytes c' = u64 (rxBytes c + foldr Z.add 0 (bytes_in <$> xs)) ∧
  GetTxBytes c' = u64 (txBytes c + foldr Z.add 0 (bytes_out <$> xs)).
Proof.
  revert c. induction xs as [| x xs IH]; intros c Hr Ht; cbn [foldl fmap list_fmap foldr].
  - unfold GetRxBytes, GetTxBytes, u64. rewrite !Z.add_0_r, !Z.mod_small by done. done.
  - assert (∀ z, 0 <= u64 z < 2 ^ 64) as Hu by (intros; unfold u64; apply Z.mod_pos_bound; lia).
    destruct (IH (track x c)) as [-> ->].
    { destruct x as [n | n]; cbn [track]; case_match; cbn [rxBytes]; auto. }
    { destruct x as [n | n]; cbn [track]; case_match; cbn [txBytes]; auto. }
    destruct x as [n | n]; cbn [track bytes_in bytes_out];
      (destruct (Z.ltb_spec 0 n); [rewrite (Z.max_l n 0) by lia | rewrite (Z.max_r n 0) by lia]);
      cbn [rxBytes txBytes]; rewrite ?u64_add, ?Z.add_0_l; done.
Qed.

(** ** [CloseConns] and [DescribeRoute] *)
(** The connections that are closed: the nil ones are skipped. *)
Definition CloseConns {A} (closers : list (option A)) : list A := omap id closers.

Definition DescribeRoute (src dst : string * string) : string :=
  (src.1 +:+ "(" +:+ src.2 +:+ ") -> " +:+ dst.1 +:+ "(" +:+ dst.2 +:+ ")")%string.

(** ** Witnesses *)
Definition sample_source : source := mkSource [[22; 3]; [1]; [0; 2; 7; 7]] EOF.
Lemma sample_source_ok : Forall (λ c, c ≠ []) (chunks sample_source).
Proof. repeat constructor; done. Qed.

Lemma BufferedConn_refines_witness :
  ∃ b, Peek 1 (NewBufferedConn sample_source) = Ok ([22], None, b) ∧
    ∃ b', ReadFull_conn 5 b = Ok ([22; 3; 1; 0; 2], b') ∧ pending (view b') = [7; 7].
Proof.
  destruct (BufferedConn_refines sample_source 1 5 sample_source_ok ltac:(by unfold bufSize) ltac:(done))
    as (b & HP & H).
  exists b. split; [exact HP |]. destruct H as (b' & Hb & Hv). exists b'. split; [exact Hb |]. by rewrite Hv.
Defined.

Lemma tunnel_copies_witness :
  ∃ b n e k', Peek 1 (NewBufferedConn sample_source) = Ok ([22], None, b) ∧
    CopyBuffer b (mkSink [] None) = Ok (n, e, k') ∧ took k' = [22; 3; 1; 0; 2; 7; 7].
Proof.
  destruct (tunnel_copies sample_source 1 (mkSink [] None) TunnelDirOut sample_source_ok ltac:(by unfold bufSize) ltac:(done))
    as (shown & err & b & n & e & k' & HP & HC & Ht & _).
  exists b, n, e, k'. split; [| by split]. rewrite HP. vm_compute in HP. by injection HP as <- <- _.
Defined.
