(* ===== verification/HttpProto.v ===== *)
(** * HTTP messages of the proxy: [internal/proto/http.go]

    Parsing a request is the standard library's; what the program reads of it is
    its method and its host. How responses and forwarded requests are written is
    in [HttpWire]. *)

From S2P Require Import Prelude GoStrings NetText HostPort.
From Stdlib Require Import Ascii.

Local Open Scope string_scope.
Local Open Scope list_scope.
Local Open Scope Z_scope.

Definition validMethods : list string :=
  [ "DELETE"; "GET"; "HEAD"; "POST"; "PUT"; "CONNECT"; "OPTIONS"; "TRACE"; "COPY"; "LOCK";
    "MKCOL"; "MOVE"; "PROPFIND"; "PROPPATCH"; "SEARCH"; "UNLOCK"; "BIND"; "REBIND"; "UNBIND";
    "ACL"; "REPORT"; "MKACTIVITY"; "CHECKOUT"; "MERGE"; "M-SEARCH"; "NOTIFY"; "SUBSCRIBE";
    "UNSUBSCRIBE"; "PATCH"; "PURGE"; "MKCALENDAR"; "LINK"; "UNLINK" ].

Record HTTPRequest : Type := mkHTTPRequest { Method : string; req_Host : string }.

Definition MethodConnect : string := "CONNECT".

Definition ExtractHost (r : HTTPRequest) : string :=
  match SplitHostPort (req_Host r) with
  | None => req_Host r
  | Some (host, _) => host
  end.

(** [None] is the error of [strconv.Atoi]. *)
Definition ExtractPort (r : HTTPRequest) : option Z :=
  match SplitHostPort (req_Host r) with
  | None => if decide (Method r = MethodConnect) then Some 443 else Some 80
  | Some (_, port) => Atoi port
  end.

Definition IsValidMethod (r : HTTPRequest) : bool := bool_decide (Method r ∈ validMethods).
Definition IsConnectMethod (r : HTTPRequest) : bool := bool_decide (Method r = MethodConnect).

(** Responses: the fields of [http.Response] the program sets. The setter of
    [NewHTTPResponse] leaves the numbers of the version at zero. *)
Record HTTPResponse : Type := mkHTTPResponse {
  Proto : string;
  ProtoMajor : Z;
  ProtoMinor : Z;
  StatusCode : Z;
  Status : string;
}.

Definition NewHTTPResponse (proto : string) (code : Z) : HTTPResponse := mkHTTPResponse proto 0 0 code "".
Definition HTTPBadGatewayResponse : HTTPResponse := mkHTTPResponse "" 1 1 502 "502 Bad Gateway".
Definition HTTPConnectionEstablishedResponse : HTTPResponse :=
  mkHTTPResponse "" 1 1 200 "200 Connection Established".
Definition HTTPForbiddenResponse : HTTPResponse := mkHTTPResponse "" 1 1 403 "403 Forbidden".
Definition HTTPBadRequestResponse : HTTPResponse := mkHTTPResponse "" 1 1 400 "400 Bad Request".
Definition HTTPNotImplementedResponse : HTTPResponse := mkHTTPResponse "" 1 1 501 "501 Not Implemented".

(** The host and port a client named are the ones extracted, whether the host is
    a name, an IPv4 address or an IPv6 address; without a port the method's
    default is used. *)
Lemma Extract_joined (m host : string) (port : Z) :
  no_brackets host = true → 0 <= port < 65536 →
  no_brackets (Itoa port) = true → Contains1 ":"%char (Itoa port) = false →
  let r := mkHTTPRequest m (JoinHostPort host (Itoa port)) in
  ExtractHost r = host ∧ ExtractPort r = Some port.
Proof.
  intros Hh Hp Hb Hc. unfold ExtractHost, ExtractPort. cbn [req_Host].
  rewrite SplitHostPort_Join by done. split; [done |]. apply Atoi_Itoa. lia.
Qed.
