(* ===== verification/HttpWire.v ===== *)
(** * HTTP messages on the wire: what [Response.Write] and [Request.WriteProxy]
      send for the messages of [internal/proto/http.go]

    The methods are the ones [HTTPResponse] and [HTTPRequest] inherit from the
    standard library: a response of the program has no header and no body, so
    its text is the status line, an empty length where the status allows a body,
    and the blank line. A reference parser reads heads back. *)

From S2P Require Import Prelude GoStrings NetText HostPort HttpProto.
From Stdlib Require Import Ascii.

Local Open Scope string_scope.
Local Open Scope list_scope.
Local Open Scope Z_scope.

Definition CR : ascii := "013"%char.
Definition LF : ascii := "010"%char.
Definition CRLF : string := String CR (String LF "").

(** [%03d] of a code that is not negative. *)
Definition fmt_03d (n : Z) : string :=
  (if n <? 10 then "00" else if n <? 100 then "0" else "") +:+ Itoa n.

Definition bodyAllowedForStatus (status : Z) : bool :=
  negb ((100 <=? status) && (status <=? 199)) && negb (status =? 204) && negb (status =? 304).

Section Write.
(** The table of [http.StatusText]. *)
Variable StatusText : Z → string.

Definition status_text (r : HTTPResponse) : string :=
  if bool_decide (Status r = "") then
    if bool_decide (StatusText (StatusCode r) = "") then "status code " +:+ Itoa (StatusCode r)
    else StatusText (StatusCode r)
  else TrimPrefix (Status r) (Itoa (StatusCode r) +:+ " ").

Definition status_line (r : HTTPResponse) : string :=
  "HTTP/" +:+ Itoa (ProtoMajor r) +:+ "." +:+ Itoa (ProtoMinor r) +:+ " " +:+
  fmt_03d (StatusCode r) +:+ " " +:+ status_text r.

(** [Response.Write] of a response without header, body or length. *)
Definition Response_Write (r : HTTPResponse) : string :=
  status_line r +:+ CRLF +:+
  (if bodyAllowedForStatus (StatusCode r) then "Content-Length: 0" +:+ CRLF else "") +:+ CRLF.
End Write.

(** The parts of a parsed [url.URL] that name a request's target. *)
Record URL : Type := mkURL { Scheme : string; RequestURI : string }.

(** [Request.Write] and [WriteProxy]: the request line and the host that
    follows it. *)
Definition target_uri (usingProxy : bool) (u : URL) (req : HTTPRequest) : string :=
  if usingProxy && negb (bool_decide (Scheme u = ""))
  then Scheme u +:+ "://" +:+ req_Host req +:+ RequestURI u
  else RequestURI u.
Definition request_line (usingProxy : bool) (u : URL) (req : HTTPRequest) : string :=
  Method req +:+ " " +:+ target_uri usingProxy u req +:+ " HTTP/1.1".
Definition WriteProxy_head (u : URL) (req : HTTPRequest) : string :=
  request_line true u req +:+ CRLF +:+ "Host: " +:+ req_Host req +:+ CRLF.

(** ** Reference: reading a head *)

(** A line up to its CRLF, and what follows. *)
Definition cut_line (s : string) : option (string * string) :=
  '(line, after) ← cut_first CR s;
  match after with
  | String c rest => if ascii_eqb c LF then Some (line, rest) else None
  | EmptyString => None
  end.

(** The lines up to the blank one, and what follows it. *)
Fixpoint head_lines (fuel : nat) (s : string) : option (list string * string) :=
  match fuel with
  | O => None
  | S fuel =>
    '(line, rest) ← cut_line s;
    if bool_decide (line = "") then Some ([], rest)
    else '(lines, rest) ← head_lines fuel rest; Some (line :: lines, rest)
  end.

(** The version, the code and the reason of a status line. *)
Definition read_status (line : string) : option (string * Z * string) :=
  '(version, rest) ← cut_first " "%char line;
  '(code, reason) ← cut_first " "%char rest;
  n ← Atoi code;
  Some (version, n, reason).

Lemma cut_line_app line rest : Contains1 CR line = false → cut_line (line +:+ CRLF +:+ rest) = Some (line, rest).
Proof.
  intros Hl. unfold cut_line. change (CRLF +:+ rest) with (String CR (String LF rest)).
  by rewrite cut_first_app.
Qed.

(** The responses the proxy sends. *)
Definition responses : list HTTPResponse :=
  [HTTPBadGatewayResponse; HTTPConnectionEstablishedResponse; HTTPForbiddenResponse;
   HTTPBadRequestResponse; HTTPNotImplementedResponse].

(** Every response of the proxy is read back by its client: HTTP/1.1, the
    response's code and reason, a length of zero, and nothing of the bytes that
    follow it, so that a tunnel starts right behind the response to CONNECT. *)
Lemma responses_readable (StatusText : Z → string) (rest : string) :
  Forall (λ r, ∃ reason,
    Status r = Itoa (StatusCode r) +:+ " " +:+ reason ∧
    read_status (status_line StatusText r) = Some ("HTTP/1.1", StatusCode r, reason) ∧
    head_lines 3 (Response_Write StatusText r +:+ rest) =
      Some ([status_line StatusText r; "Content-Length: 0"], rest)) responses.
Proof. repeat constructor; eexists; (split; [reflexivity |]); split; reflexivity. Qed.

(** [NewHTTPResponse] drops its protocol: whatever it is given, the version
    written is 0.0. *)
Lemma NewHTTPResponse_version (StatusText : Z → string) (proto : string) (code : Z) :
  HasPrefix (status_line StatusText (NewHTTPResponse proto code)) "HTTP/0.0 " = true.
Proof.
  unfold status_line. cbn [ProtoMajor ProtoMinor NewHTTPResponse].
  by destruct (fmt_03d _ +:+ _).
Qed.

Lemma HasPrefix_app p s : HasPrefix (p +:+ s) p = true.
Proof.
  induction p as [| c p IH]; [by destruct s |].
  change (ascii_eqb c c && HasPrefix (p +:+ s) p = true). by rewrite ascii_eqb_refl, IH.
Qed.

(** A request in the form proxies receive goes to the origin in that form: the
    target is the absolute URI, although the origin was dialed itself. *)
Lemma WriteProxy_absolute_form (u : URL) (req : HTTPRequest) :
  Scheme u ≠ "" → Contains1 " "%char (Method req) = false →
  ∃ rest, cut_first " "%char (WriteProxy_head u req) = Some (Method req, rest) ∧
    HasPrefix rest (Scheme u) = true.
Proof.
  intros Hs Hm. unfold WriteProxy_head, request_line, target_uri.
  rewrite bool_decide_false by done. cbn [negb andb].
  rewrite <- !string_app_assoc. eexists. split; [by apply cut_first_app | apply HasPrefix_app].
Qed.

Example WriteProxy_example :
  WriteProxy_head (mkURL "http" "/path") (mkHTTPRequest "GET" "example.com") =
  "GET http://example.com/path HTTP/1.1" +:+ CRLF +:+ "Host: example.com" +:+ CRLF.
Proof. reflexivity. Qed.
