(* ===== verification/TcpHandlers.v ===== *)
(** * Request handlers over TCP: [server/http/handler_http.go],
      [server/http/handler_https.go] and [server/socks5/handler_connect.go]

    A handler is a computation over the trace of what it does (replies to the
    client, dials, writes to the remote, the tunnel it ends in). What the client,
    the remote and the network answer is the environment. *)

From S2P Require Import Prelude GoIO GoNet GoStrings NetText HostPort Tls ConfigTypes NetUtil Socks5Proto HttpProto.

Local Open Scope string_scope.
Local Open Scope list_scope.
Local Open Scope Z_scope.

(** ** Actions *)
Inductive act : Type :=
| AReplyHTTP (r : HTTPResponse)
| AReplySocks (r : SOCKS5Reply)
| AWriteClient (b : bytes)
| APrepareHop (addrs : list IP) (opts : HTTPSOptions)
| APrepareHopUDP (addrs : list IP) (opts : UDPOptions)
| AResolve (rule : option Rule) (domain : string)
| ADial (dst : Destination) (network : string) (timeout : Z)
| AForward (req : HTTPRequest)                 (* req.WriteProxy(rConn) *)
| ADesync (msg : TLSMessage) (opts : HTTPSOptions)
| ADesyncUDP (opts : UDPOptions)                (* fakes before the first datagram *)
| AWriteRemote (b : bytes)
| ATunnel (rest : reader)                      (* what the client has still to send *)
| AListen (network : string) (ip : IP)
| AAccept
| ACloseRemote
| ACloseClient
| ACloseListener
| AAssociate (bound : TCPAddr).                (* the UDP relay of an association *)

(** ** Handlers

    A computation goes on with a value, or returns with the handler's error, or
    panics. *)
Inductive hres (A : Type) : Type :=
| Go (a : A)
| Return (err : option error)
| Crash.
Arguments Go {A} _.
Arguments Return {A} _.
Arguments Crash {A}.

Definition handler (A : Type) : Type := list act → hres A * list act.

#[export] Instance handler_ret : MRet handler := λ A a t, (Go a, t).
#[export] Instance handler_bind : MBind handler := λ A B f m t,
  match m t with
  | (Go a, t) => f a t
  | (Return e, t) => (Return e, t)
  | (Crash, t) => (Crash, t)
  end.

Definition emit (a : act) : handler unit := λ t, (Go tt, t ++ [a]).
Definition return_ {A} (err : option error) : handler A := λ t, (Return err, t).
Definition crash {A} : handler A := λ t, (Crash, t).
Definition of_outcome {E A} (r : outcome E A) (on_err : E → handler A) : handler A :=
  match r with Ok a => mret a | Err e => on_err e | Panic | Diverge => crash end.

(** [defer CloseConns(rConn)] around the rest of a handler. *)
Definition deferred {A} (a : act) (m : handler A) : handler A := λ t,
  let '(r, t) := m t in (r, t ++ [a]).

Record tcp_env : Type := mkTcpEnv {
  reply_err : list act → option error;       (* writing to the client *)
  dial_err : Destination → option error;     (* DialFastest *)
  stream : reader;                           (* what the client sends after its request *)
  desync_res : TLSMessage → HTTPSOptions → option error;
  remote_err : bytes → option error;         (* writing to the remote *)
  forward_err : option error;
  results : list TransferResult;             (* of the two tunnels *)
  interfaceAddrs : outcome error (list iface_addr);
}.

Section Handlers.
Context {NT : NetText}.
Variable e : tcp_env.

(** An action whose answer is an error or not. *)
Definition reply (a : act) : handler (option error) := λ t, (Go (reply_err e t), t ++ [a]).
Definition dial (d : Destination) (network : string) (timeout : Z) : handler (option error) := λ t,
  (Go (dial_err e d), t ++ [ADial d network timeout]).

Definition tunnel (rest : reader) (errHandler : option (list error → option error)) : handler unit :=
  _ ← emit (ATunnel rest);
  of_outcome (WaitForTunnelCompletion (results e) errHandler) (λ er, return_ (Some er))
    ≫= return_.

(** ** [HTTPHandler.HandleRequest] *)
Definition http_HandleRequest (req : HTTPRequest) (dst : Destination) : handler unit :=
  err ← dial dst "tcp" 0;
  match err with
  | Some er => _ ← reply (AReplyHTTP HTTPBadGatewayResponse); return_ (Some er)
  | None =>
    deferred ACloseRemote
      (_ ← emit (AForward req);
       match forward_err e with
       | Some er => return_ (Some (ErrWrap "failed to send request: " er))
       | None => tunnel (stream e) None
       end)
  end.

Definition conn_cfg (cfg : RuntimeConfig) (rule : option Rule) : RuntimeConfig :=
  match rule with Some r => rule_Config r | None => cfg end.

(** [err == io.EOF || err.Error() == "unexpected EOF"] *)
Definition benign_read_error (er : error) : bool :=
  bool_decide (er = EOF) || bool_decide (Error er = "unexpected EOF").

Definition handleErrs (errs : list error) : option error :=
  match errs with
  | [] => None
  | er :: _ => if existsb IsConnectionResetByPeer errs then Some ErrBlocked else Some er
  end.

(** ** [HTTPSHandler.HandleRequest] *)
Definition https_HandleRequest (h_cfg : RuntimeConfig) (dst : Destination) (rule : option Rule)
    : handler unit :=
  let cfg := conn_cfg h_cfg rule in
  _ ← emit (APrepareHop (Addrs dst) (HTTPS cfg));
  err ← reply (AReplyHTTP HTTPConnectionEstablishedResponse);
  match err with
  | Some er =>
    if negb (IsConnectionResetByPeer er) && negb (Is er EOF)
    then return_ (Some (ErrWrap "failed to handle proxy handshake: " er))
    else return_ None
  | None =>
    err ← dial dst "tcp" (TCPTimeout (Conn cfg));
    match err with
    | Some er => return_ (Some er)
    | None =>
      deferred ACloseRemote
        ('(tlsMsg, rest) ← of_outcome (ReadTLSMessage (stream e))
           (λ er, if benign_read_error er then return_ None else return_ (Some er));
         hello ← of_outcome (IsClientHello tlsMsg) (λ er, return_ (Some er));
         if negb hello then return_ None
         else
           _ ← emit (ADesync tlsMsg (HTTPS cfg));
           match desync_res e tlsMsg (HTTPS cfg) with
           | Some er => return_ (Some (ErrWrap "failed to send client hello: " er))
           | None => tunnel rest (Some handleErrs)
           end)
    end
  end.

(** ** [ConnectHandler.Handle] *)

(** [bufConn.Peek(1)]: the first byte, not consumed. *)
Definition Peek1 (r : reader) : option Z := head (pending r).

(** Steps 5 to 7: the first bytes of the client go to the remote; the result is
    what is left of the stream. *)
Definition first_bytes (cfg : RuntimeConfig) : handler reader :=
  match Peek1 (stream e) with
  | Some b =>
    if b =? TLSHandshake then
      '(tlsMsg, rest) ← of_outcome (ReadTLSMessage (stream e))
         (λ er, if benign_read_error er then return_ None else return_ (Some er));
      hello ← of_outcome (IsClientHello tlsMsg) (λ er, return_ (Some er));
      if (hello : bool) then
        err ← (if https_Skip (HTTPS cfg) then
                 _ ← emit (AWriteRemote (Raw tlsMsg)); mret (remote_err e (Raw tlsMsg))
               else
                 _ ← emit (ADesync tlsMsg (HTTPS cfg)); mret (desync_res e tlsMsg (HTTPS cfg)));
        match err with
        | Some er => return_ (Some (ErrWrap "failed to send client hello: " er))
        | None => mret rest
        end
      else
        _ ← emit (AWriteRemote (Raw tlsMsg));
        match remote_err e (Raw tlsMsg) with
        | Some er => return_ (Some (ErrWrap "failed to write initial bytes to remote: " er))
        | None => mret rest
        end
    else mret (stream e)
  | None => mret (stream e)
  end.

Definition connect_Handle (h_cfg : RuntimeConfig) (listenAddr : TCPAddr) (dst : Destination)
    (rule : option Rule) : handler unit :=
  let cfg := conn_cfg h_cfg rule in
  let '(ok, err) := IsValid (interfaceAddrs e) dst listenAddr in
  match err, ok with
  | Some er, false => _ ← reply (AReplySocks SOCKS5FailureResponse); return_ (Some er)
  | _, _ =>
    if match rule with Some r => Block r | None => false end then
      _ ← reply (AReplySocks SOCKS5FailureResponse); return_ (Some ErrBlocked)
    else
      _ ← emit (APrepareHop (Addrs dst) (HTTPS cfg));
      err ← dial dst "tcp" (TCPTimeout (Conn cfg));
      match err with
      | Some er => _ ← reply (AReplySocks SOCKS5FailureResponse); return_ (Some er)
      | None =>
        deferred ACloseRemote
          (err ← reply (AReplySocks (Port 0 (Bind IPv4zero SOCKS5SuccessResponse)));
           match err with
           | Some er => return_ (Some er)
           | None => rest ← first_bytes cfg; tunnel rest None
           end)
      end
  end.
End Handlers.

(** ** The bytes that reach the remote *)
Definition sent_remote (a : act) : bytes :=
  match a with ADesync msg _ => Raw msg | AWriteRemote b => b | _ => [] end.
Definition sent (t : list act) : bytes := mjoin (sent_remote <$> t).

Definition is_reply (a : act) : bool :=
  match a with AReplyHTTP _ | AReplySocks _ | AWriteClient _ => true | _ => false end.
Definition is_dial (a : act) : bool := match a with ADial _ _ _ => true | _ => false end.
Definition none_of (f : act → bool) (t : list act) : Prop := Forall (λ a, f a = false) t.

(** [m] adds to the trace a part that satisfies [P] together with the way it
    ended. *)
Definition adds {A} (P : hres A → list act → Prop) (m : handler A) : Prop :=
  ∀ t, ∃ r t', m t = (r, t ++ t') ∧ P r t'.

Lemma adds_emit P a : P (Go tt) [a] → adds P (emit a).
Proof. intros H t. by exists (Go tt), [a]. Qed.
Lemma adds_mret {A} P (x : A) : P (Go x) [] → adds P (mret x).
Proof. intros H t. exists (Go x), []. by rewrite app_nil_r. Qed.
Lemma adds_return {A} (P : hres A → _) err : P (Return err) [] → adds P (return_ err).
Proof. intros H t. exists (Return err), []. by rewrite app_nil_r. Qed.
Lemma adds_crash {A} (P : hres A → _) : P Crash [] → adds P crash.
Proof. intros H t. exists Crash, []. by rewrite app_nil_r. Qed.

Definition and_then {A B} (Q : hres B → list act → Prop) (f : A → handler B)
    (r : hres A) (t : list act) : Prop :=
  match r with
  | Go a => adds (λ r' t', Q r' (t ++ t')) (f a)
  | Return e => Q (Return e) t
  | Crash => Q Crash t
  end.

Lemma adds_bind {A B} (P : hres A → list act → Prop) (Q : hres B → list act → Prop) m f :
  adds P m → (∀ r t, P r t → and_then Q f r t) → adds Q (m ≫= f).
Proof.
  intros Hm Hf t. destruct (Hm t) as (r & t1 & E & H1). specialize (Hf r t1 H1).
  unfold mbind, handler_bind. rewrite E. destruct r as [a | er |]; simpl in Hf.
  - destruct (Hf (t ++ t1)) as (r2 & t2 & -> & H2). exists r2, (t1 ++ t2). by rewrite app_assoc.
  - by exists (Return er), t1.
  - by exists Crash, t1.
Qed.

Lemma adds_weaken {A} (P Q : hres A → list act → Prop) m :
  adds P m → (∀ r t, P r t → Q r t) → adds Q m.
Proof. intros H HPQ t. destruct (H t) as (r & t' & ? & ?). eauto. Qed.

Lemma adds_deferred {A} (P : hres A → list act → Prop) a (m : handler A) :
  adds (λ r t, P r (t ++ [a])) m → adds P (deferred a m).
Proof.
  intros H t. destruct (H t) as (r & t' & E & Hp). unfold deferred. rewrite E.
  exists r, (t' ++ [a]). by rewrite app_assoc.
Qed.

Lemma adds_of_outcome {E A} (P : hres A → list act → Prop) (o : outcome E A) on_err :
  match o with
  | Ok a => P (Go a) []
  | Err er => adds P (on_err er)
  | Panic | Diverge => P Crash []
  end → adds P (of_outcome o on_err).
Proof. destruct o; simpl; [apply adds_mret | done | apply adds_crash | apply adds_crash]. Qed.

Lemma IsClientHello_Ok m : ∃ b, IsClientHello m = Ok b.
Proof.
  unfold IsClientHello. destruct (Z.ltb_spec TLSHeaderLen (len (raw m))) as [Hl |]; [| by eexists].
  simpl. destruct (Type_ (header m) =? TLSHandshake); [| by eexists]. simpl.
  unfold TLSHeaderLen in Hl. destruct (raw m) as [| b0 [| b1 [| b2 [| b3 [| b4 [| b5 l]]]]]];
    unfold len in Hl; simpl in Hl; try lia.
  change (index (E:=error) (b0 :: b1 :: b2 :: b3 :: b4 :: b5 :: l) 5) with (Ok (E:=error) b5).
  by eexists.
Qed.

Section Facts.
Context {NT : NetText}.
Variable e : tcp_env.

(** The tunnel is one action. *)
Lemma tunnel_adds rest h : adds (λ r t, t = [ATunnel rest] ∧ ∀ x, r ≠ Go x) (tunnel e rest h).
Proof.
  unfold tunnel. eapply adds_bind; [by apply (adds_emit (λ r t, r = Go tt ∧ t = [ATunnel rest])) |].
  intros r t [-> ->]. simpl.
  apply (adds_bind (λ r t, t = [] )).
  - apply adds_of_outcome. destruct (WaitForTunnelCompletion _ _); try done.
    by apply adds_return.
  - intros [a | er |] t ->; simpl; [| by rewrite ?app_nil_r | by rewrite ?app_nil_r].
    by apply adds_return.
Qed.

(** What the first step over the tunnel established. *)
Definition forwarded (rest : reader) (t : list act) : Prop :=
  sent t ++ pending rest = pending (stream e) ∧ final rest = final (stream e).

Lemma read_forwarded msg rest :
  bytes_ok (pending (stream e)) → ReadTLSMessage (stream e) = Ok (msg, rest) →
  Raw msg ++ pending rest = pending (stream e) ∧ final rest = final (stream e).
Proof.
  intros Hok Hr. pose proof (ReadTLSMessage_returns _ Hok) as H. rewrite Hr in H.
  simpl in H. by destruct H as (-> & ? & _).
Qed.

(** *** SOCKS5 *)
Definition quiet (a : act) : bool :=
  match a with ADesync _ _ | AWriteRemote _ => true | _ => false end.

Lemma first_bytes_adds cfg :
  bytes_ok (pending (stream e)) →
  adds (λ r t, Forall (λ a, quiet a = true) t ∧ ∀ rest, r = Go rest → forwarded rest t)
    (first_bytes e cfg).
Proof.
  intros Hok. unfold first_bytes.
  assert (adds (λ r t, Forall (λ a, quiet a = true) t ∧ ∀ rest, r = Go rest → forwarded rest t)
    (mret (stream e))) as Hplain.
  { apply adds_mret. split; [constructor |]. by intros ? [= <-]. }
  destruct (Peek1 (stream e)) as [b |]; [| done]. destruct (b =? TLSHandshake); [| done].
  apply (adds_bind (λ r t, t = [] ∧ ∀ m rest, r = Go (m, rest) → ReadTLSMessage (stream e) = Ok (m, rest))).
  { apply adds_of_outcome. destruct (ReadTLSMessage (stream e)) as [[m rest] | er | |]; try done.
    - split; [done |]. by intros ? ? [= <- <-].
    - destruct (benign_read_error er); by apply adds_return. }
  intros [[m rest] | er |] t [-> Hr]; simpl; [| by split | by split].
  specialize (Hr m rest eq_refl). destruct (read_forwarded m rest Hok Hr) as [Hf Hfin].
  apply (adds_bind (λ r t, t = [])).
  { apply adds_of_outcome. destruct (IsClientHello m); try done. by apply adds_return. }
  intros [hello | er |] t ->; simpl; [| by split | by split]. destruct hello.
  - apply (adds_bind (λ r t, (∃ a, t = [a] ∧ quiet a = true ∧ sent_remote a = Raw m) ∧ ∃ er, r = Go er)).
    { destruct (https_Skip (HTTPS cfg)).
      - eapply adds_bind; [by apply (adds_emit (λ r t, r = Go tt ∧ t = [AWriteRemote (Raw m)])) |].
        intros r t [-> ->]. apply adds_mret. split; [by eexists | by eexists].
      - eapply adds_bind; [by apply (adds_emit (λ r t, r = Go tt ∧ t = [ADesync m (HTTPS cfg)])) |].
        intros r t [-> ->]. apply adds_mret. split; [by eexists | by eexists]. }
    intros r t ((a & -> & Hq & Hs) & er & ->). simpl. destruct er.
    + apply adds_return. split; [by repeat constructor | done].
    + apply adds_mret. split; [by repeat constructor |]. intros ? [= <-].
      split; [| done]. unfold sent. simpl. by rewrite Hs, app_nil_r.
  - eapply adds_bind; [by apply (adds_emit (λ r t, r = Go tt ∧ t = [AWriteRemote (Raw m)])) |].
    intros r t [-> ->]. simpl. destruct (remote_err e (Raw m)).
    + apply adds_return. split; [by repeat constructor | done].
    + apply adds_mret. split; [by repeat constructor |]. intros ? [= <-].
      split; [| done]. unfold sent. simpl. by rewrite app_nil_r.
Qed.

(** What may happen between the success reply and the closing of the remote:
    the client's first bytes, then the tunnel over what is left of them. *)
Definition relayed (mid : list act) : Prop :=
  Forall (λ a, quiet a = true) mid ∨
  ∃ pre rest, mid = pre ++ [ATunnel rest] ∧ Forall (λ a, quiet a = true) pre ∧ forwarded rest pre.

Lemma relay_adds cfg :
  bytes_ok (pending (stream e)) →
  adds (λ _, relayed) (rest ← first_bytes e cfg; tunnel e rest None).
Proof.
  intros Hok. eapply adds_bind; [by apply first_bytes_adds |].
  intros [rest | er |] t [Hq Hf]; simpl; [| by left | by left].
  eapply adds_weaken; [apply tunnel_adds |]. intros r t' [-> _]. right.
  exists t, rest. split_and!; auto.
Qed.

(** What is relayed, from the client's first bytes: a ClientHello is
    desynchronized unless that is switched off, another record is written as it
    is, anything else is left to the tunnel; the tunnel starts behind what was
    sent, unless sending failed. *)
Definition first_act (cfg : RuntimeConfig) (m : TLSMessage) : act * option error :=
  if match IsClientHello m with Ok hello => hello && negb (https_Skip (HTTPS cfg)) | _ => false end
  then (ADesync m (HTTPS cfg), desync_res e m (HTTPS cfg))
  else (AWriteRemote (Raw m), remote_err e (Raw m)).

Definition relay_trace (cfg : RuntimeConfig) : list act :=
  if bool_decide (Peek1 (stream e) = Some TLSHandshake) then
    match ReadTLSMessage (stream e) with
    | Ok (m, rest) => let '(a, err) := first_act cfg m in a :: match err with Some _ => [] | None => [ATunnel rest] end
    | _ => []
    end
  else [ATunnel (stream e)].

Lemma tunnel_trace rest h t : ∃ r, tunnel e rest h t = (r, t ++ [ATunnel rest]).
Proof. destruct (tunnel_adds rest h t) as (r & t' & E & -> & _). by exists r. Qed.

Lemma relay_exact cfg t :
  ∃ r, (rest ← first_bytes e cfg; tunnel e rest None) t = (r, t ++ relay_trace cfg).
Proof.
  unfold relay_trace, first_bytes, first_act. unfold mbind, handler_bind.
  destruct (Peek1 (stream e)) as [b |]; [| by apply tunnel_trace].
  destruct (Z.eqb_spec b TLSHandshake) as [-> | Hb].
  2: { rewrite bool_decide_false by congruence. by apply tunnel_trace. }
  rewrite bool_decide_true by done.
  destruct (ReadTLSMessage (stream e)) as [[m rest] | er | |]; simpl;
    [| destruct (benign_read_error er); eexists; by rewrite app_nil_r | eexists; by rewrite app_nil_r..].
  destruct (IsClientHello_Ok m) as [hello Hh]. rewrite Hh. simpl. destruct hello.
  - destruct (https_Skip (HTTPS cfg)); simpl.
    + unfold mret, handler_ret. destruct (remote_err e (Raw m)); [by eexists |].
      destruct (tunnel_trace rest None (t ++ [AWriteRemote (Raw m)])) as [r Hr]. exists r.
      by rewrite Hr, <- app_assoc.
    + unfold mret, handler_ret. destruct (desync_res e m (HTTPS cfg)); [by eexists |].
      destruct (tunnel_trace rest None (t ++ [ADesync m (HTTPS cfg)])) as [r Hr]. exists r.
      by rewrite Hr, <- app_assoc.
  - destruct (remote_err e (Raw m)); [by eexists |].
    unfold mret, handler_ret.
    destruct (tunnel_trace rest None (t ++ [AWriteRemote (Raw m)])) as [r Hr]. exists r.
    by rewrite Hr, <- app_assoc.
Qed.

(** [connect_Handle], in the order of its guards. *)
Definition refused (listen : TCPAddr) (dst : Destination) : option error :=
  match IsValid (interfaceAddrs e) dst listen with
  | (false, Some er) => Some er
  | _ => None
  end.
Definition blocked (rule : option Rule) : bool :=
  match rule with Some r => Block r | None => false end.

Definition socks_failure : act := AReplySocks SOCKS5FailureResponse.
Definition socks_success : act := AReplySocks (Port 0 (Bind IPv4zero SOCKS5SuccessResponse)).

Lemma connect_refused h_cfg listen dst rule er :
  refused listen dst = Some er →
  connect_Handle e h_cfg listen dst rule [] = (Return (Some er), [socks_failure]).
Proof.
  unfold refused, connect_Handle. destruct (IsValid _ _ _) as [[] [er'|]]; try done.
  by intros [= ->].
Qed.

Lemma connect_allowed h_cfg listen dst rule :
  refused listen dst = None → blocked rule = false →
  connect_Handle e h_cfg listen dst rule [] =
    let cfg := conn_cfg h_cfg rule in
    let pre := [APrepareHop (Addrs dst) (HTTPS cfg); ADial dst "tcp" (TCPTimeout (Conn cfg))] in
    match dial_err e dst with
    | Some er => (Return (Some er), pre ++ [socks_failure])
    | None =>
      deferred ACloseRemote
        (err ← reply e socks_success;
         match err with
         | Some er => return_ (Some er)
         | None => rest ← first_bytes e cfg; tunnel e rest None
         end) pre
    end.
Proof.
  unfold refused, blocked, connect_Handle. intros Hr Hb.
  assert (∀ (k1 : error → handler unit) (k2 : handler unit),
    match (IsValid (interfaceAddrs e) dst listen).2, (IsValid (interfaceAddrs e) dst listen).1 with
    | Some er, false => k1 er
    | _, _ => k2
    end = k2) as Hk.
  { intros. by destruct (IsValid _ _ _) as [[] [er |]]. }
  destruct (IsValid _ _ _) as [ok err]. simpl in Hk. rewrite Hk, Hb. cbv zeta.
  unfold mbind at 1 2, handler_bind, emit, dial. simpl. by destruct (dial_err e dst).
Qed.

Lemma connect_blocked h_cfg listen dst rule :
  refused listen dst = None → blocked rule = true →
  connect_Handle e h_cfg listen dst rule [] = (Return (Some ErrBlocked), [socks_failure]).
Proof.
  unfold refused, blocked, connect_Handle. intros Hr Hb.
  destruct (IsValid _ _ _) as [[] [er |]]; simplify_eq; by rewrite Hb.
Qed.
End Facts.

(** C5. The CONNECT handler answers the client exactly once, before any byte is
    relayed, and with success exactly when the dial succeeded. A destination that
    leads back to the proxy, or that a rule blocks, is refused without a dial. A
    remote that was dialed is closed last; before that only the client's first
    bytes are written to it, and when the tunnel starts it starts exactly where
    they end: what was written, followed by what the tunnel will read, is what the
    client sent. A ClientHello is desynchronized unless that is switched off. *)
Theorem connect_Handle_spec {NT : NetText} (e : tcp_env) (h_cfg : RuntimeConfig) (listen : TCPAddr)
    (dst : Destination) (rule : option Rule) :
  bytes_ok (pending (stream e)) →
  let '(r, t) := connect_Handle e h_cfg listen dst rule [] in
  let cfg := conn_cfg h_cfg rule in
  let dialed := [APrepareHop (Addrs dst) (HTTPS cfg); ADial dst "tcp" (TCPTimeout (Conn cfg))] in
  match refused e listen dst, blocked rule, dial_err e dst with
  | Some er, _, _ => r = Return (Some er) ∧ t = [socks_failure]
  | None, true, _ => r = Return (Some ErrBlocked) ∧ t = [socks_failure]
  | None, false, Some er => r = Return (Some er) ∧ t = dialed ++ [socks_failure]
  | None, false, None =>
    ∃ mid, t = dialed ++ [socks_success] ++ mid ++ [ACloseRemote] ∧ relayed e mid ∧
      mid = (if reply_err e dialed then [] else relay_trace e cfg)
  end.
Proof.
  intros Hok. destruct (refused e listen dst) as [er |] eqn:Hr.
  { by rewrite (connect_refused _ _ _ _ _ _ Hr). }
  destruct (blocked rule) eqn:Hb.
  { by rewrite (connect_blocked _ _ _ _ _ Hr Hb). }
  rewrite (connect_allowed _ _ _ _ _ Hr Hb). cbv zeta.
  destruct (dial_err e dst) as [er |]; [done |].
  unfold deferred at 1. unfold mbind at 1, handler_bind at 1, reply at 1. cbv beta iota.
  destruct (reply_err e _) as [er |].
  - unfold return_. exists []. split; [done | split; [by left | done]].
  - set (t0 := [APrepareHop (Addrs dst) (HTTPS (conn_cfg h_cfg rule));
        ADial dst "tcp" (TCPTimeout (Conn (conn_cfg h_cfg rule)))] ++ [socks_success]).
    destruct (relay_adds e (conn_cfg h_cfg rule) Hok t0) as (r & mid & Hr1 & Hmid).
    destruct (relay_exact e (conn_cfg h_cfg rule) t0) as [r' Hr2].
    rewrite Hr1 in Hr2. injection Hr2 as _ Heq.
    rewrite Hr1. exists mid. split; [by unfold t0; rewrite <- !app_assoc | done].
Qed.

(** What [https_HandleRequest] relays: a ClientHello, whole, and nothing else. *)
Definition hello_relayed (e : tcp_env) (opts : HTTPSOptions) (mid : list act) : Prop :=
  mid = [] ∨
  ∃ m rest, ReadTLSMessage (stream e) = Ok (m, rest) ∧ IsClientHello m = Ok true ∧
    match desync_res e m opts with
    | Some _ => mid = [ADesync m opts]
    | None => mid = [ADesync m opts; ATunnel rest] ∧
              Raw m ++ pending rest = pending (stream e)
    end.

(** The part of [https_HandleRequest] after the dial. *)
Lemma hello_adds (e : tcp_env) (opts : HTTPSOptions) :
  bytes_ok (pending (stream e)) →
  adds (λ _ t, hello_relayed e opts t ∧
      ∀ m rest, ReadTLSMessage (stream e) = Ok (m, rest) → IsClientHello m = Ok true → t ≠ [])
    ('(tlsMsg, rest) ← of_outcome (ReadTLSMessage (stream e))
       (λ er, if benign_read_error er then return_ None else return_ (Some er));
     hello ← of_outcome (IsClientHello tlsMsg) (λ er, return_ (Some er));
     if negb hello then return_ None
     else
       _ ← emit (ADesync tlsMsg opts);
       match desync_res e tlsMsg opts with
       | Some er => return_ (Some (ErrWrap "failed to send client hello: " er))
       | None => tunnel e rest (Some handleErrs)
       end).
Proof.
  intros Hok.
  apply (adds_bind (λ r t, t = [] ∧ ∀ m rest, (r = Go (m, rest) ↔ ReadTLSMessage (stream e) = Ok (m, rest)))).
  { apply adds_of_outcome. destruct (ReadTLSMessage (stream e)) as [[m rest] | er | |] eqn:E.
    - split; [done |]. intros m' rest'. split; congruence.
    - destruct (benign_read_error er); apply adds_return; (split; [done |]); split; congruence.
    - split; [done |]. split; congruence.
    - split; [done |]. split; congruence. }
  intros [[m rest] | er |] t [-> Hr]; simpl;
    [| by split; [left | intros m' rest' ?%Hr]..].
  pose proof (proj1 (Hr m rest) eq_refl) as Hm. destruct (read_forwarded e m rest Hok Hm) as [Hf _].
  destruct (IsClientHello_Ok m) as [hello Hh]. rewrite Hh.
  apply (adds_bind (λ r t, r = Go hello ∧ t = [])); [by apply adds_mret |].
  intros r t [-> ->]. simpl. destruct hello; simpl.
  - eapply adds_bind; [by apply (adds_emit (λ r t, r = Go tt ∧ t = [ADesync m opts])) |].
    intros r t [-> ->]. simpl. destruct (desync_res e m opts) as [er |] eqn:Hd.
    + apply adds_return. split; [| done]. right. exists m, rest. by rewrite Hd.
    + eapply adds_weaken; [apply tunnel_adds |]. intros r t' [-> _]. split; [| done].
      right. exists m, rest. by rewrite Hd.
  - apply adds_return. split; [by left |]. intros m' rest' Hm' Hh'. congruence.
Qed.

(** The HTTPS handler confirms the CONNECT before it dials, relays nothing
    but a complete ClientHello and the tunnel that starts right after it, and
    closes the remote last. A client that starts with anything else is dropped
    without a byte sent. *)
Theorem https_HandleRequest_spec (e : tcp_env) (h_cfg : RuntimeConfig) (dst : Destination)
    (rule : option Rule) :
  bytes_ok (pending (stream e)) →
  let '(r, t) := https_HandleRequest e h_cfg dst rule [] in
  let cfg := conn_cfg h_cfg rule in
  let pre := [APrepareHop (Addrs dst) (HTTPS cfg);
              AReplyHTTP HTTPConnectionEstablishedResponse] in
  let dialed := pre ++ [ADial dst "tcp" (TCPTimeout (Conn cfg))] in
  match reply_err e [APrepareHop (Addrs dst) (HTTPS cfg)], dial_err e dst with
  | Some er, _ => t = pre ∧ (r = Return None ↔ IsConnectionResetByPeer er || Is er EOF = true)
  | None, Some er => r = Return (Some er) ∧ t = dialed
  | None, None => ∃ mid, t = dialed ++ mid ++ [ACloseRemote] ∧ hello_relayed e (HTTPS cfg) mid ∧
      ∀ m rest, ReadTLSMessage (stream e) = Ok (m, rest) → IsClientHello m = Ok true → mid ≠ []
  end.
Proof.
  intros Hok. unfold https_HandleRequest. cbv zeta.
  unfold mbind at 1 2, handler_bind at 1 2, emit at 1, reply at 1. cbv beta iota. simpl app.
  destruct (reply_err e _) as [er |].
  { destruct (IsConnectionResetByPeer er), (Is er EOF); done. }
  unfold mbind at 1, handler_bind at 1, dial at 1. cbv beta iota. simpl app.
  destruct (dial_err e dst) as [er |]; [done |].
  unfold deferred.
  match goal with |- context [?m ?t0] =>
    match type of (m t0) with (hres unit * list act)%type =>
      destruct (hello_adds e (HTTPS (conn_cfg h_cfg rule)) Hok t0) as (r & mid & E & Hmid & Hne)
    end end.
  rewrite E. exists mid. split; [by rewrite <- app_assoc | by split].
Qed.

(** ** Witnesses *)
Definition sample_dst : Destination := mkDestination "a.b" [IPv4 93 184 216 34] 443.
Definition sample_listen : TCPAddr := mkTCPAddr [] 8080.
Definition sample_env : tcp_env :=
  mkTcpEnv (λ _, None) (λ _, None) (mkReader (encode_hello sample_hello ++ [9; 9]) EOF)
    (λ _ _, None) (λ _, None) None
    [mkTransfer 5 TunnelDirOut None; mkTransfer 7 TunnelDirIn None] (Ok []).

Lemma sample_stream_ok : bytes_ok (pending (stream sample_env)).
Proof.
  cbn [pending stream sample_env]. apply Forall_app. split; [apply sample_bytes_ok |].
  by repeat constructor.
Qed.

Lemma connect_Handle_spec_witness :
  bytes_ok (pending (stream sample_env)) ∧
  ∃ mid, (connect_Handle sample_env (Runtime DefaultConfig) sample_listen sample_dst None []).2
    = [APrepareHop (Addrs sample_dst) (HTTPS (Runtime DefaultConfig));
       ADial sample_dst "tcp" (TCPTimeout (Conn (Runtime DefaultConfig)))] ++
      [socks_success] ++ mid ++ [ACloseRemote] ∧ relayed sample_env mid ∧ length mid = 2%nat.
Proof.
  split; [apply sample_stream_ok |].
  pose proof (connect_Handle_spec sample_env (Runtime DefaultConfig) sample_listen sample_dst None
    sample_stream_ok) as H.
  destruct (connect_Handle _ _ _ _ _ []) as [r t]. destruct H as (mid & Ht & Hm & Hx).
  exists mid. split; [exact Ht |]. split; [exact Hm |]. rewrite Hx. by vm_compute.
Defined.

Lemma https_HandleRequest_spec_witness :
  bytes_ok (pending (stream sample_env)) ∧
  ∃ mid, (https_HandleRequest sample_env (Runtime DefaultConfig) sample_dst None []).2
    = ([APrepareHop (Addrs sample_dst) (HTTPS (Runtime DefaultConfig));
        AReplyHTTP HTTPConnectionEstablishedResponse] ++
       [ADial sample_dst "tcp" (TCPTimeout (Conn (Runtime DefaultConfig)))]) ++
      mid ++ [ACloseRemote] ∧ hello_relayed sample_env (HTTPS (Runtime DefaultConfig)) mid.
Proof.
  split; [apply sample_stream_ok |].
  pose proof (https_HandleRequest_spec sample_env (Runtime DefaultConfig) sample_dst None
    sample_stream_ok) as H.
  destruct (https_HandleRequest _ _ _ _ []) as [r t]. destruct H as (mid & Ht & Hm & _).
  exists mid. by split.
Defined.
