(* ===== verification/Routing.v ===== *)
(** * The rule of a request, and the state a proxy server serves it with

    The HTTP and the SOCKS5 server choose the rule of a request the same way:
    the rule the host's name finds, against the best of the rules its addresses
    find. *)

From S2P Require Import Prelude GoIO GoNet GoStrings NetText NetIP ConfigTypes CidrTrie Dns RuleSet NetUtil TcpHandlers.

Local Open Scope string_scope.
Local Open Scope list_scope.
Local Open Scope Z_scope.

(** What one connection is served with: the rules, the DNS client as the
    connection finds it, the times of its lookup and its insertion. *)
Record serve_env `{!NetText} `{!Patricia} : Type := mkServeEnv {
  ruleSet : RuleSet;
  dns : Client;
  ParseAddr : string → option netaddr;
  lookup_time : Z;
  insert_time : Z;
  listenAddr : TCPAddr;
  srv_cfg : RuntimeConfig;
  io : tcp_env;
}.

Section Routing.
Context `{!NetText} `{!Patricia}.

Definition addrQueries (addrs : list IP) : list Query :=
  (λ v, mkQuery MatchTypeAddr (IP_String v)) <$> addrs.
Definition nameQuery (host : string) : list Query := [mkQuery MatchTypeDomain host].

(** Every query a request makes. *)
Definition queries_of (name : option string) (addrs : list IP) : list Query :=
  match name with Some h => nameQuery h | None => [] end ++ addrQueries addrs.

Definition search (e : serve_env) (qs : list Query) : handler (option Rule) :=
  of_outcome (RuleSet.Search qs (ruleSet e)) (λ _, crash).

(** [p.dns.Resolve] and the copy of its result to a slice of [net.IP]. *)
Definition lookup (e : serve_env) (rule : option Rule) (host : string)
    : outcome error (list IP) * Client :=
  let '(r, c, _) := Dns.Resolve (ParseAddr e) (lookup_time e) (insert_time e) rule host (dns e) in
  (mbind (M := outcome error) (λ netAddrs, Ok (na_AsSlice <$> netAddrs)) r, c).

(** A handler called for its result. *)
Definition call {A} (m : handler A) : handler (option error) := λ t,
  match m t with
  | (Go _, t) => (Go None, t)
  | (Return e, t) => (Go e, t)
  | (Crash, t) => (Crash, t)
  end.

Definition with_stream (r : reader) (e : tcp_env) : tcp_env :=
  mkTcpEnv (reply_err e) (dial_err e) r (desync_res e) (remote_err e) (forward_err e)
    (results e) (interfaceAddrs e).

(** ** The best match *)
Definition best_of (addrMatch nameMatch : option Rule) : option Rule :=
  RuleSet.HigherPriority addrMatch nameMatch.

(** [r] is the rule of the queries [qs]: found by one of them, and of a
    priority that none of them exceeds. *)
Definition best_rule (rs : RuleSet) (qs : list Query) (r : option Rule) : Prop :=
  match r with
  | Some b => (∃ q, q ∈ qs ∧ hit rs q = Ok (Some b)) ∧
      ∀ q b', q ∈ qs → hit rs q = Ok (Some b') → Priority b' <= Priority b
  | None => ∀ q b', q ∈ qs → hit rs q ≠ Ok (Some b')
  end.

Lemma Search_best_rule rs qs :
  trie_wf (cidr rs) → ∃ r, RuleSet.Search qs rs = Ok r ∧ best_rule rs qs r.
Proof.
  intros Hwf. destruct (search_loop_spec rs qs None Hwf) as (r & E & H1 & _ & H3 & _).
  unfold RuleSet.Search. rewrite E. simpl. exists r. rewrite Clone_id. split; [done |].
  destruct r as [b |]; simpl.
  - split; [destruct H1 as [? | (q & ? & ?)]; [done | eauto] |].
    intros q b' Hq Hh. by destruct (H3 q b' Hq Hh) as (z & [= <-] & ?).
  - intros q b' Hq Hh. by destruct (H3 q b' Hq Hh) as (z & ? & _).
Qed.

Lemma best_rule_app rs qs1 qs2 r1 r2 :
  best_rule rs qs1 r1 → best_rule rs qs2 r2 → best_rule rs (qs1 ++ qs2) (best_of r2 r1).
Proof.
  unfold best_of. intros H1 H2.
  assert (∀ q b', q ∈ qs1 ++ qs2 → hit rs q = Ok (Some b') →
    (∃ a, r1 = Some a ∧ Priority b' <= Priority a) ∨ (∃ a, r2 = Some a ∧ Priority b' <= Priority a))
    as Hle.
  { intros q b' [Hq | Hq]%elem_of_app Hh; [left | right].
    - destruct r1 as [a |]; [exists a; split; [done | by eapply H1] | by edestruct H1].
    - destruct r2 as [a |]; [exists a; split; [done | by eapply H2] | by edestruct H2]. }
  assert (∀ x, r1 = Some x ∨ r2 = Some x → ∃ q, q ∈ qs1 ++ qs2 ∧ hit rs q = Ok (Some x)) as Hin.
  { intros x [-> | ->]; [destruct H1 as [(q & ? & ?) _] | destruct H2 as [(q & ? & ?) _]];
      exists q; rewrite elem_of_app; auto. }
  destruct r1 as [a |], r2 as [b |]; simpl.
  - destruct (Z.leb_spec (Priority a) (Priority b)); simpl; (split; [by apply Hin; auto |]);
      intros q b' Hq Hh; destruct (Hle q b' Hq Hh) as [(? & [= <-] & ?) | (? & [= <-] & ?)]; lia.
  - split; [by apply Hin; auto |].
    intros q b' Hq Hh. by destruct (Hle q b' Hq Hh) as [(? & [= <-] & ?) | (? & ? & ?)].
  - split; [by apply Hin; auto |].
    intros q b' Hq Hh. by destruct (Hle q b' Hq Hh) as [(? & ? & ?) | (? & [= <-] & ?)].
  - intros q b' Hq Hh. by destruct (Hle q b' Hq Hh) as [(? & ? & ?) | (? & ? & ?)].
Qed.

(** The rules that decide among the queries block: one is found that blocks,
    and every rule found with at least its priority blocks too. *)
Definition blocking (rs : RuleSet) (qs : list Query) : Prop :=
  ∃ q b, q ∈ qs ∧ hit rs q = Ok (Some b) ∧ Block b = true ∧
    ∀ q' b', q' ∈ qs → hit rs q' = Ok (Some b') → Priority b <= Priority b' → Block b' = true.

Lemma best_rule_blocking rs qs r :
  best_rule rs qs r → blocking rs qs → blocked r = true.
Proof.
  intros Hr (q & b & Hq & Hh & Hb & Hmax). destruct r as [b' |]; simpl in *.
  - destruct Hr as [(q' & Hq' & Hh') Hle]. eauto.
  - by destruct (Hr q b Hq).
Qed.

(** ** Where a request may be sent *)
Definition dial_dst (a : act) : option Destination :=
  match a with ADial d _ _ => Some d | _ => None end.

(** Every dial of the trace goes to [dst]. *)
Definition dials_only (dst : Destination) (t : list act) : Prop :=
  Forall (λ a, ∀ d, dial_dst a = Some d → d = dst) t.
Definition no_dial (t : list act) : Prop := Forall (λ a, dial_dst a = None) t.

Lemma no_dial_only dst t : no_dial t → dials_only dst t.
Proof. intros Hn. eapply Forall_impl; [exact Hn |]. intros a Ha d Hd. congruence. Qed.

Lemma search_adds e qs :
  trie_wf (cidr (ruleSet e)) →
  adds (λ r t, t = [] ∧ ∃ b, r = Go b ∧ best_rule (ruleSet e) qs b) (search e qs).
Proof.
  intros Hwf. apply adds_of_outcome.
  destruct (Search_best_rule (ruleSet e) qs Hwf) as (b & -> & Hb).
  split; [done |]. by exists b.
Qed.

(** Calling a handler for its result leaves its trace. *)
Lemma call_trace {A} (m : handler A) t : (call m t).2 = (m t).2 ∧ ((m t).1 ≠ Crash → (call m t).1 ≠ Crash).
Proof. unfold call. by destruct (m t) as [[] ?]. Qed.
End Routing.
