(* ===== verification/HttpServer.v ===== *)
(** * The HTTP proxy server: [internal/server/http/http.go]

    [handleNewConnection] from the request read to the handler's error. *)

From S2P Require Import Prelude GoIO GoNet GoStrings NetText NetIP ConfigTypes CidrTrie Dns RuleSet NetUtil HttpProto TcpHandlers Routing.

Local Open Scope string_scope.
Local Open Scope list_scope.
Local Open Scope Z_scope.

Section HttpServer.
Context `{!NetText} `{!Patricia}.

(** [proto.ReadHttpRequest(conn)]: the request the library parses, and how many
    bytes of what follows it the buffered reader had already taken. They are
    dropped with the reader. *)
Definition ReadHttpRequest (parsed : outcome error (HTTPRequest * nat)) (r : reader)
    : outcome error (HTTPRequest * reader) :=
  mbind (M := outcome error) (λ '(req, ahead),
    Ok (req, mkReader (drop ahead (pending r)) (final r))) parsed.

(** The addresses of the host and the rule its name matches. *)
Definition http_addrs (e : serve_env) (host : string) : handler (list IP * option Rule) :=
  match ParseIP host with
  | Some ip => mret ([ip], None)
  | None =>
    nameMatch ← search e (nameQuery host);
    _ ← emit (AResolve nameMatch host);
    addrs ← of_outcome (lookup e nameMatch host).1
      (λ _, _ ← reply (io e) (AReplyHTTP HTTPBadGatewayResponse); return_ None);
    mret (addrs, nameMatch)
  end.

(** From the destination to the handler. *)
Definition http_dispatch (e : serve_env) (req : HTTPRequest) (rest : reader) (host : string)
    (dstPort : Z) (addrs : list IP) (nameMatch : option Rule) : handler unit :=
  let dst := mkDestination host addrs dstPort in
  let '(ok, err) := IsValid (interfaceAddrs (io e)) dst (listenAddr e) in
  _ ← match err, ok with
      | Some _, false => reply (io e) (AReplyHTTP HTTPForbiddenResponse)
      | _, _ => mret None
      end;
  addrMatch ← search e (addrQueries addrs);
  let bestMatch := HigherPriority addrMatch nameMatch in
  if match bestMatch with Some r => Block r | None => false end then return_ None
  else
    handleErr ←
      (if IsConnectMethod req
       then call (https_HandleRequest (with_stream rest (io e)) (srv_cfg e) dst bestMatch)
       else call (http_HandleRequest (with_stream rest (io e)) req dst));
    return_ None.

Definition handleNewConnection (e : serve_env) (parsed : outcome error (HTTPRequest * nat))
    : handler unit :=
  deferred ACloseClient
    ('(req, rest) ← of_outcome (ReadHttpRequest parsed (stream (io e))) (λ _, return_ None);
     if negb (IsValidMethod req) then
       _ ← reply (io e) (AReplyHTTP HTTPNotImplementedResponse); return_ None
     else
       let host := ExtractHost req in
       match ExtractPort req with
       | None => _ ← reply (io e) (AReplyHTTP HTTPBadRequestResponse); return_ None
       | Some dstPort =>
         '(addrs, nameMatch) ← http_addrs e host;
         http_dispatch e req rest host dstPort addrs nameMatch
       end).

Implicit Types (e : serve_env) (t : list act).

(** The name a request is matched by: none when the host is an address. *)
Definition name_of (host : string) : option string :=
  match ParseIP host with Some _ => None | None => Some host end.
Definition name_queries (host : string) : list Query :=
  match name_of host with Some h => nameQuery h | None => [] end.

(** What the name matches decides whose resolver is asked. *)
Definition http_lookup e (nameMatch : option Rule) (host : string) : outcome error (list IP) :=
  match ParseIP host with Some ip => Ok [ip] | None => (lookup e nameMatch host).1 end.

Lemma http_addrs_eq e host t :
  trie_wf (cidr (ruleSet e)) →
  ∃ nameMatch pre, best_rule (ruleSet e) (name_queries host) nameMatch ∧ no_dial pre ∧
    http_addrs e host t =
    match http_lookup e nameMatch host with
    | Ok addrs => (Go (addrs, nameMatch), t ++ pre)
    | Err _ => (Return None, t ++ pre ++ [AReplyHTTP HTTPBadGatewayResponse])
    | _ => (Crash, t ++ pre)
    end.
Proof.
  intros Hwf. unfold http_addrs, http_lookup, name_queries, name_of.
  destruct (ParseIP host) as [ip |].
  { exists None, []. rewrite app_nil_r. split_and!; [by intros q b ?%elem_of_nil | constructor | done]. }
  destruct (Search_best_rule (ruleSet e) (nameQuery host) Hwf) as (nm & Hs & Hb).
  exists nm, [AResolve nm host]. split_and!; [done | by repeat constructor |].
  unfold search. rewrite Hs. unfold mbind, handler_bind, of_outcome, mret, handler_ret, emit. simpl.
  destruct (lookup e nm host).1; try done. by rewrite <- app_assoc.
Qed.

(** The handler of a request. *)
Definition serve_request e (req : HTTPRequest) (rest : reader) (dst : Destination)
    (rule : option Rule) : handler unit :=
  if IsConnectMethod req
  then https_HandleRequest (with_stream rest (io e)) (srv_cfg e) dst rule
  else http_HandleRequest (with_stream rest (io e)) req dst.

Lemma http_dispatch_eq e req rest host port addrs nameMatch t :
  trie_wf (cidr (ruleSet e)) →
  best_rule (ruleSet e) (name_queries host) nameMatch →
  let dst := mkDestination host addrs port in
  ∃ rule pre, best_rule (ruleSet e) (queries_of (name_of host) addrs) rule ∧ no_dial pre ∧
    (http_dispatch e req rest host port addrs nameMatch t).2 =
    if blocked rule then t ++ pre else (serve_request e req rest dst rule (t ++ pre)).2.
Proof.
  intros Hwf Hnm dst. unfold http_dispatch. fold dst.
  destruct (Search_best_rule (ruleSet e) (addrQueries addrs) Hwf) as (am & Hs & Ham).
  destruct (IsValid (interfaceAddrs (io e)) dst (listenAddr e)) as [ok err].
  set (m403 := match err, ok with Some _, false => _ | _, _ => _ end).
  assert (∃ r pre, m403 t = (Go r, t ++ pre) ∧ no_dial pre) as (r & pre & Hm & Hpre).
  { subst m403. destruct err, ok; try (exists None, []; split; [by rewrite app_nil_r | by constructor]).
    eexists _, [_]. split; [done | by repeat constructor]. }
  exists (best_of am nameMatch), pre.
  split_and!; [by apply best_rule_app | done |].
  unfold mbind at 1, handler_bind at 1. rewrite Hm.
  unfold search. rewrite Hs. unfold mbind at 1, handler_bind at 1, of_outcome, mret, handler_ret.
  fold (best_of am nameMatch). cbv zeta.
  change (match best_of am nameMatch with Some r => Block r | None => false end)
    with (blocked (best_of am nameMatch)).
  destruct (blocked (best_of am nameMatch)); [done |].
  unfold mbind, handler_bind, serve_request. destruct (IsConnectMethod req).
  - destruct (call_trace (https_HandleRequest (with_stream rest (io e)) (srv_cfg e) dst
      (best_of am nameMatch)) (t ++ pre)) as [<- _]. by destruct (call _ _) as [[] ?].
  - destruct (call_trace (http_HandleRequest (with_stream rest (io e)) req dst) (t ++ pre)) as [<- _].
    by destruct (call _ _) as [[] ?].
Qed.

Lemma handle_eq e req ahead port :
  IsValidMethod req = true → ExtractPort req = Some port →
  handleNewConnection e (Ok (req, ahead)) [] =
  deferred ACloseClient
    ('(addrs, nameMatch) ← http_addrs e (ExtractHost req);
     http_dispatch e req (mkReader (drop ahead (pending (stream (io e)))) (final (stream (io e))))
       (ExtractHost req) port addrs nameMatch) [].
Proof.
  intros Hv Hp. unfold handleNewConnection, deferred, ReadHttpRequest.
  unfold mbind at 1, handler_bind at 1, of_outcome. simpl. unfold mret, handler_ret.
  rewrite Hv. simpl. by rewrite Hp.
Qed.


(** C12. Blocking holds: whatever the connection brings and whatever the
    resolver answers, when the deciding rules of the request's name and
    addresses block, the proxy dials nothing. *)
Theorem blocked_never_dials e (parsed : outcome error (HTTPRequest * nat)) :
  trie_wf (cidr (ruleSet e)) →
  (∀ req ahead nameMatch addrs, parsed = Ok (req, ahead) →
     http_lookup e nameMatch (ExtractHost req) = Ok addrs →
     blocking (ruleSet e) (queries_of (name_of (ExtractHost req)) addrs)) →
  no_dial (handleNewConnection e parsed []).2.
Proof.
  intros Hwf Hb. destruct parsed as [[req ahead] | er | |]; try by repeat constructor.
  destruct (IsValidMethod req) eqn:Hv.
  2: { unfold handleNewConnection, deferred, ReadHttpRequest.
    unfold mbind at 1, handler_bind at 1, of_outcome. simpl. unfold mret, handler_ret.
    rewrite Hv. by repeat constructor. }
  destruct (ExtractPort req) as [port |] eqn:Hp.
  2: { unfold handleNewConnection, deferred, ReadHttpRequest.
    unfold mbind at 1, handler_bind at 1, of_outcome. simpl. unfold mret, handler_ret.
    rewrite Hv. simpl. rewrite Hp. by repeat constructor. }
  rewrite (handle_eq e req ahead port Hv Hp). unfold deferred, mbind, handler_bind.
  destruct (http_addrs_eq e (ExtractHost req) [] Hwf) as (nm & pre & Hnm & Hpre & ->).
  destruct (http_lookup e nm (ExtractHost req)) as [addrs | er | |] eqn:Hl; simpl.
  - match goal with |- context [http_dispatch e req ?rest _ _ _ _ _] =>
      destruct (http_dispatch_eq e req rest (ExtractHost req) port addrs nm pre Hwf Hnm)
        as (rule & pre2 & Hr & Hpre2 & Ht) end.
    rewrite (best_rule_blocking _ _ _ Hr (Hb req ahead nm addrs eq_refl Hl)) in Ht.
    destruct (http_dispatch _ _ _ _ _ _ _ _) as [r t]. simpl in *. rewrite Ht.
    apply Forall_app. split; [by apply Forall_app | by repeat constructor].
  - apply Forall_app. split; [apply Forall_app; split; [done |] |]; by repeat constructor.
  - apply Forall_app. split; [done |]. by repeat constructor.
  - apply Forall_app. split; [done |]. by repeat constructor.
Qed.
End HttpServer.

(** ** Witnesses *)
Definition ads_rule : Rule :=
  mkRule "ads" 7 true (Some (mkMatchAttrs ["*.ads.com"] [])) (Runtime DefaultConfig).
Definition ads_rules : RuleSet := default NewRuleSet (added [ads_rule] NewRuleSet).

Definition sample_serve_env : serve_env :=
  mkServeEnv _ _ ads_rules sample_client (λ _, None) 5 6 (mkTCPAddr (IPv4 127 0 0 1) 8080)
    (Runtime DefaultConfig) sample_env.

Lemma ads_rules_wf : trie_wf (cidr ads_rules).
Proof. apply NewCIDRTrie_wf. Qed.

Definition sample_connect : HTTPRequest := mkHTTPRequest "CONNECT" "www.a.com:443".
Definition ads_connect : HTTPRequest := mkHTTPRequest "CONNECT" "www.ads.com:443".


Lemma blocked_never_dials_witness :
  trie_wf (cidr (ruleSet sample_serve_env)) ∧
  no_dial (handleNewConnection sample_serve_env (Ok (ads_connect, 0%nat)) []).2.
Proof.
  split; [apply ads_rules_wf |].
  apply (blocked_never_dials sample_serve_env (Ok (ads_connect, 0%nat)) ads_rules_wf).
  intros req ahead nm addrs [= <- <-] Hl. exists (mkQuery MatchTypeDomain "www.ads.com"), ads_rule.
  split_and!; [apply elem_of_app; left; apply list_elem_of_singleton; by vm_compute | by vm_compute | done |].
  intros q b Hq Hh _. apply elem_of_app in Hq as [Hq | Hq].
  - assert (q = mkQuery MatchTypeDomain "www.ads.com") as ->
      by (apply list_elem_of_singleton; exact Hq).
    vm_compute in Hh. by injection Hh as <-.
  - apply list_elem_of_fmap in Hq as (ip & -> & _). exfalso.
    unfold hit in Hh. cbn [Type_ Value] in Hh.
    destruct (search_ok (cidr ads_rules) (IP_String ip) ads_rules_wf) as (r & E & Hr).
    change (ruleSet sample_serve_env) with ads_rules in Hh. rewrite E in Hh. injection Hh as ->.
    destruct (ParseIP (IP_String ip)); [| done].
    destruct Hr as (p & _ & He & _). by destruct (ip_bits _) as [[] bits]; vm_compute in He.
Defined.

(** A request for the proxy itself is answered with 403 and then served: the
    proxy dials itself. *)
Definition self_request : HTTPRequest := mkHTTPRequest "GET" "127.0.0.1:8080".

Lemma forbidden_then_dials :
  (handleNewConnection sample_serve_env (Ok (self_request, 0%nat)) []).2 =
  [AReplyHTTP HTTPForbiddenResponse;
   ADial (mkDestination "127.0.0.1" [IPv4 127 0 0 1] 8080) "tcp" 0;
   AForward self_request; ATunnel (stream sample_env); ACloseRemote; ACloseClient].
Proof. by vm_compute. Qed.
