(* ===== verification/HttpRead.v ===== *)
(** * Reading a request head: the buffered reader of [proto.ReadHttpRequest]

    [http.ReadRequest(bufio.NewReader(rdr))] reads lines up to the blank one
    through a buffer that nobody sees again. The lines are read here as [bufio]
    and [textproto] read them, over a source that delivers chunks of any size;
    what the lines mean is the library's parser, a parameter ([check] refuses
    the lines read so far, [parse] makes the request of them). *)

From S2P Require Import Prelude GoIO GoNet GoStrings NetText NetIP Tls ConfigTypes CidrTrie Dns RuleSet NetUtil Conns HttpProto TcpHandlers Routing HttpServer.

Local Open Scope list_scope.
Local Open Scope Z_scope.

Definition LF : Z := 10.
Definition CR : Z := 13.

(** The bytes before the first line feed, and those after it. *)
Fixpoint cut_lf (l : bytes) : option (bytes * bytes) :=
  match l with
  | [] => None
  | b :: l => if b =? LF then Some ([], l) else '(p, q) ← cut_lf l; Some (b :: p, q)
  end.

(** A line without its carriage return. *)
Definition drop_cr (line : bytes) : bytes :=
  if bool_decide (last line = Some CR) then removelast line else line.

Definition with_buf (buf : bytes) (b : BufferedConn) : BufferedConn := mkBuffered buf (b_err b) (b_src b).

(** [textproto.Reader.ReadLine] over [bufio.Reader.ReadLine] and [ReadSlice]: a
    full buffer is put aside ([acc]), but for a carriage return at its end; what
    is left when the source fails is a line, if it is not empty. *)
Fixpoint read_line (fuel : nat) (acc : bytes) (b : BufferedConn) : outcome error (bytes * BufferedConn) :=
  match fuel with
  | O => Diverge
  | S fuel =>
    match cut_lf (b_buf b) with
    | Some (line, rest) => Ok (acc ++ drop_cr line, with_buf rest b)
    | None =>
      match b_err b with
      | Some er =>
        if len (b_buf b) =? 0 then Err er else Ok (acc ++ b_buf b, mkBuffered [] None (b_src b))
      | None =>
        if bufSize <=? len (b_buf b) then
          if bool_decide (last (b_buf b) = Some CR)
          then read_line fuel (acc ++ removelast (b_buf b)) (with_buf [CR] b)
          else read_line fuel (acc ++ b_buf b) (with_buf [] b)
        else read_line fuel acc (fill b)
      end
    end
  end.
Definition ReadLine (b : BufferedConn) : outcome error (bytes * BufferedConn) :=
  read_line (S (S (2 * length (pending (view b))))) [] b.

Section ReadHead.
(** The library's parser: the error of the lines read so far, if they have one,
    and the request of a whole head. *)
Variable check : list bytes → option error.
Variable parse : list bytes → outcome error HTTPRequest.

(** The lines after [seen], up to the blank one. *)
Fixpoint read_lines (fuel : nat) (seen : list bytes) (b : BufferedConn)
    : outcome error (list bytes * BufferedConn) :=
  match fuel with
  | O => Diverge
  | S fuel =>
    match ReadLine b with
    | Ok (line, b) =>
      if bool_decide (line = []) then Ok (seen, b)
      else
        match check (seen ++ [line]) with
        | Some er => Err er
        | None => read_lines fuel (seen ++ [line]) b
        end
    | Err er => Err (if decide (er = EOF) then ErrUnexpectedEOF else er)
    | Panic => Panic
    | Diverge => Diverge
    end
  end.

(** [http.ReadRequest]: the first line, then the header. *)
Definition ReadRequest (b : BufferedConn) : outcome error (HTTPRequest * BufferedConn) :=
  '(first, b) ← ReadLine b;
  match check [first] with
  | Some er => Err er
  | None =>
    '(lines, b) ← read_lines (S (length (pending (view b)))) [first] b;
    req ← parse lines;
    Ok (req, b)
  end.

(** [proto.ReadHttpRequest(conn)]: the request, the bytes of the client the
    buffer still holds, and what the connection delivers next. *)
Definition read_request (s : source) : outcome error (HTTPRequest * bytes * source) :=
  '(req, b) ← ReadRequest (NewBufferedConn s); Ok (req, b_buf b, b_src b).
End ReadHead.

(** ** Lines *)
Definition no_lf (l : bytes) : Prop := Forall (λ b, b ≠ LF) l.
Definition plain_line (l : bytes) : Prop := Forall (λ b, b ≠ LF ∧ b ≠ CR) l.

Lemma cut_lf_app l r : no_lf l → cut_lf (l ++ LF :: r) = Some (l, r).
Proof.
  induction 1 as [| b l Hb _ IH]; [done |]. cbn [app cut_lf]. replace (b =? LF) with false by lia. by rewrite IH.
Qed.

Lemma cut_lf_Some l p q : cut_lf l = Some (p, q) → l = p ++ LF :: q ∧ no_lf p.
Proof.
  revert p. induction l as [| b l IH]; intros p; cbn [cut_lf]; [done |].
  destruct (Z.eqb_spec b LF) as [-> | Hb]; [intros [= <- <-]; split; [done | by constructor] |].
  destruct (cut_lf l) as [[p' q'] |]; [| done]. cbn. intros [= <- <-].
  destruct (IH p' eq_refl) as [-> Hp]. split; [done |]. by constructor.
Qed.

Lemma cut_lf_None l : cut_lf l = None → no_lf l.
Proof.
  induction l as [| b l IH]; cbn [cut_lf]; [by constructor |].
  destruct (Z.eqb_spec b LF) as [-> | Hb]; [done |]. destruct (cut_lf l) as [[]|]; [done |].
  intros _. constructor; [done | by apply IH].
Qed.

Lemma drop_cr_app l : drop_cr (l ++ [CR]) = l.
Proof. unfold drop_cr. rewrite last_snoc, bool_decide_true by done. by rewrite removelast_last. Qed.

Lemma plain_no_lf l : plain_line l → no_lf (l ++ [CR]).
Proof.
  intros Hl. apply Forall_app. split; [| by repeat constructor]. eapply Forall_impl; [exact Hl |]. by intros b [? _].
Qed.

Lemma line_first line p q rest : plain_line line → no_lf p →
  p ++ LF :: q = line ++ CR :: LF :: rest → p = line ++ [CR] ∧ rest = q.
Proof.
  intros Hl Hp He. apply (f_equal cut_lf) in He. rewrite cut_lf_app in He by done.
  rewrite cons_middle, app_assoc, cut_lf_app in He by (by apply plain_no_lf). by injection He as -> ->.
Qed.

Lemma no_lf_app l r : no_lf (l ++ LF :: r) → False.
Proof. intros H. apply Forall_app in H as [_ H]. by apply Forall_cons in H as [? _]. Qed.

Lemma plain_last l : plain_line l → last l ≠ Some CR.
Proof. intros H Hl. apply last_Some in Hl as [l' ->]. apply Forall_app in H as [_ H]. apply Forall_cons in H. naive_solver. Qed.

(** A buffer without a line feed holds a part of the line, and maybe its
    carriage return. *)
Lemma buffer_in_line buf src line rest :
  plain_line line → no_lf buf → buf ++ src = line ++ CR :: LF :: rest →
  (buf = line ++ [CR] ∧ src = LF :: rest) ∨
  ∃ line', line = buf ++ line' ∧ src = line' ++ CR :: LF :: rest.
Proof.
  revert line. induction buf as [| b buf IH]; intros line Hl Hb He; [right; by exists line |].
  apply Forall_cons in Hb as [Hb Hbuf]. destruct line as [| c line].
  - injection He as -> He. left. destruct buf as [| b2 buf]; [done |]. injection He as -> _.
    by apply Forall_cons in Hbuf as [? _].
  - injection He as -> He. apply Forall_cons in Hl as [Hc Hl].
    destruct (IH line Hl Hbuf He) as [[-> ->] | (line' & -> & ->)]; [by left | right; by exists line'].
Qed.

(** A read brings bytes, while there are some. *)
Lemma fill_data b : buffered_wf b → b_err b = None → len (b_buf b) < bufSize → chunks (b_src b) ≠ [] →
  buffered_wf (fill b) ∧ view (fill b) = view b ∧ b_err (fill b) = None ∧
  len (b_buf b) < len (b_buf (fill b)).
Proof.
  intros Hwf He Hl Hn. destruct (fill_spec b Hwf He Hl) as (Hwf' & Hv & Hcase).
  split_and!; try done; destruct Hcase as [[? ?] | [er Her]]; try done; exfalso; revert Her; unfold fill.
  all: destruct (conn_Read _ _) as [[d err] s] eqn:E;
    apply conn_Read_spec in E as (_ & _ & _ & _ & [[-> _] | (_ & _ & _ & ?)]); try done; try lia; apply Hwf.
Qed.

Lemma with_buf_wf buf b : buffered_wf b → len buf <= bufSize → buffered_wf (with_buf buf b).
Proof. intros [Hc Hl He] Hb. by split. Qed.

(** The lengths of what a buffered connection has, and of what its source has. *)
Definition to_read (b : BufferedConn) : nat := 2 * length (mjoin (chunks (b_src b))) + length (b_buf b).

Lemma view_to_read b b' : view b' = view b → len (b_buf b) < len (b_buf b') → (to_read b' < to_read b)%nat.
Proof.
  intros [= Hp _] Hl. apply (f_equal length) in Hp. rewrite !length_app in Hp. unfold to_read, len in *. lia.
Qed.

(** A line is read whole, whatever the chunks, and what follows it stays. *)
Lemma read_line_spec fuel acc b line rest :
  buffered_wf b → plain_line line → pending (view b) = line ++ CR :: LF :: rest → (to_read b < fuel)%nat →
  ∃ b', read_line fuel acc b = Ok (acc ++ line, b') ∧ buffered_wf b' ∧
    pending (view b') = rest ∧ final (view b') = final (view b).
Proof.
  revert acc b line. induction fuel as [| fuel IH]; intros acc b line Hwf Hl Hp Hf; [lia |].
  cbn [read_line]. unfold view in Hp. cbn [pending] in Hp. pose proof Hwf as [Hc Hlen He].
  destruct (cut_lf (b_buf b)) as [[p q] |] eqn:Hcut.
  { apply cut_lf_Some in Hcut as [Hb Hno]. rewrite Hb, <- app_assoc in Hp. cbn [app] in Hp.
    destruct (line_first _ _ _ _ Hl Hno Hp) as [-> ->]. exists (with_buf q b).
    rewrite drop_cr_app. split; [done |]. split; [| by split].
    apply with_buf_wf; [done |].
    rewrite Hb, len_app, len_cons in Hlen. pose proof (len_nonneg (line ++ [CR])). lia. }
  apply cut_lf_None in Hcut.
  assert (chunks (b_src b) ≠ []) as Hmore.
  { intros Hn. rewrite Hn in Hp. change (mjoin []) with (@nil Z) in Hp. rewrite app_nil_r in Hp.
    apply (no_lf_app (line ++ [CR]) rest). rewrite <- app_assoc. by rewrite Hp in Hcut. }
  destruct (b_err b) as [er |] eqn:Herr; [by destruct (He er eq_refl) |].
  destruct (Z.leb_spec bufSize (len (b_buf b))) as [Hfull | Hroom].
  - destruct (buffer_in_line _ _ line rest Hl Hcut Hp) as [[Hb Hs] | (line' & -> & Hs)].
    + rewrite Hb, last_snoc, bool_decide_true, removelast_last by done.
      destruct (IH (acc ++ line) (with_buf [CR] b) []) as (b' & HR & ?);
        [by apply with_buf_wf | by constructor | | |].
      * unfold view. cbn [pending b_buf b_src with_buf]. by rewrite Hs.
      * unfold to_read, len, bufSize in *. cbn [b_buf b_src with_buf length]. lia.
      * exists b'. by rewrite HR, app_nil_r.
    + apply Forall_app in Hl as [Hl1 Hl2]. rewrite bool_decide_false by (by apply plain_last).
      destruct (IH (acc ++ b_buf b) (with_buf [] b) line') as (b' & HR & ?);
        [by apply with_buf_wf | done | done | |].
      * unfold to_read, len, bufSize in *. cbn [b_buf b_src with_buf length]. lia.
      * exists b'. by rewrite HR, app_assoc.
  - destruct (fill_data b Hwf Herr Hroom Hmore) as (Hwf' & Hv & _ & Hlt).
    destruct (IH acc (fill b) line Hwf' Hl) as (b' & HR & ? & ? & ?).
    + by rewrite Hv.
    + pose proof (view_to_read b (fill b) Hv Hlt). lia.
    + exists b'. by rewrite HR, <- Hv.
Qed.

Lemma ReadLine_spec b line rest :
  buffered_wf b → plain_line line → pending (view b) = line ++ CR :: LF :: rest →
  ∃ b', ReadLine b = Ok (line, b') ∧ buffered_wf b' ∧ pending (view b') = rest ∧ final (view b') = final (view b).
Proof.
  intros Hwf Hl Hp. apply (read_line_spec _ [] b line rest Hwf Hl Hp).
  unfold to_read, view. cbn [pending]. rewrite length_app. lia.
Qed.

(** A line that is in the buffer is read from it alone. *)
Lemma ReadLine_buffered line rest er s : plain_line line →
  ReadLine (mkBuffered (line ++ CR :: LF :: rest) er s) = Ok (line, mkBuffered rest er s).
Proof.
  intros Hl. unfold ReadLine. cbn [read_line b_buf b_err b_src].
  rewrite cons_middle, app_assoc, cut_lf_app by (by apply plain_no_lf). by rewrite drop_cr_app.
Qed.

(** *** Reading a line ends: a line and what it leaves, or an error *)
Definition rounds (b : BufferedConn) : nat := to_read b + match b_err b with None => 1 | Some _ => 0 end.
Definition total_length (b : BufferedConn) : nat := length (pending (view b)).

Lemma mjoin_none : length (mjoin (M := list) (A := Z) []) = 0%nat.
Proof. done. Qed.

Lemma fill_rounds b : buffered_wf b → b_err b = None → len (b_buf b) < bufSize →
  buffered_wf (fill b) ∧ total_length (fill b) = total_length b ∧ (rounds (fill b) < rounds b)%nat.
Proof.
  intros Hwf He Hl. destruct (fill_spec b Hwf He Hl) as (Hwf' & Hv & Hcase).
  unfold total_length, rounds. rewrite Hv, He. split_and!; [done | done |]. destruct Hcase as [[-> Hlt] | [er Her]].
  - pose proof (view_to_read b (fill b) Hv Hlt). lia.
  - rewrite Her. destruct (wf_err _ Hwf' er Her) as [_ Hc]. injection Hv as Hp _. apply (f_equal length) in Hp.
    rewrite !length_app in Hp. unfold to_read. rewrite Hc, mjoin_none in *. lia.
Qed.

Lemma cut_lf_length l p q : cut_lf l = Some (p, q) → (length p + length q < length l)%nat.
Proof. intros H. apply cut_lf_Some in H as [-> _]. rewrite length_app. cbn. lia. Qed.

Lemma removelast_length (l : bytes) : length (removelast l) = (length l - 1)%nat.
Proof. induction l as [| a [| b l] IH]; [done | done |]. cbn [removelast length] in *. rewrite IH. lia. Qed.

Lemma drop_cr_length l : (length (drop_cr l) <= length l)%nat.
Proof. unfold drop_cr. case_bool_decide; [rewrite removelast_length |]; lia. Qed.

Lemma read_line_total fuel acc b : buffered_wf b → (rounds b < fuel)%nat →
  returns (read_line fuel acc b) (λ '(line, b'),
    buffered_wf b' ∧ (length line + total_length b' <= length acc + total_length b)%nat).
Proof.
  revert acc b. induction fuel as [| fuel IH]; intros acc b Hwf Hf; [lia |].
  cbn [read_line]. pose proof Hwf as [Hc Hlen He].
  destruct (cut_lf (b_buf b)) as [[p q] |] eqn:Hcut.
  { pose proof (drop_cr_length p). apply cut_lf_length in Hcut. cbn. split.
    - apply with_buf_wf; [done | unfold len in *; lia].
    - unfold total_length, view. cbn [pending b_buf b_src with_buf]. rewrite !length_app. lia. }
  destruct (b_err b) as [er |] eqn:Herr.
  { case_match; [done |]. destruct (He er eq_refl) as [_ Hs]. cbn. split.
    - split; cbn; [by rewrite Hs | unfold len, bufSize; cbn; lia | done].
    - unfold total_length, view. cbn [pending b_buf b_src]. rewrite !length_app. cbn. lia. }
  destruct (Z.leb_spec bufSize (len (b_buf b))) as [Hfull | Hroom].
  - pose proof (removelast_length (b_buf b)).
    assert (∀ out kept, (length out + length kept = length (b_buf b))%nat → (length kept < 2)%nat →
      returns (read_line fuel (acc ++ out) (with_buf kept b)) (λ '(line, b'),
        buffered_wf b' ∧ (length line + total_length b' <= length acc + total_length b)%nat)) as Hput.
    { intros out kept Ho Hk. unfold len, bufSize in *.
      eapply returns_weaken; [apply IH |].
      - apply with_buf_wf; [done | unfold len, bufSize; lia].
      - unfold rounds, to_read in *. cbn [b_buf b_src b_err with_buf]. rewrite Herr in Hf |- *. lia.
      - intros [line b'] [Hw Hl]. split; [done |]. revert Hl. unfold total_length, view.
        cbn [pending b_buf b_src with_buf]. rewrite !length_app. lia. }
    unfold len, bufSize in Hfull. case_bool_decide; apply Hput; cbn; lia.
  - destruct (fill_rounds b Hwf Herr Hroom) as (Hwf' & Ht & Hr). rewrite <- Ht. apply IH; [done | lia].
Qed.

Lemma ReadLine_total b : buffered_wf b →
  returns (ReadLine b) (λ '(line, b'), buffered_wf b' ∧ (length line + total_length b' <= total_length b)%nat).
Proof.
  intros Hwf. apply (read_line_total _ [] b Hwf).
  unfold rounds, to_read, view. cbn [pending]. rewrite length_app. case_match; lia.
Qed.

(** ** Heads *)

(** The bytes of a head: its lines, and the blank one. *)
Definition head_bytes (lines : list bytes) : bytes := foldr (λ l r, l ++ CR :: LF :: r) [CR; LF] lines.

Lemma head_bytes_cons l lines rest :
  head_bytes (l :: lines) ++ rest = l ++ CR :: LF :: (head_bytes lines ++ rest).
Proof. cbn [head_bytes foldr]. by rewrite <- app_assoc. Qed.

Lemma head_bytes_length lines : (length lines < length (head_bytes lines))%nat.
Proof. induction lines as [| l lines IH]; cbn; [lia |]. rewrite length_app. cbn. fold (head_bytes lines). lia. Qed.

(** A head the library takes: no empty line, and no line it refuses. *)
Definition head_ok (check : list bytes → option error) (lines : list bytes) : Prop :=
  lines ≠ [] ∧ Forall (λ l, plain_line l ∧ l ≠ []) lines ∧
  ∀ seen more, lines = seen ++ more → seen ≠ [] → check seen = None.

Section Heads.
Variable check : list bytes → option error.
Variable parse : list bytes → outcome error HTTPRequest.

Lemma read_lines_step fuel seen b line b' :
  ReadLine b = Ok (line, b') → line ≠ [] → check (seen ++ [line]) = None →
  read_lines check (S fuel) seen b = read_lines check fuel (seen ++ [line]) b'.
Proof. intros HR Hl Hc. cbn [read_lines]. by rewrite HR, bool_decide_false, Hc. Qed.

Lemma read_lines_spec fuel seen lines b rest : buffered_wf b →
  Forall (λ l, plain_line l ∧ l ≠ []) lines →
  (∀ done more, lines = done ++ more → done ≠ [] → check (seen ++ done) = None) →
  pending (view b) = head_bytes lines ++ rest → (length lines < fuel)%nat →
  ∃ b', read_lines check fuel seen b = Ok (seen ++ lines, b') ∧ buffered_wf b' ∧
    pending (view b') = rest ∧ final (view b') = final (view b).
Proof.
  revert fuel seen b. induction lines as [| l lines IH]; intros [| fuel] seen b Hwf Hls Hc Hp Hf; try (cbn in Hf; lia).
  - destruct (ReadLine_spec b [] rest Hwf) as (b' & HR & Hb'); [by constructor | by rewrite Hp |].
    exists b'. cbn [read_lines]. rewrite HR, bool_decide_true by done. by rewrite app_nil_r.
  - apply Forall_cons in Hls as [[Hl Hl0] Hls]. rewrite head_bytes_cons in Hp.
    destruct (ReadLine_spec b l _ Hwf Hl Hp) as (b1 & HR & Hwf1 & Hp1 & Hf1).
    destruct (IH fuel (seen ++ [l]) b1 Hwf1 Hls) as (b' & HR' & ? & ? & ?).
    + intros done' more -> _. rewrite <- app_assoc. by apply (Hc (l :: done') more).
    + done.
    + cbn in Hf. lia.
    + exists b'. rewrite (read_lines_step _ _ _ _ _ HR Hl0) by (by apply (Hc [l] lines)).
      rewrite HR', <- app_assoc. split_and!; try done. by rewrite <- Hf1.
Qed.

Lemma ReadRequest_spec b lines rest req : buffered_wf b → head_ok check lines → parse lines = Ok req →
  pending (view b) = head_bytes lines ++ rest →
  ∃ b', ReadRequest check parse b = Ok (req, b') ∧ pending (view b') = rest ∧ final (view b') = final (view b).
Proof.
  intros Hwf (Hn & Hls & Hc) Hparse Hp. destruct lines as [| l lines]; [done |].
  apply Forall_cons in Hls as [[Hl Hl0] Hls]. rewrite head_bytes_cons in Hp.
  destruct (ReadLine_spec b l _ Hwf Hl Hp) as (b1 & HR & Hwf1 & Hp1 & Hf1).
  destruct (read_lines_spec (S (length (pending (view b1)))) [l] lines b1 rest Hwf1 Hls) as (b' & HR' & _ & Hp' & Hf').
  - intros done' more -> _. by apply (Hc ([l] ++ done') more).
  - done.
  - rewrite Hp1, length_app. pose proof (head_bytes_length lines). lia.
  - exists b'. unfold ReadRequest. rewrite HR. cbn [mbind outcome_bind]. rewrite (Hc [l] lines) by done.
    rewrite HR'. cbn [mbind outcome_bind app]. rewrite Hparse. split; [done |]. split; [done | by rewrite Hf', Hf1].
Qed.

(** A head that is in the buffer is read from it alone. *)
Lemma read_lines_buffered fuel seen lines rest er s :
  Forall (λ l, plain_line l ∧ l ≠ []) lines →
  (∀ done more, lines = done ++ more → done ≠ [] → check (seen ++ done) = None) →
  (length lines < fuel)%nat →
  read_lines check fuel seen (mkBuffered (head_bytes lines ++ rest) er s) =
  Ok (seen ++ lines, mkBuffered rest er s).
Proof.
  revert fuel seen. induction lines as [| l lines IH]; intros [| fuel] seen Hls Hc Hf; try (cbn in Hf; lia).
  - cbn [read_lines]. change (head_bytes [] ++ rest) with ([] ++ CR :: LF :: rest).
    rewrite ReadLine_buffered, bool_decide_true by (by constructor). by rewrite app_nil_r.
  - apply Forall_cons in Hls as [[Hl Hl0] Hls]. rewrite head_bytes_cons.
    rewrite (read_lines_step _ _ _ l (mkBuffered (head_bytes lines ++ rest) er s));
      [| by apply ReadLine_buffered | done | by apply (Hc [l] lines)].
    rewrite IH, <- app_assoc; [done | done | | cbn in Hf; lia].
    intros done' more -> _. rewrite <- app_assoc. by apply (Hc (l :: done') more).
Qed.

Lemma ReadRequest_buffered lines rest req er s : head_ok check lines → parse lines = Ok req →
  ReadRequest check parse (mkBuffered (head_bytes lines ++ rest) er s) = Ok (req, mkBuffered rest er s).
Proof.
  intros (Hn & Hls & Hc) Hparse. destruct lines as [| l lines]; [done |].
  apply Forall_cons in Hls as [[Hl Hl0] Hls]. rewrite head_bytes_cons.
  unfold ReadRequest. rewrite ReadLine_buffered by done. cbn [mbind outcome_bind].
  rewrite (Hc [l] lines) by done. rewrite read_lines_buffered; [| done | |].
  - cbn [mbind outcome_bind app]. by rewrite Hparse.
  - intros done' more -> _. by apply (Hc ([l] ++ done') more).
  - unfold view. cbn [pending b_buf]. rewrite !length_app. pose proof (head_bytes_length lines). lia.
Qed.

(** The first line comes by the first read, when the whole chunk fits. *)
Lemma ReadLine_fills c cs fin : LF ∈ c → len c <= bufSize →
  ReadLine (mkBuffered [] None (mkSource (c :: cs) fin)) = ReadLine (mkBuffered c None (mkSource cs fin)).
Proof.
  intros Hc Hl. unfold ReadLine.
  assert (∃ p q, cut_lf c = Some (p, q)) as (p & q & Hcut).
  { destruct (cut_lf c) as [[p q] |] eqn:E; [eauto |]. apply cut_lf_None in E.
    by destruct (proj1 (Forall_forall _ _) E LF Hc). }
  assert (0 < len c) by (destruct c; [by apply elem_of_nil in Hc | unfold len; cbn; lia]).
  assert (∃ k, 2 * length (pending (view (mkBuffered [] None (mkSource (c :: cs) fin)))) = S k)%nat as [k ->].
  { unfold view. cbn [pending b_buf b_src chunks app]. change (mjoin (c :: cs)) with (c ++ mjoin cs).
    rewrite length_app. exists (2 * (length c + length (mjoin cs)) - 1)%nat. unfold len in *. lia. }
  cbn [read_line b_buf cut_lf b_err len]. change (bufSize <=? len []) with false. cbn iota.
  unfold fill. cbn [b_buf b_src]. unfold conn_Read. cbn [chunks s_final].
  replace (len c <=? bufSize - len []) with true by (change (len []) with 0; lia).
  cbn [app b_buf b_err b_src]. by rewrite Hcut.
Qed.

Lemma ReadRequest_fills c cs fin : LF ∈ c → len c <= bufSize →
  ReadRequest check parse (mkBuffered [] None (mkSource (c :: cs) fin)) =
  ReadRequest check parse (mkBuffered c None (mkSource cs fin)).
Proof. intros Hc Hl. unfold ReadRequest. by rewrite ReadLine_fills. Qed.

(** The head is read to its end or to an error, whatever the client sends. *)
Lemma read_lines_total fuel seen b : buffered_wf b → (total_length b < fuel)%nat →
  returns (read_lines check fuel seen b) (λ '(_, b'), buffered_wf b').
Proof.
  revert seen b. induction fuel as [| fuel IH]; intros seen b Hwf Hf; [lia |]. cbn [read_lines].
  pose proof (ReadLine_total b Hwf) as HR. destruct (ReadLine b) as [[line b1] | | |]; try done.
  destruct HR as [Hwf1 Hl]. case_bool_decide as Hn; [done |]. case_match; [done |].
  apply IH; [done |]. destruct line; [done |]. cbn [length] in Hl. lia.
Qed.

Lemma read_request_total s : Forall (λ c, c ≠ []) (chunks s) → (∀ lines, defined (parse lines)) →
  defined (read_request check parse s).
Proof.
  intros Hs Hparse. apply NewBufferedConn_wf in Hs. eapply (returns_defined _ (λ _, True)).
  unfold read_request, ReadRequest. pose proof (ReadLine_total _ Hs) as HR.
  destruct (ReadLine (NewBufferedConn s)) as [[line b1] | | |]; try done. destruct HR as [Hwf1 _].
  cbn [mbind outcome_bind]. case_match; [done |].
  pose proof (read_lines_total (S (length (pending (view b1)))) [line] b1 Hwf1 ltac:(unfold total_length; lia)) as HL.
  destruct (read_lines _ _ _ _) as [[lines b2] | | |]; try done. cbn [mbind outcome_bind].
  specialize (Hparse lines). by destruct (parse lines).
Qed.
End Heads.


(** ** A client that does not wait for the answer *)

(** [CONNECT www.a.com:443] and a host line; then the client's first bytes. *)
Definition sample_head : list bytes :=
  [[67; 79; 78; 78; 69; 67; 84; 32; 119; 119; 119; 46; 97; 46; 99; 111; 109; 58; 52; 52; 51; 32;
    72; 84; 84; 80; 47; 49; 46; 49]; [72; 111; 115; 116; 58; 32; 97]].
Definition early_hello : bytes := [22; 3; 1; 0; 5].
Definition eager_client : source := mkSource [head_bytes sample_head ++ early_hello; [9]] EOF.

Lemma sample_head_ok : head_ok (λ _, None) sample_head.
Proof. split_and!; [done | by repeat (constructor; [split; [repeat constructor; done | done] |]) | done]. Qed.

