(* ===== verification/UdpHeader.v ===== *)
(** * The SOCKS5 UDP request header: [parseUDPHeader] and [createUDPHeaderFromAddr]
      of [internal/server/socks5/handler_udp_assoc.go]

    Every datagram between the client and the proxy starts with two reserved
    bytes, a fragment number, an address and a port (RFC 1928, section 7). *)

From S2P Require Import Prelude GoIO GoNet GoStrings NetText HostPort Socks5Proto.

Local Open Scope string_scope.
Local Open Scope list_scope.
Local Open Scope Z_scope.

Section Header.
Context `{!NetText}.

(** The host and where the port starts. *)
Definition parse_host (b : bytes) (atyp : Z) : outcome error (string * Z) :=
  if atyp =? SOCKS5AddrTypeIPv4 then
    if len b <? 10 then Err (ErrText "header too short for ipv4")
    else s ← slice_chk b 4 8; Ok (IP_String s, 8)
  else if atyp =? SOCKS5AddrTypeIPv6 then
    if len b <? 22 then Err (ErrText "header too short for ipv6")
    else s ← slice_chk b 4 20; Ok (IP_String s, 20)
  else if atyp =? SOCKS5AddrTypeFQDN then
    if len b <? 5 then Err (ErrText "header too short for fqdn")
    else
      l ← index b 4;
      if len b <? 5 + l + 2 then Err (ErrText "header too short for fqdn data")
      else s ← slice_chk b 5 (5 + l); Ok (string_of_bytes s, 5 + l)
  else Err (ErrText ("unsupported atyp: " +:+ Itoa atyp)).

Definition parseUDPHeader (b : bytes) : outcome error (string * bytes) :=
  if len b <? 4 then Err (ErrText "header too short")
  else
    b0 ← index b 0; b1 ← index b 1;
    if negb (b0 =? 0) || negb (b1 =? 0) then Err (ErrText "invalid rsv")
    else
      frag ← index b 2;
      if negb (frag =? 0) then Err (ErrText "fragmentation not supported")
      else
        atyp ← index b 3;
        '(host, pos) ← parse_host b atyp;
        port ← read_be16 b pos;
        payload ← slice_chk b (pos + 2) (len b);
        Ok (JoinHostPort host (Itoa port), payload).

Definition createUDPHeaderFromAddr (addr : TCPAddr) : bytes :=
  [0; 0; 0] ++
  match To4 (addr_IP addr) with
  | Some ip4 => [SOCKS5AddrTypeIPv4] ++ ip4
  | None => [SOCKS5AddrTypeIPv6] ++ match To16 (addr_IP addr) with Some ip16 => ip16 | None => [] end
  end ++
  put_be16 (u16 (addr_Port addr)).

(** ** Reference encoding *)
Inductive udp_host : Type := HostIP4 (ip : bytes) | HostIP6 (ip : bytes) | HostName (n : bytes).

Definition host_wf (h : udp_host) : Prop :=
  match h with
  | HostIP4 ip => len ip = 4
  | HostIP6 ip => len ip = 16
  | HostName n => len n < 256
  end.

Definition encode_host (h : udp_host) : bytes :=
  match h with
  | HostIP4 ip => SOCKS5AddrTypeIPv4 :: ip
  | HostIP6 ip => SOCKS5AddrTypeIPv6 :: ip
  | HostName n => SOCKS5AddrTypeFQDN :: len n :: n
  end.
Definition encode_header (h : udp_host) (port : Z) : bytes := [0; 0; 0] ++ encode_host h ++ put_be16 port.

Definition host_text (h : udp_host) : string :=
  match h with HostIP4 ip | HostIP6 ip => IP_String ip | HostName n => string_of_bytes n end.

Lemma slice_chk_split {E} (b p l s : bytes) i j :
  b = p ++ l ++ s → i = len p → j = i + len l → slice_chk (E:=E) b i j = Ok l.
Proof.
  intros -> -> ->. pose proof (len_nonneg p). pose proof (len_nonneg l). pose proof (len_nonneg s).
  rewrite slice_chk_ok by (rewrite ?len_app; lia). by rewrite slice_app_mid.
Qed.

Lemma parse_host_encode h s :
  host_wf h → 2 <= len s →
  let b := [0; 0; 0] ++ encode_host h ++ s in
  ∃ t, index (E:=error) b 3 = Ok t ∧
    parse_host b t = Ok (host_text h, 3 + len (encode_host h)).
Proof.
  intros Hw Hs b. destruct h as [ip | ip | n]; simpl in Hw; eexists;
    (split; [reflexivity |]); simpl.
  - assert (len b = 8 + len s) as Hl by (subst b; simpl; len_lia).
    unfold parse_host. cbn [Z.eqb Pos.eqb SOCKS5AddrTypeIPv4]. rewrite Hl, (proj2 (Z.ltb_ge _ _)) by lia.
    rewrite (slice_chk_split b [0; 0; 0; 1] ip s) by (subst b; unfold len in *; simpl; lia || done).
    simpl. by rewrite len_cons, Hw.
  - assert (len b = 20 + len s) as Hl by (subst b; simpl; len_lia).
    unfold parse_host. change (SOCKS5AddrTypeIPv6 =? SOCKS5AddrTypeIPv4) with false.
    change (SOCKS5AddrTypeIPv6 =? SOCKS5AddrTypeIPv6) with true. cbv iota.
    rewrite Hl, (proj2 (Z.ltb_ge _ _)) by lia.
    rewrite (slice_chk_split b [0; 0; 0; 4] ip s) by (subst b; unfold len in *; simpl; lia || done).
    simpl. by rewrite len_cons, Hw.
  - pose proof (len_nonneg n).
    assert (len b = 5 + len n + len s) as Hl by (subst b; simpl; len_lia).
    unfold parse_host. change (SOCKS5AddrTypeFQDN =? SOCKS5AddrTypeIPv4) with false.
    change (SOCKS5AddrTypeFQDN =? SOCKS5AddrTypeIPv6) with false.
    change (SOCKS5AddrTypeFQDN =? SOCKS5AddrTypeFQDN) with true. cbv iota.
    rewrite (index_split b [0; 0; 0; 3] (n ++ s) (len n) 4) by done.
    cbn [mbind outcome_bind]. rewrite Hl, !(proj2 (Z.ltb_ge _ _)) by lia.
    rewrite (slice_chk_split b [0; 0; 0; 3; len n] n s) by (subst b; unfold len in *; simpl; lia || done).
    simpl. rewrite !len_cons. f_equal. f_equal. lia.
Qed.

Lemma parse_encode h port payload :
  host_wf h → 0 <= port < 65536 →
  parseUDPHeader (encode_header h port ++ payload) = Ok (JoinHostPort (host_text h) (Itoa port), payload).
Proof.
  intros Hw Hp. unfold encode_header. rewrite <- !app_assoc.
  set (s := put_be16 port ++ payload).
  assert (2 <= len s) as Hs by (subst s; rewrite len_app, len_put_be16; pose proof (len_nonneg payload); lia).
  destruct (parse_host_encode h s Hw Hs) as (t & Ht & Hh). cbv zeta in Ht, Hh.
  unfold parseUDPHeader. set (b := [0; 0; 0] ++ encode_host h ++ s) in *.
  assert (len b = 3 + len (encode_host h) + len s) as Hl by (subst b; rewrite !len_app; change (len [0; 0; 0]) with 3; lia).
  assert (1 <= len (encode_host h)) as Hh1 by (destruct h; simpl; len_lia).
  rewrite (proj2 (Z.ltb_ge _ _)) by lia.
  rewrite (index_split b [] ([0; 0] ++ encode_host h ++ s) 0 0) by done.
  rewrite (index_split b [0] ([0] ++ encode_host h ++ s) 0 1) by done.
  rewrite (index_split b [0; 0] (encode_host h ++ s) 0 2) by done.
  cbn [mbind outcome_bind]. change (negb (0 =? 0)) with false. cbv iota. cbn [orb].
  rewrite Ht. cbn [mbind outcome_bind]. rewrite Hh. cbn [mbind outcome_bind].
  rewrite (read_be16_split b ([0; 0; 0] ++ encode_host h) port payload); [| by subst b s; rewrite <- !app_assoc | by rewrite len_app | done].
  cbn [mbind outcome_bind].
  rewrite (slice_chk_split b ([0; 0; 0] ++ encode_host h ++ put_be16 port) payload []); [done | | |].
  - subst b s. by rewrite app_nil_r, <- !app_assoc.
  - rewrite !len_app, len_put_be16. change (len [0; 0; 0]) with 3. lia.
  - rewrite Hl. subst s. rewrite !len_app, len_put_be16. lia.
Qed.

(** *** What is accepted *)
Lemma slice_ok (b : bytes) i j : bytes_ok b → bytes_ok (slice b i j).
Proof. intros Hb. by apply Forall_take, Forall_drop. Qed.

(** Two bytes at [pos] and what is after them. *)
Lemma port_split (b : bytes) pos :
  bytes_ok b → 0 <= pos → pos + 2 <= len b →
  ∃ port, 0 <= port < 65536 ∧ read_be16 (E:=error) b pos = Ok port ∧
    slice b pos (len b) = put_be16 port ++ slice b (pos + 2) (len b).
Proof.
  intros Hok Hp Hl. assert (len (slice b pos (pos + 2)) = 2) as H2 by (rewrite len_slice; lia).
  pose proof (slice_ok b pos (pos + 2) Hok) as Hs.
  unfold read_be16. rewrite slice_chk_ok by lia. cbn [mbind outcome_bind].
  rewrite <- (slice_glue b pos (pos + 2) (len b)) by lia.
  destruct (slice b pos (pos + 2)) as [| hi [| lo [| x l]]];
    rewrite ?len_cons in H2; change (len (@nil Z)) with 0 in H2;
    try (pose proof (len_nonneg l)); try lia.
  apply Forall_cons in Hs as [Hhi Hs]. apply Forall_cons in Hs as [Hlo _].
  exists (be16 hi lo). split; [by apply be16_range |]. split; [done |].
  unfold byte_ok in *. rewrite put_be16_val by (rewrite be16_val by lia; lia). rewrite be16_val by lia.
  replace ((hi * 256 + lo) / 256) with hi by dm_lia.
  by replace ((hi * 256 + lo) mod 256) with lo by dm_lia.
Qed.

Lemma parse_host_inv (b : bytes) t host pos :
  bytes_ok b → 4 <= len b → b !! 3%nat = Some t → parse_host b t = Ok (host, pos) →
  ∃ h, host_wf h ∧ host = host_text h ∧ slice b 3 pos = encode_host h ∧ 3 <= pos ∧ pos + 2 <= len b.
Proof.
  intros Hok Hl Ht. assert (slice b 3 4 = [t]) as H3 by (by apply slice_single).
  assert (∀ j, 4 <= j → slice b 3 j = t :: slice b 4 j) as Hg.
  { intros j Hj. rewrite <- (slice_glue b 3 4 j) by lia. by rewrite H3. }
  unfold parse_host.
  destruct (Z.eqb_spec t SOCKS5AddrTypeIPv4) as [-> |].
  { destruct (Z.ltb_spec (len b) 10); [done |]. rewrite slice_chk_ok by lia.
    intros [= <- <-]. exists (HostIP4 (slice b 4 8)). simpl.
    rewrite (Hg 8) by lia. split_and!; [rewrite len_slice; lia | done | done | lia | lia]. }
  destruct (Z.eqb_spec t SOCKS5AddrTypeIPv6) as [-> |].
  { destruct (Z.ltb_spec (len b) 22); [done |]. rewrite slice_chk_ok by lia.
    intros [= <- <-]. exists (HostIP6 (slice b 4 20)). simpl.
    rewrite (Hg 20) by lia. split_and!; [rewrite len_slice; lia | done | done | lia | lia]. }
  destruct (Z.eqb_spec t SOCKS5AddrTypeFQDN) as [-> |]; [| done].
  destruct (Z.ltb_spec (len b) 5); [done |].
  destruct (index_ok (E:=error) b 4) as (l & Hx & ->); [lia |]. cbn [mbind outcome_bind].
  pose proof (Forall_lookup_1 _ _ _ _ Hok Hx) as Hb. unfold byte_ok in Hb.
  destruct (Z.ltb_spec (len b) (5 + l + 2)); [done |]. rewrite slice_chk_ok by lia.
  intros [= <- <-]. exists (HostName (slice b 5 (5 + l))). simpl.
  assert (len (slice b 5 (5 + l)) = l) as Hn by (rewrite len_slice; lia).
  rewrite (Hg (5 + l)) by lia. rewrite <- (slice_glue b 4 5 (5 + l)) by lia.
  assert (slice b 4 5 = [l]) as -> by (by apply slice_single). rewrite Hn. split_and!; [lia | done | done | lia | lia].
Qed.

Lemma parse_host_defined (b : bytes) t : bytes_ok b → 4 <= len b → defined (parse_host b t).
Proof.
  intros Hok Hl. unfold parse_host. repeat case_match; try done.
  - by rewrite slice_chk_ok by lia.
  - by rewrite slice_chk_ok by lia.
  - destruct (index_ok (E:=error) b 4) as (l & Hx & ->); [lia |]. cbn [mbind outcome_bind].
    pose proof (Forall_lookup_1 _ _ _ _ Hok Hx) as Hb. unfold byte_ok in Hb.
    destruct (Z.ltb_spec (len b) (5 + l + 2)); [done |]. by rewrite slice_chk_ok by lia.
Qed.

Lemma four_bytes (b : bytes) : 4 <= len b → ∃ b0 b1 b2 b3 l, b = b0 :: b1 :: b2 :: b3 :: l.
Proof.
  intros Hl. destruct b as [| b0 [| b1 [| b2 [| b3 l]]]]; unfold len in Hl; simpl in Hl; try lia.
  by eexists _, _, _, _, _.
Qed.

(** The guards that come before the address. *)
Lemma parse_guards (b : bytes) :
  4 <= len b →
  (∃ t l, b = 0 :: 0 :: 0 :: t :: l ∧
    parseUDPHeader b =
      ('(host, pos) ← parse_host b t; port ← read_be16 b pos;
       payload ← slice_chk b (pos + 2) (len b); Ok (JoinHostPort host (Itoa port), payload))) ∨
  (∃ e, parseUDPHeader b = Err e) ∧ take 3 b ≠ [0; 0; 0].
Proof.
  intros Hl. destruct (four_bytes b Hl) as (b0 & b1 & b2 & b3 & l & ->).
  unfold parseUDPHeader. rewrite (proj2 (Z.ltb_ge _ _)) by lia.
  rewrite (index_split _ [] (b1 :: b2 :: b3 :: l) b0 0) by done.
  rewrite (index_split _ [b0] (b2 :: b3 :: l) b1 1) by done.
  rewrite (index_split _ [b0; b1] (b3 :: l) b2 2) by done.
  rewrite (index_split _ [b0; b1; b2] l b3 3) by done. cbn [mbind outcome_bind].
  destruct (Z.eqb_spec b0 0) as [-> | H0]; cbn [negb orb]; [| right; split; [eauto | by intros [= -> ]]].
  destruct (Z.eqb_spec b1 0) as [-> | H1]; cbn [negb orb]; [| right; split; [eauto | by intros [= -> ]]].
  destruct (Z.eqb_spec b2 0) as [-> | H2]; cbn [negb]; [| right; split; [eauto | by intros [= -> ]]].
  left. by exists b3, l.
Qed.

(** The UDP request header. Parsing never panics, and accepts a datagram
    precisely when it is a header of RFC 1928 without reserved bits and
    without fragmentation, for an IPv4 address, an IPv6 address or a name,
    followed by the payload: the address and the payload returned are the
    ones encoded. The headers the proxy puts on its own datagrams are read
    back to the address and port of their source. *)
Theorem parseUDPHeader_exact (b : bytes) :
  bytes_ok b →
  defined (parseUDPHeader b) ∧
  (∀ s payload, parseUDPHeader b = Ok (s, payload) ↔
    ∃ h port, host_wf h ∧ 0 <= port < 65536 ∧ b = encode_header h port ++ payload ∧
      s = JoinHostPort (host_text h) (Itoa port)) ∧
  (∀ addr, ip_wf (addr_IP addr) → 0 <= addr_Port addr < 65536 →
    parseUDPHeader (createUDPHeaderFromAddr addr ++ b) =
      Ok (JoinHostPort (IP_String (addr_IP addr)) (Itoa (addr_Port addr)), b)).
Proof.
  intros Hok. split; [| split].
  - destruct (Z.ltb_spec (len b) 4) as [Hs | Hl].
    { unfold parseUDPHeader. by rewrite (proj2 (Z.ltb_lt _ _)). }
    destruct (parse_guards b Hl) as [(t & l & E & ->) | ((e & ->) & _)]; [| done].
    pose proof (parse_host_defined b t Hok Hl) as Hd.
    destruct (parse_host b t) as [[host pos] | | |] eqn:Hh; try done.
    destruct (parse_host_inv b t host pos Hok Hl ltac:(by rewrite E) Hh) as (h & _ & _ & _ & Hp & Hq).
    destruct (port_split b pos Hok) as (port & _ & Hr & _); [lia | lia |].
    cbn [mbind outcome_bind]. rewrite Hr. cbn [mbind outcome_bind]. by rewrite slice_chk_ok by lia.
  - intros s payload. split.
    2: { intros (h & port & Hw & Hp & -> & ->). by apply parse_encode. }
    destruct (Z.ltb_spec (len b) 4) as [Hs | Hl].
    { unfold parseUDPHeader. by rewrite (proj2 (Z.ltb_lt _ _)). }
    destruct (parse_guards b Hl) as [(t & l & E & ->) | ((e & ->) & _)]; [| done].
    destruct (parse_host b t) as [[host pos] | | |] eqn:Hh; try done.
    destruct (parse_host_inv b t host pos Hok Hl ltac:(by rewrite E) Hh) as (h & Hw & -> & He & Hp & Hq).
    destruct (port_split b pos Hok) as (port & Hport & Hr & Hsp); [lia | lia |].
    cbn [mbind outcome_bind]. rewrite Hr. cbn [mbind outcome_bind]. rewrite slice_chk_ok by lia.
    cbn [mbind outcome_bind]. intros [= <- <-]. exists h, port. split_and!; [done | lia | lia | | done].
    unfold encode_header. rewrite <- !app_assoc, <- Hsp, <- He, slice_glue by lia.
    rewrite <- (slice_full b) at 1. rewrite <- (slice_glue b 0 3 (len b)) by lia.
    f_equal. by rewrite E.
  - intros addr Hw Hp. unfold createUDPHeaderFromAddr.
    assert (u16 (addr_Port addr) = addr_Port addr) as -> by (unfold u16; apply Z.mod_small; lia).
    destruct (To4 (addr_IP addr)) as [ip4 |] eqn:H4.
    + pose proof (To4_len _ _ H4) as Hl4. pose proof (To4_To16 _ _ H4) as H16.
      replace (IP_String (addr_IP addr)) with (host_text (HostIP4 ip4)).
      2: { simpl. apply IP_String_To16; [| by left]. rewrite H16. unfold To16.
           by rewrite (proj2 (Z.eqb_eq _ _) Hl4). }
      by apply (parse_encode (HostIP4 ip4)).
    + pose proof (To4_None_len _ Hw H4) as Hl6.
      assert (To16 (addr_IP addr) = Some (addr_IP addr)) as ->.
      { unfold To16. by rewrite Hl6. }
      by apply (parse_encode (HostIP6 (addr_IP addr))).
Qed.
End Header.

Lemma parseUDPHeader_exact_witness :
  bytes_ok [1; 2] ∧
  parseUDPHeader (createUDPHeaderFromAddr (mkTCPAddr [8; 8; 8; 8] 53) ++ [1; 2]) =
    Ok (JoinHostPort (IP_String [8; 8; 8; 8]) "53", [1; 2]).
Proof.
  assert (bytes_ok [1; 2]) as Hok by (repeat constructor; done). split; [done |].
  destruct (parseUDPHeader_exact [1; 2] Hok) as (_ & _ & H).
  apply (H (mkTCPAddr [8; 8; 8; 8] 53)); [by left | simpl; lia].
Defined.
