(* ===== verification/SocksServer.v ===== *)
(** * The SOCKS5 proxy server: [internal/server/socks5/{socks5,handler_bind}.go] and
      the set-up of [handler_udp_assoc.go]

    [handleConnection] from the first byte of a client to the end of the handler
    of its command; BIND with its two replies. The relay loop of UDP ASSOCIATE
    is in [UdpAssociate]. *)

From S2P Require Import Prelude GoIO GoNet GoStrings NetText NetIP ConfigTypes CidrTrie Dns RuleSet NetUtil Socks5Proto TcpHandlers Routing HttpServer.

Local Open Scope string_scope.
Local Open Scope list_scope.
Local Open Scope Z_scope.

(** ** What the network answers the BIND and UDP ASSOCIATE handlers *)
Inductive accepted : Type :=
| Accepted (raddr : TCPAddr)
| AcceptFailed (err : error)
| ContextDone (err : error).

Record listen_env : Type := mkListenEnv {
  localIP : IP;                          (* of the client's connection *)
  listen_res : outcome error TCPAddr;    (* the listener's address *)
  accept_res : accepted;
  stolen : nat;     (* bytes the client sends before a connection is accepted *)
  relay_err : option error;              (* how the UDP relay loop ends *)
}.

(** A handler's error taken as a value. *)
Definition attempt {A} (m : handler A) : handler (option error + A) := λ t,
  match m t with
  | (Go a, t) => (Go (inr a), t)
  | (Return e, t) => (Go (inl e), t)
  | (Crash, t) => (Crash, t)
  end.

(** ** BIND *)

(** [req.IP != nil && !req.IP.IsUnspecified() && !rAddr.IP.Equal(req.IP)] *)
Definition unexpected_host (req : SOCKS5Request) (rAddr : TCPAddr) : bool :=
  negb (bool_decide (req_IP req = [])) && negb (IsUnspecified (req_IP req)) &&
  negb (IP_Equal (addr_IP rAddr) (req_IP req)).

Definition success_at (a : TCPAddr) : act :=
  AReplySocks (Port (addr_Port a) (Bind (addr_IP a) SOCKS5SuccessResponse)).

Section Bind.
Context `{!NetText}.
Variable e : tcp_env.
Variable le : listen_env.

(** The monitor goroutine reads, and drops, what the client sends until a
    connection is accepted. *)
Definition after_monitor : reader :=
  mkReader (drop (stolen le) (pending (stream e))) (final (stream e)).

Definition bind_Handle (req : SOCKS5Request) : handler unit :=
  _ ← emit (AListen "tcp" (localIP le));
  lAddr ← of_outcome (listen_res le)
    (λ er, _ ← reply e (AReplySocks SOCKS5FailureResponse); return_ (Some er));
  deferred ACloseListener
    (err ← reply e (success_at lAddr);
     match err with
     | Some er => return_ (Some er)
     | None =>
       _ ← emit AAccept;
       match accept_res le with
       | ContextDone er => return_ (Some er)
       | AcceptFailed er => _ ← reply e (AReplySocks SOCKS5FailureResponse); return_ (Some er)
       | Accepted rAddr =>
         deferred ACloseRemote
           (if unexpected_host req rAddr then
              _ ← reply e (AReplySocks SOCKS5FailureResponse);
              return_ (Some (ErrText ("bind: unexpected connecting host " +:+
                IP_String (addr_IP rAddr))))
            else
              err ← reply e (success_at rAddr);
              match err with
              | Some er => return_ (Some er)
              | None => tunnel e after_monitor None
              end)
       end
     end).

(** ** UDP ASSOCIATE, up to its loop *)
Definition udp_Handle : handler unit :=
  _ ← emit (AListen "udp" (localIP le));
  lAddr ← of_outcome (listen_res le)
    (λ er, _ ← reply e (AReplySocks SOCKS5FailureResponse); return_ (Some er));
  deferred ACloseListener
    (err ← reply e (success_at lAddr);
     match err with
     | Some er => return_ (Some er)
     | None => _ ← emit (AAssociate lAddr); return_ (relay_err le)
     end).

Lemma tunnel_eq rest h t : ∃ r, tunnel e rest h t = (r, t ++ [ATunnel rest]).
Proof. destruct (tunnel_adds e rest h t) as (r & t' & -> & -> & _). by exists r. Qed.

(** BIND sends the client at most two replies: the address it listens on,
    then the connecting host or a failure. A tunnel starts only after both
    success replies, towards the host the second one names, and only if that is
    the host the request announced (or the request announced none). Whatever
    happens, an accepted connection is closed, and the listener is closed
    last. *)
Theorem bind_Handle_safe (req : SOCKS5Request) :
  let '(r, t) := bind_Handle req [] in
  match listen_res le with
  | Ok lAddr =>
    last t = Some ACloseListener ∧
    (∀ rest, ATunnel rest ∈ t → ∃ rAddr,
       accept_res le = Accepted rAddr ∧ rest = after_monitor ∧
       (req_IP req = [] ∨ IsUnspecified (req_IP req) = true ∨
        IP_Equal (addr_IP rAddr) (req_IP req) = true) ∧
       t = [AListen "tcp" (localIP le); success_at lAddr; AAccept; success_at rAddr;
            ATunnel rest; ACloseRemote; ACloseListener]) ∧
    (filter (λ a, is_reply a = true) t = [success_at lAddr] ∨
     ∃ second, filter (λ a, is_reply a = true) t = [success_at lAddr; second] ∧
       (second = AReplySocks SOCKS5FailureResponse ∨
        ∃ rAddr, accept_res le = Accepted rAddr ∧ second = success_at rAddr)) ∧
    (∀ rAddr, accept_res le = Accepted rAddr → AAccept ∈ t → ACloseRemote ∈ t)
  | Err er => r = Return (Some er) ∧
      t = [AListen "tcp" (localIP le); AReplySocks SOCKS5FailureResponse]
  | _ => True
  end.
Proof.
  unfold bind_Handle, of_outcome, mbind, handler_bind, emit, deferred, return_, mret, handler_ret, reply.
  destruct (listen_res le) as [lAddr | er | |]; simpl; try done.
  destruct (reply_err e _) as [er |]; simpl.
  { split_and!; [done | | by left |]; set_solver. }
  destruct (accept_res le) as [ra | er | er] eqn:Ha; simpl.
  2,3: (split_and!; [done | set_solver | | done]); simpl; eauto.
  destruct (unexpected_host req ra) eqn:Hu; simpl.
  { split_and!; [done | set_solver | | set_solver]. right. eexists. split; [done |]. by left. }
  destruct (reply_err e _) as [er |]; simpl.
  { split_and!; [done | set_solver | | set_solver]. right. eexists. split; [done |]. eauto. }
  match goal with |- context [tunnel e ?rest ?h ?t0] => destruct (tunnel_eq rest h t0) as [r ->] end.
  simpl. split_and!; [done | | | set_solver].
  - intros rest Hin. assert (rest = after_monitor) as -> by set_solver.
    exists ra. split_and!; [done | done | | done]. unfold unexpected_host in Hu.
    destruct (bool_decide_reflect (req_IP req = [])) as [|]; [by left |].
    destruct (IsUnspecified (req_IP req)); [by right; left |]. simpl in Hu. right; right.
    by destruct (IP_Equal _ _).
  - right. eexists. split; [done |]. eauto.
Qed.
End Bind.

(** ** The connection *)
Section SocksServer.
Context `{!NetText} `{!Patricia}.
(** [http.ReadRequest] on a client that speaks HTTP: the host it asks for. *)
Variable http_host : reader → outcome error string.

Definition negotiate (e : tcp_env) (r : reader) : handler reader :=
  '(header, r) ← of_outcome (ReadFull 2 r) (λ er, return_ (Some er));
  v ← of_outcome (index header 0) (λ er, return_ (Some er));
  n ← of_outcome (index header 1) (λ er, return_ (Some er));
  if negb (v =? SOCKSVersion) then
    if (1 <? len header) && (v =? 67) && (n =? 79) then
      host ← of_outcome (http_host (mkReader (header ++ pending r) (final r)))
        (λ er, return_ (Some (ErrWrap "invalid request(unknown): " er)));
      return_ (Some (ErrText ("invalid request: http connect to " +:+ host)))
    else return_ (Some (ErrText ("invalid version: " +:+ Itoa v)))
  else
    '(_, r) ← of_outcome (ReadFull n r) (λ er, return_ (Some er));
    err ← reply e (AWriteClient [SOCKSVersion; SOCKS5AuthNone]);
    match err with Some er => return_ (Some er) | None => mret r end.

(** The addresses of a request and the rule its name matches. *)
Definition socks_addrs (e : serve_env) (req : SOCKS5Request) : handler (list IP * option Rule) :=
  if negb (bool_decide (req_IP req = [])) then mret ([req_IP req], None)
  else if (ATYP req =? SOCKS5AddrTypeFQDN) && (1 <? len (bytes_of_string (FQDN req))) then
    nameMatch ← search e (nameQuery (FQDN req));
    _ ← emit (AResolve nameMatch (FQDN req));
    addrs ← of_outcome (lookup e nameMatch (FQDN req)).1 (λ _, return_ None);
    mret (addrs, nameMatch)
  else return_ None.

Definition socks_dispatch (e : serve_env) (le : listen_env) (req : SOCKS5Request) (rest : reader)
    (addrs : list IP) (nameMatch : option Rule) : handler unit :=
  addrMatch ← search e (addrQueries addrs);
  let bestMatch := HigherPriority addrMatch nameMatch in
  let io := with_stream rest (io e) in
  if Cmd req =? SOCKS5CmdConnect then
    _ ← call (connect_Handle io (srv_cfg e) (listenAddr e)
          (mkDestination (FQDN req) addrs (req_Port req)) bestMatch);
    return_ None
  else if Cmd req =? SOCKS5CmdBind then _ ← call (bind_Handle io le req); return_ None
  else if Cmd req =? SOCKS5CmdUDPAssociate then _ ← call (udp_Handle io le); return_ None
  else _ ← reply io (AReplySocks SOCKS5CommandNotSupportedResponse); return_ None.

Definition handleConnection (e : serve_env) (le : listen_env) : handler unit :=
  deferred ACloseClient
    (neg ← attempt (negotiate (io e) (stream (io e)));
     match neg with
     | inl _ => return_ None
     | inr r =>
       '(req, rest) ← of_outcome (ReadSocks5Request r) (λ _, return_ None);
       '(addrs, nameMatch) ← socks_addrs e req;
       socks_dispatch e le req rest addrs nameMatch
     end).

Implicit Types (e : serve_env) (t : list act).

Definition socks_name (req : SOCKS5Request) : option string :=
  if decide (req_IP req = []) then Some (FQDN req) else None.
Definition socks_queries (req : SOCKS5Request) : list Query :=
  match socks_name req with Some h => nameQuery h | None => [] end.
Definition socks_lookup e (nameMatch : option Rule) (req : SOCKS5Request) : outcome error (list IP) :=
  match socks_name req with
  | None => Ok [req_IP req]
  | Some h => (lookup e nameMatch h).1
  end.

(** A request the server can look up: one with an address, or with a name of
    at least two bytes. *)
Definition lookable (req : SOCKS5Request) : bool :=
  negb (bool_decide (req_IP req = [])) ||
  (ATYP req =? SOCKS5AddrTypeFQDN) && (1 <? len (bytes_of_string (FQDN req))).

Lemma socks_addrs_eq e req t :
  trie_wf (cidr (ruleSet e)) → lookable req = true →
  ∃ nameMatch pre, best_rule (ruleSet e) (socks_queries req) nameMatch ∧ no_dial pre ∧
    socks_addrs e req t =
    match socks_lookup e nameMatch req with
    | Ok addrs => (Go (addrs, nameMatch), t ++ pre)
    | Err _ => (Return None, t ++ pre)
    | _ => (Crash, t ++ pre)
    end.
Proof.
  intros Hwf Hl. unfold socks_addrs, socks_lookup, socks_queries, socks_name, lookable in *.
  destruct (bool_decide_reflect (req_IP req = [])) as [Hnil | Hne]; simpl in Hl |- *.
  2: { rewrite decide_False by done. exists None, []. rewrite app_nil_r.
    split_and!; [by intros q b ?%elem_of_nil | constructor | done]. }
  rewrite decide_True, Hl by done.
  destruct (Search_best_rule (ruleSet e) (nameQuery (FQDN req)) Hwf) as (nm & Hs & Hb).
  exists nm, [AResolve nm (FQDN req)]. split_and!; [done | by repeat constructor |].
  unfold search. rewrite Hs. unfold mbind, handler_bind, of_outcome, mret, handler_ret, emit. simpl.
  by destruct (lookup e nm (FQDN req)).1.
Qed.

Definition greeting : act := AWriteClient [SOCKSVersion; SOCKS5AuthNone].

Lemma negotiate_ok io methods s f :
  reply_err io [] = None →
  negotiate io (mkReader (SOCKSVersion :: len methods :: methods ++ s) f) [] =
    (Go (mkReader s f), [greeting]).
Proof.
  intros Hr. unfold negotiate.
  change (SOCKSVersion :: len methods :: methods ++ s) with
    ([SOCKSVersion; len methods] ++ (methods ++ s)).
  rewrite ReadFull_app_n by done.
  unfold mbind, handler_bind, of_outcome, mret, handler_ret.
  change (index (E:=error) [SOCKSVersion; len methods] 0) with (Ok (E:=error) SOCKSVersion).
  change (index (E:=error) [SOCKSVersion; len methods] 1) with (Ok (E:=error) (len methods)).
  cbv beta iota zeta. change (negb (SOCKSVersion =? SOCKSVersion)) with false. cbv iota.
  rewrite ReadFull_app_n by done. cbv beta iota. unfold reply. by rewrite Hr.
Qed.

(** The handler of a command. *)
Definition serve_command e (le : listen_env) (req : SOCKS5Request) (rest : reader)
    (addrs : list IP) (rule : option Rule) : handler unit :=
  let io := with_stream rest (io e) in
  if Cmd req =? SOCKS5CmdConnect then
    connect_Handle io (srv_cfg e) (listenAddr e) (mkDestination (FQDN req) addrs (req_Port req)) rule
  else if Cmd req =? SOCKS5CmdBind then bind_Handle io le req
  else if Cmd req =? SOCKS5CmdUDPAssociate then udp_Handle io le
  else _ ← reply io (AReplySocks SOCKS5CommandNotSupportedResponse); return_ None.

Lemma socks_dispatch_eq e le req rest addrs nameMatch t :
  trie_wf (cidr (ruleSet e)) → best_rule (ruleSet e) (socks_queries req) nameMatch →
  ∃ rule, best_rule (ruleSet e) (queries_of (socks_name req) addrs) rule ∧
    (socks_dispatch e le req rest addrs nameMatch t).2 =
    (serve_command e le req rest addrs rule t).2.
Proof.
  intros Hwf Hnm. unfold socks_dispatch, serve_command.
  destruct (Search_best_rule (ruleSet e) (addrQueries addrs) Hwf) as (am & Hs & Ham).
  exists (best_of am nameMatch). split; [by apply best_rule_app |].
  unfold search. rewrite Hs. unfold mbind at 1, handler_bind at 1, of_outcome, mret, handler_ret.
  fold (best_of am nameMatch). cbv zeta.
  assert (∀ (m : handler unit), ((_ ← call m; return_ (A:=unit) None) t).2 = (m t).2) as Hc.
  { intros m. destruct (call_trace m t) as [<- _].
    unfold mbind, handler_bind, return_. by destruct (call m t) as [[] ?]. }
  by repeat case_match.
Qed.

End SocksServer.

(** ** Witnesses *)
Definition connect_request : SOCKS5Request := mkSOCKS5Request SOCKS5CmdConnect 3 "www.a.com" [] 443.
Definition ads_bind_request : SOCKS5Request := mkSOCKS5Request SOCKS5CmdBind 3 "www.ads.com" [] 443.

(** A client that offers one method, sends a request and then two bytes. *)
Definition session (req : SOCKS5Request) : reader :=
  mkReader (SOCKSVersion :: len [0] :: [0] ++ encode_request 0 req ++ [7; 7]) EOF.

Definition socks_env (req : SOCKS5Request) : serve_env :=
  mkServeEnv _ _ ads_rules sample_client (λ _, None) 5 6 (mkTCPAddr (IPv4 127 0 0 1) 8080)
    (Runtime DefaultConfig) (with_stream (session req) sample_env).

Definition sample_listen_env : listen_env :=
  mkListenEnv (IPv4 10 0 0 1) (Ok (mkTCPAddr (IPv4 10 0 0 1) 40000))
    (Accepted (mkTCPAddr (IPv4 93 184 216 34) 443)) 0 None.


(** A rule that blocks a name does not keep BIND from serving it. *)
Lemma bind_ignores_block :
  hit ads_rules (mkQuery MatchTypeDomain "www.ads.com") = Ok (Some ads_rule) ∧
  Block ads_rule = true ∧
  ATunnel (mkReader [7; 7] EOF) ∈
    (handleConnection (λ _, Err EOF) (socks_env ads_bind_request) sample_listen_env []).2.
Proof.
  split; [by vm_compute |]. split; [done |].
  assert ((handleConnection (λ _, Err EOF) (socks_env ads_bind_request) sample_listen_env []).2 !! 6%nat =
    Some (ATunnel (mkReader [7; 7] EOF))) as H by by vm_compute.
  by apply list_elem_of_lookup_2 in H.
Qed.
