(* ===== verification/UdpAssociate.v ===== *)
(** * The relay of UDP associations: [internal/server/socks5/handler_udp_assoc.go]

    All associations share one pool of connections, under keys made of the
    client's and the target's address. The loop of an association handles one
    datagram at a time; a goroutine per connection brings the answers back. The
    state is the pool and the log of what was done; the loops, the goroutines
    and the pool's cleanup interleave in any order. *)

From S2P Require Import Prelude GoIO GoNet GoStrings NetText HostPort Keys CacheApi LruCache ConnRegistry Sniffer ConfigTypes NetUtil Socks5Proto UdpHeader.

Local Open Scope string_scope.
Local Open Scope list_scope.
Local Open Scope Z_scope.

(** What the relay does. *)
Inductive udp_act : Type :=
| UPrepare (addrs : list IP)
| UDial (d : Destination)
| UStored (p : nat) (assoc : nat) (client target : TCPAddr)   (* and its goroutine started *)
| UDesync (p : nat)
| UWrite (p : nat) (payload : bytes)
| UReply (assoc : nat) (client : TCPAddr) (datagram : bytes).

Record udp_env : Type := mkUdpEnv {
  ResolveUDPAddr : string → outcome error TCPAddr;
  udp_dial : Destination → option error;
  udp_skip : bool;                                          (* [cfg.UDP.Skip] *)
  client_reply : nat → TCPAddr → bytes → option error;      (* [lUDPConn.WriteToUDP] *)
}.

Section Relay.
Context `{!NetText} {C : Type} `{!Cache C NATKey nat} `{!CacheLaws C NATKey nat}.
Context (Hnotifies : c_notifies) (Haccepts : c_accepts Options).
Variable e : udp_env.

Record relay_state : Type := mkRelay { pool : ConnRegistry C NATKey; log : list udp_act }.

Definition add_log (l : list udp_act) (s : relay_state) : relay_state :=
  mkRelay (pool s) (log s ++ l).
Definition with_pool (r : ConnRegistry C NATKey) (s : relay_state) : relay_state := mkRelay r (log s).

(** [rConn.Write(payload)] of an [IdleTimeoutConn]. *)
Definition conn_write (now : Z) (p : nat) (payload : bytes) (s : relay_state) : relay_state :=
  add_log [UWrite p payload] (with_pool (touch now p (pool s)).2 s).

(** One turn of the loop of association [assoc], whose TCP client is at
    [client_ip]: [src] sent [data]. *)
Definition on_datagram (assoc : nat) (client_ip : IP) (now : Z) (src : TCPAddr) (data : bytes)
    (s : relay_state) : outcome error relay_state :=
  if negb (IP_Equal (addr_IP src) client_ip) then Ok s
  else
    match parseUDPHeader data with
    | Panic => Panic
    | Diverge => Diverge
    | Err _ => Ok s
    | Ok (dstAddrStr, payload) =>
      match ResolveUDPAddr e dstAddrStr with
      | Panic => Panic
      | Diverge => Diverge
      | Err _ => Ok s
      | Ok dstAddr =>
        let key := NewNATKey (addr_IP src) (addr_Port src) (addr_IP dstAddr) (addr_Port dstAddr) in
        let '(cachedConn, r) := Fetch key (pool s) in
        let s := with_pool r s in
        match cachedConn with
        | Some p => Ok (conn_write now p payload s)
        | None =>
          let pktDst := mkDestination "" [addr_IP dstAddr] (addr_Port dstAddr) in
          let s := add_log [UPrepare (Addrs pktDst); UDial pktDst] s in
          match udp_dial e pktDst with
          | Some _ => Ok s
          | None =>
            let '(p, r) := Store now key (pool s) in
            let s := add_log [UStored p assoc src dstAddr] (with_pool r s) in
            let s := if udp_skip e then s else add_log [UDesync p] s in
            Ok (conn_write now p payload s)
          end
        end
      end
    end.

(** One turn of [relayInboundUDP] on the connection of [key]: its read is
    extended, and either fails or brings a datagram of the target. *)
Definition relay_turn (assoc : nat) (p : nat) (client target : TCPAddr) (key : NATKey) (now : Z)
    (read : option bytes) (s : relay_state) : relay_state :=
  let s := with_pool (touch now p (pool s)).2 s in
  match read with
  | None => with_pool (Evict key (pool s)) s
  | Some data =>
    let response := createUDPHeaderFromAddr target ++ data in
    let s := add_log [UReply assoc client response] s in
    match client_reply e assoc client response with
    | Some _ => with_pool (Evict key (pool s)) s
    | None => s
    end
  end.

(** The key of a session. *)
Definition session_key (client target : TCPAddr) : NATKey :=
  NewNATKey (addr_IP client) (addr_Port client) (addr_IP target) (addr_Port target).

(** The interleavings: datagrams of any association, turns of the goroutines
    that were started, sweeps and the closing of the pool. *)
Inductive relay_step : relay_state → relay_state → Prop :=
| step_datagram assoc client_ip now src data s s' :
    on_datagram assoc client_ip now src data s = Ok s' → relay_step s s'
| step_relay assoc p client target now read s :
    UStored p assoc client target ∈ log s →
    relay_step s (relay_turn assoc p client target (session_key client target) now read s)
| step_sweep now s : relay_step s (with_pool (evictExpired now (pool s)) s)
| step_close s : relay_step s (with_pool (CloseAll (pool s)) s).

Definition relay_start (r : ConnRegistry C NATKey) : relay_state := mkRelay r [].

(** ** Invariant *)

(** Every connection of the pool was stored for the session of its key, and
    every reply is for the client of a stored session. *)
Record relay_inv (s : relay_state) : Prop := {
  rinv_reg : reg_inv (pool s);
  rinv_conn p c : conns (pool s) !! p = Some c → ∃ assoc client target,
    UStored p assoc client target ∈ log s ∧ Key_ c = session_key client target;
  rinv_reply assoc client dg : UReply assoc client dg ∈ log s → ∃ p target data,
    UStored p assoc client target ∈ log s ∧ dg = createUDPHeaderFromAddr target ++ data;
}.

(** A step that changes the pool, but neither which connections exist nor
    their keys, and logs [l]. *)
Definition same_keys (r r' : ConnRegistry C NATKey) : Prop :=
  ∀ p, Key_ <$> conns r' !! p = Key_ <$> conns r !! p.

Lemma relay_inv_frame s r l :
  relay_inv s → reg_inv r → same_keys (pool s) r →
  (∀ assoc client dg, UReply assoc client dg ∈ l → ∃ p target data,
    UStored p assoc client target ∈ log s ++ l ∧ dg = createUDPHeaderFromAddr target ++ data) →
  relay_inv (mkRelay r (log s ++ l)).
Proof.
  intros [Hr Hc Hrep] Hr' Hk Hl. split; simpl; [done | |].
  - intros p c Hp. specialize (Hk p). rewrite Hp in Hk.
    destruct (conns (pool s) !! p) as [c0 |] eqn:H0; [| done]. injection Hk as Hk.
    destruct (Hc p c0 H0) as (a & cl & t & Hin & Hkey). exists a, cl, t.
    split; [apply elem_of_app; by left | congruence].
  - intros a cl dg [Hin | Hin]%elem_of_app; [| by apply Hl].
    destruct (Hrep a cl dg Hin) as (p & t & d & ? & ?). exists p, t, d.
    split; [apply elem_of_app; by left | done].
Qed.

Lemma touch_frame now p (r : ConnRegistry C NATKey) :
  reg_inv r → reg_inv (touch now p r).2 ∧ same_keys r (touch now p r).2 ∧
  closed (touch now p r).2 = closed r.
Proof.
  intros Hi. split; [by apply touch_inv |]. unfold touch.
  destruct (conns r !! p) as [c |] eqn:Hc; [| done].
  pose proof (ExtendDeadline_key now c) as Hk.
  destruct (ExtendDeadline now c) as [[ok active] c']. simpl in *.
  assert (same_keys r (mkRegistry (storage r) (timeout r) (<[p:=c']> (conns r)) (closed r) (next r)))
    as Hs.
  { intros q. simpl. destruct (decide (q = p)) as [-> |].
    - rewrite lookup_insert_eq, Hc. simpl. by rewrite Hk.
    - by rewrite lookup_insert_ne. }
  destruct active; [| done]. unfold Fetch. simpl. by destruct (c_get (Key_ c) (storage r)).
Qed.

Lemma conn_write_frame now p payload s :
  relay_inv s →
  relay_inv (conn_write now p payload s) ∧
  log (conn_write now p payload s) = log s ++ [UWrite p payload] ∧
  closed (pool (conn_write now p payload s)) = closed (pool s).
Proof.
  intros Hi. destruct (touch_frame now p (pool s) (rinv_reg _ Hi)) as (Hr & Hk & Hcl).
  split_and!; [| done | done]. apply (relay_inv_frame s); [done.. |]. intros a c dg. set_solver.
Qed.

Lemma evict_frame key s l :
  relay_inv (mkRelay (pool s) (log s ++ l)) → relay_inv (mkRelay (Evict key (pool s)) (log s ++ l)).
Proof.
  intros Hi. destruct (Evict_spec key (pool s) (rinv_reg _ Hi) Hnotifies) as (Hr & Hc & _).
  pose proof (relay_inv_frame _ (Evict key (pool s)) [] Hi Hr) as Hf. simpl in Hf.
  rewrite app_nil_r in Hf. apply Hf; [| set_solver].
  intros q. simpl. by rewrite Hc.
Qed.

Lemma relay_turn_inv assoc p client target key now read s :
  relay_inv s → UStored p assoc client target ∈ log s →
  relay_inv (relay_turn assoc p client target key now read s).
Proof.
  intros Hi Hst. unfold relay_turn.
  destruct (touch_frame now p (pool s) (rinv_reg _ Hi)) as (Hr & Hk & _).
  set (s1 := with_pool (touch now p (pool s)).2 s).
  assert (∀ l, (∀ assoc client dg, UReply assoc client dg ∈ l → ∃ p target data,
    UStored p assoc client target ∈ log s ++ l ∧ dg = createUDPHeaderFromAddr target ++ data) →
    relay_inv (mkRelay (pool s1) (log s1 ++ l))) as H1.
  { intros l Hl. by apply (relay_inv_frame s). }
  destruct read as [data |].
  - assert (relay_inv (add_log [UReply assoc client (createUDPHeaderFromAddr target ++ data)] s1)) as H2.
    { apply H1. intros a c dg Hin. apply list_elem_of_singleton in Hin as [= -> -> ->].
      exists p, target, data. split; [apply elem_of_app; by left | done]. }
    destruct (client_reply e _ _ _); [| done]. by apply (evict_frame key s1).
  - specialize (H1 []). rewrite !app_nil_r in H1. pose proof (evict_frame key s1 []) as H2.
    rewrite !app_nil_r in H2. apply H2, H1. set_solver.
Qed.

(** *** A datagram *)

(** The stored session of a connection in the pool. *)
Lemma fetched_session key p s :
  relay_inv s → (Fetch key (pool s)).1 = Some p →
  p ∉ closed (pool s) ∧
  ∃ assoc client target, UStored p assoc client target ∈ log s ∧ key = session_key client target.
Proof.
  intros [Hr Hc _] Hf. destruct (Fetch_spec key (pool s) Hr) as (Hp & _). rewrite Hp in Hf.
  destruct (inv_owned _ Hr _ _ Hf) as (Hncl & c & Hpc & <-). split; [done |]. eauto.
Qed.

Lemma fetch_frame key s :
  relay_inv s → relay_inv (with_pool (Fetch key (pool s)).2 s) ∧
  closed (Fetch key (pool s)).2 = closed (pool s).
Proof.
  intros Hi. destruct (Fetch_spec key (pool s) (rinv_reg _ Hi)) as (_ & Hr & Hc & Hcl & _).
  split; [| done]. pose proof (relay_inv_frame s _ [] Hi Hr) as Hf. rewrite app_nil_r in Hf.
  apply Hf; [intros q; by rewrite Hc | set_solver].
Qed.

Lemma log_frame l s :
  relay_inv s → (∀ a c dg, UReply a c dg ∉ l) → relay_inv (add_log l s).
Proof.
  intros Hi Hl. apply (relay_inv_frame s); [done | apply Hi | done |].
  intros a c dg Hin. by destruct (Hl a c dg).
Qed.

Lemma store_frame now assoc client target s :
  relay_inv s →
  let '(p, r) := Store now (session_key client target) (pool s) in
  relay_inv (add_log [UStored p assoc client target] (with_pool r s)) ∧ p ∉ closed r.
Proof.
  intros [Hr Hc Hrep]. pose proof (Store_spec Hnotifies Haccepts now (session_key client target) (pool s) Hr) as Hs.
  destruct (Store now _ (pool s)) as [p r]. destruct Hs as (Hr' & -> & _ & Hcs & _ & Hncl & _).
  split; [| done]. split; simpl; [done | |].
  - intros q c. rewrite Hcs. destruct (decide (q = next (pool s))) as [-> | Hne].
    + rewrite lookup_insert_eq. intros [= <-]. exists assoc, client, target.
      split; [apply elem_of_app; right; by left | apply Key_New].
    + rewrite lookup_insert_ne by done. intros (a & cl & t & Hin & Hk)%Hc.
      exists a, cl, t. split; [apply elem_of_app; by left | done].
  - intros a cl dg [Hin | Hin]%elem_of_app; [| by apply list_elem_of_singleton in Hin].
    destruct (Hrep a cl dg Hin) as (p & t & d & ? & ?). exists p, t, d.
    split; [apply elem_of_app; by left | done].
Qed.

(** What a datagram that is relayed does. *)
Definition relayed_to (src dst : TCPAddr) (payload : bytes) (s s' : relay_state) : Prop :=
  ∃ before p assoc client target, log s' = log s ++ before ++ [UWrite p payload] ∧
    (∀ q b, UWrite q b ∉ before) ∧ p ∉ closed (pool s') ∧
    UStored p assoc client target ∈ log s' ∧ session_key src dst = session_key client target.

Lemma write_relayed now p payload src dst assoc client target before s s1 :
  relay_inv s1 → log s1 = log s ++ before → (∀ q b, UWrite q b ∉ before) →
  p ∉ closed (pool s1) → UStored p assoc client target ∈ log s1 →
  session_key src dst = session_key client target →
  relay_inv (conn_write now p payload s1) ∧ relayed_to src dst payload s (conn_write now p payload s1).
Proof.
  intros Hi Hl Hb Hncl Hst Hk. destruct (conn_write_frame now p payload s1 Hi) as (Hi' & Hl' & Hcl).
  split; [done |]. exists before, p, assoc, client, target.
  rewrite Hl', Hl, <- app_assoc, Hcl. split_and!; [done | done | done | | done].
  rewrite app_assoc, <- Hl. apply elem_of_app. by left.
Qed.

(** [on_datagram] on each of its branches: the datagram is dropped, it could
    not be sent on, or its payload is written once. *)
Lemma on_datagram_spec assoc client_ip now src data s s' :
  relay_inv s → on_datagram assoc client_ip now src data s = Ok s' →
  relay_inv s' ∧
  if IP_Equal (addr_IP src) client_ip then
    match parseUDPHeader data with
    | Ok (text, payload) =>
      match ResolveUDPAddr e text with
      | Ok dst =>
        relayed_to src dst payload s s' ∨
        (is_Some (udp_dial e (mkDestination "" [addr_IP dst] (addr_Port dst))) ∧
         ∀ q b, UWrite q b ∈ log s' → UWrite q b ∈ log s)
      | _ => s' = s
      end
    | _ => s' = s
    end
  else s' = s.
Proof.
  intros Hi. unfold on_datagram. destruct (IP_Equal (addr_IP src) client_ip); simpl; [| by intros [= <-]].
  destruct (parseUDPHeader data) as [[text payload] | | |]; [| by intros [= <-] | done | done].
  destruct (ResolveUDPAddr e text) as [dst | | |]; [| by intros [= <-] | done | done].
  fold (session_key src dst).
  pose proof (λ p, fetched_session (session_key src dst) p s Hi) as Hfetch.
  destruct (fetch_frame (session_key src dst) s Hi) as [Hi1 Hcl1].
  destruct (Fetch (session_key src dst) (pool s)) as [[p |] r]; simpl in Hfetch, Hi1, Hcl1.
  - intros [= <-]. destruct (Hfetch p eq_refl) as (Hncl & a & cl & t & Hst & Hk).
    destruct (write_relayed now p payload src dst a cl t [] s (with_pool r s)) as [? ?];
      [done | by rewrite app_nil_r | set_solver | simpl; congruence | done | done |]. auto.
  - set (d := mkDestination "" [addr_IP dst] (addr_Port dst)).
    set (s1 := add_log _ _).
    assert (relay_inv s1) as Hi2 by (apply log_frame; [done | set_solver]).
    destruct (udp_dial e d) as [er |].
    { intros [= <-]. split; [done |]. right. split; [done |]. intros q b. simpl. set_solver. }
    pose proof (store_frame now assoc src dst s1 Hi2) as Hs.
    change (pool s1) with r in Hs.
    destruct (Store now (session_key src dst) r) as [p r2]. destruct Hs as [Hi3 Hncl].
    set (s3 := add_log [UStored p assoc src dst] _) in *.
    intros [= <-].
    set (s4 := if udp_skip e then s3 else add_log [UDesync p] s3).
    assert (relay_inv s4 ∧ pool s4 = pool s3 ∧ ∃ l, log s4 = log s ++ l ∧ UStored p assoc src dst ∈ l ∧
      ∀ q b, UWrite q b ∉ l) as (Hi4 & Hp4 & l & Hl4 & Hst & Hnw).
    { subst s4. destruct (udp_skip e).
      - split_and!; [done | done |].
        exists [UPrepare (Addrs d); UDial d; UStored p assoc src dst].
        split; [subst s3 s1; simpl; by rewrite <- app_assoc |]. split; set_solver.
      - split_and!; [apply log_frame; [done | set_solver] | done |].
        exists [UPrepare (Addrs d); UDial d; UStored p assoc src dst; UDesync p].
        split; [subst s3 s1; simpl; by rewrite <- !app_assoc |]. split; set_solver. }
    destruct (write_relayed now p payload src dst assoc src dst l s s4) as [? ?];
      [done | done | done | by rewrite Hp4 | rewrite Hl4; set_solver | done |]. auto.
Qed.

Lemma evict_all_frame keys s : relay_inv s → relay_inv (with_pool (evict_all keys (pool s)) s).
Proof.
  intros Hi. destruct (evict_all_spec keys (pool s) (rinv_reg _ Hi) Hnotifies) as (Hr & Hc & _).
  pose proof (relay_inv_frame s _ [] Hi Hr) as Hf. rewrite app_nil_r in Hf.
  apply Hf; [intros q; by rewrite Hc | set_solver].
Qed.

Lemma relay_step_inv s s' : relay_step s s' → relay_inv s → relay_inv s'.
Proof.
  intros Hst Hi. destruct Hst as [assoc ip now src data s s' Hd | assoc p cl t now read s Hin | now s | s].
  - by apply (on_datagram_spec assoc ip now src data s s' Hi Hd).
  - by apply relay_turn_inv.
  - by apply evict_all_frame.
  - by apply evict_all_frame.
Qed.

Lemma relay_start_inv r : reg_inv r → conns r = ∅ → relay_inv (relay_start r).
Proof.
  intros Hr Hc. split; simpl; [done | |].
  - intros p c. by rewrite Hc, lookup_empty.
  - by intros a c dg ?%elem_of_nil.
Qed.

Lemma relay_steps_inv s0 s : rtc relay_step s0 s → relay_inv s0 → relay_inv s.
Proof. induction 1; eauto using relay_step_inv. Qed.

End Relay.
Arguments relay_state C : clear implicits.

(** Equal session keys are equal endpoints. *)
Lemma session_key_same (c1 t1 c2 t2 : TCPAddr) :
  ip_wf (addr_IP c1) → ip_wf (addr_IP t1) → ip_wf (addr_IP c2) → ip_wf (addr_IP t2) →
  0 <= addr_Port c1 < 65536 → 0 <= addr_Port t1 < 65536 →
  0 <= addr_Port c2 < 65536 → 0 <= addr_Port t2 < 65536 →
  session_key c1 t1 = session_key c2 t2 →
  IP_Equal (addr_IP c1) (addr_IP c2) = true ∧ addr_Port c1 = addr_Port c2 ∧
  IP_Equal (addr_IP t1) (addr_IP t2) = true ∧ addr_Port t1 = addr_Port t2.
Proof.
  intros W1 W2 W3 W4 P1 P2 P3 P4. unfold session_key, NewNATKey. intros [= K1 K2 K3 K4].
  rewrite <- !NewIPKey_canonical by done. unfold u16 in *. rewrite !Z.mod_small in * by lia. done.
Qed.

(** ** Witnesses *)
Definition sample_pool : ConnRegistry (LRUCache NATKey nat) NATKey :=
  mkRegistry (mkLRU (replicate 16 (empty_shard 1)) 15) 1000 ∅ ∅ 0.

Lemma sample_pool_inv : reg_inv sample_pool.
Proof.
  destruct (NewConnRegistry_inv (K := NATKey) 16 1000) as (r & Hr & Hi).
  assert (NewConnRegistry (K := NATKey) 16 1000 = Ok sample_pool) as Hs by done.
  rewrite Hs in Hr. by injection Hr as <-.
Qed.

Definition dns_server : TCPAddr := mkTCPAddr [8; 8; 8; 8] 53.
Definition udp_client : TCPAddr := mkTCPAddr [10; 0; 0; 2] 50000.
Definition sample_udp_env : udp_env :=
  mkUdpEnv (λ _, Ok dns_server) (λ _, None) false (λ _ _ _, None).
Definition sample_datagram : bytes := createUDPHeaderFromAddr dns_server ++ [1; 2].

Definition turn (now : Z) (s : relay_state (LRUCache NATKey nat)) : outcome error (relay_state (LRUCache NATKey nat)) :=
  on_datagram sample_udp_env 0 [10; 0; 0; 2] now udp_client sample_datagram s.
Definition succeeds {A} (m : outcome error A) : bool := match m with Ok _ => true | _ => false end.
Definition after_first : relay_state (LRUCache NATKey nat) :=
  match turn 7 (relay_start sample_pool) with Ok s => s | _ => relay_start sample_pool end.

Lemma first_turn : turn 7 (relay_start sample_pool) = Ok after_first.
Proof.
  assert (succeeds (turn 7 (relay_start sample_pool)) = true) as Hs by by vm_compute.
  unfold after_first. by destruct (turn 7 (relay_start sample_pool)).
Qed.

