(* ===== verification/UdpSession.v ===== *)
(** * How a UDP association ends: the loop and the monitor of
      [internal/server/socks5/handler_udp_assoc.go]

    Two goroutines share the association's UDP socket: the loop, which reads
    datagrams from it, and the monitor, which waits for the end of the client's
    TCP connection, closes the channel [done], then the socket. The loop's
    handling of a datagram is [UdpAssociate.on_datagram]; the pool it works on is
    shared with the answering goroutines and with every other association, whose
    steps ([UdpAssociate.relay_step]) come in between. *)

From S2P Require Import Prelude GoIO GoNet NetText Keys CacheApi LruCache ConnRegistry NetUtil Socks5Proto UdpHeader UdpAssociate.

Local Open Scope list_scope.
Local Open Scope Z_scope.

(** Where the loop is: reading, behind a read that failed (before it looks at
    [done]), returning (before its deferred close), back in the server (before
    the server closes the client's connection), or gone. *)
Inductive loop_state : Type :=
| LReading
| LChecking (err : error)
| LReturning (err : option error)
| LReturned (err : option error)
| LGone (err : option error).

(** The monitor: in [io.Copy], between [close(done)] and the close of the
    socket, and gone. *)
Inductive monitor_state : Type := MCopying | MSignalled | MGone.

Section Session.
Context `{!NetText} {C : Type} `{!Cache C NATKey nat} `{!CacheLaws C NATKey nat}.
Variable e : udp_env.
(** The association's number and its client's address. *)
Variable assoc : nat.
Variable client_ip : IP.

Record session : Type := mkSession {
  relay : relay_state C;
  loop : loop_state;
  monitor : monitor_state;
  tcp_closed : bool;        (* the client's connection: by the client or by the server *)
  done : bool;              (* the channel is closed *)
  udp_closed : bool;        (* [lUDPConn] is closed *)
  read_failed : option error;   (* the first read that failed on an open socket *)
}.

Definition session_start (r : relay_state C) : session :=
  mkSession r LReading MCopying false false false None.

(** [ReadFromUDP] failed: the [select] on [done]. *)
Definition on_read_error (err : error) (s : session) : loop_state :=
  LReturning (if done s then None else Some err).

Definition with_relay (r : relay_state C) (s : session) : session :=
  mkSession r (loop s) (monitor s) (tcp_closed s) (done s) (udp_closed s) (read_failed s).
Definition with_loop (l : loop_state) (s : session) : session :=
  mkSession (relay s) l (monitor s) (tcp_closed s) (done s) (udp_closed s) (read_failed s).
Definition with_monitor (m : monitor_state) (s : session) : session :=
  mkSession (relay s) (loop s) m (tcp_closed s) (done s) (udp_closed s) (read_failed s).
Definition close_tcp (s : session) : session :=
  mkSession (relay s) (loop s) (monitor s) true (done s) (udp_closed s) (read_failed s).
Definition close_done (s : session) : session :=
  mkSession (relay s) (loop s) (monitor s) (tcp_closed s) true (udp_closed s) (read_failed s).
Definition close_udp (s : session) : session :=
  mkSession (relay s) (loop s) (monitor s) (tcp_closed s) (done s) true (read_failed s).
Definition fail_read (er : error) (s : session) : session :=
  mkSession (relay s) (loop s) (monitor s) (tcp_closed s) (done s) (udp_closed s) (Some er).

(** [work]: a datagram, or a step of the goroutines and associations that share
    the pool. [own]: a step of this association towards its end; [true] marks the
    steps the program takes by itself, [false] those the world decides on. *)
Inductive work : session → session → Prop :=
| work_datagram now src data r s :
    loop s = LReading → udp_closed s = false →
    on_datagram e assoc client_ip now src data (relay s) = Ok r →
    work s (with_relay r s)
| work_others r s : relay_step e (relay s) r → work s (with_relay r s).

Inductive own : bool → session → session → Prop :=
| own_client_leaves s : tcp_closed s = false → own false s (close_tcp s)
| own_read_fails er s : loop s = LReading → udp_closed s = false →
    own false s (fail_read er (with_loop (LChecking er) s))
| own_signal s : monitor s = MCopying → tcp_closed s = true →
    own true s (close_done (with_monitor MSignalled s))
| own_close s : monitor s = MSignalled → own true s (close_udp (with_monitor MGone s))
| own_read_closed s : loop s = LReading → udp_closed s = true →
    own true s (with_loop (LChecking ErrClosed) s)
| own_check er s : loop s = LChecking er → own true s (with_loop (on_read_error er s) s)
| own_deferred err s : loop s = LReturning err → own true s (close_udp (with_loop (LReturned err) s))
| own_server_closes err s : loop s = LReturned err → own true s (close_tcp (with_loop (LGone err) s)).

(** A run, with the number of the association's own steps in it. *)
Inductive session_run : nat → session → session → Prop :=
| run_start s : session_run 0 s s
| run_work n s1 s2 s3 : session_run n s1 s2 → work s2 s3 → session_run n s1 s3
| run_own b n s1 s2 s3 : session_run n s1 s2 → own b s2 s3 → session_run (S n) s1 s3.

(** ** Invariant *)
Definition result (s : session) : option (option error) :=
  match loop s with LReading | LChecking _ => None | LReturning r | LReturned r | LGone r => Some r end.

(** The socket is open until the monitor or the loop closed it; [done] is the
    monitor's first act; an error is a read that failed on an open socket before
    the monitor's signal. *)
Record session_inv (s : session) : Prop := {
  sinv_done : done s = true ↔ monitor s ≠ MCopying;
  sinv_tcp : done s = true → tcp_closed s = true;
  sinv_gone : monitor s = MGone → udp_closed s = true;
  sinv_loop : match loop s with
    | LReading => udp_closed s = true → monitor s = MGone
    | LChecking er => done s = true ∨ read_failed s = Some er
    | LReturning _ => True
    | LReturned _ => udp_closed s = true
    | LGone _ => udp_closed s = true ∧ tcp_closed s = true
    end;
  sinv_error : ∀ er, result s = Some (Some er) → read_failed s = Some er;
  sinv_nil : result s = Some None → tcp_closed s = true;
}.

Lemma session_start_inv r : session_inv (session_start r).
Proof. split; simpl; try done; by split. Qed.

Lemma work_inv s s' : work s s' → session_inv s → session_inv s'.
Proof. intros Hw Hi. destruct Hw; by destruct Hi. Qed.

Lemma own_inv b s s' : own b s s' → session_inv s → session_inv s'.
Proof.
  intros Ho [Hd Ht Hg Hl He Hn]. destruct Ho; destruct s as [r l m t d u f]; simpl in *; subst; split; simpl in *;
    unfold on_read_error, result in *; simpl in *; try (destruct d); try (destruct l);
    intuition (first [congruence | by simplify_eq]).
Qed.

(** ** The end *)

(** Both goroutines are gone. *)
Definition ended (s : session) : Prop :=
  monitor s = MGone ∧ ∃ err, loop s = LGone err.

(** The steps the association has still to make. *)
Definition steps_left (s : session) : nat :=
  (if tcp_closed s then 0 else 1) +
  match monitor s with MCopying => 2 | MSignalled => 1 | MGone => 0 end +
  match loop s with
  | LReading => 4 | LChecking _ => 3 | LReturning _ => 2 | LReturned _ => 1 | LGone _ => 0
  end.

Lemma own_left b s s' : own b s s' → (steps_left s' < steps_left s)%nat.
Proof.
  intros Ho. destruct Ho; destruct s as [r l m t d u f]; simpl in *; subst; unfold steps_left; simpl;
    try destruct t; lia.
Qed.
Lemma work_left s s' : work s s' → steps_left s' = steps_left s.
Proof. by destruct 1. Qed.

(** Once the client is gone or a read failed, the program ends by itself. *)
Lemma own_progress s : session_inv s → tcp_closed s = true ∨ loop s ≠ LReading →
  ended s ∨ ∃ s', own true s s'.
Proof.
  intros Hi Hc. pose proof (sinv_loop s Hi) as Hl.
  destruct (loop s) as [| er | er | er | er] eqn:El;
    [| right; eexists; by eapply own_check | right; eexists; by eapply own_deferred
     | right; eexists; by eapply own_server_closes |].
  - destruct Hc as [Ht |]; [| done].
    destruct (monitor s) eqn:Em; [right; eexists; by apply own_signal | right; eexists; by apply own_close |].
    right. eexists. by apply own_read_closed, Hi.
  - destruct (monitor s) eqn:Em; [| right; eexists; by apply own_close | left; split; [done | by eexists]].
    right. eexists. apply own_signal; [done |]. by apply Hl.
Qed.

Lemma session_run_inv n r s : session_run n (session_start r) s →
  session_inv s ∧ (n + steps_left s <= 7)%nat ∧ rtc (relay_step e) r (relay s).
Proof.
  remember (session_start r) as s0 eqn:E. intros Hr. revert E.
  induction Hr as [s | n s1 s2 s3 Hr IH Hw | b n s1 s2 s3 Hr IH Ho]; intros ->.
  - split; [apply session_start_inv |]. split; [by vm_compute | done].
  - destruct (IH eq_refl) as (Hi & Hle & Hrel). split; [by eapply work_inv |].
    rewrite (work_left _ _ Hw). split; [done |]. etrans; [done |]. apply rtc_once.
    destruct Hw; [by econstructor | done].
  - destruct (IH eq_refl) as (Hi & Hle & Hrel). split; [by eapply own_inv |].
    pose proof (own_left _ _ _ Ho). split; [lia |]. by destruct Ho.
Qed.

(** C19. The end of a UDP association. In every interleaving of its loop, its
    monitor, the answering goroutines and the other associations: the
    association makes at most seven steps besides its work, whatever the number
    of datagrams; once the client's TCP connection is closed or a read failed,
    one of them is always there to be made until both goroutines are gone; by
    then the UDP socket, the channel and the client's connection are closed. The
    handler reports an error only if a read of the open socket failed with it,
    and success only if the client is gone; and all along the pool evolves by
    the relay's own steps, so that what holds of every run of the relay holds
    of associations that begin and end. *)
Theorem association_ends (r : relay_state C) (n : nat) (s : session) :
  session_run n (session_start r) s →
  (n <= 7)%nat ∧
  (tcp_closed s = true ∨ loop s ≠ LReading → ended s ∨ ∃ s', own true s s') ∧
  (ended s → udp_closed s = true ∧ done s = true ∧ tcp_closed s = true) ∧
  (∀ er, result s = Some (Some er) → read_failed s = Some er) ∧
  (result s = Some None → tcp_closed s = true) ∧
  rtc (relay_step e) r (relay s).
Proof.
  intros Hr. destruct (session_run_inv n r s Hr) as (Hi & Hle & Hrel).
  split; [lia |]. split; [by apply own_progress |]. split; [| by destruct Hi].
  intros [Hm [err _]]. split; [by apply Hi |].
  assert (done s = true) as Hd by (apply Hi; congruence). split; [done | by apply Hi].
Qed.

(** A session of one datagram: the client leaves, the monitor signals and
    closes the socket, and the loop ends without an error. *)
Definition after_clean_end (r : relay_state C) : session := mkSession r (LGone None) MGone true true true None.

Lemma clean_end now src data r r' :
  on_datagram e assoc client_ip now src data r = Ok r' →
  session_run 7 (session_start r) (after_clean_end r').
Proof.
  intros Hd. set (st l m t d u := mkSession r' l m t d u None).
  assert (session_run 0 (session_start r) (st LReading MCopying false false false)) as H0.
  { eapply run_work; [apply run_start |]. by eapply (work_datagram now src data r' (session_start r)). }
  pose proof (run_own _ _ _ _ _ H0 (own_client_leaves (st _ _ _ _ _) eq_refl)) as H1.
  pose proof (run_own _ _ _ _ _ H1 (own_signal (st _ _ _ _ _) eq_refl eq_refl)) as H2.
  pose proof (run_own _ _ _ _ _ H2 (own_close (st _ _ _ _ _) eq_refl)) as H3.
  pose proof (run_own _ _ _ _ _ H3 (own_read_closed (st _ _ _ _ _) eq_refl eq_refl)) as H4.
  pose proof (run_own _ _ _ _ _ H4 (own_check ErrClosed (st _ _ _ _ _) eq_refl)) as H5.
  pose proof (run_own _ _ _ _ _ H5 (own_deferred None (st _ _ _ _ _) eq_refl)) as H6.
  exact (run_own _ _ _ _ _ H6 (own_server_closes None (st _ _ _ _ _) eq_refl)).
Qed.
End Session.
Arguments session C : clear implicits.


(** ** Witnesses *)
Lemma association_ends_witness :
  session_run sample_udp_env 0 [10; 0; 0; 2] 7 (session_start (relay_start sample_pool))
    (after_clean_end after_first) ∧
  rtc (relay_step sample_udp_env) (relay_start sample_pool) after_first.
Proof.
  assert (session_run sample_udp_env 0 [10; 0; 0; 2] 7 (session_start (relay_start sample_pool))
    (after_clean_end after_first)) as Hr by exact (clean_end _ _ _ _ _ _ _ _ first_turn).
  split; [exact Hr |].
  destruct (association_ends _ _ _ _ _ _ Hr) as (_ & _ & _ & _ & _ & H). exact H.
Defined.

(** A second association whose client sends from the same address to the same
    target gets the connection of the first, whose goroutine answers through the
    socket of the first: the datagram goes out, and no answer comes back through
    the second association. *)
Definition second_turn := on_datagram sample_udp_env 1 [10; 0; 0; 2] 9 udp_client sample_datagram after_first.

Definition new_acts {C} `{!Cache C NATKey nat} (l : list udp_act) (m : outcome error (relay_state C)) : list udp_act :=
  match m with Ok s => drop (length l) (log s) | _ => [] end.

Lemma second_association_unanswered :
  new_acts (log after_first) second_turn = [UWrite 0 [1; 2]] ∧
  (∀ p client target, UStored p 1 client target ∉ log after_first) ∧
  UStored 0 0 udp_client dns_server ∈ log after_first.
Proof.
  assert (log after_first = [UPrepare [[8; 8; 8; 8]]; UDial (mkDestination "" [[8; 8; 8; 8]] 53);
    UStored 0 0 udp_client dns_server; UDesync 0; UWrite 0 [1; 2]]) as Hl by by vm_compute.
  split; [by vm_compute |]. rewrite Hl. split.
  - intros p c t Hin. repeat (apply elem_of_cons in Hin as [Hin | Hin]; [discriminate Hin |]).
    by apply elem_of_nil in Hin.
  - apply elem_of_cons; right. apply elem_of_cons; right. apply elem_of_cons; by left.
Qed.
