(* ===== verification/TunServer.v ===== *)
(** * The TUN server: [internal/server/tun/{tun,handler_tcp,handler_udp}.go]

    Every TCP connection and UDP flow that enters the device gets a handler. The
    destination is the local address of the connection the network stack made up
    for it. The packet pump between the device and the stack is at the end. *)

From S2P Require Import Prelude GoIO GoNet GoStrings NetText HostPort NetIP Tls ConfigTypes CidrTrie Dns RuleSet NetUtil TcpHandlers Routing.
From Stdlib Require Import Ascii.

Local Open Scope string_scope.
Local Open Scope list_scope.
Local Open Scope Z_scope.

Section TunServer.
Context {NT : NetText} {PT : Patricia}.

(** ** [connToDst] *)
Definition connToDst (localAddr : string) : outcome error Destination :=
  match SplitHostPort localAddr with
  | None => Err (ErrText ("invalid local addr " +:+ Quote localAddr))
  | Some (host, portStr) =>
    match ParseIP host with
    | None => Err (ErrText ("non-ip destination " +:+ Quote host))
    | Some ip =>
      match Atoi portStr with
      | None => Err (ErrText ("non-numeric port " +:+ Quote portStr +:+ " in local addr " +:+ Quote localAddr))
      | Some port => Ok (mkDestination host [ip] port)
      end
    end
  end.

(** What a handler is run with. *)
Record tun_env : Type := mkTunEnv {
  tun_rules : option RuleSet;
  tun_cfg : RuntimeConfig;
  first_byte_late : bool;       (* no byte of the client within a second *)
  tun_io : tcp_env;
}.

Variable e : tun_env.

(** [h.ruleSet.Search(q)] for a query, when there is a rule set. *)
Definition match_rule (q : Query) : handler (option Rule) :=
  match tun_rules e with
  | None => mret None
  | Some rs => of_outcome (RuleSet.Search [q] rs) (λ _, crash)
  end.

Definition addr_query (dst : Destination) : handler Query :=
  ip ← of_outcome (index (E:=error) (Addrs dst) 0) (λ _, crash);
  mret (mkQuery MatchTypeAddr (IP_String ip)).

(** The configuration of the address rule, if one matches. *)
Definition addr_cfg (dst : Destination) : handler RuntimeConfig :=
  match tun_rules e with
  | None => mret (tun_cfg e)
  | Some _ => q ← addr_query dst; r ← match_rule q; mret (conn_cfg (tun_cfg e) r)
  end.

(** ** [TCPHandler.handleTLS] *)
Definition with_host (host : string) (dst : Destination) : Destination :=
  mkDestination host (Addrs dst) (dst_Port dst).

(** The server name as the code reads it from the record. *)
Definition sni_of (m : TLSMessage) : outcome error string :=
  match ExtractSNIOffset m with
  | Ok (s, t) => name ← slice_chk (Raw m) s t; Ok (string_of_bytes name)
  | Err er => Err (ErrWrap "failed to extract sni: " (ErrText er))
  | Panic => Panic
  | Diverge => Diverge
  end.

Definition domain_cfg (host : string) (cfg : RuntimeConfig) : handler RuntimeConfig :=
  match tun_rules e with
  | None => mret cfg
  | Some _ =>
    if bool_decide (host = "") then mret cfg
    else r ← match_rule (mkQuery MatchTypeDomain host); mret (conn_cfg cfg r)
  end.

Definition handleTLS (dst : Destination) (cfg : RuntimeConfig) : handler unit :=
  let io := tun_io e in
  '(tlsMsg, rest) ← of_outcome (ReadTLSMessage (stream io)) (λ er, return_ (Some er));
  hello ← of_outcome (IsClientHello tlsMsg) (λ er, return_ (Some er));
  if negb hello then return_ (Some (ErrText "not a client hello"))
  else
    host ← of_outcome (sni_of tlsMsg) (λ er, return_ (Some er));
    let dst := with_host host dst in
    cfg ← domain_cfg host cfg;
    _ ← emit (APrepareHop (Addrs dst) (HTTPS cfg));
    err ← dial io dst "tcp" (TCPTimeout (Conn cfg));
    match err with
    | Some er => return_ (Some er)
    | None =>
      deferred ACloseRemote
        (_ ← emit (ADesync tlsMsg (HTTPS cfg));
         match desync_res io tlsMsg (HTTPS cfg) with
         | Some er => return_ (Some er)
         | None => tunnel io rest None
         end)
    end.

(** ** [TCPHandler.Handle] *)
Definition tcp_Handle (dst : Destination) : handler unit :=
  let io := tun_io e in
  deferred ACloseClient
    (cfg ← addr_cfg dst;
     match (if first_byte_late e then None else Peek1 (stream io)) with
     | None => return_ None
     | Some b =>
       if b =? 0x16 then _ ← call (handleTLS dst cfg); return_ None
       else
         err ← dial io dst "tcp" (TCPTimeout (Conn cfg));
         match err with
         | Some _ => return_ None
         | None => _ ← call (tunnel io (stream io) None); return_ None
         end
     end).

(** ** [UDPHandler.Handle] *)
Definition udp_Handle (dst : Destination) : handler unit :=
  let io := tun_io e in
  deferred ACloseClient
    (cfg ← addr_cfg dst;
     _ ← emit (APrepareHopUDP (Addrs dst) (UDP cfg));
     err ← dial io dst "udp" 0;
     match err with
     | Some _ => return_ None
     | None =>
       _ ← (if udp_Skip (UDP cfg) then mret tt else emit (ADesyncUDP (UDP cfg)));
       _ ← call (tunnel io (stream io) None); return_ None
     end).

(** ** What the handlers do *)
Definition rules_wf : Prop := ∀ rs, tun_rules e = Some rs → trie_wf (cidr rs).

(** The configuration a query selects: the one of the best rule it finds, or
    [cfg]. *)
Definition chosen (q : Query) (cfg cfg' : RuntimeConfig) : Prop :=
  match tun_rules e with
  | None => cfg' = cfg
  | Some rs => ∃ r, best_rule rs [q] r ∧ cfg' = conn_cfg cfg r
  end.

Definition domain_chosen (host : string) (cfg cfg' : RuntimeConfig) : Prop :=
  if decide (host = "") then cfg' = cfg else chosen (mkQuery MatchTypeDomain host) cfg cfg'.

Lemma match_rule_eq q t :
  rules_wf → ∃ r, match_rule q t = (Go r, t) ∧ ∀ cfg, chosen q cfg (conn_cfg cfg r).
Proof.
  intros Hwf. unfold match_rule, chosen. destruct (tun_rules e) as [rs |] eqn:E.
  - destruct (Search_best_rule rs [q] (Hwf rs E)) as (r & -> & Hr). exists r. split; [done |].
    intros cfg. by exists r.
  - by exists None.
Qed.

Lemma addr_cfg_eq dst ip l t :
  rules_wf → Addrs dst = ip :: l →
  ∃ cfg, chosen (mkQuery MatchTypeAddr (IP_String ip)) (tun_cfg e) cfg ∧ addr_cfg dst t = (Go cfg, t).
Proof.
  intros Hwf Ha. destruct (match_rule_eq (mkQuery MatchTypeAddr (IP_String ip)) t Hwf) as (r & Hr & Hc).
  unfold addr_cfg. destruct (tun_rules e) as [rs |] eqn:E.
  - exists (conn_cfg (tun_cfg e) r). split; [apply Hc |]. unfold addr_query. rewrite Ha.
    unfold mbind, handler_bind, of_outcome, mret, handler_ret.
    change (index (E:=error) (ip :: l) 0) with (Ok (E:=error) ip). cbv beta iota. by rewrite Hr.
  - exists (tun_cfg e). split; [| done]. unfold chosen. by rewrite E.
Qed.

Lemma domain_cfg_eq host cfg t :
  rules_wf → ∃ cfg', domain_chosen host cfg cfg' ∧ domain_cfg host cfg t = (Go cfg', t).
Proof.
  intros Hwf. unfold domain_cfg, domain_chosen.
  destruct (match_rule_eq (mkQuery MatchTypeDomain host) t Hwf) as (r & Hr & Hc).
  destruct (tun_rules e) as [rs |] eqn:E.
  - destruct (decide (host = "")) as [-> | Hne]; [by exists cfg |].
    rewrite bool_decide_false by done. exists (conn_cfg cfg r). split; [apply Hc |].
    unfold mbind, handler_bind. by rewrite Hr.
  - exists cfg. split; [| done]. unfold chosen. rewrite E. by case_decide.
Qed.

(** The record a TLS client starts with, when it is a ClientHello that names a
    server: the record, what follows it and the name. *)
Definition hello_of (r : reader) : option (TLSMessage * reader * string) :=
  match ReadTLSMessage r with
  | Ok (m, rest) =>
    match IsClientHello m, sni_of m with
    | Ok true, Ok host => Some (m, rest, host)
    | _, _ => None
    end
  | _ => None
  end.

Lemma sni_of_defined m : bytes_ok (Raw m) → defined (sni_of m).
Proof.
  intros Hok. unfold sni_of. pose proof (extract_returns m Hok) as H.
  destruct (ExtractSNIOffset m) as [[s t] | er | |]; try done.
  simpl in H. rewrite slice_chk_ok; [done | lia | unfold Raw; lia].
Qed.

Lemma handleTLS_eq dst cfg t :
  rules_wf → bytes_ok (pending (stream (tun_io e))) →
  ∃ r mid, handleTLS dst cfg t = (r, t ++ mid) ∧
    match hello_of (stream (tun_io e)) with
    | None => mid = []
    | Some (m, rest, host) =>
      Raw m ++ pending rest = pending (stream (tun_io e)) ∧
      ∃ cfg', domain_chosen host cfg cfg' ∧
        let dst' := with_host host dst in
        mid = [APrepareHop (Addrs dst) (HTTPS cfg'); ADial dst' "tcp" (TCPTimeout (Conn cfg'))] ++
          match dial_err (tun_io e) dst', desync_res (tun_io e) m (HTTPS cfg') with
          | Some _, _ => []
          | None, Some _ => [ADesync m (HTTPS cfg'); ACloseRemote]
          | None, None => [ADesync m (HTTPS cfg'); ATunnel rest; ACloseRemote]
          end
    end.
Proof.
  intros Hwf Hok. unfold handleTLS, hello_of.
  unfold mbind at 1, handler_bind at 1, of_outcome at 1.
  destruct (ReadTLSMessage (stream (tun_io e))) as [[m rest] | er | |] eqn:Hr;
    [| by eexists _, []; rewrite app_nil_r..].
  destruct (read_forwarded (tun_io e) m rest Hok Hr) as [Hf _].
  unfold mret at 1, handler_ret at 1.
  unfold mbind at 1, handler_bind at 1, of_outcome at 1.
  destruct (IsClientHello_Ok m) as [hello Hh]. rewrite Hh. unfold mret at 1, handler_ret at 1.
  destruct hello; simpl; [| by eexists _, []; rewrite app_nil_r].
  unfold mbind at 1, handler_bind at 1, of_outcome at 1.
  assert (bytes_ok (Raw m)) as Hm by (rewrite <- Hf in Hok; by apply Forall_app in Hok as [? _]).
  pose proof (sni_of_defined m Hm) as Hd.
  destruct (sni_of m) as [host | er | |]; try done; [| by eexists _, []; rewrite app_nil_r].
  unfold mret at 1, handler_ret at 1.
  unfold mbind at 1, handler_bind at 1.
  destruct (domain_cfg_eq host cfg t Hwf) as (cfg' & Hc & ->).
  unfold mbind at 1, handler_bind at 1, emit at 1. cbv beta iota.
  unfold mbind at 1, handler_bind at 1, dial at 1. cbv beta iota.
  destruct (dial_err (tun_io e) (with_host host dst)) as [er |].
  { eexists _, [_; _]. rewrite <- app_assoc. split; [done |]. split; [done |]. by exists cfg'. }
  unfold deferred. unfold mbind at 1, handler_bind at 1, emit at 1. cbv beta iota.
  destruct (desync_res (tun_io e) m (HTTPS cfg')) as [er |] eqn:Hde.
  { eexists _, [_; _; _; _]. simpl. rewrite <- !app_assoc. split; [done |]. split; [done |].
    exists cfg'. by rewrite Hde. }
  match goal with |- context [tunnel ?io ?rest ?h ?t0] =>
    destruct (tunnel_adds io rest h t0) as (r & t' & -> & -> & _) end.
  eexists _, [_; _; _; _; _]. rewrite <- !app_assoc. split; [done |]. split; [done |].
  exists cfg'. by rewrite Hde.
Qed.

Lemma call_adds {A} (m : handler A) t r t' : m t = (r, t') → ∃ r', call m t = (r', t').
Proof. intros E. unfold call. rewrite E. destruct r; eauto. Qed.

(** The first byte a TCP client of the device sends in time. *)
Definition first_byte : option Z :=
  if first_byte_late e then None else Peek1 (stream (tun_io e)).


(** A UDP flow that enters the device is configured by the best rule of its
    destination, its destination is dialed, the fakes are sent before anything
    of the flow unless they are switched off, and the flow is tunneled from its
    first datagram on. *)
Theorem udp_Handle_spec (dst : Destination) (ip : IP) (l : list IP) :
  rules_wf → Addrs dst = ip :: l →
  ∃ cfg, chosen (mkQuery MatchTypeAddr (IP_String ip)) (tun_cfg e) cfg ∧
    (udp_Handle dst []).2 =
      [APrepareHopUDP (Addrs dst) (UDP cfg); ADial dst "udp" 0] ++
      match dial_err (tun_io e) dst with
      | Some _ => []
      | None => (if udp_Skip (UDP cfg) then [] else [ADesyncUDP (UDP cfg)]) ++ [ATunnel (stream (tun_io e))]
      end ++ [ACloseClient].
Proof.
  intros Hwf Ha. destruct (addr_cfg_eq dst ip l [] Hwf Ha) as (cfg & Hc & E).
  exists cfg. split; [done |]. unfold udp_Handle, deferred.
  unfold mbind at 1, handler_bind at 1. rewrite E.
  unfold mbind at 1, handler_bind at 1, emit at 1. cbv beta iota.
  unfold mbind at 1, handler_bind at 1, dial. cbv beta iota.
  destruct (dial_err (tun_io e) dst) as [er |]; [done |].
  set (t0 := ([] ++ _) ++ _).
  assert (∀ t1, ∃ r, call (tunnel (tun_io e) (stream (tun_io e)) None) t1 = (r, t1 ++ [ATunnel (stream (tun_io e))]))
    as Ht.
  { intros t1. destruct (tunnel_adds (tun_io e) (stream (tun_io e)) None t1) as (r & t' & Ht & -> & _).
    exact (call_adds _ _ _ _ Ht). }
  unfold mbind, handler_bind. destruct (udp_Skip (UDP cfg)).
  - unfold mret, handler_ret. destruct (Ht t0) as [r ->]. by destruct r.
  - unfold emit. destruct (Ht (t0 ++ [ADesyncUDP (UDP cfg)])) as [r ->]. by destruct r.
Qed.
End TunServer.

(** ** The packet pump *)
Definition readOffset : Z := 10.
Definition mtu : Z := 1500.

(** One batch of [tunToStack]: the packets injected into the stack, given the
    buffers and sizes the device filled in. *)
Fixpoint inject_batch (n : nat) (bufs : list bytes) (sizes : list Z) : outcome error (list bytes) :=
  match n, bufs, sizes with
  | O, _, _ => Ok []
  | S n, buf :: bufs, size :: sizes =>
    if size <? 1 then inject_batch n bufs sizes
    else
      packet ← slice_chk buf readOffset (readOffset + size);
      b ← index packet 0;
      rest ← inject_batch n bufs sizes;
      Ok (if negb (Z.shiftr b 4 =? 4) then rest else packet :: rest)
  | S _, _, _ => Panic
  end.

Definition writeOffset : Z := 10.

(** The buffer [stackToTun] writes for a packet, made of a pooled buffer (its
    whole capacity); the copy keeps what the buffer held before the offset. *)
Definition frame (pooled views : bytes) : bytes :=
  let needed := writeOffset + len views in
  let b := if len pooled <? needed then replicate (Z.to_nat needed) 0 else pooled in
  take (Z.to_nat writeOffset) b ++ views.

Definition is_ipv4 (packet : bytes) : Prop := match packet with b :: _ => Z.shiftr b 4 = 4 | [] => False end.
#[export] Instance is_ipv4_dec packet : Decision (is_ipv4 packet).
Proof. destruct packet; apply _. Defined.

(** The packets a batch holds: what the device put behind the headroom. *)
Definition packet_of (buf : bytes) (size : Z) : bytes := slice buf readOffset (readOffset + size).

(** A batch the device can deliver: whole buffers and sizes within the MTU. *)
Lemma inject_batch_spec (bufs : list bytes) (sizes : list Z) (n : nat) :
  length bufs = length sizes → (n <= length sizes)%nat →
  Forall (λ b, len b = readOffset + mtu) bufs → Forall (λ s, s <= mtu) sizes →
  inject_batch n bufs sizes = Ok (filter is_ipv4 (take n (zip_with packet_of bufs sizes))).
Proof.
  revert bufs sizes. induction n as [| n IH]; intros bufs sizes Hlen Hn Hb Hs; [done |].
  destruct sizes as [| size sizes]; [simpl in Hn; lia |]. destruct bufs as [| buf bufs]; [done |].
  apply Forall_cons in Hb as [Hb Hbs]. apply Forall_cons in Hs as [Hs Hss].
  cbn [inject_batch zip_with take]. simpl in Hn. injection Hlen as Hlen.
  rewrite filter_cons. unfold mtu, readOffset in Hb, Hs.
  change (packet_of buf size) with (slice buf 10 (10 + size)). change readOffset with 10.
  destruct (Z.ltb_spec size 1) as [Hz | Hz].
  { rewrite IH by (done || lia). unfold slice.
    replace (Z.to_nat (10 + size - 10)) with 0%nat by lia. by rewrite take_0. }
  rewrite slice_chk_ok by lia. cbn [mbind outcome_bind].
  assert (len (slice buf 10 (10 + size)) = size) as Hl by (rewrite len_slice; lia).
  destruct (slice buf 10 (10 + size)) as [| b packet] eqn:Ep; [change (len (@nil Z)) with 0 in Hl; lia |].
  change (index (E:=error) (b :: packet) 0) with (Ok (E:=error) b). cbn [mbind outcome_bind].
  rewrite IH by (done || lia). cbn [mbind outcome_bind]. unfold is_ipv4 at 2.
  destruct (Z.eqb_spec (Z.shiftr b 4) 4) as [Hv | Hv]; cbn [negb].
  + by rewrite decide_True.
  + by rewrite decide_False.
Qed.

Lemma frame_holds (pooled views : bytes) :
  slice (frame pooled views) writeOffset (len (frame pooled views)) = views.
Proof.
  unfold frame. set (b := if _ <? _ then _ else _).
  assert (10 <= len b) as Hlb.
  { subst b. pose proof (len_nonneg views). unfold writeOffset.
    destruct (Z.ltb_spec (len pooled) (10 + len views)); [| lia].
    unfold len. rewrite length_replicate. fold (len views). lia. }
  assert (len (take (Z.to_nat writeOffset) b) = 10) as Ht.
  { unfold len in *. rewrite length_take. unfold writeOffset. lia. }
  rewrite len_app, Ht. set (h := take (Z.to_nat writeOffset) b) in *.
  rewrite <- (app_nil_r views) at 1. change writeOffset with 10. rewrite <- Ht. apply slice_app_mid.
Qed.

(** The packet pump neither loses, reorders nor alters an IPv4 packet: of a
    batch read from the device, exactly the non-empty IPv4 packets enter the
    stack, in order, and no batch the device can deliver makes it panic; a
    packet leaving the stack is found whole behind the offset of the buffer
    written to the device, whatever buffer the pool hands out. *)
Theorem pump_faithful (bufs : list bytes) (sizes : list Z) (n : nat) (pooled views : bytes) :
  length bufs = length sizes → (n <= length sizes)%nat →
  Forall (λ b, len b = readOffset + mtu) bufs → Forall (λ s, s <= mtu) sizes →
  inject_batch n bufs sizes = Ok (filter is_ipv4 (take n (zip_with packet_of bufs sizes))) ∧
  slice (frame pooled views) writeOffset (len (frame pooled views)) = views.
Proof. intros. split; [by apply inject_batch_spec | apply frame_holds]. Qed.

(** ** Witnesses *)
Definition block_rule : Rule :=
  mkRule "b" 9 true (Some (mkMatchAttrs ["a.b"] [])) (Runtime DefaultConfig).
Definition block_rules : RuleSet := default NewRuleSet (added [block_rule] NewRuleSet).
Definition sample_tun_env : tun_env :=
  mkTunEnv (Some block_rules) (Runtime DefaultConfig) false sample_env.

Lemma sample_rules_wf : rules_wf sample_tun_env.
Proof. intros rs [= <-]. apply NewCIDRTrie_wf. Qed.


Lemma udp_Handle_spec_witness :
  rules_wf sample_tun_env ∧
  ∃ cfg, chosen sample_tun_env (mkQuery MatchTypeAddr (IP_String (IPv4 93 184 216 34)))
      (tun_cfg sample_tun_env) cfg.
Proof.
  split; [apply sample_rules_wf |].
  destruct (udp_Handle_spec sample_tun_env sample_dst (IPv4 93 184 216 34) [] sample_rules_wf eq_refl)
    as (cfg & Hc & _).
  by exists cfg.
Defined.

Lemma pump_faithful_witness :
  inject_batch 1 [replicate 10 0 ++ (0x45 :: replicate 1499 7)] [3] = Ok [[0x45; 7; 7]].
Proof.
  destruct (pump_faithful [replicate 10 0 ++ (0x45 :: replicate 1499 7)] [3] 1 [] [] eq_refl) as [H _];
    [simpl; lia | by repeat constructor | by repeat constructor |].
  rewrite H. by vm_compute.
Defined.

(** In TUN mode a rule that blocks is matched for its configuration only. *)
Lemma tun_ignores_block :
  hit block_rules (mkQuery MatchTypeDomain "a.b") = Ok (Some block_rule) ∧ Block block_rule = true ∧
  (tcp_Handle sample_tun_env sample_dst []).2 !! 1%nat =
    Some (ADial (mkDestination "a.b" [IPv4 93 184 216 34] 443) "tcp" (10000 * Millisecond)).
Proof. split_and!; by vm_compute. Qed.

(** A destination is read back from the text of its address. *)
Lemma connToDst_text {NT : NetText} (host : string) (ip : IP) (port : Z) :
  no_brackets host = true → ParseIP host = Some ip → 0 <= port < 65536 →
  no_brackets (Itoa port) = true → Contains1 ":"%char (Itoa port) = false →
  connToDst (JoinHostPort host (Itoa port)) = Ok (mkDestination host [ip] port).
Proof.
  intros Hh Hip Hp Hb Hc. unfold connToDst. rewrite SplitHostPort_Join by done.
  rewrite Hip, Atoi_Itoa by lia. done.
Qed.
