(* ===== verification/Session.v ===== *)
(** * Sessions and the accept loops: [internal/session/session.go],
      [internal/server/server.go] and the loops of [HTTPProxy.ListenAndServe]
      and [SOCKS5Proxy.ListenAndServe] *)

From S2P Require Import Prelude GoIO GoStrings.

Local Open Scope string_scope.
Local Open Scope list_scope.
Local Open Scope Z_scope.

(** ** Contexts: the values by key, the latest first *)
Inductive ctx_key : Type := traceIDCtxKey | policyIncludedCtxKey | shouldExploitCtxKey | hostInfoCtxKey.
Inductive ctx_value : Type := VStr (s : string) | VBool (b : bool).
#[export] Instance ctx_key_eq_dec : EqDecision ctx_key.
Proof. solve_decision. Defined.

Definition context : Type := list (ctx_key * ctx_value).
Definition WithValue (ctx : context) (k : ctx_key) (v : ctx_value) : context := (k, v) :: ctx.
Fixpoint Value (ctx : context) (k : ctx_key) : option ctx_value :=
  match ctx with
  | [] => None
  | (k', v) :: ctx => if decide (k' = k) then Some v else Value ctx k
  end.

Definition TraceIDFrom (ctx : context) : string * bool :=
  match Value ctx traceIDCtxKey with Some (VStr id) => (id, true) | _ => ("0000000000000000", false) end.
Definition WithHostInfo (ctx : context) (domain : string) : context :=
  WithValue ctx hostInfoCtxKey (VStr domain).
Definition HostInfoFrom (ctx : context) : string * bool :=
  match Value ctx hostInfoCtxKey with Some (VStr d) => (d, true) | _ => ("", false) end.
Definition WithPolicyIncluded (ctx : context) (b : bool) : context :=
  WithValue ctx policyIncludedCtxKey (VBool b).
Definition PolicyIncludedFrom (ctx : context) : bool * bool :=
  match Value ctx policyIncludedCtxKey with Some (VBool b) => (b, true) | _ => (false, false) end.
Definition WithShouldExploit (ctx : context) (b : bool) : context :=
  WithValue ctx shouldExploitCtxKey (VBool b).
Definition ShouldExploitFrom (ctx : context) : bool * bool :=
  match Value ctx shouldExploitCtxKey with Some (VBool b) => (b, true) | _ => (false, false) end.

(** ** [generateTraceID]: [n] characters still to write, the last one first *)
Fixpoint trace_loop (n : nat) (q : Z) (b : bytes) : bytes :=
  match n with
  | O => b
  | S n =>
    let r := u8 (Z.land q 0xF) in
    let q := Z.shiftr q 4 in
    let r := if 9 <? r then u8 (r + 0x27) else r in
    trace_loop n q (u8 (r + 0x30) :: b)
  end.
Definition generateTraceID (q : Z) : string := string_of_bytes (trace_loop 16 q []).

(** [q] is the random number drawn if one is needed. *)
Definition WithNewTraceID (q : Z) (ctx : context) : context :=
  if (TraceIDFrom ctx).2 then ctx else WithValue ctx traceIDCtxKey (VStr (generateTraceID q)).

(** Reference: the number a text of hexadecimal digits denotes. *)
Definition hex_byte (b : Z) : option Z :=
  if (48 <=? b) && (b <=? 57) then Some (b - 48)
  else if (97 <=? b) && (b <=? 102) then Some (b - 87)
  else None.
Fixpoint hex_number (l : bytes) (acc : Z) : option Z :=
  match l with [] => Some acc | b :: l => d ← hex_byte b; hex_number l (acc * 16 + d) end.

Definition digit_of (r : Z) : Z := u8 ((if 9 <? r then u8 (r + 0x27) else r) + 0x30).

Lemma digit_of_hex r : 0 <= r < 16 → hex_byte (digit_of r) = Some r ∧ byte_ok (digit_of r).
Proof.
  intros Hr.
  assert ((bool_decide (hex_byte (digit_of r) = Some r) && (0 <=? digit_of r) && (digit_of r <? 256)) = true)
    as H by (revert r Hr; by apply range_check).
  apply andb_prop in H as [[H1%bool_decide_eq_true H2]%andb_prop H3]. split; [done |]. unfold byte_ok. lia.
Qed.

Lemma land_15 q : 0 <= q → u8 (Z.land q 0xF) = q mod 16.
Proof.
  intros Hq. change 0xF with (Z.ones 4). rewrite Z.land_ones by lia. change (2 ^ 4) with 16.
  unfold u8. apply Z.mod_small. change (2 ^ 8) with 256. pose proof (Z.mod_pos_bound q 16 ltac:(lia)). lia.
Qed.

Lemma trace_loop_spec n q b acc : 0 <= q →
  bytes_ok b →
  bytes_ok (trace_loop n q b) ∧ length (trace_loop n q b) = (n + length b)%nat ∧
  hex_number (trace_loop n q b) acc = hex_number b (acc * 16 ^ Z.of_nat n + q mod 16 ^ Z.of_nat n).
Proof.
  revert q b. induction n as [| n IH]; intros q b Hq Hb.
  { split; [done |]. split; [done |]. cbn [trace_loop]. change (16 ^ Z.of_nat 0) with 1.
    rewrite Z.mod_1_r. f_equal. lia. }
  cbn [trace_loop]. rewrite land_15 by done.
  assert (0 <= q mod 16 < 16) as Hr by (apply Z.mod_pos_bound; lia).
  destruct (digit_of_hex (q mod 16) Hr) as [Hd Hok]. fold (digit_of (q mod 16)).
  rewrite Z.shiftr_div_pow2 by lia. change (2 ^ 4) with 16.
  destruct (IH (q / 16) (digit_of (q mod 16) :: b)) as (H1 & H2 & H3);
    [apply Z.div_pos; lia | by apply Forall_cons |].
  split; [done |]. split; [simpl in H2; lia |]. rewrite H3. cbn [hex_number]. rewrite Hd. cbn [mbind option_bind].
  f_equal. rewrite Nat2Z.inj_succ, Z.pow_succ_r by lia.
  rewrite (Z.rem_mul_r q 16 (16 ^ Z.of_nat n)) by (pose proof (Z.pow_pos_nonneg 16 (Z.of_nat n)); lia).
  ring.
Qed.

Lemma length_bytes_of_string s : length (bytes_of_string s) = String.length s.
Proof. induction s as [| c s IH]; [done |]. simpl. by rewrite IH. Qed.

(** Trace identifiers. A new identifier is sixteen hexadecimal digits that
    denote the random number it was made of, so two numbers give different
    identifiers; a context keeps the identifier it has, and gets the new one
    when it has none. *)
Theorem trace_id_faithful (q : Z) (ctx : context) : 0 <= q < 2 ^ 64 →
  let id := generateTraceID q in
  String.length id = 16%nat ∧ hex_number (bytes_of_string id) 0 = Some q ∧
  WithNewTraceID q (WithNewTraceID q ctx) = WithNewTraceID q ctx ∧
  (TraceIDFrom (WithNewTraceID q ctx) = if (TraceIDFrom ctx).2 then TraceIDFrom ctx else (id, true)).
Proof.
  intros Hq id. destruct (trace_loop_spec 16 q [] 0) as (Hok & Hl & Hn); [lia | by apply Forall_nil |].
  assert (bytes_of_string id = trace_loop 16 q []) as Hb by (by apply bytes_of_string_of_bytes).
  split; [| split; [| split]].
  - pose proof (f_equal length Hb) as Hlen. rewrite Hl in Hlen. rewrite <- (length_bytes_of_string id). done.
  - rewrite Hb, Hn. change (16 ^ Z.of_nat 16) with (2 ^ 64). rewrite Z.mod_small by lia. done.
  - unfold WithNewTraceID. destruct (TraceIDFrom ctx).2 eqn:E; [by rewrite E |]. done.
  - unfold WithNewTraceID. by destruct (TraceIDFrom ctx).2.
Qed.

(** ** [BackoffOnError] *)
Definition max_delay : Z := 10 * 1000000000.   (* 10 * time.Second, in ns *)
Definition BackoffOnError (delay : Z) : Z :=
  let delay := if delay =? 0 then 5 else i64 (delay * 2) in
  if max_delay <? delay then max_delay else delay.

(** ** The accept loop *)
Inductive accept_event : Type := Accepted (conn : nat) | AcceptFailed | ListenerClosed.
Inductive serve_act : Type := Handle (conn : nat) | Sleep (delay : Z).

(** [keep] tells whether the loop keeps the delay [BackoffOnError] returns: the
    HTTP proxy does, the SOCKS5 proxy drops it. *)
Fixpoint accept_loop (keep : bool) (delay : Z) (events : list accept_event) : list serve_act :=
  match events with
  | [] => []
  | ListenerClosed :: _ => []
  | AcceptFailed :: events =>
    let d := BackoffOnError delay in
    Sleep d :: accept_loop keep (if keep then d else delay) events
  | Accepted c :: events => Handle c :: accept_loop keep delay events
  end.

(** The delay after [n] failures. *)
Definition backoff_after (n : nat) : Z := Nat.iter n BackoffOnError 0.

Lemma BackoffOnError_step d : 0 < d <= max_delay → BackoffOnError d = Z.min (2 * d) max_delay.
Proof.
  unfold max_delay. intros Hd. unfold BackoffOnError, i64, max_delay. destruct (Z.eqb_spec d 0); [lia |].
  rewrite Z.mod_small by lia. destruct (Z.ltb_spec (10 * 1000000000) (d * 2 + 2 ^ 63 - 2 ^ 63)); lia.
Qed.

Lemma backoff_closed n : backoff_after (S n) = Z.min (5 * 2 ^ Z.of_nat n) max_delay.
Proof.
  induction n as [| n IH]; [by vm_compute |].
  change (backoff_after (S (S n))) with (BackoffOnError (backoff_after (S n))). rewrite IH.
  pose proof (Z.pow_pos_nonneg 2 (Z.of_nat n) ltac:(lia) ltac:(lia)).
  rewrite BackoffOnError_step by (unfold max_delay; lia).
  rewrite Nat2Z.inj_succ, Z.pow_succ_r by lia. unfold max_delay. lia.
Qed.

Definition handled (acts : list serve_act) : list nat :=
  omap (λ a, match a with Handle c => Some c | Sleep _ => None end) acts.
Definition slept (acts : list serve_act) : list Z :=
  omap (λ a, match a with Sleep d => Some d | Handle _ => None end) acts.

(** The connections accepted before the listener is closed, and the failures. *)
Fixpoint until_closed (events : list accept_event) : list accept_event :=
  match events with [] => [] | ListenerClosed :: _ => [] | ev :: events => ev :: until_closed events end.
Definition accepted_conns (events : list accept_event) : list nat :=
  omap (λ ev, match ev with Accepted c => Some c | _ => None end) (until_closed events).
Definition failures (events : list accept_event) : nat :=
  length (omap (λ ev, match ev with AcceptFailed => Some tt | _ => None end) (until_closed events)).

Lemma accept_loop_handled keep d events :
  handled (accept_loop keep d events) = accepted_conns events.
Proof.
  revert d. induction events as [| [c | |] events IH]; intros d; [done | | apply IH | done].
  change (c :: handled (accept_loop keep d events) = c :: accepted_conns events). by f_equal.
Qed.

Lemma http_sleeps n events :
  slept (accept_loop true (backoff_after n) events) = (λ i, backoff_after (S i)) <$> seq n (failures events).
Proof.
  revert n. induction events as [| [c | |] events IH]; intros n; [done | apply IH | | done].
  change (backoff_after (S n) :: slept (accept_loop true (backoff_after (S n)) events) =
    backoff_after (S n) :: ((λ i, backoff_after (S i)) <$> seq (S n) (failures events))). by f_equal.
Qed.

Lemma socks5_sleeps events : slept (accept_loop false 0 events) = replicate (failures events) 5.
Proof.
  induction events as [| [c | |] events IH]; [done | apply IH | | done].
  change (5 :: slept (accept_loop false 0 events) = 5 :: replicate (failures events) 5). by f_equal.
Qed.

(** The accept loops. Every connection accepted before the listener is
    closed is handled, once and in order; the HTTP proxy sleeps 5, 10, 20, ...
    nanoseconds and at most ten seconds after its failures, however many
    connections come between them, and the SOCKS5 proxy 5 ns every time. *)
Theorem accept_loop_handles (events : list accept_event) :
  handled (accept_loop true 0 events) = accepted_conns events ∧
  handled (accept_loop false 0 events) = accepted_conns events ∧
  slept (accept_loop true 0 events) =
    (λ i, Z.min (5 * 2 ^ Z.of_nat i) max_delay) <$> seq 0 (failures events) ∧
  slept (accept_loop false 0 events) = replicate (failures events) 5.
Proof.
  split; [apply accept_loop_handled |]. split; [apply accept_loop_handled |]. split; [| apply socks5_sleeps].
  change 0 with (backoff_after 0) at 1. rewrite http_sleeps. apply list_fmap_ext. intros i x _.
  apply backoff_closed.
Qed.

Lemma trace_id_faithful_witness :
  generateTraceID 255 = "00000000000000ff" ∧ hex_number (bytes_of_string (generateTraceID 255)) 0 = Some 255.
Proof. split; [by vm_compute |]. by apply (trace_id_faithful 255 []). Defined.
