(* ===== verification/Contract.v ===== *)
(** * What every server promises of a connection

    The handlers of [TcpHandlers], [HttpServer], [SocksServer] and [TunServer]
    are four programs with one contract: the life of a client's connection as
    the client and the remote observe it. The contract is an executable
    automaton over the actions of a trace ([step], [run]); that a handler keeps
    it is shown with a calculus of weakest preconditions over the automaton's
    phases ([wp]), one rule per construct of the [handler] monad. *)

From S2P Require Import Prelude GoIO GoNet GoStrings NetText NetIP Tls ConfigTypes CidrTrie Dns RuleSet NetUtil HttpProto Socks5Proto TcpHandlers Routing Session HttpServer SocksServer TunServer.

Local Open Scope string_scope.
Local Open Scope list_scope.
Local Open Scope Z_scope.

(** ** The automaton

    [l]: a listener is open for the client (BIND, UDP ASSOCIATE). *)
Inductive phase : Type :=
| Fresh (l : bool)                         (* no remote yet *)
| Failed (l : bool)                        (* the remote could not be reached *)
| Opened (l : bool) (fed : option bytes)   (* a remote, and what was sent to it *)
| Broken (l : bool)                        (* a remote that could not be written *)
| Tunneled (l : bool)                      (* client and remote handed to the tunnel *)
| Closed (l : bool)                        (* the remote is closed *)
| Associated                               (* datagrams are relayed *)
| Ended.                                   (* the client's connection is closed *)

(** What the network answers, and what the client sends. *)
Record oracle : Type := mkOracle {
  dial_ok : Destination → bool;
  listen_ok : bool;
  accept_ok : bool;
  sent_ok : act → bool;
  client : bytes;
}.

Section Automaton.
Variable o : oracle.

(** The tunnel goes on exactly where the bytes sent so far end. *)
Definition goes_on (fed rest : bytes) : bool := bool_decide (suffix (fed ++ rest) (client o)).

(** What is sent is a stretch of what the client sent. *)
Definition stretch (b : bytes) : bool :=
  existsb (λ n, bool_decide (b `prefix_of` drop n (client o))) (seq 0 (S (length (client o)))).

(** The remote behind a first write, which may have failed. *)
Definition after_send (l : bool) (a : act) (b : bytes) : phase :=
  if sent_ok o a then Opened l (Some b) else Broken l.

Definition step (p : phase) (a : act) : option phase :=
  match a, p with
  | (AReplyHTTP _ | AReplySocks _ | AWriteClient _), (Fresh _ | Failed _ | Opened _ None) => Some p
  | (APrepareHop _ _ | APrepareHopUDP _ _ | AResolve _ _), Fresh false => Some p
  | ADial d _ _, Fresh false => Some (if dial_ok o d then Opened false None else Failed false)
  | AListen _ _, Fresh false => Some (if listen_ok o then Fresh true else Failed false)
  | AAccept, Fresh true => Some (if accept_ok o then Opened true None else Failed true)
  | AAssociate _, Fresh true => Some Associated
  | ADesyncUDP _, Opened l None => Some (Opened l (Some []))
  | (AForward _ | ADesync _ _ | AWriteRemote _), Opened l None =>
    if stretch (sent_remote a) then Some (after_send l a (sent_remote a)) else None
  | ATunnel rest, Opened l fed =>
    if goes_on (default [] fed) (pending rest) then Some (Tunneled l) else None
  | ACloseRemote, (Opened l _ | Broken l | Tunneled l) => Some (Closed l)
  | ACloseListener, (Fresh true | Failed true | Closed true | Associated) => Some (Closed false)
  | ACloseClient, (Fresh false | Failed false | Tunneled false | Closed false) => Some Ended
  | _, _ => None
  end.

Fixpoint run (p : phase) (t : list act) : option phase :=
  match t with
  | [] => Some p
  | a :: t => p ← step p a; run p t
  end.

(** A trace keeps the contract: it is a whole life of a connection. *)
Definition keeps (t : list act) : Prop := run (Fresh false) t = Some Ended.

Lemma run_app p t1 t2 : run p (t1 ++ t2) = (p ← run p t1; run p t2).
Proof.
  revert p. induction t1 as [| a t1 IH]; intros p; [done |]. simpl. destruct (step p a); [apply IH | done].
Qed.

(** ** What the contract means

    Consequences of the automaton alone, for any trace that keeps it. *)
Definition opens (a : act) : bool :=
  match a with ADial d _ _ => dial_ok o d | AAccept => accept_ok o | _ => false end.
Definition feeds (a : act) : bool :=
  match a with AForward _ | ADesync _ _ | ADesyncUDP _ | AWriteRemote _ => true | _ => false end.
Definition writes (a : act) : bool :=
  match a with AForward _ | ADesync _ _ | AWriteRemote _ => true | _ => false end.
Definition releases (a : act) : bool :=
  match a with ACloseRemote | ATunnel _ => true | _ => false end.

Lemma run_Ended t p : run Ended t = Some p → t = [] ∧ p = Ended.
Proof. destruct t as [| [] t]; simpl; try done. by intros [= <-]. Qed.

(** The phases before a remote is open, and those after it is released. *)
Definition before (p : phase) : bool := match p with Fresh _ => true | _ => false end.
Definition holding (p : phase) : bool := match p with Opened _ _ | Broken _ => true | _ => false end.
Definition quiet_phase (p : phase) : bool :=
  match p with Fresh _ | Failed _ | Opened _ None => false | _ => true end.

(** A remote is opened in a phase without one, and only [opens] opens one;
    it is let go of only by [releases]. *)
Lemma step_holding p a p' : step p a = Some p' →
  (opens a = true → before p = true ∧ holding p' = true) ∧
  (holding p' = true → holding p = true ∨ opens a = true) ∧
  (holding p = true → holding p' = false → releases a = true) ∧
  (feeds a = true → holding p = true) ∧
  (before p' = true → before p = true) ∧
  (quiet_phase p = true → quiet_phase p' = true ∧ is_reply a = false) ∧
  (feeds a = true → quiet_phase p' = true) ∧
  (a = ACloseClient ↔ p' = Ended).
Proof.
  intros Hs. destruct a, p as [[] | [] | [] [] | [] | [] | [] | |]; simpl in Hs |- *; unfold after_send in Hs; simplify_eq/=;
    repeat (case_match; simplify_eq/=); split_and!; try done; naive_solver.
Qed.

(** A run that starts without a remote and feeds one has opened it before. *)
Lemma run_opened p t p' : run p t = Some p' → holding p' = true →
  holding p = true ∨ ∃ a, a ∈ t ∧ opens a = true.
Proof.
  revert p. induction t as [| a t IH]; intros p; simpl; [intros [= <-]; by left |].
  destruct (step p a) as [q |] eqn:Hs; [| done]. simpl. intros Hr Hh.
  destruct (step_holding _ _ _ Hs) as (_ & Hopen & _).
  destruct (IH q Hr Hh) as [Hq | (b & Hb & Ho)]; [| right; exists b; set_solver].
  destruct (Hopen Hq) as [| Ha]; [by left |]. right. exists a. set_solver.
Qed.

Lemma run_released p t p' : run p t = Some p' → holding p = true → holding p' = false →
  ∃ a, a ∈ t ∧ releases a = true.
Proof.
  revert p. induction t as [| a t IH]; intros p; simpl; [intros [= <-]; congruence |].
  destruct (step p a) as [q |] eqn:Hs; [| done]. simpl. intros Hr Hp Hp'.
  destruct (step_holding _ _ _ Hs) as (_ & _ & Hrel & _). destruct (holding q) eqn:Hq.
  - destruct (IH q Hr Hq Hp') as (b & Hb & ?). exists b. set_solver.
  - exists a. split; [set_solver | by apply Hrel].
Qed.

Lemma run_before p t p' : run p t = Some p' → before p = false →
  before p' = false ∧ Forall (λ a, opens a = false) t.
Proof.
  revert p. induction t as [| a t IH]; intros p; simpl; [by intros [= <-] |].
  destruct (step p a) as [q |] eqn:Hs; [| done]. simpl. intros Hr Hp.
  destruct (step_holding _ _ _ Hs) as (Ho & _ & _ & _ & Hb & _).
  destruct (IH q Hr) as [Hp' Hf]; [by destruct (before q); [rewrite Hb in Hp |] |].
  split; [done |]. constructor; [| done]. destruct (opens a); [| done].
  destruct Ho as [Ho _]; [done |]. congruence.
Qed.

Lemma run_quiet p t p' : run p t = Some p' → quiet_phase p = true → none_of is_reply t.
Proof.
  revert p. induction t as [| a t IH]; intros p; simpl; [by intros _ _; constructor |].
  destruct (step p a) as [q |] eqn:Hs; [| done]. simpl. intros Hr Hp.
  destruct (step_holding _ _ _ Hs) as (_ & _ & _ & _ & _ & Hq & _). destruct (Hq Hp) as [Hq' Ha].
  constructor; [done | by eapply IH].
Qed.

(** An open remote has been sent what its phase says. *)
Definition fed_of (p : phase) : bytes := match p with Opened _ fed => default [] fed | _ => [] end.
Definition unsent (p : phase) : bool :=
  match p with Fresh _ | Failed _ | Opened _ _ => true | _ => false end.

Lemma step_sent p a p' : step p a = Some p' → unsent p' = true →
  unsent p = true ∧ fed_of p' = fed_of p ++ sent_remote a ∧ (writes a = true → sent_ok o a = true).
Proof.
  intros Hs. destruct a, p as [[] | [] | [] [] | [] | [] | [] | |]; simpl in Hs |- *; unfold after_send in Hs; simplify_eq/=;
    repeat (case_match; simplify_eq/=); rewrite ?app_nil_r; naive_solver.
Qed.

Lemma run_sent p t p' : run p t = Some p' → unsent p' = true →
  unsent p = true ∧ fed_of p' = fed_of p ++ sent t ∧ Forall (λ a, writes a = true → sent_ok o a = true) t.
Proof.
  revert p. induction t as [| a t IH]; intros p; simpl.
  { intros [= <-] Hu. unfold sent. simpl. by rewrite app_nil_r. }
  destruct (step p a) as [q |] eqn:Hs; [| done]. simpl. intros Hr Hu.
  destruct (IH q Hr Hu) as (Hq & -> & Hf). destruct (step_sent _ _ _ Hs Hq) as (? & -> & ?).
  split; [done |]. split; [by rewrite <- app_assoc | by constructor].
Qed.

(** A trace that keeps the contract, cut at any of its actions. *)
Lemma keeps_meaning t t1 a t2 : keeps t → t = t1 ++ a :: t2 →
  (a = ACloseClient ↔ t2 = []) ∧
  (opens a = true → none_of opens (t1 ++ t2) ∧ ∃ b, b ∈ t2 ∧ releases b = true) ∧
  (feeds a = true → (∃ b, b ∈ t1 ∧ opens b = true) ∧ none_of is_reply t2) ∧
  (∀ rest, a = ATunnel rest → suffix (sent t1 ++ pending rest) (client o) ∧
     Forall (λ b, writes b = true → sent_ok o b = true) t1).
Proof.
  unfold keeps. intros Hk ->. pose proof Hk as Hall. rewrite run_app in Hk.
  destruct (run (Fresh false) t1) as [p |] eqn:H1; [| done]. simpl in Hk.
  destruct (step p a) as [q |] eqn:Hs; [| done]. simpl in Hk.
  destruct (step_holding _ _ _ Hs) as (Ho & _ & _ & Hf & _ & _ & Hq & He). split_and!.
  - rewrite He. split; [intros ->; by apply run_Ended in Hk as [-> _] |]. intros ->. by injection Hk.
  - intros Ha. destruct (Ho Ha) as [Hb Hh]. split; [| by eapply run_released].
    apply Forall_app. split.
    + apply Forall_forall. intros b Hin. destruct (opens b) eqn:Eb; [| done].
      apply list_elem_of_split in Hin as (l1 & l2 & ->). rewrite run_app in H1.
      destruct (run (Fresh false) l1) as [p1 |]; [| done]. simpl in H1.
      destruct (step p1 b) as [p2 |] eqn:Hs2; [| done]. simpl in H1.
      destruct (step_holding _ _ _ Hs2) as (Ho2 & _). destruct (Ho2 Eb) as [_ Hh2].
      assert (before p2 = false) as Hp2 by by destruct p2.
      destruct (run_before _ _ _ H1 Hp2) as [? _]. congruence.
    + eapply run_before; [exact Hk |]. by destruct q.
  - intros Ha. split; [| eapply run_quiet; eauto].
    destruct (run_opened _ _ _ H1 (Hf Ha)) as [| ?]; done.
  - intros rest ->. destruct p as [| | l fed | | | | |]; simpl in Hs; try done.
    destruct (goes_on _ _) eqn:Hg; [| done]. apply bool_decide_eq_true in Hg.
    destruct (run_sent _ _ _ H1 eq_refl) as (_ & Hf1 & Hok). simpl in Hf1. by rewrite <- Hf1.
Qed.

(** ** Weakest preconditions

    [wp m Q p]: from phase [p] the actions of [m] are all allowed, and the
    phase they lead to, together with how [m] ended, satisfies [Q]. *)
Definition wp {A} (m : handler A) (Q : hres A → phase → Prop) (p : phase) : Prop :=
  ∀ t, ∃ r t' p', m t = (r, t ++ t') ∧ run p t' = Some p' ∧ Q r p'.

(** The postcondition of the first part of a computation. *)
Definition then_ {A B} (f : A → handler B) (Q : hres B → phase → Prop) (r : hres A) (p : phase) : Prop :=
  match r with
  | Go a => wp (f a) Q p
  | Return e => Q (Return e) p
  | Crash => Q Crash p
  end.

Lemma wp_mono {A} (m : handler A) (Q R : hres A → phase → Prop) p :
  wp m Q p → (∀ r p', Q r p' → R r p') → wp m R p.
Proof. intros H HQR t. destruct (H t) as (r & t' & p' & ? & ? & ?). eauto 8. Qed.

Lemma wp_go {A} (a : A) Q p : Q (Go a) p → wp (mret a) Q p.
Proof. intros H t. exists (Go a), [], p. by rewrite app_nil_r. Qed.
Lemma wp_return {A} err (Q : hres A → _) p : Q (Return err) p → wp (return_ err) Q p.
Proof. intros H t. exists (Return err), [], p. by rewrite app_nil_r. Qed.
Lemma wp_crash {A} (Q : hres A → _) p : Q Crash p → wp crash Q p.
Proof. intros H t. exists Crash, [], p. by rewrite app_nil_r. Qed.

Lemma wp_act {A} (r : hres A) a p p' (Q : hres A → phase → Prop) :
  step p a = Some p' → Q r p' → wp (λ t, (r, t ++ [a])) Q p.
Proof. intros Hs HQ t. exists r, [a], p'. simpl. by rewrite Hs. Qed.
Lemma wp_emit a p p' Q : step p a = Some p' → Q (Go tt) p' → wp (emit a) Q p.
Proof. apply wp_act. Qed.
Lemma wp_dial e d network timeout p p' Q :
  step p (ADial d network timeout) = Some p' → Q (Go (dial_err e d)) p' → wp (dial e d network timeout) Q p.
Proof. apply wp_act. Qed.
Lemma wp_reply e a p p' (Q : hres (option error) → phase → Prop) :
  step p a = Some p' → (∀ err, Q (Go err) p') → wp (reply e a) Q p.
Proof. intros Hs HQ t. exists (Go (reply_err e t)), [a], p'. simpl. by rewrite Hs. Qed.

Lemma wp_bind {A B} (m : handler A) (f : A → handler B) Q p :
  wp m (then_ f Q) p → wp (m ≫= f) Q p.
Proof.
  intros H t. destruct (H t) as (r & t1 & p1 & Hm & Hr & HQ). unfold mbind, handler_bind. rewrite Hm.
  destruct r as [a | er |]; simpl in HQ; [| by eauto 8..].
  destruct (HQ (t ++ t1)) as (r & t2 & p2 & Hf & Hr2 & HQ2).
  exists r, (t1 ++ t2), p2. split; [by rewrite Hf, app_assoc |]. split; [by rewrite run_app, Hr | done].
Qed.

Lemma wp_deferred {A} a (m : handler A) Q p :
  wp m (λ r p', ∃ p'', step p' a = Some p'' ∧ Q r p'') p → wp (deferred a m) Q p.
Proof.
  intros H t. destruct (H t) as (r & t1 & p1 & Hm & Hr & p2 & Hs & HQ). unfold deferred. rewrite Hm.
  exists r, (t1 ++ [a]), p2. split; [by rewrite app_assoc |]. split; [| done].
  rewrite run_app, Hr. simpl. by rewrite Hs.
Qed.

Lemma wp_of_outcome {E A} (r : outcome E A) on_err Q p :
  match r with Ok a => Q (Go a) p | Err er => wp (on_err er) Q p | _ => Q Crash p end →
  wp (of_outcome r on_err) Q p.
Proof. destruct r; simpl; [apply wp_go | done | apply wp_crash | apply wp_crash]. Qed.

(** A handler called for its result, or for its error. *)
Lemma wp_call {A} (m : handler A) Q p :
  wp m (λ r p', match r with Go _ => Q (Go None) p' | Return e => Q (Go e) p' | Crash => Q Crash p' end) p →
  wp (call m) Q p.
Proof.
  intros H t. destruct (H t) as (r & t1 & p1 & Hm & Hr & HQ). unfold call. rewrite Hm.
  destruct r; eauto 8.
Qed.
Lemma wp_attempt {A} (m : handler A) Q p :
  wp m (λ r p', match r with Go a => Q (Go (inr a)) p' | Return e => Q (Go (inl e)) p' | Crash => Q Crash p' end) p →
  wp (attempt m) Q p.
Proof.
  intros H t. destruct (H t) as (r & t1 & p1 & Hm & Hr & HQ). unfold attempt. rewrite Hm.
  destruct r; eauto 8.
Qed.

Lemma wp_tunnel e rest h l fed (Q : hres unit → phase → Prop) :
  suffix (default [] fed ++ pending rest) (client o) →
  (∀ r, Q r (Tunneled l)) → wp (tunnel e rest h) Q (Opened l fed).
Proof.
  intros Hs HQ t. destruct (tunnel_adds e rest h t) as (r & t' & Ht & -> & _).
  exists r, [ATunnel rest], (Tunneled l). split; [done |]. split; [| done].
  simpl. unfold goes_on. by rewrite bool_decide_true.
Qed.

Lemma wp_keeps {A} (m : handler A) : wp m (λ _ p, p = Ended) (Fresh false) → keeps (m []).2.
Proof. intros H. destruct (H []) as (r & t & p & Hm & Hr & ->). by rewrite Hm. Qed.
End Automaton.

(** ** The handlers keep the contract *)

(** The phases in which a handler may return to its server. *)
Definition resting (p : phase) : Prop :=
  match p with Fresh false | Failed false | Tunneled false | Closed false => True | _ => False end.
Definition rests {A} (r : hres A) (p : phase) : Prop := resting p.

Lemma resting_close o p : resting p → step o p ACloseClient = Some Ended.
Proof. by destruct p as [[] | [] | | | [] | [] | |]. Qed.

(** [o] answers as the network of [e] does. *)
Definition no_error (err : option error) : bool := match err with None => true | Some _ => false end.
Definition send_err (e : tcp_env) (a : act) : option error :=
  match a with
  | AForward _ => forward_err e
  | ADesync m opts => desync_res e m opts
  | AWriteRemote b => remote_err e b
  | _ => None
  end.
Definition agrees (o : oracle) (e : tcp_env) : Prop :=
  (∀ d, dial_ok o d = no_error (dial_err e d)) ∧ ∀ a, sent_ok o a = no_error (send_err e a).

Lemma wp_dial_cases o e d network timeout Q :
  agrees o e →
  (∀ er, dial_err e d = Some er → Q (Go (Some er)) (Failed false)) →
  (dial_err e d = None → Q (Go None) (Opened false None)) →
  wp o (dial e d network timeout) Q (Fresh false).
Proof.
  intros [Ha _] Hf Ho. eapply wp_dial; [done |]. rewrite Ha. destruct (dial_err e d); auto.
Qed.

(** The bytes of a write that is where the client's stream is. *)
Lemma stretch_front o b rest : suffix (b ++ rest) (client o) → stretch o b = true.
Proof.
  intros [k Hk]. apply existsb_exists. exists (length k). split.
  - apply in_seq. rewrite Hk, length_app. lia.
  - apply bool_decide_eq_true. rewrite Hk, drop_app_length. by exists rest.
Qed.

Lemma wp_send o e a rest l (Q : hres unit → phase → Prop) :
  agrees o e →
  match a with AForward _ | ADesync _ _ | AWriteRemote _ => True | _ => False end →
  suffix (sent_remote a ++ rest) (client o) →
  (∀ er, send_err e a = Some er → Q (Go tt) (Broken l)) →
  (send_err e a = None → Q (Go tt) (Opened l (Some (sent_remote a)))) →
  wp o (emit a) Q (Opened l None).
Proof.
  intros [_ Ha] Hs Hc Hf Ho.
  assert (step o (Opened l None) a = Some (after_send o l a (sent_remote a))) as E
    by (by destruct a; try done; cbn [step]; rewrite (stretch_front o _ _ Hc)).
  eapply wp_emit; [exact E |]. unfold after_send. rewrite Ha. destruct (send_err e a) eqn:Er; eauto.
Qed.

(** Where the client's bytes are: the side conditions of the steps. *)
Create HintDb contract.

(** One step of symbolic execution. *)
Ltac wp_step :=
  lazymatch goal with
  | |- wp _ (mbind _ _) _ _ => apply wp_bind
  | |- wp _ (deferred _ _) _ _ => apply wp_deferred
  | H : agrees ?o ?e |- wp _ (emit _) _ (Opened _ None) =>
    eapply (wp_send o e _ _ _ _ H); [exact I | cbn [sent_remote app]; solve [eauto with contract]
      | let Hs := fresh in intros ? Hs; cbn [send_err sent_remote] in *; rewrite Hs
      | let Hs := fresh in intros Hs; cbn [send_err sent_remote] in *; rewrite Hs]
  | |- wp _ (emit _) _ _ => eapply wp_emit; [reflexivity |]
  | |- wp _ (reply _ _) _ _ => eapply wp_reply; [reflexivity | intros ?]
  | |- wp _ (mret _) _ _ => apply wp_go
  | |- wp _ (return_ _) _ _ => apply wp_return
  | |- wp _ crash _ _ => apply wp_crash
  | |- wp _ (attempt _) _ _ => apply wp_attempt
  | |- wp _ (of_outcome _ _) _ _ => apply wp_of_outcome
  | |- wp _ (dial _ _ _ _) _ (Fresh false) => apply wp_dial_cases; [done | intros ? ? | intros ?]
  | |- then_ _ _ _ (Go _) _ => cbn [then_]
  | |- then_ _ _ _ (Return _) _ => cbn [then_]
  | |- then_ _ _ _ Crash _ => cbn [then_]
  | |- rests _ _ => done
  | |- ∃ p, step _ _ _ = Some p ∧ _ => eexists; split; [reflexivity |]
  | |- wp _ (if ?b then _ else _) _ _ => destruct b eqn:?
  | |- wp _ (match ?x with _ => _ end) _ _ => destruct x eqn:?
  | |- match ?x with _ => _ end => destruct x eqn:?
  end.
Ltac wp_steps := repeat (wp_step; cbv beta iota zeta).

Lemma suffix_take_drop {A} n (l : list A) : suffix (drop n l) l.
Proof. exists (take n l). by rewrite take_drop. Qed.
Lemma suffix_of_parts {A} (l k m s : list A) : l ++ k = m → suffix m s → suffix (l ++ k) s.
Proof. by intros ->. Qed.

Section Handlers.
Context {NT : NetText}.
Variable o : oracle.
Variable e : tcp_env.
Hypothesis Hnet : agrees o e.
Hypothesis Hclient : suffix (pending (stream e)) (client o).
Hypothesis Hbytes : bytes_ok (pending (stream e)).

(** What was read of the client and what is left of it are where its stream is. *)
Lemma read_client m rest :
  ReadTLSMessage (stream e) = Ok (m, rest) → suffix (Raw m ++ pending rest) (client o).
Proof.
  intros Hr. destruct (read_forwarded e m rest Hbytes Hr) as [Hf _]. by eapply suffix_of_parts.
Qed.

#[local] Hint Resolve read_client : contract.

Lemma wp_http req dst : wp o (http_HandleRequest e req dst) rests (Fresh false).
Proof.
  unfold http_HandleRequest. wp_steps. apply wp_tunnel; [done |]. intros ?. by wp_steps.
Qed.

Lemma wp_https cfg dst rule : wp o (https_HandleRequest e cfg dst rule) rests (Fresh false).
Proof.
  unfold https_HandleRequest. cbv zeta. wp_steps.
  apply wp_tunnel; [by eapply read_client |]. intros ?. by wp_steps.
Qed.

(** The first bytes are sent to an open remote, and the tunnel goes on there. *)
Lemma wp_first_bytes cfg l :
  wp o (first_bytes e cfg) (λ r p,
    match r with
    | Go rest => ∃ fed, p = Opened l fed ∧ suffix (default [] fed ++ pending rest) (client o)
    | _ => p = Broken l ∨ ∃ fed, p = Opened l fed
    end) (Opened l None).
Proof.
  unfold first_bytes. wp_steps; simplify_eq/=.
  all: first [by left | by right; eexists | eexists; split; [done |]; cbn; by eauto with contract].
Qed.

Lemma wp_connect cfg listen dst rule : wp o (connect_Handle e cfg listen dst rule) rests (Fresh false).
Proof.
  unfold connect_Handle. cbv zeta. wp_steps.
  all: eapply wp_mono; [apply wp_first_bytes |]; intros [rest | er |] p Hp; cbn [then_] in *.
  all: try by destruct Hp as [-> | [fed ->]]; wp_steps.
  all: destruct Hp as (fed & -> & Hs); apply wp_tunnel; [done |]; intros ?; by wp_steps.
Qed.

(** BIND and UDP ASSOCIATE, on the listener [le] answers with. *)
Lemma wp_bind_Handle le req :
  listen_ok o = match listen_res le with Ok _ => true | _ => false end →
  accept_ok o = match accept_res le with Accepted _ => true | _ => false end →
  wp o (bind_Handle e le req) rests (Fresh false).
Proof.
  intros Hl Ha. unfold bind_Handle. wp_step. eapply wp_emit; [reflexivity |]. rewrite Hl.
  wp_step. wp_step. destruct (listen_res le) as [lAddr | er | |]; wp_steps.
  all: rewrite Ha; wp_steps.
  apply wp_tunnel; [| intros ?; by wp_steps]. simpl. etrans; [apply suffix_take_drop | done].
Qed.

Lemma wp_associate le :
  listen_ok o = match listen_res le with Ok _ => true | _ => false end →
  wp o (SocksServer.udp_Handle e le) rests (Fresh false).
Proof.
  intros Hl. unfold SocksServer.udp_Handle. wp_step. eapply wp_emit; [reflexivity |]. rewrite Hl.
  wp_step. wp_step. destruct (listen_res le) as [lAddr | er | |]; wp_steps.
Qed.
End Handlers.

(** ** The servers keep the contract *)
#[local] Hint Resolve read_client : contract.

(** A server closes the client's connection after whatever it does. *)
Lemma wp_served o (m : handler unit) :
  wp o m rests (Fresh false) → keeps o (deferred ACloseClient m []).2.
Proof.
  intros H. apply wp_keeps, wp_deferred. eapply wp_mono; [exact H |]. intros r p Hp.
  eexists. split; [by apply resting_close | done].
Qed.

Lemma wp_called {A} o (m : handler A) (Q : hres (option error) → phase → Prop) p :
  wp o m rests p → (∀ r p', resting p' → Q r p') → wp o (call m) Q p.
Proof.
  intros H HQ. apply wp_call. eapply wp_mono; [exact H |]. intros [] p' Hp; by apply HQ.
Qed.

(** The network of a connection, as the contract sees it. *)
Definition oracle_of (e : tcp_env) (le : option listen_env) : oracle :=
  mkOracle (λ d, no_error (dial_err e d))
    (match le with Some le => match listen_res le with Ok _ => true | _ => false end | None => false end)
    (match le with Some le => match accept_res le with Accepted _ => true | _ => false end | None => false end)
    (λ a, no_error (send_err e a)) (pending (stream e)).

Lemma bytes_ok_suffix l k : suffix l k → bytes_ok k → bytes_ok l.
Proof. intros [m ->] H. by apply Forall_app in H as [_ ?]. Qed.

Section Servers.
Context `{!NetText} `{!Patricia}.

Implicit Types (e : serve_env).

(** A handler called with what follows the request. *)
Ltac wp_handler H :=
  apply wp_called; [by apply H | intros [] ? ?; cbn [then_]; by try apply wp_return].

Lemma wp_http_dispatch o e req rest host port addrs nameMatch :
  agrees o (io e) → suffix (pending rest) (client o) → bytes_ok (pending rest) →
  wp o (http_dispatch e req rest host port addrs nameMatch) rests (Fresh false).
Proof.
  intros Hn Hs Hb. unfold http_dispatch, search. wp_steps.
  all: first [wp_handler (wp_https o (with_stream rest (io e))) | wp_handler (wp_http o (with_stream rest (io e)))].
Qed.

Lemma http_keeps e (parsed : outcome error (HTTPRequest * nat)) :
  bytes_ok (pending (stream (io e))) →
  keeps (oracle_of (io e) None) (handleNewConnection e parsed []).2.
Proof.
  intros Hok. apply wp_served. unfold http_addrs, search.
  wp_step. wp_step. destruct parsed as [[req ahead] | | |]; cbn [ReadHttpRequest mbind outcome_bind]; wp_steps.
  all: apply wp_http_dispatch; [done | apply suffix_take_drop | by apply bytes_ok_suffix with (2 := Hok), suffix_take_drop].
Qed.

(** SOCKS5: the greeting and the request are read off the front of the stream. *)
Lemma ReadFull_suffix n r l r' : ReadFull n r = Ok (l, r') → suffix (pending r') (pending r).
Proof.
  unfold ReadFull. repeat case_match; try done. intros [= _ <-]. apply suffix_take_drop.
Qed.

Lemma wp_negotiate o http_host (e : tcp_env) r :
  wp o (negotiate http_host e r) (λ x p, p = Fresh false ∧
    match x with Go r' => suffix (pending r') (pending r) | _ => True end) (Fresh false).
Proof.
  unfold negotiate. wp_steps; simplify_eq/=; split_and?; try done.
  all: repeat match goal with H : ReadFull _ _ = Ok _ |- _ => apply ReadFull_suffix in H end.
  all: by etrans.
Qed.

Lemma wp_socks_dispatch o e le req rest addrs nameMatch :
  agrees o (io e) → suffix (pending rest) (client o) → bytes_ok (pending rest) →
  listen_ok o = match listen_res le with Ok _ => true | _ => false end →
  accept_ok o = match accept_res le with Accepted _ => true | _ => false end →
  wp o (socks_dispatch e le req rest addrs nameMatch) rests (Fresh false).
Proof.
  intros Hn Hs Hb Hl Ha. unfold socks_dispatch, search. wp_steps.
  all: first [wp_handler (wp_connect o (with_stream rest (io e))) | wp_handler (wp_bind_Handle o (with_stream rest (io e)))
    | wp_handler (wp_associate o (with_stream rest (io e)))].
Qed.

Lemma socks_keeps http_host e le :
  bytes_ok (pending (stream (io e))) →
  keeps (oracle_of (io e) (Some le)) (handleConnection http_host e le []).2.
Proof.
  intros Hok. apply wp_served. unfold socks_addrs, search. wp_step. wp_step.
  eapply wp_mono; [apply wp_negotiate |]. intros [r | |] p [-> Hr]; cbn [then_]; [| by wp_steps..].
  pose proof (bytes_ok_suffix _ _ Hr Hok) as Hbr. wp_steps; simplify_eq/=.
  all: match goal with H : ReadSocks5Request _ = Ok _ |- _ =>
    destruct (ReadSocks5Request_inv _ _ _ Hbr H) as (rsv & _ & Hp & _) end.
  all: assert (suffix (pending r0) (pending r)) as Hrest by by (rewrite Hp; apply suffix_app_r).
  all: apply wp_socks_dispatch; [done | by etrans | by eapply bytes_ok_suffix | done | done].
Qed.

(** The TUN server's handlers. *)
Lemma wp_handleTLS o (te : tun_env) dst cfg :
  agrees o (tun_io te) → suffix (pending (stream (tun_io te))) (client o) →
  bytes_ok (pending (stream (tun_io te))) →
  wp o (handleTLS te dst cfg) rests (Fresh false).
Proof.
  intros Hn Hs Hb. unfold handleTLS, domain_cfg, match_rule. wp_steps; simplify_eq.
  all: apply wp_tunnel; [by eapply read_client | intros ?; by wp_steps].
Qed.

Lemma tun_keeps (te : tun_env) dst :
  bytes_ok (pending (stream (tun_io te))) →
  keeps (oracle_of (tun_io te) None) (tcp_Handle te dst []).2 ∧
  keeps (oracle_of (tun_io te) None) (TunServer.udp_Handle te dst []).2.
Proof.
  intros Hok. split; apply wp_served; unfold addr_cfg, addr_query, match_rule; wp_steps; simplify_eq.
  all: first [wp_handler wp_handleTLS | apply wp_called; [| intros [] ? ?; cbn [then_]; by try apply wp_return]].
  all: by apply wp_tunnel; [| intros ?; wp_steps].
Qed.

(** The traces the four handlers of connections leave, in any environment. *)
Inductive serves : oracle → list act → Prop :=
| serves_http e parsed :
    bytes_ok (pending (stream (io e))) →
    serves (oracle_of (io e) None) (handleNewConnection e parsed []).2
| serves_socks http_host e le :
    bytes_ok (pending (stream (io e))) →
    serves (oracle_of (io e) (Some le)) (handleConnection http_host e le []).2
| serves_tun_tcp te dst :
    bytes_ok (pending (stream (tun_io te))) →
    serves (oracle_of (tun_io te) None) (tcp_Handle te dst []).2
| serves_tun_udp te dst :
    bytes_ok (pending (stream (tun_io te))) →
    serves (oracle_of (tun_io te) None) (TunServer.udp_Handle te dst []).2.

Lemma serves_keeps o t : serves o t → keeps o t.
Proof. destruct 1; [by apply http_keeps | by apply socks_keeps | by apply tun_keeps | by apply tun_keeps]. Qed.


(** The accept loops under it. Every connection a loop accepts before its
    listener is closed is handed, once and in order, to a handler that keeps the
    contract, whatever failures come between them; so each of them is closed. *)
Lemma accept_loops_keep (keep : bool) (events : list accept_event) (o : nat → oracle) (h : nat → list act) :
  (∀ c, serves (o c) (h c)) →
  handled (accept_loop keep 0 events) = accepted_conns events ∧
  Forall (λ c, keeps (o c) (h c) ∧ last (h c) = Some ACloseClient) (handled (accept_loop keep 0 events)).
Proof.
  intros Hs. split; [apply accept_loop_handled |]. apply Forall_forall. intros c _. pose proof (serves_keeps _ _ (Hs c)) as Hk.
  split; [done |]. destruct (last (h c)) as [a |] eqn:Hl.
  - apply last_Some in Hl as [l Hl]. f_equal. by apply (keeps_meaning (o c) (h c) l a []).
  - apply last_None in Hl. unfold keeps in Hk. by rewrite Hl in Hk.
Qed.
End Servers.

(** ** Witnesses *)
Definition address_connect : HTTPRequest := mkHTTPRequest "CONNECT" "93.184.216.34:443".


(** Lives that break the contract: a remote that is dialed and forgotten, one
    that is dialed twice, a reply behind the client's first bytes, a write
    without a remote, and a tunnel that repeats what was sent. *)
Lemma contract_refuses :
  let o := mkOracle (λ _, true) true true (λ _, true) [1; 2; 3] in
  let d := ADial (mkDestination "a" [] 1) "tcp" 0 in
  let ok := AReplyHTTP HTTPConnectionEstablishedResponse in
  keeps o [d; ok; AWriteRemote [1; 2]; ATunnel (mkReader [3] EOF); ACloseRemote; ACloseClient] ∧
  ¬ keeps o [d; ok; ACloseClient] ∧
  ¬ keeps o [d; d; ACloseRemote; ACloseClient] ∧
  ¬ keeps o [d; AWriteRemote [1; 2]; ok; ACloseRemote; ACloseClient] ∧
  ¬ keeps o [AWriteRemote [1; 2]; ACloseClient] ∧
  ¬ keeps o [d; AWriteRemote [1; 2]; ATunnel (mkReader [1; 2; 3] EOF); ACloseRemote; ACloseClient].
Proof. split_and!; by vm_compute. Qed.
