(* ===== verification/EndToEnd.v ===== *)
(** * From the client to the origin

    The contract of the servers ([Contract]), the desyncer ([Desync]) and the
    copy of a tunnel ([Conns]) put together: the bytes the origin receives on a
    connection, whatever splits, fakes, TTLs, chunks and failures come between. *)

From S2P Require Import Prelude GoIO GoNet GoStrings NetText NetIP CacheApi LruCache Keys Sniffer Tls ConfigTypes CidrTrie Dns RuleSet NetUtil Split Desync Conns HttpProto HttpWire Socks5Proto TcpHandlers Routing HttpServer Contract.

Local Open Scope string_scope.
Local Open Scope list_scope.
Local Open Scope Z_scope.

Section EndToEnd.
Context {NT : NetText} {PT : Patricia} `{PointSort} {C : Type} `{!Cache C (list Z) Z} `{!CacheLaws C (list Z) Z}.

(** The connection to the origin: its socket, the desyncer that writes to it,
    and what it takes of the tunnel. *)
Variable de : Desync.env.
Variable rc : conn.
Variables chf ch : Choices.
Variable d : TLSDesyncer C.
Variable k : sink.
(** The client's side of a tunnel, buffered: the chunks the network makes. *)
Variable buffered : reader → BufferedConn.

Definition fresh_socket : world := mkWorld [] getDefaultTTL.

Definition desync_run (m : TLSMessage) (opts : HTTPSOptions) := Desync de chf ch rc m opts d fresh_socket.

(** What the handlers see of the detailed components. *)
Definition desync_err (m : TLSMessage) (opts : HTTPSOptions) : option error :=
  match desync_run m opts with
  | Ok (_, err, _, _) => err
  | Err s => Some (ErrText s)
  | _ => Some (ErrText "panic")
  end.
Definition write_err (b : bytes) : option error := (Write de b fresh_socket).1.2.

Definition linked (o : oracle) : Prop :=
  (∀ m opts, sent_ok o (ADesync m opts) = no_error (desync_err m opts)) ∧
  (∀ b, sent_ok o (AWriteRemote b) = no_error (write_err b)).

(** What reaches the origin of an action. *)
Definition copied (rest : reader) : bytes :=
  match CopyBuffer (buffered rest) k with Ok (_, _, k') => took k' | _ => [] end.
Definition received (a : act) : bytes :=
  match a with
  | ADesync m opts => match desync_run m opts with Ok (_, _, _, w) => written (trace w) | _ => [] end
  | AWriteRemote b => written (trace (Write de b fresh_socket).2)
  | ATunnel rest => copied rest
  | _ => []
  end.
Definition origin (t : list act) : bytes := mjoin (received <$> t).

Definition is_tunnel (a : act) : bool := match a with ATunnel _ => true | _ => false end.

(** What a run leaves at the origin, by the phase it starts from. *)
Definition nothing (t : list act) : Prop := origin t = [] ∧ none_of is_tunnel t.
Definition resumed (o : oracle) (fed : bytes) (t : list act) : Prop :=
  nothing t ∨ ∃ rest, suffix (fed ++ pending rest) (client o) ∧ origin t = copied rest.
(** One write, and the tunnel if it went out whole. *)
Definition written_once (o : oracle) (t : list act) : Prop :=
  ∃ a, a ∈ t ∧ writes a = true ∧ stretch o (sent_remote a) = true ∧
    (origin t = received a ∧ none_of is_tunnel t ∨
     ∃ rest, sent_ok o a = true ∧ suffix (sent_remote a ++ pending rest) (client o) ∧
       origin t = received a ++ copied rest).
Definition leaves (o : oracle) (p : phase) (t : list act) : Prop :=
  match p with
  | Fresh _ | Failed _ | Opened _ None => resumed o [] t ∨ written_once o t
  | Opened _ (Some fed) => resumed o fed t
  | _ => nothing t
  end.

Lemma origin_cons a t : origin (a :: t) = received a ++ origin t.
Proof. done. Qed.

(** An action that is no write leaves the origin as it is. *)
Lemma nothing_quiet a t : received a = [] → is_tunnel a = false → nothing t → nothing (a :: t).
Proof. intros Ha Hn [H1 H2]. split; [by rewrite origin_cons, Ha, H1 | by constructor]. Qed.
Lemma resumed_quiet o fed a t :
  received a = [] → is_tunnel a = false → resumed o fed t → resumed o fed (a :: t).
Proof.
  intros Ha Hn [Ht | (rest & Hs & Ht)]; [by left; apply nothing_quiet |]. right. exists rest.
  by rewrite origin_cons, Ha.
Qed.
Lemma written_quiet o a t :
  received a = [] → is_tunnel a = false → written_once o t → written_once o (a :: t).
Proof.
  intros Ha Hn (b & Hb & Hw & Hs & Hc). exists b. rewrite origin_cons, Ha. split; [by right |].
  split; [done |]. split; [done |]. destruct Hc as [[? ?] | ?]; [left; split; [done | by constructor] | by right].
Qed.
Lemma leaves_quiet o p a t :
  received a = [] → is_tunnel a = false → leaves o p t → leaves o p (a :: t).
Proof.
  intros Ha Hn. destruct p as [| | l [fed |] | | | | |]; cbn [leaves];
    first [by apply nothing_quiet | by apply resumed_quiet |
      (intros [Ht | Ht]; [left; by apply resumed_quiet | right; by apply written_quiet])].
Qed.

(** A phase from which nothing more reaches the origin is one from which less
    than anything does. *)
Lemma leaves_nothing o p t : nothing t → leaves o p t.
Proof. intros Ht. destruct p as [| | l [fed |] | | | | |]; cbn [leaves]; try done; try (by left; left); by left. Qed.

(** One step, backwards. *)
Lemma leaves_step o p a p' t : step o p a = Some p' → leaves o p' t → leaves o p (a :: t).
Proof.
  intros Hs Hl. destruct (writes a) eqn:Hw.
  - assert (∃ l, p = Opened l None ∧ stretch o (sent_remote a) = true ∧ p' = after_send o l a (sent_remote a))
      as (l & -> & Hst & ->).
    { destruct a, p as [[] | [] | l [] | [] | [] | [] | |]; cbn [step] in Hs; try done;
        exists l; by destruct (stretch o _); simplify_eq. }
    right. exists a. split; [by left |]. split; [done |]. split; [done |].
    unfold after_send in Hl. rewrite origin_cons. destruct (sent_ok o a) eqn:Hok; cbn [leaves] in Hl.
    + destruct Hl as [[H1 H2] | (rest & Hr & H1)].
      * left. rewrite H1, app_nil_r. split; [done |]. constructor; [by destruct a | done].
      * right. exists rest. by rewrite H1.
    + destruct Hl as [H1 H2]. left. rewrite H1, app_nil_r. split; [done |]. constructor; [by destruct a | done].
  - destruct (is_tunnel a) eqn:Ht.
    + destruct a; try done.
      destruct p as [| | l fed | | | | |]; cbn [step] in Hs; try done.
      destruct (goes_on _ _ _) eqn:Hg; [| done]. injection Hs as <-. apply bool_decide_eq_true in Hg.
      destruct Hl as [H1 _].
      assert (origin (ATunnel rest :: t) = copied rest) as H2 by by rewrite origin_cons, H1, app_nil_r.
      destruct fed as [fed |]; cbn [leaves]; [right | left; right]; by exists rest.
    + assert (received a = []) as Hr by by destruct a.
      assert (leaves o p t → leaves o p (a :: t)) as Hq by by apply leaves_quiet.
      apply Hq. clear Hq Hr.
      destruct a, p as [[] | [] | l [] | [] | [] | [] | |]; cbn [step] in Hs; simplify_eq; try done;
        try (by apply leaves_nothing);
        repeat (case_match; simplify_eq); try done; first [by left | by apply leaves_nothing].
Qed.

Lemma run_leaves o p t : run o p t = Some Ended → leaves o p t.
Proof.
  revert p. induction t as [| a t IH]; intros p; cbn [run].
  - intros [= ->]. split; [done | constructor].
  - destruct (step o p a) as [p' |] eqn:Hs; [| done]. intros Hr. eapply leaves_step; [exact Hs | by apply IH].
Qed.

(** ** What the components promise *)
Hypothesis Hwrites : writes_ok de.
Hypothesis Hremote : ∃ a, RemoteAddr rc = ATCP a.
Hypothesis Hbuffered : ∀ r, buffered_wf (buffered r) ∧ view (buffered r) = r.
Hypothesis Hsink : sink_ok k ∧ took k = [].

(** Options the desyncer can work with: a configuration's chunk size and plans,
    and a fake packet. *)
Definition desyncable (a : act) : Prop :=
  match a with
  | ADesync m opts => splittable opts m ∧ ∃ fake, https_FakePacket opts = Some fake ∧ splittable opts fake
  | _ => True
  end.

Lemma copied_spec rest : copied rest = accepted k (pending rest).
Proof.
  destruct Hsink as [Hk Ht]. destruct (Hbuffered rest) as [Hwf Hv]. unfold copied, CopyBuffer.
  destruct (copy_loop_spec (S (length (pending (view (buffered rest))))) (buffered rest) k 0 Hwf Hk ltac:(lia))
    as (k' & -> & ->). by rewrite Ht, Hv.
Qed.

Lemma accepted_prefix l : accepted k l `prefix_of` l.
Proof.
  unfold accepted. destruct (room k) as [[r er] |]; [| done]. exists (drop (Z.to_nat r) l).
  by rewrite take_drop.
Qed.

(** What a write leaves at the origin: a front of its bytes, and all of them when
    the handler saw no error. *)
Lemma received_spec o a : linked o → writes a = true → desyncable a →
  received a `prefix_of` sent_remote a ∧ (sent_ok o a = true → received a = sent_remote a).
Proof.
  intros [Hd Hb] Hw Hok. destruct a; try done.
  - destruct Hok as (Hm & fake & Hf & Hsf). destruct Hremote as [ra Hra].
    destruct (Desync_written de chf ch rc msg fake opts d fresh_socket ra Hwrites Hra Hm Hf Hsf)
      as (n & err & d' & w' & tr & Hr & Ht & Hp & Hn).
    rewrite Hd. cbn [received sent_remote]. unfold desync_err, desync_run. rewrite Hr, Ht.
    split; [done |]. destruct err; [done | by intros _; apply Hn].
  - rewrite Hb. cbn [received sent_remote]. unfold write_err.
    pose proof (Write_sent de b fresh_socket Hwrites) as Hs.
    destruct (Write de b fresh_socket) as [[n err] w']. destruct Hs as (tr & Ht & Hp & _ & Hn & _).
    cbn [fst snd]. rewrite Ht. split; [done |]. destruct err; [done | by intros _; apply Hn].
Qed.


(** ** The other way: what the client receives *)

(** The proxy's own messages, and through the tunnel what the client takes
    ([kc]) of what the origin sends ([answer]). *)
Variable StatusText : Z → string.
Variable kc : sink.
Variable answer : reader.
Definition reply_text (a : act) : bytes :=
  match a with
  | AReplyHTTP r => bytes_of_string (Response_Write StatusText r)
  | AReplySocks r => reply_bytes r
  | AWriteClient b => b
  | _ => []
  end.
Definition to_client (a : act) : bytes :=
  match a with
  | ATunnel _ => match CopyBuffer (buffered answer) kc with Ok (_, _, k') => took k' | _ => [] end
  | _ => reply_text a
  end.

(** After the tunnel the proxy only closes. *)
Lemma run_silent o p t : run o p t = Some Ended →
  match p with Tunneled _ | Closed _ | Ended => True | _ => False end →
  mjoin (to_client <$> t) = [] ∧ none_of is_tunnel t.
Proof.
  revert p. induction t as [| a t IH]; intros p; cbn [run]; [by split; [| constructor] |].
  destruct (step o p a) as [q |] eqn:Hs; [| done]. intros Hr Hp.
  assert (to_client a = [] ∧ is_tunnel a = false ∧ match q with Tunneled _ | Closed _ | Ended => True | _ => False end)
    as (Ha & Hn & Hq).
  { destruct p as [[] | [] | | [] | [] | [] | |]; try done; destruct a; by simplify_eq/=. }
  destruct (IH q Hr Hq) as [Ht Hf]. split; [| by constructor].
  change (to_client a ++ mjoin (to_client <$> t) = []). by rewrite Ha, Ht.
Qed.

(** The client receives the proxy's replies and, if the tunnel was started, then
    the front of the origin's stream that it takes, with nothing of the proxy in
    between or after. *)
Lemma client_receives (o : oracle) (t : list act) :
  serves o t → sink_ok kc → took kc = [] →
  mjoin (to_client <$> t) =
    mjoin (reply_text <$> t) ++ (if existsb is_tunnel t then accepted kc (pending answer) else []).
Proof.
  intros Hs Hk Ht. pose proof (serves_keeps o t Hs) as Hr. unfold keeps in Hr. clear Hs.
  revert Hr. generalize (Fresh false). induction t as [| a t IH]; intros p; cbn [run]; [done |].
  destruct (step o p a) as [q |] eqn:Hst; [| done]. intros Hr.
  change (mjoin (to_client <$> a :: t)) with (to_client a ++ mjoin (to_client <$> t)).
  change (mjoin (reply_text <$> a :: t)) with (reply_text a ++ mjoin (reply_text <$> t)).
  cbn [existsb]. destruct (is_tunnel a) eqn:Ha.
  - assert (∃ l, q = Tunneled l) as [l ->].
    { destruct a; try done. destruct p as [| | l fed | | | | |]; cbn [step] in Hst; try done. exists l.
      by destruct (goes_on _ _ _); simplify_eq. }
    destruct (run_silent o _ t Hr I) as [Hsil _]. cbn [orb].
    assert (mjoin (reply_text <$> t) = []) as Hrep.
    { clear -Hsil. induction t as [| b t IH]; [done |].
      change (to_client b ++ mjoin (to_client <$> t) = []) in Hsil. apply app_eq_nil in Hsil as [Hb Ht].
      change (reply_text b ++ mjoin (reply_text <$> t) = []). rewrite (IH Ht), app_nil_r. by destruct b. }
    rewrite Hsil, Hrep. destruct a; try done. cbn [to_client reply_text]. rewrite !app_nil_r.
    destruct (Hbuffered answer) as [Hwf Hv]. unfold CopyBuffer.
    destruct (copy_loop_spec (S (length (pending (view (buffered answer))))) (buffered answer) kc 0 Hwf Hk ltac:(lia))
      as (k' & -> & ->). by rewrite Ht, Hv.
  - rewrite (IH q Hr), app_assoc. cbn [orb]. f_equal. f_equal. by destruct a.
Qed.
End EndToEnd.

(** ** Witness: a CONNECT to an address, the ClientHello split at its name with
    two fakes before it, and a tunnel on which every byte is a chunk *)
Definition bytewise (r : reader) : BufferedConn :=
  NewBufferedConn (mkSource ((λ b, [b]) <$> pending r) (final r)).

Lemma bytewise_ok r : buffered_wf (bytewise r) ∧ view (bytewise r) = r.
Proof.
  split.
  - apply NewBufferedConn_wf, Forall_fmap, Forall_true. done.
  - destruct r as [p f]. unfold view, bytewise. simpl. f_equal.
    induction p as [| b p IH]; [done |]. cbn. by f_equal.
Qed.

Definition faking_config : RuntimeConfig :=
  let c := Runtime DefaultConfig in mkRuntimeConfig (Conn c) (ConfigTypes.DNS c) fake_opts (UDP c).

Definition linked_env : tcp_env :=
  mkTcpEnv (λ _, None) (λ _, None) (mkReader (encode_hello sample_hello ++ [9; 9]) EOF)
    (desync_err good_env sample_conn sample_choices sample_choices sample_desyncer) (write_err good_env) None [] (Ok []).
Definition linked_serve_env : serve_env :=
  mkServeEnv _ _ ads_rules sample_client (λ _, None) 5 6 (mkTCPAddr (IPv4 127 0 0 1) 8080) faking_config linked_env.
Definition linked_trace : list act := (handleNewConnection linked_serve_env (Ok (address_connect, 0%nat)) []).2.

Lemma linked_trace_hello : linked_trace =
  [APrepareHop [IPv4 93 184 216 34] fake_opts; AReplyHTTP HTTPConnectionEstablishedResponse;
   ADial (mkDestination "93.184.216.34" [IPv4 93 184 216 34] 443) "tcp" (TCPTimeout (Conn faking_config));
   ADesync (mkTLSMessage "real" (mkTLSHeader 22 769 (len (drop 5 (encode_hello sample_hello))))
     (encode_hello sample_hello) (take 5 (encode_hello sample_hello)) (drop 5 (encode_hello sample_hello))) fake_opts;
   ATunnel (mkReader [9; 9] EOF); ACloseRemote; ACloseClient].
Proof. by vm_compute. Qed.

