(* ===== verification/TunPump.v ===== *)
(** * The packet pump and the forwarders: [TunServer.ListenAndServe],
      [tunToStack] and [stackToTun] of [internal/server/tun/tun.go]

    [tunToStack] reads batches until an error; [stackToTun] shares the
    endpoint's queue and a notification channel of capacity one with the network
    stack, so it is a step relation: the stack writes a packet and then
    notifies, the pump polls the queue and waits on the channel when it is
    empty. *)

From S2P Require Import Prelude GoIO GoNet NetText CidrTrie TcpHandlers TunServer.

Local Open Scope list_scope.
Local Open Scope Z_scope.

(** ** The forwarders' callbacks *)
Inductive fwd_act : Type :=
| FComplete (reset : bool)       (* [r.Complete] *)
| FClose                         (* [conn.Close] *)
| FHandle (trace : list act).    (* the handler's goroutine *)

Section Forward.
Context {NT : NetText} {PT : Patricia}.

Definition forward (handle : NetUtil.Destination → handler unit) (localAddr : string) : list fwd_act :=
  match connToDst localAddr with
  | Ok dst => [FHandle (handle dst []).2]
  | _ => [FClose]
  end.

(** [ep_err] is the error of [CreateEndpoint]. *)
Definition tcp_forward (e : tun_env) (ep_err : option error) (localAddr : string) : list fwd_act :=
  match ep_err with
  | Some _ => [FComplete true]
  | None => FComplete false :: forward (tcp_Handle e) localAddr
  end.
Definition udp_forward (e : tun_env) (ep_err : option error) (localAddr : string) : list fwd_act :=
  match ep_err with Some _ => [] | None => forward (udp_Handle e) localAddr end.
End Forward.

(** ** [tunToStack]: what each [Read] of the device returns *)
Inductive device_read : Type :=
| Batch (n : nat) (bufs : list bytes) (sizes : list Z)
| ReadErr (er : error).

Fixpoint tunToStack (reads : list device_read) : outcome error (list bytes) :=
  match reads with
  | [] => Ok []
  | ReadErr _ :: _ => Ok []
  | Batch n bufs sizes :: reads =>
    injected ← inject_batch n bufs sizes;
    rest ← tunToStack reads;
    Ok (injected ++ rest)
  end.

(** ** [stackToTun] *)
Inductive pump_phase : Type := Polling | Waiting | Ended.

Record pump : Type := mkPump {
  queue : list bytes;        (* the endpoint's queue *)
  to_notify : nat;           (* packets written whose notification is due *)
  token : bool;              (* the channel holds a token *)
  phase : pump_phase;
  pool : list bytes;         (* [sync.Pool]: the buffers it keeps *)
  written : list (bytes * Z); (* buffers written to the device, with the offset *)
  pushed : list bytes;       (* every packet the stack wrote (not in the code) *)
  done : bool;               (* [appctx.Done()] *)
}.
Definition pump_start : pump := mkPump [] 0 false Polling [] [] [] false.

(** A buffer from the pool, or a new one; the pool may drop what it keeps. *)
Definition fresh_buffer : bytes := replicate (Z.to_nat (writeOffset + 1500)) 0.

(** The pooled buffer after the packet was copied into it. *)
Definition reused (pooled views : bytes) : bytes :=
  frame pooled views ++ drop (Z.to_nat (writeOffset + len views)) pooled.

(** What a packet leaves in the pool and writes to the device. *)
Definition emit_packet (views : bytes) (pooled : bytes) (rest : list bytes) (p : pump) : list bytes * list (bytes * Z) :=
  if len views <=? 0 then (pool p, written p)
  else (reused pooled views :: rest, written p ++ [(frame pooled views, writeOffset)]).

Inductive pump_step : pump → pump → Prop :=
| PPush views p :     (* the stack writes a packet to the endpoint *)
    pump_step p (mkPump (queue p ++ [views]) (S (to_notify p)) (token p) (phase p) (pool p) (written p)
                   (pushed p ++ [views]) (done p))
| PNotify p n :       (* [WriteNotify]: a full channel is left alone *)
    to_notify p = S n →
    pump_step p (mkPump (queue p) n true (phase p) (pool p) (written p) (pushed p) (done p))
| PDone p :           (* the program ends *)
    pump_step p (mkPump (queue p) (to_notify p) (token p) (phase p) (pool p) (written p) (pushed p) true)
| PStop p :           (* either [select] sees the end *)
    done p = true → phase p ≠ Ended →
    pump_step p (mkPump (queue p) (to_notify p) (token p) Ended (pool p) (written p) (pushed p) true)
| PEmpty p :          (* [ep.Read] returns nil *)
    phase p = Polling → queue p = [] →
    pump_step p (mkPump [] (to_notify p) (token p) Waiting (pool p) (written p) (pushed p) (done p))
| PWake p :           (* [<-ch] *)
    phase p = Waiting → token p = true →
    pump_step p (mkPump (queue p) (to_notify p) false Polling (pool p) (written p) (pushed p) (done p))
| PSend p views q pooled rest :   (* a packet is read, framed and written *)
    phase p = Polling → queue p = views :: q →
    (pooled = fresh_buffer ∧ rest ⊆+ pool p ∨ pooled :: rest ⊆+ pool p) →
    pump_step p (mkPump q (to_notify p) (token p) Polling (emit_packet views pooled rest p).1
                   (emit_packet views pooled rest p).2 (pushed p) (done p)).

Definition runs : pump → pump → Prop := rtc pump_step.

(** What the device finds behind the offset of a buffer. *)
Definition device_packet (w : bytes * Z) : bytes := slice w.1 w.2 (len w.1).
Definition nonempty (views : bytes) : Prop := 0 < len views.
#[export] Instance nonempty_dec views : Decision (nonempty views) := decide (0 < len views).

Record pump_inv (p : pump) : Prop := {
  inv_fifo : filter nonempty (pushed p) = (device_packet <$> written p) ++ filter nonempty (queue p);
  inv_wakeup : phase p = Waiting → queue p ≠ [] → token p = true ∨ (0 < to_notify p)%nat;
  inv_ended : phase p = Ended → done p = true;
}.

Lemma device_packet_frame pooled views : device_packet (frame pooled views, writeOffset) = views.
Proof. unfold device_packet. cbn [fst snd]. apply frame_holds. Qed.

Lemma pump_step_inv p p' : pump_step p p' → pump_inv p → pump_inv p'.
Proof.
  intros Hs [Hf Hw He].
  destruct Hs as [views p | p n Hn | p | p Hd Hp | p Hp Hq | p Hp Ht | p views q pooled rest Hp Hq Hb];
    split; cbn [queue to_notify token phase pool written pushed done]; try done; try naive_solver.
  - rewrite !filter_app, Hf. by rewrite app_assoc.
  - intros Hp _. right. lia.
  - rewrite Hq in Hf. done.
  - rewrite Hf, Hq. unfold emit_packet. destruct (Z.leb_spec (len views) 0) as [Hl | Hl]; cbn [snd].
    + by rewrite filter_cons_False by (unfold nonempty; lia).
    + rewrite filter_cons_True by (unfold nonempty; lia).
      rewrite fmap_app, <- app_assoc. simpl. by rewrite device_packet_frame.
Qed.

Lemma pump_run_inv p : runs pump_start p → pump_inv p.
Proof.
  intros H. assert (pump_inv pump_start) as H0 by by split.
  induction H as [| p1 p2 p3 Hs _ IH]; [done |]. apply IH. by eapply pump_step_inv.
Qed.

(** A step of the pump itself, or the notification that is due. *)
Definition pump_moves (p p' : pump) : Prop :=
  pump_step p p' ∧ pushed p' = pushed p ∧ done p' = done p ∧
  (phase p' = Polling ∨ phase p' = Ended ∨ (to_notify p' < to_notify p)%nat).


(** All batches together: the non-empty IPv4 packets enter the stack in order. *)
Definition batch_ok (r : device_read) : Prop :=
  match r with
  | Batch n bufs sizes => length bufs = length sizes ∧ (n <= length sizes)%nat ∧
      Forall (λ b, len b = readOffset + mtu) bufs ∧ Forall (λ s, s <= mtu) sizes
  | ReadErr _ => True
  end.
Fixpoint read_packets (reads : list device_read) : list bytes :=
  match reads with
  | Batch n bufs sizes :: reads =>
    filter is_ipv4 (take n (zip_with packet_of bufs sizes)) ++ read_packets reads
  | _ => []
  end.

Lemma tunToStack_spec reads :
  Forall batch_ok reads → tunToStack reads = Ok (read_packets reads).
Proof.
  induction 1 as [| [n bufs sizes | er] reads H Hr IH]; [done | | done].
  destruct H as (Hl & Hn & Hb & Hs). cbn [tunToStack read_packets].
  by rewrite inject_batch_spec, IH.
Qed.

(** ** Witness: a packet pushed while the pump waits is written *)
Definition ping : bytes := [0x45; 1; 2; 3].

Definition pump_sent : pump :=
  mkPump [] 0 false Polling [reused fresh_buffer ping] [(frame fresh_buffer ping, writeOffset)] [ping] false.

Lemma pump_sent_runs : runs pump_start pump_sent.
Proof.
  eapply rtc_l; [by apply PEmpty |]. eapply rtc_l; [apply (PPush ping) |].
  eapply rtc_l; [by apply (PNotify _ 0) |]. eapply rtc_l; [by apply PWake |].
  eapply rtc_l; [| apply rtc_refl].
  apply (PSend (mkPump [ping] 0 false Polling [] [] [ping] false) ping [] fresh_buffer []);
    [done | done | left; split; [done | apply submseteq_nil_l]].
Qed.

