(* ===== verification/Jobs.v ===== *)
(** * Network configuration jobs: [internal/netutil/network_job.go] and
      [internal/executil/executil.go]

    The jobs that change the system's network configuration are saved to a state
    file first, applied from it and reset from it, so that what a crashed process
    left behind can be reset at the next start. The host is its files and the
    commands that were run on it; what a command answers is the environment. *)

From S2P Require Import Prelude GoIO GoStrings.

Local Open Scope string_scope.
Local Open Scope list_scope.

Record NetworkJob : Type := mkJob { Description : string; Apply : string; Reset : string }.

(** A state file: the jobs it holds, or the error of reading or decoding it. *)
Inductive file : Type := JobsFile (jobs : list NetworkJob) | BadFile (err : error).

Record host : Type := mkHost {
  files : gmap string file;
  ran : list string;               (* the commands handed to the system, in order *)
}.

Record job_env : Type := mkJobEnv {
  run : list string → string → string * option error;   (* output and error *)
  write_err : string → option error;
  remove_err : string → option error;
}.

Section Jobs.
Variable e : job_env.
Implicit Types (h : host) (jobs : list NetworkJob) (path : string).

Definition Command (cmd : string) h : string * option error * host :=
  (run e (ran h) cmd, mkHost (files h) (ran h ++ [cmd])).

Definition SaveJobs path jobs h : option error * host :=
  if decide (path = "") then (None, h)
  else
    match write_err e path with
    | Some err => (Some err, h)
    | None => (None, mkHost (<[path := JobsFile jobs]> (files h)) (ran h))
    end.

Definition LoadJobs path h : list NetworkJob * bool * option error :=
  if decide (path = "") then ([], false, None)
  else
    match files h !! path with
    | None => ([], false, None)
    | Some (BadFile err) => ([], false, Some err)
    | Some (JobsFile jobs) => (jobs, true, None)
    end.

(** The loop of [ResetJobs]: it gets the jobs last one first. A failing command
    is logged and ignored. *)
Fixpoint reset_loop jobs h : host :=
  match jobs with
  | [] => h
  | job :: jobs =>
    let h := if decide (Reset job = "") then h else (Command (Reset job) h).2 in
    reset_loop jobs h
  end.

Definition ResetJobs path h : host :=
  if decide (path = "") then h
  else
    match LoadJobs path h with
    | (_, _, Some _) => h
    | (_, false, None) => h
    | (jobs, true, None) =>
      let h := reset_loop (reverse jobs) h in
      match remove_err e path with
      | Some _ => h
      | None => mkHost (delete path (files h)) (ran h)
      end
    end.

Fixpoint apply_loop path jobs h : option error * host :=
  match jobs with
  | [] => (None, h)
  | job :: jobs =>
    if decide (Apply job = "") then apply_loop path jobs h
    else
      let '(out, err, h) := Command (Apply job) h in
      match err with
      | Some er =>
        let h := ResetJobs path h in
        (Some (ErrWrap ("job " +:+ Quote (Description job) +:+ ": " +:+ TrimSpace out +:+ ": ") er), h)
      | None => apply_loop path jobs h
      end
  end.

Definition ApplyJobs path h : option error * host :=
  if decide (path = "") then (None, h)
  else
    match LoadJobs path h with
    | (_, _, Some er) => (Some (ErrWrap "failed to load state: " er), h)
    | (_, false, None) => (None, h)
    | (jobs, true, None) => apply_loop path jobs h
    end.

(** ** The commands of a list of jobs *)
Definition given (s : string) : Prop := s ≠ "".
#[local] Instance given_dec s : Decision (given s) := decide (¬ s = "").
Definition applies jobs : list string := filter given (Apply <$> jobs).
Definition resets jobs : list string := filter given (Reset <$> jobs).

(** The command of [job] succeeds when it is run after [before]. *)
Definition succeeds_after (before : list string) (job : NetworkJob) : Prop :=
  Apply job = "" ∨ (run e before (Apply job)).2 = None.

(** Every job of the list succeeds, run one after the other. *)
Fixpoint all_succeed (before : list string) jobs : Prop :=
  match jobs with
  | [] => True
  | job :: jobs =>
    succeeds_after before job ∧ all_succeed (before ++ applies [job]) jobs
  end.

Lemma applies_cons job jobs : applies (job :: jobs) = applies [job] ++ applies jobs.
Proof. unfold applies. change (job :: jobs) with ([job] ++ jobs). by rewrite fmap_app, filter_app. Qed.
Lemma applies_app l k : applies (l ++ k) = applies l ++ applies k.
Proof. unfold applies. by rewrite fmap_app, filter_app. Qed.
Lemma applies_none job : Apply job = "" → applies [job] = [].
Proof. intros H. unfold applies. simpl. by rewrite filter_cons_False by (unfold given; naive_solver). Qed.
Lemma applies_one job : Apply job ≠ "" → applies [job] = [Apply job].
Proof. intros H. unfold applies. simpl. by rewrite filter_cons_True. Qed.
Lemma resets_cons job jobs :
  resets (job :: jobs) = (if decide (Reset job = "") then [] else [Reset job]) ++ resets jobs.
Proof.
  unfold resets. rewrite fmap_cons. case_decide.
  - by rewrite filter_cons_False by (unfold given; naive_solver).
  - by rewrite filter_cons_True.
Qed.

Lemma reset_loop_spec jobs h :
  files (reset_loop jobs h) = files h ∧ ran (reset_loop jobs h) = ran h ++ resets jobs.
Proof.
  revert h. induction jobs as [| job jobs IH]; intros h; cbn [reset_loop].
  - split; [done |]. by rewrite app_nil_r.
  - rewrite resets_cons. destruct (IH (if decide (Reset job = "") then h else (Command (Reset job) h).2))
      as [-> ->].
    case_decide; simpl; [done |]. by rewrite <- app_assoc.
Qed.

Lemma resets_reverse jobs : resets (reverse jobs) = reverse (resets jobs).
Proof. unfold resets. by rewrite fmap_reverse, filter_reverse. Qed.

(** What resetting the jobs of a state file does. *)
Definition reset_done path jobs h h' : Prop :=
  ran h' = ran h ++ reverse (resets jobs) ∧
  files h' = match remove_err e path with Some _ => files h | None => delete path (files h) end.

Lemma ResetJobs_done path jobs h :
  path ≠ "" → files h !! path = Some (JobsFile jobs) → reset_done path jobs h (ResetJobs path h).
Proof.
  intros Hp Hf. unfold ResetJobs, LoadJobs, reset_done. rewrite !decide_False, Hf by done.
  destruct (reset_loop_spec (reverse jobs) h) as [H1 H2]. rewrite resets_reverse in H2.
  destruct (remove_err e path); simpl; by rewrite H1, H2.
Qed.

Lemma apply_loop_spec path all jobs h :
  path ≠ "" → files h !! path = Some (JobsFile all) →
  let '(err, h') := apply_loop path jobs h in
  (err = None ∧ all_succeed (ran h) jobs ∧ files h' = files h ∧ ran h' = ran h ++ applies jobs) ∨
  (is_Some err ∧ ∃ pre job post, jobs = pre ++ job :: post ∧ all_succeed (ran h) pre ∧
     Apply job ≠ "" ∧ ¬ succeeds_after (ran h ++ applies pre) job ∧
     reset_done path all (mkHost (files h) (ran h ++ applies (pre ++ [job]))) h').
Proof.
  intros Hp. revert h. induction jobs as [| job jobs IH]; intros h Hf; cbn [apply_loop].
  { left. split_and!; [done | done | done |]. by rewrite app_nil_r. }
  destruct (decide (Apply job = "")) as [Hn | Hn].
  - specialize (IH h Hf). destruct (apply_loop path jobs h) as [err h'].
    rewrite applies_cons, (applies_none job Hn).
    destruct IH as [(-> & Ha & Hf' & Hr) | (He & pre & j & post & -> & Ha & Hj & Hns & Hd)].
    + left. split_and!; [done | | done | done]. split; [by left |].
      by rewrite (applies_none job Hn), app_nil_r.
    + right. split; [done |]. exists (job :: pre), j, post.
      rewrite <- !app_comm_cons, (applies_cons job (pre ++ [j])), (applies_cons job pre), (applies_none job Hn).
      split_and!; [done | | done | done | done].
      split; [by left |]. by rewrite (applies_none job Hn), app_nil_r.
  - unfold Command. destruct (run e (ran h) (Apply job)) as [out [er |]] eqn:Hrun.
    + right. split; [by eexists |]. exists [], job, jobs. split_and!; [done | done | done | |].
      * simpl. rewrite app_nil_r. intros [? | Hs]; [done |]. by rewrite Hrun in Hs.
      * simpl. rewrite (applies_one job Hn). by apply ResetJobs_done.
    + specialize (IH (mkHost (files h) (ran h ++ [Apply job])) Hf).
      destruct (apply_loop path jobs _) as [err h']. simpl in IH.
      assert (succeeds_after (ran h) job) as Hs by (right; by rewrite Hrun).
      rewrite applies_cons, (applies_one job Hn).
      destruct IH as [(-> & Ha & Hf' & Hr) | (He & pre & j & post & -> & Ha & Hj & Hns & Hd)].
      * left. split_and!; [done | | done |].
        -- split; [done |]. by rewrite (applies_one job Hn).
        -- by rewrite Hr, <- app_assoc.
      * right. split; [done |]. exists (job :: pre), j, post.
        rewrite <- !app_comm_cons, (applies_cons job (pre ++ [j])), (applies_cons job pre), (applies_one job Hn).
        rewrite <- app_assoc in Hns, Hd.
        split_and!; [done | | done | done | done].
        split; [done |]. by rewrite (applies_one job Hn).
Qed.

(** The life of the network configuration: once the jobs are saved, applying
    them runs the commands in order and leaves the state file for the next
    start; at the first command that fails, applying stops, runs every reset
    command in reverse order, deletes the state file and reports the error.
    Resetting after a success runs the reset commands in reverse order whatever
    they answer, deletes the file, and a second reset runs nothing. *)
Theorem jobs_lifecycle path jobs h :
  path ≠ "" → write_err e path = None → remove_err e path = None →
  let '(serr, h1) := SaveJobs path jobs h in
  let '(err, h2) := ApplyJobs path h1 in
  serr = None ∧
  ((err = None ∧ all_succeed (ran h) jobs ∧
    ran h2 = ran h ++ applies jobs ∧ files h2 !! path = Some (JobsFile jobs) ∧
    let h3 := ResetJobs path h2 in
    ran h3 = ran h ++ applies jobs ++ reverse (resets jobs) ∧
    files h3 !! path = None ∧ ResetJobs path h3 = h3) ∨
   (is_Some err ∧ ∃ pre job post, jobs = pre ++ job :: post ∧ all_succeed (ran h) pre ∧
    ¬ succeeds_after (ran h ++ applies pre) job ∧
    ran h2 = ran h ++ applies (pre ++ [job]) ++ reverse (resets jobs) ∧
    files h2 !! path = None ∧ ResetJobs path h2 = h2)).
Proof.
  intros Hp Hw Hr. unfold SaveJobs. rewrite decide_False, Hw by done.
  set (h1 := mkHost (<[path:=JobsFile jobs]> (files h)) (ran h)).
  assert (files h1 !! path = Some (JobsFile jobs)) as Hf by apply lookup_insert_eq.
  assert (∀ h', files h' !! path = None → ResetJobs path h' = h') as Hid.
  { intros h' Hn. unfold ResetJobs, LoadJobs. by rewrite !decide_False, Hn. }
  unfold ApplyJobs, LoadJobs. rewrite !decide_False, Hf by done.
  pose proof (apply_loop_spec path jobs jobs h1 Hp Hf) as H.
  destruct (apply_loop path jobs h1) as [err h2]. split; [done |].
  destruct H as [(-> & Ha & Hf2 & Hr2) | (He & pre & j & post & Hj & Ha & _ & Hns & Hd1 & Hd2)].
  - left. assert (files h2 !! path = Some (JobsFile jobs)) as Hf2' by (by rewrite Hf2).
    destruct (ResetJobs_done path jobs h2 Hp Hf2') as [H1 H2]. rewrite Hr in H2.
    assert (files (ResetJobs path h2) !! path = None) as Hgone by (rewrite H2; apply lookup_delete_eq).
    split_and!; [done | done | done | done | | done | by apply Hid].
    rewrite H1, Hr2. simpl. by rewrite <- app_assoc.
  - right. rewrite Hr in Hd2. assert (files h2 !! path = None) as Hgone by (rewrite Hd2; apply lookup_delete_eq).
    split; [done |]. exists pre, j, post. split_and!; [done | done | done | | done | by apply Hid].
    rewrite Hd1. simpl. by rewrite <- app_assoc.
Qed.
End Jobs.

(** ** [executil.Quote] *)

(** [strings.ReplaceAll] of a quote by a quote, an escaped quote and a quote. *)
Definition squote : Ascii.ascii := Ascii.ascii_of_nat 39.
Definition backslash : Ascii.ascii := Ascii.ascii_of_nat 92.
Fixpoint escape_quotes (s : string) : string :=
  match s with
  | EmptyString => EmptyString
  | String c s =>
    if ascii_eqb c squote
    then String squote (String backslash (String squote (String squote (escape_quotes s))))
    else String c (escape_quotes s)
  end.
Definition ShellQuote (s : string) : string := String squote (escape_quotes s +:+ String squote EmptyString).

(** Reference: how a POSIX shell reads one word. [q] tells whether it is inside
    single quotes; [None] is an unfinished word. *)
Fixpoint shell_word (q : bool) (s : string) : option string :=
  match s with
  | EmptyString => if q then None else Some EmptyString
  | String c t =>
    if q then
      if ascii_eqb c squote then shell_word false t else String c <$> shell_word true t
    else if ascii_eqb c squote then shell_word true t
    else if ascii_eqb c backslash then
      match t with String d u => String d <$> shell_word false u | EmptyString => None end
    else if is_space c then None
    else String c <$> shell_word false t
  end.

Lemma shell_word_escaped s :
  shell_word true (escape_quotes s +:+ String squote EmptyString) = Some s.
Proof.
  induction s as [| c s IH]; [done |]. cbn [escape_quotes].
  destruct (ascii_eqb c squote) eqn:E.
  - apply ascii_eqb_spec in E as ->.
    change (String squote (String backslash (String squote (String squote (escape_quotes s)))) +:+ ?t)
      with (String squote (String backslash (String squote (String squote (escape_quotes s +:+ t))))).
    cbn [shell_word]. change (ascii_eqb squote squote) with true. cbv iota.
    change (ascii_eqb backslash squote) with false. change (ascii_eqb backslash backslash) with true.
    cbv iota. by rewrite IH.
  - change (String c (escape_quotes s) +:+ ?t) with (String c (escape_quotes s +:+ t)).
    cbn [shell_word]. rewrite E, IH. done.
Qed.

(** A quoted text is one shell word, and that word is the text. *)
Lemma ShellQuote_word s : shell_word false (ShellQuote s) = Some s.
Proof.
  unfold ShellQuote. cbn [shell_word]. rewrite ascii_eqb_refl. apply shell_word_escaped.
Qed.

(** ** Witnesses: the second of two commands fails *)
Definition two_jobs : list NetworkJob := [mkJob "a" "up a" "down a"; mkJob "b" "up b" ""].
Definition second_fails : job_env :=
  mkJobEnv (λ before _, ("", match before with [] => None | _ => Some EOF end)) (λ _, None) (λ _, None).

Lemma jobs_lifecycle_witness :
  let '(_, h1) := SaveJobs second_fails "/tmp/s" two_jobs (mkHost ∅ []) in
  let '(err, h2) := ApplyJobs second_fails "/tmp/s" h1 in
  is_Some err ∧ ran h2 = ["up a"; "up b"; "down a"].
Proof.
  pose proof (jobs_lifecycle second_fails "/tmp/s" two_jobs (mkHost ∅ []) ltac:(done) eq_refl eq_refl) as H.
  destruct (SaveJobs _ _ _ _) as [serr h1] eqn:Es. destruct (ApplyJobs _ _ h1) as [err h2] eqn:Ea.
  assert (ran h2 = ["up a"; "up b"; "down a"]) as Hr.
  { assert ((ApplyJobs second_fails "/tmp/s" (SaveJobs second_fails "/tmp/s" two_jobs (mkHost ∅ [])).2).2.(ran)
      = ["up a"; "up b"; "down a"]) as Hc by by vm_compute.
    rewrite Es in Hc. simpl in Hc. by rewrite Ea in Hc. }
  split; [| done]. destruct H as (_ & [(_ & _ & Hr' & _) | (He & _)]); [| done].
  rewrite Hr in Hr'. by vm_compute in Hr'.
Defined.
