(* ===== verification/SysNet.v ===== *)
(** * The system network of the TUN and proxy modes: [internal/netutil/system.go],
      [internal/server/tun/tun_net_{linux,darwin,freebsd}.go] and
      [internal/server/{http,socks5}/*_net_darwin.go]

    Which addresses the device gets, which commands configure the system, and
    which local address a dialer is bound to. What the commands print and what
    the interfaces have is the environment. *)

From S2P Require Import Prelude GoIO GoNet GoStrings NetText Jobs.

Local Open Scope string_scope.
Local Open Scope list_scope.
Local Open Scope Z_scope.

(** ** 32-bit integers in network order *)
Definition be32 (b : bytes) : Z := fold_left (λ acc x, acc * 256 + x) b 0.
Definition put_be32 (v : Z) : bytes :=
  [v / 16777216 mod 256; v / 65536 mod 256; v / 256 mod 256; v mod 256].
Definition u32_wrap (v : Z) : Z := v mod 4294967296.

Lemma be32_put v : 0 <= v < 4294967296 → be32 (put_be32 v) = v.
Proof.
  intros Hv. unfold be32, put_be32. cbn [fold_left].
  assert (v / 16777216 mod 256 = v / 16777216) as -> by (apply Z.mod_small; dm_lia). dm_lia.
Qed.

Lemma put_be32_bytes v : 0 <= v < 4294967296 → len (put_be32 v) = 4 ∧ bytes_ok (put_be32 v).
Proof.
  intros Hv. split; [done |]. unfold put_be32, bytes_ok, byte_ok.
  repeat (apply Forall_cons; split); [apply Z.mod_pos_bound; lia.. | by apply Forall_nil].
Qed.

Section SysNet.
Context {NT : NetText}.

(** ** [FindSafeCIDR] *)
Definition local_of (i j : Z) : IP := IPv4 10 i j 1.
Definition remote_of (i j : Z) : IP := IPv4 10 i j 2.

Fixpoint conflicts (nets : list IPNet) (i j : Z) : bool :=
  match nets with
  | [] => false
  | n :: nets => Contains n (local_of i j) || Contains n (remote_of i j) || conflicts nets i j
  end.

(** [fmt.Sprintf("10.%d.%d.0/30", i, j)] *)
Definition cidr_of (i j : Z) : string := "10." +:+ Itoa i +:+ "." +:+ Itoa j +:+ ".0/30".

(** The inner loop over [j] and the outer loop over [i], upwards. *)
Fixpoint find_j (nets : list IPNet) (i : Z) (js : list Z) : option string :=
  match js with
  | [] => None
  | j :: js => if negb (conflicts nets i j) then Some (cidr_of i j) else find_j nets i js
  end.
Fixpoint find_i (nets : list IPNet) (is_ : list Z) : option string :=
  match is_ with
  | [] => None
  | i :: is_ =>
    match find_j nets i (seqZ 0 256) with Some c => Some c | None => find_i nets is_ end
  end.

Definition FindSafeCIDR (ifaceNets : outcome error (list IPNet)) : outcome error string :=
  existingNets ← ifaceNets;
  match find_i existingNets (seqZ 0 256) with
  | Some c => Ok c
  | None => Err (ErrText "failed to find an available address in 10.0.0.0/8")
  end.

(** ** [AddrInCIDR] *)
Definition AddrInCIDR (cidr : string) (n : Z) : outcome error string :=
  match ParseCIDR cidr with
  | None => Err (ErrText ("invalid CIDR address: " +:+ cidr))
  | Some (ip, ipnet) =>
    match To4 ip with
    | None => Err (ErrText "not an IPv4 CIDR")
    | Some ip4 =>
      let resultIP := put_be32 (u32_wrap (be32 ip4 + u32_wrap n)) in
      if negb (Contains ipnet resultIP)
      then Err (ErrText ("index " +:+ Itoa n +:+ " is out of CIDR range " +:+ cidr))
      else Ok (IP_String resultIP)
    end
  end.

Lemma find_j_spec nets i js :
  match find_j nets i js with
  | Some c => ∃ j, j ∈ js ∧ c = cidr_of i j ∧ conflicts nets i j = false
  | None => ∀ j, j ∈ js → conflicts nets i j = true
  end.
Proof.
  induction js as [| j js IH]; simpl; [by intros j ?%not_elem_of_nil |].
  destruct (conflicts nets i j) eqn:E; simpl.
  - destruct (find_j nets i js) as [c |].
    + destruct IH as (j' & Hj & ? & ?). exists j'. split; [by right | done].
    + intros j' [-> | Hj]%elem_of_cons; auto.
  - exists j. split; [by left | done].
Qed.

Lemma find_i_spec nets is_ :
  match find_i nets is_ with
  | Some c => ∃ i j, i ∈ is_ ∧ 0 <= j < 256 ∧ c = cidr_of i j ∧ conflicts nets i j = false
  | None => ∀ i j, i ∈ is_ → 0 <= j < 256 → conflicts nets i j = true
  end.
Proof.
  induction is_ as [| i is_ IH]; cbn [find_i]; [by intros i j ?%not_elem_of_nil |].
  pose proof (find_j_spec nets i (seqZ 0 256)) as Hj.
  destruct (find_j nets i (seqZ 0 256)) as [c |].
  - destruct Hj as (j & Hj & ? & ?). apply elem_of_seqZ in Hj.
    exists i, j. split; [by left |]. split; [lia | done].
  - destruct (find_i nets is_) as [c |].
    + destruct IH as (i' & j & Hi & ? & ? & ?). exists i', j. split; [by right | done].
    + intros i' j [-> | Hi]%elem_of_cons Hr; [apply Hj, elem_of_seqZ; lia | by apply IH].
Qed.

Lemma conflicts_false nets i j :
  conflicts nets i j = false ↔
  ∀ n, n ∈ nets → Contains n (local_of i j) = false ∧ Contains n (remote_of i j) = false.
Proof.
  induction nets as [| n nets IH]; simpl; [split; [by intros _ n ?%not_elem_of_nil | done] |].
  rewrite !orb_false_iff, IH. setoid_rewrite elem_of_cons. split.
  - intros [[H1 H2] H3] n' [-> | Hn]; [done | by apply H3].
  - intros H. split; [by apply H; left |]. intros n' Hn. apply H. by right.
Qed.

(** The network of the TUN device. The search returns a /30 of 10.0.0.0/8
    whose two host addresses no network of an interface contains, and fails
    only when every such /30 has a host address in an interface's network. The
    [n]-th address of a network is computed modulo 2^32, so a result that
    wrapped around or left the network is refused: the address returned is in
    the network and its number is the network's plus [n]. *)
Theorem FindSafeCIDR_free (nets : list IPNet) (cidr : string) (n : Z) :
  match FindSafeCIDR (Ok nets) with
  | Ok c => ∃ i j, 0 <= i < 256 ∧ 0 <= j < 256 ∧ c = cidr_of i j ∧
      ∀ net, net ∈ nets → Contains net (local_of i j) = false ∧ Contains net (remote_of i j) = false
  | Err _ => ∀ i j, 0 <= i < 256 → 0 <= j < 256 → ∃ net, net ∈ nets ∧
      (Contains net (local_of i j) = true ∨ Contains net (remote_of i j) = true)
  | _ => False
  end ∧
  match AddrInCIDR cidr n with
  | Ok s => ∃ ip net ip4 r, ParseCIDR cidr = Some (ip, net) ∧ To4 ip = Some ip4 ∧ s = IP_String r ∧
      len r = 4 ∧ be32 r = (be32 ip4 + n) mod 2 ^ 32 ∧ Contains net r = true
  | Err _ => True
  | _ => False
  end.
Proof.
  split.
  - unfold FindSafeCIDR. cbn [mbind outcome_bind].
    pose proof (find_i_spec nets (seqZ 0 256)) as H.
    destruct (find_i nets (seqZ 0 256)) as [c |].
    + destruct H as (i & j & Hi%elem_of_seqZ & Hj & -> & Hc). exists i, j.
      split; [lia |]. split; [done |]. split; [done |]. by apply (proj1 (conflicts_false _ _ _)).
    + intros i j Hi Hj. specialize (H i j ltac:(apply elem_of_seqZ; lia) Hj). clear Hi Hj.
      induction nets as [| net nets IH]; [done |]. cbn [conflicts] in H.
      setoid_rewrite elem_of_cons.
      destruct (Contains net (local_of i j)) eqn:E1; [by exists net; auto |].
      destruct (Contains net (remote_of i j)) eqn:E2; [by exists net; auto |].
      destruct (IH H) as (net' & ? & ?). by exists net'; auto.
  - unfold AddrInCIDR. destruct (ParseCIDR cidr) as [[ip net] |]; [| done].
    destruct (To4 ip) as [ip4 |] eqn:H4; [| done].
    destruct (Contains net _) eqn:Hc; cbn [negb]; [| done].
    exists ip, net, ip4. eexists. split_and!; [done | done | done | | | exact Hc]; [done |].
    unfold u32_wrap. rewrite be32_put by (apply Z.mod_pos_bound; lia).
    change (2 ^ 32) with 4294967296. by rewrite Zplus_mod_idemp_r.
Qed.

(** ** [BindDialer]: the address a dialer is bound to *)
Inductive local_addr : Type := LTCP (ip : IP) | LUDP (ip : IP) | LIP (ip : IP).
Inductive iface : Type := IfaceNet (ip : IP) | IfaceOther.

Definition is_v4 (ip : IP) : bool := match To4 ip with Some _ => true | None => false end.

Fixpoint source_ip (addrs : list iface) (targetIP : IP) : option IP :=
  match addrs with
  | [] => None
  | IfaceOther :: addrs => source_ip addrs targetIP
  | IfaceNet ip :: addrs =>
    if is_v4 targetIP && is_v4 ip && negb (IsLoopback ip) then Some ip
    else if negb (is_v4 targetIP) && negb (is_v4 ip) && negb (IsLoopback ip) then Some ip
    else source_ip addrs targetIP
  end.

(** [None] leaves the dialer as it is. [route] is the name of the default route's
    interface, if there is one. *)
Definition BindDialer (route : option string) (addrs : outcome error (list iface)) (network : string)
    (targetIP : IP) : outcome error (option local_addr) :=
  match route with
  | None => Ok None
  | Some name =>
    if bool_decide (name = "") then Ok None
    else
      match addrs with
      | Ok addrs =>
        (* a nil address is what [sourceIP] was declared with *)
        match source_ip addrs targetIP with
        | None | Some [] => Err (ErrText ("no suitable IP address found on interface " +:+ name +:+
                                " for target " +:+ IP_String targetIP))
        | Some ip =>
          Ok (Some (if HasPrefix network "tcp" then LTCP ip
                    else if HasPrefix network "udp" then LUDP ip else LIP ip))
        end
      | Err er => Err (ErrWrap "failed to get interface addresses: " er)
      | Panic => Panic
      | Diverge => Diverge
      end
  end.

Definition local_ip (a : local_addr) : IP := match a with LTCP ip | LUDP ip | LIP ip => ip end.
Definition suitable (targetIP ip : IP) : Prop :=
  is_v4 ip = is_v4 targetIP ∧ IsLoopback ip = false.

Lemma source_ip_spec addrs targetIP :
  match source_ip addrs targetIP with
  | Some ip => ∃ before after, addrs = before ++ IfaceNet ip :: after ∧ suitable targetIP ip ∧
      ∀ x, IfaceNet x ∈ before → ¬ suitable targetIP x
  | None => ∀ x, IfaceNet x ∈ addrs → ¬ suitable targetIP x
  end.
Proof.
  unfold suitable. induction addrs as [| [ip |] addrs IH]; cbn [source_ip].
  - by intros x ?%not_elem_of_nil.
  - assert ((is_v4 targetIP && is_v4 ip && negb (IsLoopback ip) = true ∨
             negb (is_v4 targetIP) && negb (is_v4 ip) && negb (IsLoopback ip) = true) ↔
      is_v4 ip = is_v4 targetIP ∧ IsLoopback ip = false) as Hs
      by (destruct (is_v4 targetIP), (is_v4 ip), (IsLoopback ip); simpl; naive_solver).
    destruct (is_v4 targetIP && is_v4 ip && negb (IsLoopback ip)).
    { exists [], addrs. split; [done |]. split; [tauto | by intros x ?%not_elem_of_nil]. }
    destruct (negb (is_v4 targetIP) && negb (is_v4 ip) && negb (IsLoopback ip)).
    { exists [], addrs. split; [done |]. split; [tauto | by intros x ?%not_elem_of_nil]. }
    assert (¬ (is_v4 ip = is_v4 targetIP ∧ IsLoopback ip = false)) as Hn by (rewrite <- Hs; by intros [|]).
    destruct (source_ip addrs targetIP) as [r |].
    + destruct IH as (before & after & -> & Hr & Hb). exists (IfaceNet ip :: before), after.
      split; [done |]. split; [done |]. intros x [[= ->] | Hx]%elem_of_cons; auto.
    + intros x [[= ->] | Hx]%elem_of_cons; auto.
  - destruct (source_ip addrs targetIP) as [r |].
    + destruct IH as (before & after & -> & Hr & Hb). exists (IfaceOther :: before), after.
      split; [done |]. split; [done |]. intros x [? | Hx]%elem_of_cons; [done | auto].
    + intros x [? | Hx]%elem_of_cons; [done | auto].
Qed.

(** A dialer is bound to the first address of the default route's interface
    that has the family of the target and is not a loopback address, as an
    address of the dialed network; without such an address the dial fails, and
    without a default route the dialer is left alone. No interface reports a
    network whose address is nil. *)
Theorem BindDialer_source (name : string) (addrs : list iface) (network : string) (targetIP : IP) :
  name ≠ "" → IfaceNet [] ∉ addrs →
  match BindDialer (Some name) (Ok addrs) network targetIP with
  | Ok (Some a) => ∃ before after, addrs = before ++ IfaceNet (local_ip a) :: after ∧
      suitable targetIP (local_ip a) ∧ (∀ x, IfaceNet x ∈ before → ¬ suitable targetIP x) ∧
      (network = "tcp" → a = LTCP (local_ip a)) ∧ (network = "udp" → a = LUDP (local_ip a))
  | Err _ => ∀ x, IfaceNet x ∈ addrs → ¬ suitable targetIP x
  | _ => False
  end.
Proof.
  intros Hn Hnil. unfold BindDialer. rewrite bool_decide_false by done.
  pose proof (source_ip_spec addrs targetIP) as H.
  destruct (source_ip addrs targetIP) as [ip |]; [| done].
  destruct H as (before & after & -> & Hs & Hb).
  destruct ip as [| b ip]; [exfalso; apply Hnil, elem_of_app; right; by left |].
  exists before, after.
  split; [by destruct (HasPrefix network "tcp"), (HasPrefix network "udp") |].
  split; [by destruct (HasPrefix network "tcp"), (HasPrefix network "udp") |].
  split; [done |]. split; by intros ->.
Qed.
End SysNet.

Lemma BindDialer_source_witness :
  BindDialer (Some "eth0") (Ok [IfaceNet (IPv4 127 0 0 1); IfaceNet IPv6loopback; IfaceNet (IPv4 10 0 0 7)])
    "tcp" (IPv4 8 8 8 8) = Ok (Some (LTCP (IPv4 10 0 0 7))).
Proof.
  pose proof (BindDialer_source "eth0"
    [IfaceNet (IPv4 127 0 0 1); IfaceNet IPv6loopback; IfaceNet (IPv4 10 0 0 7)] "tcp" (IPv4 8 8 8 8)
    ltac:(done) ltac:(by rewrite !elem_of_cons, elem_of_nil; intros [|[|[|]]])) as H.
  destruct (BindDialer _ _ _ _) as [[a |] | er | |] eqn:E; [| by destruct H | | by destruct H | by destruct H];
    vm_compute in E; [| done]. by injection E as <-.
Defined.
