(* ===== verification/TunSys.v ===== *)
(** * The system network of TUN mode and the set-up of its server:
      [TUNSystemNetwork] and [ListenAndServe] of [internal/server/tun/tun.go],
      and the implementations of [tun_net_{linux,darwin,freebsd,stub}.go]

    The interface is a type class; each system is an instance of it. What a
    dialer is bound to is proved for all instances at once. The calls of
    [ListenAndServe] on the user-space network stack, which is a library, are a
    trace. *)

From S2P Require Import Prelude GoIO GoNet GoStrings NetText SysNet.

Local Open Scope string_scope.
Local Open Scope list_scope.
Local Open Scope Z_scope.

(** ** What an implementation is made of *)

(** The interface of the default route. *)
Record phys : Type := mkPhys {
  ph_Name : string; ph_Index : Z; ph_Addrs : outcome error (list iface);
}.
(** A device, with the outcome of [Name()]. *)
Record device : Type := mkDevice { dev_Name : outcome error string }.

(** A socket option that is set on a dialed socket before it connects. *)
Inductive sockopt : Type :=
| SetsockoptString (level opt : string) (value : string)
| SetsockoptInt (level opt : string) (value : Z).
#[export] Instance sockopt_eq_dec : EqDecision sockopt.
Proof. solve_decision. Defined.

(** [net.Dialer]: the local address and the control function, with the text
    around the error of its socket option. *)
Record Dialer : Type := mkDialer {
  LocalAddr : option local_addr;
  Control : option (sockopt * string);
}.

(** Calling the control function: [control_err] is the error of
    [c.Control(...)], [sockErr] that of the option. *)
Definition run_Control (d : Dialer) (control_err : option error) (sockErr : sockopt → option error)
    : option error :=
  match Control d with
  | None => None
  | Some (opt, text) =>
    match control_err with
    | Some er => Some (ErrWrap "failed to control socket: " er)
    | None => (λ er, ErrWrap text er) <$> sockErr opt
    end
  end.

Section TunSys.
Context {NT : NetText}.

(** ** The interface *)
Class TUNSystemNetwork (T : Type) : Type := {
  TunDevice : T → option device;
  DefaultRoute : T → option phys;
  FIBID : T → Z;
  BindDialer : T → Dialer → string → IP → outcome error Dialer;
}.

(** The part of [BindDialer] the systems share: the guard, the address, and the
    control function of the system. *)
Definition bind_with (active : bool) (route : option phys) (control : phys → sockopt * string)
    (d : Dialer) (network : string) (targetIP : IP) : outcome error Dialer :=
  match route with
  | None => Ok d
  | Some ph =>
    if negb active then Ok d
    else
      r ← SysNet.BindDialer (Some (ph_Name ph)) (ph_Addrs ph) network targetIP;
      match r with
      | None => Ok d
      | Some a => Ok (mkDialer (Some a) (Some (control ph)))
      end
  end.

(** ** Linux *)
Record tunSystemNetworkLinux : Type := mkLinux { lx_tunDevice : device; lx_defaultRoute : option phys }.
Definition control_linux (ph : phys) : sockopt * string :=
  (SetsockoptString "SOL_SOCKET" "SO_BINDTODEVICE" (ph_Name ph), "failed to set SO_BINDTODEVICE: ").
Definition BindDialer_linux (n : tunSystemNetworkLinux) : Dialer → string → IP → outcome error Dialer :=
  bind_with true (lx_defaultRoute n) control_linux.
#[export] Instance linux_network : TUNSystemNetwork tunSystemNetworkLinux := {|
  TunDevice n := Some (lx_tunDevice n); DefaultRoute n := lx_defaultRoute n; FIBID _ := 1;
  BindDialer := BindDialer_linux |}.

(** ** Darwin *)
Record tunSystemNetworkDarwin : Type := mkDarwin { dw_tunDevice : device; dw_defaultRoute : option phys }.
Definition control_darwin (ph : phys) : sockopt * string :=
  (SetsockoptInt "IPPROTO_IP" "IP_BOUND_IF" (ph_Index ph), "failed to set IP_BOUND_IF: ").
Definition BindDialer_darwin (n : tunSystemNetworkDarwin) : Dialer → string → IP → outcome error Dialer :=
  bind_with true (dw_defaultRoute n) control_darwin.
#[export] Instance darwin_network : TUNSystemNetwork tunSystemNetworkDarwin := {|
  TunDevice n := Some (dw_tunDevice n); DefaultRoute n := dw_defaultRoute n; FIBID _ := 1;
  BindDialer := BindDialer_darwin |}.

(** ** FreeBSD *)
Record tunSystemNetworkFreeBSD : Type := mkFreeBSD {
  fb_tunDevice : device; fb_defaultRoute : option phys; fb_fibID : Z;
}.
Definition control_freebsd (fib : Z) (ph : phys) : sockopt * string :=
  (SetsockoptInt "SOL_SOCKET" "SO_SETFIB" fib, "failed to set SO_SETFIB to " +:+ Itoa fib +:+ ": ").
Definition BindDialer_freebsd (n : tunSystemNetworkFreeBSD) : Dialer → string → IP → outcome error Dialer :=
  bind_with (negb (fb_fibID n <=? 0)) (fb_defaultRoute n) (control_freebsd (fb_fibID n)).
#[export] Instance freebsd_network : TUNSystemNetwork tunSystemNetworkFreeBSD := {|
  TunDevice n := Some (fb_tunDevice n); DefaultRoute n := fb_defaultRoute n; FIBID n := fb_fibID n;
  BindDialer := BindDialer_freebsd |}.

(** ** The other systems *)
Record tunSystemNetworkStub : Type := mkStub {}.
#[export] Instance stub_network : TUNSystemNetwork tunSystemNetworkStub := {|
  TunDevice _ := None; DefaultRoute _ := None; FIBID _ := 1; BindDialer _ d _ _ := Ok d |}.

(** ** [NewTUNSystemNetwork]: [created] is the outcome of [createTunDevice],
    which asks for the name and the MTU below *)
Definition createTunDevice_args_linux : string * Z := ("tun-spoofdpi", 1500).
Definition createTunDevice_args_darwin : string * Z := ("utun", 1500).
Definition createTunDevice_args_freebsd : string * Z := ("tun-spoofdpi", 1500).

Definition NewTUNSystemNetwork_linux (created : string * Z → outcome error device) (route : option phys)
    (fibID : Z) : outcome error tunSystemNetworkLinux :=
  dev ← created createTunDevice_args_linux; Ok (mkLinux dev route).
Definition NewTUNSystemNetwork_darwin (created : string * Z → outcome error device) (route : option phys)
    (fibID : Z) : outcome error tunSystemNetworkDarwin :=
  dev ← created createTunDevice_args_darwin; Ok (mkDarwin dev route).
Definition NewTUNSystemNetwork_freebsd (created : string * Z → outcome error device) (route : option phys)
    (fibID : Z) : outcome error tunSystemNetworkFreeBSD :=
  dev ← created createTunDevice_args_freebsd; Ok (mkFreeBSD dev route fibID).
Definition NewTUNSystemNetwork_stub (route : option phys) (fibID : Z) : outcome error tunSystemNetworkStub :=
  Ok mkStub.

(** ** What binding guarantees *)

(** The systems that bind, with the socket option that keeps a dialed socket off
    the TUN device: one type for the theorem. *)
Inductive system : Type :=
| SLinux (n : tunSystemNetworkLinux) | SDarwin (n : tunSystemNetworkDarwin)
| SFreeBSD (n : tunSystemNetworkFreeBSD).
Definition sys_route (s : system) : option phys :=
  match s with SLinux n => DefaultRoute n | SDarwin n => DefaultRoute n | SFreeBSD n => DefaultRoute n end.
Definition sys_bind_dialer (s : system) : Dialer → string → IP → outcome error Dialer :=
  match s with SLinux n => BindDialer n | SDarwin n => BindDialer n | SFreeBSD n => BindDialer n end.
(** The option that ties a socket to the default route. *)
Definition sys_option (s : system) (ph : phys) : sockopt :=
  match s with
  | SLinux _ => SetsockoptString "SOL_SOCKET" "SO_BINDTODEVICE" (ph_Name ph)
  | SDarwin _ => SetsockoptInt "IPPROTO_IP" "IP_BOUND_IF" (ph_Index ph)
  | SFreeBSD n => SetsockoptInt "SOL_SOCKET" "SO_SETFIB" (FIBID n)
  end.
Definition sys_active (s : system) : Prop :=
  match s with SFreeBSD n => 0 < FIBID n | _ => True end.

Lemma bind_with_spec route control d network targetIP ph :
  route = Some ph → ph_Name ph ≠ "" → defined (ph_Addrs ph) →
  match bind_with true route control d network targetIP with
  | Ok d' => ∃ a addrs, ph_Addrs ph = Ok addrs ∧ d' = mkDialer (Some a) (Some (control ph)) ∧
      IfaceNet (local_ip a) ∈ addrs ∧ suitable targetIP (local_ip a)
  | Err _ => True
  | _ => False
  end.
Proof.
  intros -> Hne Hd. unfold bind_with, SysNet.BindDialer. cbn [negb]. rewrite bool_decide_false by done.
  destruct (ph_Addrs ph) as [addrs | er | |]; try done.
  pose proof (source_ip_spec addrs targetIP) as H.
  destruct (source_ip addrs targetIP) as [[| b ip] |]; try done.
  destruct H as (before & after & -> & Hs & _). cbn [mbind outcome_bind].
  destruct (HasPrefix network "tcp"); [| destruct (HasPrefix network "udp")]; eexists _, _;
    (split; [done |]); (split; [done |]); (split; [| done]); rewrite elem_of_app; right; by left.
Qed.

(** Dials of TUN mode do not come back to the device. On every system that has
    TUN mode (on FreeBSD with a routing table of its own), a dialer that was
    bound has a source address of the default route's interface, of the family
    of the target and not a loopback address, and a socket option that ties the
    socket to that interface or table; a connection whose option cannot be set
    fails; and binding never panics. *)
Theorem BindDialer_tied (s : system) (ph : phys) (d : Dialer) (network : string) (targetIP : IP) :
  sys_active s → sys_route s = Some ph → ph_Name ph ≠ "" → defined (ph_Addrs ph) →
  match sys_bind_dialer s d network targetIP with
  | Ok d' => ∃ a addrs text, ph_Addrs ph = Ok addrs ∧
      LocalAddr d' = Some a ∧ IfaceNet (local_ip a) ∈ addrs ∧ suitable targetIP (local_ip a) ∧
      Control d' = Some (sys_option s ph, text) ∧
      (∀ cerr serr, run_Control d' cerr serr = None ↔ cerr = None ∧ serr (sys_option s ph) = None)
  | Err _ => True
  | _ => False
  end.
Proof.
  intros Hact Hr Hne Hd.
  assert (∀ control, sys_option s ph = (control ph).1 →
    match bind_with true (Some ph) control d network targetIP with
    | Ok d' => ∃ a addrs text, ph_Addrs ph = Ok addrs ∧
        LocalAddr d' = Some a ∧ IfaceNet (local_ip a) ∈ addrs ∧ suitable targetIP (local_ip a) ∧
        Control d' = Some (sys_option s ph, text) ∧
        (∀ cerr serr, run_Control d' cerr serr = None ↔ cerr = None ∧ serr (sys_option s ph) = None)
    | Err _ => True | _ => False end) as Hgen.
  { intros control Hopt. pose proof (bind_with_spec (Some ph) control d network targetIP ph eq_refl Hne Hd) as H.
    destruct (bind_with true (Some ph) control d network targetIP) as [d' | | |]; try done.
    destruct H as (a & addrs & Ha & -> & Hin & Hs). exists a, addrs, (control ph).2.
    split; [done |]. split; [done |]. split; [done |]. split; [done |].
    cbn [Control]. rewrite Hopt. split; [by destruct (control ph) |]. intros cerr serr. unfold run_Control.
    cbn [Control]. destruct (control ph) as [opt text]. cbn [fst]. destruct cerr; [naive_solver |].
    destruct (serr opt) as [er |] eqn:E; cbn; rewrite ?E; naive_solver. }
  destruct s as [n | n | n]; cbn in Hr; cbn [sys_bind_dialer BindDialer linux_network darwin_network freebsd_network];
    [unfold BindDialer_linux | unfold BindDialer_darwin | unfold BindDialer_freebsd]; rewrite Hr.
  - by apply Hgen.
  - by apply Hgen.
  - cbn in Hact. replace (negb (fb_fibID n <=? 0)) with true by lia. by apply Hgen.
Qed.

(** ** [TunServer]: [Addr] and [ListenAndServe] *)
Definition Addr {T} `{TUNSystemNetwork T} (sysNet : T) : string :=
  match TunDevice sysNet with
  | Some dev => match dev_Name dev with Ok name => name | _ => "tun" end
  | None => "tun"
  end.

Inductive proto_number : Type := IPv4Proto | IPv6Proto.
Inductive transport : Type := TCPProto | UDPProto.

(** The calls on the stack, and the goroutines started. *)
Inductive stack_act : Type :=
| NewStack (network : list proto_number) (transports : list transport)
| CreateNIC (nic : Z) (queue mtu : Z)
| EnableNIC (nic : Z)
| GoCloseDevice                         (* closes the device when the application ends *)
| SetPromiscuousMode (nic : Z) | SetSpoofing (nic : Z)
| SetForwarding (p : proto_number)
| SetRouteTable (routes : list (proto_number * Z))   (* everything of a family, by a NIC *)
| SetTransportProtocolHandler (t : transport)
| GoPump.                               (* [tunToStack] and [stackToTun] *)

Definition nicID : Z := 1.

(** [nic_err] is the error of [CreateNIC]. *)
Definition ListenAndServe {T} `{TUNSystemNetwork T} (sysNet : T) (nic_err : option string)
    : outcome error unit * list stack_act :=
  match TunDevice sysNet with
  | None => (Err (ErrText "tun device not available"), [])
  | Some _ =>
    let opened := [NewStack [IPv4Proto] [TCPProto; UDPProto]; CreateNIC nicID 256 1500] in
    match nic_err with
    | Some msg => (Err (ErrText ("failed to create NIC: " +:+ msg)), opened)
    | None =>
      (Ok tt, opened ++
        [EnableNIC nicID; GoCloseDevice; SetPromiscuousMode nicID; SetSpoofing nicID;
         SetForwarding IPv4Proto; SetForwarding IPv6Proto;
         SetRouteTable [(IPv4Proto, nicID); (IPv6Proto, nicID)];
         SetTransportProtocolHandler TCPProto; SetTransportProtocolHandler UDPProto; GoPump])
    end
  end.

(** A call before another. *)
Definition before (a b : stack_act) (t : list stack_act) : Prop :=
  ∃ t1 t2, t = t1 ++ b :: t2 ∧ a ∈ t1.

(** Starting the server. It fails, with no goroutine started, when there is no
    device or the interface cannot be made; otherwise packets are pumped only
    once both transports have their handlers and the routes are set, and the
    device is closed when the application ends. *)
Lemma ListenAndServe_order {T} `{TUNSystemNetwork T} (sysNet : T) nic_err :
  match ListenAndServe sysNet nic_err with
  | (Ok _, t) => is_Some (TunDevice sysNet) ∧ nic_err = None ∧ GoCloseDevice ∈ t ∧
      (∀ a, a ∈ [SetTransportProtocolHandler TCPProto; SetTransportProtocolHandler UDPProto;
                 SetRouteTable [(IPv4Proto, nicID); (IPv6Proto, nicID)]; EnableNIC nicID] → before a GoPump t)
  | (Err _, t) => GoPump ∉ t ∧ GoCloseDevice ∉ t
  | _ => False
  end.
Proof.
  unfold ListenAndServe. destruct (TunDevice sysNet) as [dev |] eqn:Hd.
  2: { by split; apply not_elem_of_nil. }
  destruct nic_err as [msg |].
  { split; intros Hin; repeat (apply elem_of_cons in Hin as [? | Hin]); try done; by apply elem_of_nil in Hin. }
  split; [done |]. split; [done |]. cbn [app]. split; [do 3 right; by left |].
  intros a Ha. eexists (_ :: _ :: _ :: _ :: _ :: _ :: _ :: _ :: _ :: _ :: _ :: []), [].
  split; [reflexivity |]. rewrite !elem_of_cons.
  repeat (apply elem_of_cons in Ha as [-> | Ha]; [tauto |]). by apply elem_of_nil in Ha.
Qed.

(** The stack speaks IPv4 only, although routes and forwarding are set for IPv6
    too: an implementation never makes a stack with IPv6. *)
Lemma ListenAndServe_ipv4_only {T} `{TUNSystemNetwork T} (sysNet : T) nic_err network transports :
  NewStack network transports ∈ (ListenAndServe sysNet nic_err).2 → IPv6Proto ∉ network.
Proof.
  unfold ListenAndServe. intros Hin Hv6.
  assert (network = [IPv4Proto]) as ->; [| by apply list_elem_of_singleton in Hv6].
  destruct (TunDevice sysNet); [destruct nic_err | by apply elem_of_nil in Hin]; cbn [snd app] in Hin;
    repeat (apply elem_of_cons in Hin as [Heq | Hin]; [by simplify_eq |]); by apply elem_of_nil in Hin.
Qed.

(** On a system without TUN mode the server does not start. *)
Lemma stub_does_not_start nic_err :
  (ListenAndServe mkStub nic_err).1 = Err (ErrText "tun device not available") ∧ Addr mkStub = "tun".
Proof. done. Qed.
End TunSys.

Lemma BindDialer_tied_witness :
  let ph := mkPhys "eth0" 2 (Ok [IfaceNet (IPv4 127 0 0 1); IfaceNet (IPv4 10 0 0 7)]) in
  let s := SFreeBSD (mkFreeBSD (mkDevice (Ok "tun0")) (Some ph) 3) in
  ∃ d, sys_bind_dialer s (mkDialer None None) "tcp" (IPv4 8 8 8 8) = Ok d ∧
    Control d = Some (SetsockoptInt "SOL_SOCKET" "SO_SETFIB" 3, "failed to set SO_SETFIB to 3: ") ∧
    LocalAddr d = Some (LTCP (IPv4 10 0 0 7)).
Proof.
  pose proof (BindDialer_tied
    (SFreeBSD (mkFreeBSD (mkDevice (Ok "tun0"))
      (Some (mkPhys "eth0" 2 (Ok [IfaceNet (IPv4 127 0 0 1); IfaceNet (IPv4 10 0 0 7)]))) 3))
    (mkPhys "eth0" 2 (Ok [IfaceNet (IPv4 127 0 0 1); IfaceNet (IPv4 10 0 0 7)]))
    (mkDialer None None) "tcp" (IPv4 8 8 8 8) ltac:(done) ltac:(done) ltac:(done) ltac:(done)) as H.
  destruct (sys_bind_dialer _ _ _ _) as [d | | |] eqn:E; [| by vm_compute in E..].
  clear H. exists d. split; [exact E |]. vm_compute in E. injection E as <-. by split.
Defined.
