(* ===== verification/TunNet.v ===== *)
(** * The commands that configure the system network:
      [internal/server/tun/tun_net_{linux,darwin,freebsd}.go],
      [internal/server/{http,socks5}/*_net_darwin.go] and the [SetupNetworkJobs]
      of the three servers

    What is asked of the system before the jobs are built runs on the host of
    [Jobs]; what the system answers is the environment. *)

From S2P Require Import Prelude GoIO GoNet GoStrings NetText Jobs SysNet.
From Stdlib Require Import Ascii.

Local Open Scope string_scope.
Local Open Scope list_scope.
Local Open Scope Z_scope.

(** ** Computations on the host *)
Definition sys (A : Type) : Type := host → outcome error A * host.

#[export] Instance sys_ret : MRet sys := λ A a h, (Ok a, h).
#[export] Instance sys_bind : MBind sys := λ A B f m h,
  match m h with
  | (Ok a, h) => f a h
  | (Err e, h) => (Err e, h)
  | (Panic, h) => (Panic, h)
  | (Diverge, h) => (Diverge, h)
  end.

Definition lift {A} (m : outcome error A) : sys A := λ h, (m, h).
Definition fail {A} (msg : string) : sys A := lift (Err (ErrText msg)).

(** [fmt.Errorf(msg + "%w", err)] around a call. *)
Definition wrap {A} (msg : string) (m : sys A) : sys A := λ h,
  match m h with (Err e, h) => (Err (ErrWrap msg e), h) | r => r end.

(** An address of an interface as [Iface.Addrs] lists it. *)
Inductive net_addr : Type := NetAddr (ip : IP) (mask : Z) | OtherAddr.

Record sys_env : Type := mkSysEnv {
  commands : job_env;
  iface_nets : outcome error (list IPNet);        (* [net.InterfaceAddrs] *)
  tun_name : outcome error string;                (* [TunDevice().Name()] *)
  gateway : IP;                                   (* the default route *)
  phys_iface : string;
  named_addrs : string → outcome error (outcome error (list net_addr));
                                                  (* [InterfaceByName], [Addrs] *)
  fib_id : Z;
  service_match : string → string → option string;
      (* the text matched by the first group of the service pattern *)
}.

(** ** Masks *)

(** The leading [n] bits of a byte. *)
Definition mask_byte (b n : Z) : Z := Z.land b (256 - 2 ^ (8 - Z.min 8 (Z.max 0 n))).
Fixpoint mask_ip (l : bytes) (n : Z) : bytes :=
  match l with [] => [] | b :: l => mask_byte b n :: mask_ip l (n - 8) end.

Section TunNet.
Context {NT : NetText}.
Variable e : sys_env.
Notation je := (commands e).

Definition IPNet_String (n : IPNet) : string :=
  match To4 (net_IP n) with
  | Some base =>
    let m := if len (net_IP n) =? 4 then ones n else ones n - 96 in
    IP_String (mask_ip base m) +:+ "/" +:+ Itoa m
  | None => IP_String (mask_ip (net_IP n) (ones n)) +:+ "/" +:+ Itoa (ones n)
  end.

Definition Commandf (cmd : string) : sys (string * option error) := λ h,
  let '(out, err, h) := Command je cmd h in (Ok (out, err), h).

(** ** Linux *)
Definition show_table (id : Z) : string := "ip route show table " +:+ Itoa id.
Definition show_rules (id : Z) : string := "ip rule show table " +:+ Itoa id.
Definition show_lookups (id : Z) : string := "ip rule show lookup " +:+ Itoa id.

(** The loop over the ids still to try; [continue] goes on with the next. *)
Fixpoint find_table (ids : list Z) : sys Z :=
  match ids with
  | [] => fail "no available routing table ID in range 200-250"
  | id :: ids =>
    '(out, err) ← Commandf (show_table id);
    match err with
    | Some _ => mret id
    | None =>
      if decide (out ≠ "") then find_table ids
      else
        '(ruleTableOut, _) ← Commandf (show_rules id);
        '(ruleLookupOut, _) ← Commandf (show_lookups id);
        if decide (ruleTableOut ≠ "" ∨ ruleLookupOut ≠ "") then find_table ids else mret id
    end
  end.
Definition findAvailableTableID : sys Z := find_table (seqZ 200 51).

(** [allocatedTableOnce] and [allocatedTableID]: whether the search ran, and
    what it left. *)
Definition getOrAllocateTableID (once : bool) (allocated : Z) : sys Z := λ h,
  if once then (if allocated =? 0 then (Ok 0, h) else (Ok allocated, h))
  else findAvailableTableID h.

Fixpoint inet_line (lines : list string) : option string :=
  match lines with
  | [] => None
  | line :: lines =>
    let line := TrimSpace line in
    if HasPrefix line "inet " then
      match Fields line with
      | _ :: p :: _ => head (Split "/"%char p)
      | _ => inet_line lines
      end
    else inet_line lines
  end.

Definition getInterfaceIP (ifaceName : string) : sys string :=
  '(out, err) ← Commandf ("ip -4 addr show " +:+ ifaceName);
  match err with
  | Some er => lift (Err er)
  | None =>
    match inet_line (Split (Ascii.ascii_of_nat 10) out) with
    | Some ip => mret ip
    | None => fail ("IP not found for interface " +:+ ifaceName)
    end
  end.

(** The addresses of the device and the networks routed to it, the same on all
    systems. *)
Definition tun_addrs : sys (string * string * list string) :=
  cidr ← wrap "failed to find safe subnet: " (lift (FindSafeCIDR (iface_nets e)));
  tunLocalIP ← wrap ("failed to get 1th ip in " +:+ cidr +:+ ": ") (lift (AddrInCIDR cidr 1));
  tunRemoteIP ← wrap ("failed to get 2th ip in " +:+ cidr +:+ ": ") (lift (AddrInCIDR cidr 2));
  let tunCIDR := match ParseCIDR (tunLocalIP +:+ "/30") with
                 | Some (_, n) => IPNet_String n
                 | None => "<nil>"
                 end in
  mret (tunLocalIP, tunRemoteIP, [tunCIDR; "0.0.0.0/1"; "128.0.0.0/1"]).

Record tunNetworkInfo : Type := mkInfo {
  RouteTableID : Z; GatewayIP : string; TUNName : string; PhysIfaceName : string;
  PhysIfaceIP : string; TunLocalIP : string; TunRemoteIP : string;
  RouteTargetCIDRs : list string;
}.

Definition collect_linux (once : bool) (allocated : Z) : sys tunNetworkInfo :=
  tunName ← wrap "failed to get tunName: " (lift (tun_name e));
  routeTableID ← wrap "failed to allocate routing table ID: " (getOrAllocateTableID once allocated);
  physIfaceIP ← wrap ("failed to get IP address for interface " +:+ phys_iface e +:+ ": ")
                  (getInterfaceIP (phys_iface e));
  '(tunLocalIP, tunRemoteIP, targets) ← tun_addrs;
  mret (mkInfo routeTableID (IP_String (gateway e)) tunName (phys_iface e) physIfaceIP
          tunLocalIP tunRemoteIP targets).

Definition linux_jobs (i : tunNetworkInfo) : list NetworkJob :=
  let table := Itoa (RouteTableID i) in
  let peer := TunLocalIP i +:+ " peer " +:+ TunRemoteIP i +:+ " dev " +:+ TUNName i in
  let host_route := GatewayIP i +:+ " dev " +:+ PhysIfaceName i in
  let rule := PhysIfaceIP i +:+ " lookup " +:+ table in
  [mkJob "remove TUN interface" "" ("ip link delete " +:+ TUNName i);
   mkJob "configure TUN interface address" ("ip addr add " +:+ peer) ("ip addr del " +:+ peer);
   mkJob "bring TUN interface up" ("ip link set dev " +:+ TUNName i +:+ " up")
     ("ip link set dev " +:+ TUNName i +:+ " down");
   mkJob "add gateway host route" ("ip route add " +:+ host_route) ("ip route del " +:+ host_route);
   mkJob "add default route to routing table"
     ("ip route add default via " +:+ host_route +:+ " table " +:+ table)
     ("ip route del default table " +:+ table);
   mkJob "add policy routing rule" ("ip rule add from " +:+ rule) ("ip rule del from " +:+ rule)] ++
  ((λ t, mkJob ("add CIDR route " +:+ t +:+ " via TUN") ("ip route add " +:+ t +:+ " dev " +:+ TUNName i)
           ("ip route del " +:+ t +:+ " dev " +:+ TUNName i)) <$> RouteTargetCIDRs i).

Definition BuildJobs_linux (once : bool) (allocated : Z) : sys (list NetworkJob) :=
  info ← collect_linux once allocated; mret (linux_jobs info).

(** ** macOS *)
Definition collect_darwin : sys tunNetworkInfo :=
  tunName ← wrap "failed to get tunName: " (lift (tun_name e));
  '(tunLocalIP, tunRemoteIP, targets) ← tun_addrs;
  mret (mkInfo 0 (IP_String (gateway e)) tunName (phys_iface e) "" tunLocalIP tunRemoteIP targets).

(** The route to each target by the device, on macOS and FreeBSD. *)
Definition bsd_route (i : tunNetworkInfo) (t : string) : NetworkJob :=
  mkJob ("add CIDR route " +:+ t +:+ " via TUN")
    ("route -n add -net " +:+ t +:+ " -interface " +:+ TUNName i)
    ("route -n delete -net " +:+ t +:+ " -interface " +:+ TUNName i).
Definition bsd_device (i : tunNetworkInfo) : NetworkJob :=
  mkJob "configure TUN interface address"
    ("ifconfig " +:+ TUNName i +:+ " " +:+ TunLocalIP i +:+ " " +:+ TunRemoteIP i +:+ " up")
    ("ifconfig " +:+ TUNName i +:+ " destroy").

Definition darwin_jobs (i : tunNetworkInfo) : list NetworkJob :=
  let scoped := " -ifscope " +:+ PhysIfaceName i +:+ " default " +:+ GatewayIP i in
  [bsd_device i;
   mkJob "add scoped default route via physical interface" ("route add" +:+ scoped)
     ("route delete" +:+ scoped)] ++ (bsd_route i <$> RouteTargetCIDRs i).

Definition BuildJobs_darwin : sys (list NetworkJob) := info ← collect_darwin; mret (darwin_jobs info).

(** ** FreeBSD *)
Fixpoint first_subnet (addrs : list net_addr) : option string :=
  match addrs with
  | [] => None
  | NetAddr ip mask :: addrs =>
    match To4 ip with
    | Some ip4 => Some (IP_String (mask_ip ip4 mask) +:+ "/" +:+ Itoa mask)
    | None => first_subnet addrs
    end
  | OtherAddr :: addrs => first_subnet addrs
  end.

Definition getInterfaceSubnet (ifaceName : string) : sys string :=
  iface ← wrap ("failed to get interface " +:+ ifaceName +:+ ": ") (lift (named_addrs e ifaceName));
  addrs ← wrap "failed to get interface addresses: " (lift iface);
  match first_subnet addrs with
  | Some s => mret s
  | None => fail ("no IPv4 address found on interface " +:+ ifaceName)
  end.

(** The information with the subnet of the physical interface. *)
Definition collect_freebsd : sys (tunNetworkInfo * string) :=
  tunName ← wrap "failed to get tunName: " (lift (tun_name e));
  '(_, err) ← Commandf ("setfib " +:+ Itoa (fib_id e) +:+ " route get default");
  match err with
  | None => fail ("FIB " +:+ Itoa (fib_id e) +:+ " is already in use")
  | Some _ =>
    physIfaceCIDR ← wrap "failed to get interface subnet: " (getInterfaceSubnet (phys_iface e));
    '(tunLocalIP, tunRemoteIP, targets) ← tun_addrs;
    mret (mkInfo (fib_id e) (IP_String (gateway e)) tunName (phys_iface e) ""
            tunLocalIP tunRemoteIP targets, physIfaceCIDR)
  end.

Definition freebsd_jobs (i : tunNetworkInfo) (physIfaceCIDR : string) : list NetworkJob :=
  let fib := " -fib " +:+ Itoa (RouteTableID i) in
  let subnet := physIfaceCIDR +:+ " -iface " +:+ PhysIfaceName i +:+ fib in
  [bsd_device i;
   mkJob "add FIB subnet route" ("route add -net " +:+ subnet) ("route delete -net " +:+ subnet);
   mkJob "add FIB default route" ("route add default " +:+ GatewayIP i +:+ fib)
     ("route delete default" +:+ fib)] ++ (bsd_route i <$> RouteTargetCIDRs i).

Definition BuildJobs_freebsd : sys (list NetworkJob) :=
  '(info, cidr) ← collect_freebsd; mret (freebsd_jobs info cidr).

(** ** The proxies on macOS *)
Definition getNetworkServiceFromInterface (ifaceName : string) : sys string :=
  '(out, err) ← Commandf "networksetup -listnetworkserviceorder";
  match err with
  | Some er => lift (Err er)
  | None =>
    match service_match e ifaceName out with
    | None => fail ("no network service found for interface: " +:+ ifaceName)
    | Some service => mret (TrimSpace service)
    end
  end.

Definition proxy_jobs (service pacURL : string) : list NetworkJob :=
  let q := ShellQuote service in
  [mkJob "set auto proxy URL" ("networksetup -setautoproxyurl " +:+ q +:+ " " +:+ pacURL)
     ("networksetup -setautoproxystate " +:+ q +:+ " off");
   mkJob "enable proxy auto discovery" ("networksetup -setproxyautodiscovery " +:+ q +:+ " on")
     ("networksetup -setproxyautodiscovery " +:+ q +:+ " off")].

Definition BuildJobs_proxy (pacURL : string) : sys (list NetworkJob) :=
  service ← wrap "failed to get network service: " (getNetworkServiceFromInterface (phys_iface e));
  mret (proxy_jobs service pacURL).

(** ** [SetupNetworkJobs] *)
Definition save (path : string) (jobs : list NetworkJob) : sys unit := λ h,
  let '(err, h) := SaveJobs je path jobs h in
  (match err with Some er => Err er | None => Ok tt end, h).

(** The TUN server returns the path beside the error of saving. *)
Definition tun_SetupNetworkJobs (stateFile : string) (build : sys (list NetworkJob)) :
    sys (string * option error) := λ h,
  match build h with
  | (Ok jobs, h) => let '(err, h) := SaveJobs je stateFile jobs h in (Ok (stateFile, err), h)
  | (Err er, h) => (Ok ("", Some er), h)
  | (Panic, h) => (Panic, h)
  | (Diverge, h) => (Diverge, h)
  end.

Definition pac_content (kind : string) (port : Z) : string :=
  let q := String (Ascii.ascii_of_nat 34) EmptyString in
  let nl := String (Ascii.ascii_of_nat 10) EmptyString in
  "function FindProxyForURL(url, host) {" +:+ nl +:+ "    return " +:+ q +:+ kind +:+ " 127.0.0.1:" +:+
  Itoa port +:+ "; DIRECT" +:+ q +:+ ";" +:+ nl +:+ "}".

(** The proxies: the result and whether the PAC server is left running.
    [run_pac] starts one that serves a text and gives its URL. *)
Definition proxy_SetupNetworkJobs (stateFile kind : string) (port : Z)
    (run_pac : string → outcome error string) (build : string → sys (list NetworkJob)) :
    sys (outcome error string * bool) := λ h,
  match run_pac (pac_content kind port) with
  | Ok pacURL =>
    match (jobs ← build pacURL; wrap "failed to save state: " (save stateFile jobs)) h with
    | (Ok _, h) => (Ok (Ok stateFile, true), h)
    | (Err er, h) => (Ok (Err er, false), h)
    | (Panic, h) => (Panic, h)
    | (Diverge, h) => (Diverge, h)
    end
  | Err er => (Ok (Err (ErrWrap "error creating pac server: " er), false), h)
  | Panic => (Panic, h)
  | Diverge => (Diverge, h)
  end.
End TunNet.

(** ** The routing table *)
Section TableID.
Context {NT : NetText}.
Variable e : sys_env.
Notation je := (commands e).

(** The commands that only list routes and rules. *)
Definition listing (cmd : string) : Prop :=
  HasPrefix cmd "ip route show " = true ∨ HasPrefix cmd "ip rule show " = true.
Definition output (before : list string) (cmd : string) : string := (run je before cmd).1.

(** No route and no rule of the table is listed, or its routes cannot be. *)
Definition table_free (before : list string) (id : Z) : Prop :=
  is_Some (run je before (show_table id)).2 ∨
  (output before (show_table id) = "" ∧
   output (before ++ [show_table id]) (show_rules id) = "" ∧
   output (before ++ [show_table id; show_rules id]) (show_lookups id) = "").

(** What [id] looks like when it is examined, some time after [h]. *)
Definition examined (P : list string → Z → Prop) (h : host) (id : Z) : Prop :=
  ∃ l, Forall listing l ∧ P (ran h ++ l) id.

Definition listed (h h' : host) : Prop :=
  files h' = files h ∧ ∃ l, Forall listing l ∧ ran h' = ran h ++ l.

Lemma listing_ran h l : Forall listing l → listed h (mkHost (files h) (ran h ++ l)).
Proof. intros Hl. split; [done |]. by exists l. Qed.

Lemma listed_trans h1 h2 h3 : listed h1 h2 → listed h2 h3 → listed h1 h3.
Proof.
  intros (F1 & l1 & L1 & R1) (F2 & l2 & L2 & R2). split; [by rewrite F2, F1 |].
  exists (l1 ++ l2). split; [by apply Forall_app |]. by rewrite R2, R1, app_assoc.
Qed.

Lemma examined_later P h h' id : listed h h' → examined P h' id → examined P h id.
Proof.
  intros (_ & l1 & L1 & R1) (l2 & L2 & H). exists (l1 ++ l2). split; [by apply Forall_app |].
  by rewrite app_assoc, <- R1.
Qed.

Lemma examined_now (P : list string → Z → Prop) h id : P (ran h) id → examined P h id.
Proof. intros H. exists []. by rewrite app_nil_r. Qed.

Lemma shows_listing id :
  listing (show_table id) ∧ listing (show_rules id) ∧ listing (show_lookups id).
Proof. unfold listing, show_table, show_rules, show_lookups. simpl. auto. Qed.

(** One round: the table is chosen when it is free, and only listings are run. *)
Lemma find_table_cons id ids h :
  ∃ h', listed h h' ∧
    ((table_free (ran h) id ∧ find_table e (id :: ids) h = (Ok id, h')) ∨
     (¬ table_free (ran h) id ∧ find_table e (id :: ids) h = find_table e ids h')).
Proof.
  destruct (shows_listing id) as (L1 & L2 & L3).
  cbn [find_table]. unfold mbind, sys_bind, Commandf, Command, table_free, output. cbn [ran files].
  destruct (run je (ran h) (show_table id)) as [out [er |]] eqn:E1; simpl.
  { exists (mkHost (files h) (ran h ++ [show_table id])).
    split; [apply listing_ran; by repeat constructor |]. left. split; [by left; eexists | done]. }
  destruct (decide (out ≠ "")) as [Hout | Hout].
  { exists (mkHost (files h) (ran h ++ [show_table id])).
    split; [apply listing_ran; by repeat constructor |]. right. split; [| done].
    intros [[? ?] | (? & _)]; done. }
  cbn [ran files].
  destruct (run je (ran h ++ [show_table id]) (show_rules id)) as [o2 e2] eqn:E2. simpl.
  rewrite <- !app_assoc. simpl.
  destruct (run je (ran h ++ [show_table id; show_rules id]) (show_lookups id)) as [o3 e3] eqn:E3. simpl.
  exists (mkHost (files h) (ran h ++ [show_table id; show_rules id; show_lookups id])).
  split; [apply listing_ran; by repeat constructor |].
  destruct (decide (o2 ≠ "" ∨ o3 ≠ "")) as [Hr | Hr].
  - right. split; [| done]. intros [[? ?] | (_ & ? & ?)]; [done |]. by destruct Hr.
  - left. split; [| done]. right. apply dec_stable in Hout. split; [done |].
    destruct (decide (o2 = "")), (decide (o3 = "")); naive_solver.
Qed.

Definition busy (before : list string) (id : Z) : Prop := ¬ table_free before id.

Lemma find_table_spec ids h :
  let '(r, h') := find_table e ids h in
  listed h h' ∧
  match r with
  | Ok id => ∃ pre post, ids = pre ++ id :: post ∧ examined table_free h id ∧
      ∀ k, k ∈ pre → examined busy h k
  | Err _ => ∀ k, k ∈ ids → examined busy h k
  | _ => False
  end.
Proof.
  revert h. induction ids as [| id ids IH]; intros h.
  - simpl. split; [| by intros k ?%not_elem_of_nil]. split; [done |]. exists []. by rewrite app_nil_r.
  - destruct (find_table_cons id ids h) as (h1 & Hl & [[Hf ->] | [Hb ->]]).
    + split; [done |]. exists [], ids. split; [done |]. split; [by apply examined_now |].
      by intros k ?%not_elem_of_nil.
    + specialize (IH h1). destruct (find_table e ids h1) as [r h2]. destruct IH as [Hl2 Hr].
      split; [by eapply listed_trans |]. destruct r as [k | er | |]; try done.
      * destruct Hr as (pre & post & -> & He & Hp). exists (id :: pre), post. split; [done |].
        split; [by eapply examined_later |].
        intros k' [-> | Hk]%elem_of_cons; [by apply examined_now | by eapply examined_later; eauto].
      * intros k' [-> | Hk]%elem_of_cons; [by apply examined_now | by eapply examined_later; eauto].
Qed.

(** The routing table of TUN mode on Linux. The search runs listings only;
    it returns the smallest id of 200..250 whose table was free when it was
    examined, and fails only when each of them was in use. *)
Lemma findAvailableTableID_free (h : host) :
  let '(r, h') := findAvailableTableID e h in
  listed h h' ∧
  match r with
  | Ok id => 200 <= id <= 250 ∧ examined table_free h id ∧
      ∀ k, 200 <= k < id → examined busy h k
  | Err _ => ∀ k, 200 <= k <= 250 → examined busy h k
  | _ => False
  end.
Proof.
  unfold findAvailableTableID. pose proof (find_table_spec (seqZ 200 51) h) as H.
  destruct (find_table e (seqZ 200 51) h) as [r h']. destruct H as [Hl H]. split; [done |].
  destruct r as [id | er | |]; try done.
  - destruct H as (pre & post & Hs & He & Hp).
    assert (id ∈ seqZ 200 51) as Hid%elem_of_seqZ by (rewrite Hs; set_solver).
    split; [lia |]. split; [done |]. intros k Hk. apply Hp.
    assert (k ∈ seqZ 200 51) as Hin by (apply elem_of_seqZ; lia).
    rewrite Hs in Hin. apply elem_of_app in Hin as [| Hin]; [done |]. exfalso.
    apply elem_of_cons in Hin as [-> | Hin]; [lia |].
    apply list_elem_of_lookup in Hin as [j Hj].
    assert (seqZ 200 51 !! length pre = Some id) as H1 by (rewrite Hs; by rewrite list_lookup_middle).
    assert (seqZ 200 51 !! (length pre + S j)%nat = Some k) as H2
      by (rewrite Hs, lookup_app_r by lia; by replace (_ - _)%nat with (S j) by lia).
    apply lookup_seqZ in H1 as [-> _]. apply lookup_seqZ in H2 as [-> _]. lia.
  - intros k Hk. apply H, elem_of_seqZ. lia.
Qed.
End TableID.

(** ** The jobs of TUN mode on Linux *)
Section LinuxJobs.
Context {NT : NetText}.
Variable e : sys_env.

(** [net.ParseCIDR] reads the networks [FindSafeCIDR] writes. *)
Definition reads_networks : Prop := ∀ i j, 0 <= i < 256 → 0 <= j < 256 →
  ParseCIDR (cidr_of i j) = Some (IPv4 10 i j 0, mkIPNet [10; i; j; 0] 30).

Lemma AddrInCIDR_host i j k : reads_networks → 0 <= i < 256 → 0 <= j < 256 → k = 1 ∨ k = 2 →
  AddrInCIDR (cidr_of i j) k = Ok (IP_String [10; i; j; k]).
Proof.
  intros Hr Hi Hj Hk. unfold AddrInCIDR. rewrite Hr by done.
  change (To4 (IPv4 10 i j 0)) with (Some [10; i; j; 0]). cbv iota beta zeta.
  assert (put_be32 (u32_wrap (be32 [10; i; j; 0] + u32_wrap k)) = [10; i; j; k]) as ->.
  { unfold u32_wrap, be32. cbn [fold_left].
    rewrite (Z.mod_small k) by lia. rewrite Z.mod_small by lia.
    unfold put_be32. f_equal; [| f_equal; [| f_equal; [| f_equal]]]; dm_lia. }
  assert (Contains (mkIPNet [10; i; j; 0] 30) [10; i; j; k] = true) as ->; [| done].
  unfold Contains. cbn [net_IP ones]. change (To4 [10; i; j; 0]) with (Some [10; i; j; 0]).
  change (To4 [10; i; j; k]) with (Some [10; i; j; k]). cbv iota.
  change (len [10; i; j; k] =? 4) with true. cbn [andb].
  apply bool_decide_eq_true. by destruct Hk as [-> | ->].
Qed.

Lemma tun_addrs_spec nets h : reads_networks → iface_nets e = Ok nets →
  match tun_addrs e h with
  | (Ok (l, r, _), h') => h' = h ∧ ∃ i j, 0 <= i < 256 ∧ 0 <= j < 256 ∧
      (∀ net, net ∈ nets → Contains net (local_of i j) = false ∧ Contains net (remote_of i j) = false) ∧
      l = IP_String [10; i; j; 1] ∧ r = IP_String [10; i; j; 2]
  | (Err _, h') => h' = h
  | _ => False
  end.
Proof.
  intros Hr Hn. unfold tun_addrs, mbind, sys_bind, wrap, lift. rewrite Hn. unfold FindSafeCIDR.
  cbn [mbind outcome_bind].
  pose proof (find_i_spec nets (seqZ 0 256)) as H.
  destruct (find_i nets (seqZ 0 256)) as [c |]; [| done].
  destruct H as (i & j & Hi%elem_of_seqZ & Hj & -> & Hc).
  rewrite !AddrInCIDR_host by (done || lia || auto). split; [done |].
  exists i, j. split; [lia |]. split; [done |]. split; [| done]. by apply (proj1 (conflicts_false _ _ _)).
Qed.

Lemma getInterfaceIP_spec name h :
  let '(r, h') := getInterfaceIP e name h in
  files h' = files h ∧ match r with Ok _ | Err _ => True | _ => False end.
Proof.
  unfold getInterfaceIP, mbind, sys_bind, Commandf, Command.
  destruct (run (commands e) _ _) as [out [er |]]; [done |]. by destruct (inet_line _).
Qed.

Lemma linux_jobs_undone i : Forall (λ job, Reset job ≠ "") (linux_jobs i).
Proof.
  unfold linux_jobs. apply Forall_app. split; [by repeat constructor |].
  apply Forall_fmap, Forall_true. by intros t.
Qed.

End LinuxJobs.

(** ** Witness: the first table is in use, and 10.0.0.0/30 too *)
Lemma quad_octet i : 0 <= i < 256 →
  Contains1 "."%char (Itoa i) = false ∧ Contains1 "/"%char (Itoa i) = false ∧ atoi_digits (Itoa i) = Some i.
Proof.
  intros Hi. assert ((negb (Contains1 "."%char (Itoa i)) && negb (Contains1 "/"%char (Itoa i)) &&
    bool_decide (atoi_digits (Itoa i) = Some i)) = true) as H.
  { revert i Hi. apply range_check. by vm_compute. }
  apply andb_prop in H as [[H1%negb_true_iff H2%negb_true_iff]%andb_prop H3%bool_decide_eq_true]. done.
Qed.

Lemma quad_reads_networks : @reads_networks quad_NetText.
Proof.
  intros i j Hi Hj. destruct (quad_octet i Hi) as (I1 & I2 & I3), (quad_octet j Hj) as (J1 & J2 & J3).
  change (quad_cidr (cidr_of i j) = Some (IPv4 10 i j 0, mkIPNet [10; i; j; 0] 30)).
  unfold quad_cidr, cidr_of.
  assert (Split "/"%char ("10." +:+ Itoa i +:+ "." +:+ Itoa j +:+ ".0/30") =
    ["10." +:+ Itoa i +:+ "." +:+ Itoa j +:+ ".0"; "30"]) as ->.
  { assert ("10." +:+ Itoa i +:+ "." +:+ Itoa j +:+ ".0/30" =
      ("10." +:+ Itoa i +:+ "." +:+ Itoa j +:+ ".0") +:+ String "/"%char "30") as ->
      by (by rewrite <- !(assoc_L String.append)).
    rewrite Split_app; [done |]. rewrite !Contains1_app, I2, J2. done. }
  unfold parse_quad.
  assert (Split "."%char ("10." +:+ Itoa i +:+ "." +:+ Itoa j +:+ ".0") = ["10"; Itoa i; Itoa j; "0"]) as ->.
  { change ("10." +:+ ?x) with ("10" +:+ String "."%char x). rewrite Split_app by done.
    change ("." +:+ ?x) with (String "."%char x). rewrite Split_app by done.
    change (".0") with (String "."%char "0"). by rewrite Split_app. }
  rewrite I3, J3. simpl. replace ((0 <=? i) && (i <? 256)) with true by lia.
  replace ((0 <=? j) && (j <? 256)) with true by lia. done.
Qed.

Definition sample_sys : sys_env :=
  mkSysEnv (mkJobEnv (λ _ cmd, (if decide (cmd = "ip route show table 200") then "default"
      else if decide (cmd = "ip -4 addr show eth0") then "    inet 192.168.0.7/24 scope global" else "", None))
    (λ _, None) (λ _, None))
    (Ok [mkIPNet [10; 0; 0; 0] 24]) (Ok "tun0") (IPv4 192 168 0 1) "eth0" (λ _, Err EOF) 1 (λ _ _, None).


(** The second attempt after a failed search: the error is gone and table 0 is
    returned. *)
Lemma table_id_error_lost {NT : NetText} (e : sys_env) (h : host) :
  getOrAllocateTableID e true 0 h = (Ok 0, h).
Proof. done. Qed.
