(* ===== verification/Discover.v ===== *)
(** * The default route: [internal/packet/discover.go]

    The gateway's hardware address is asked for by ARP. The capture goroutine,
    the timers, the context and the goroutine that waits for the answer take
    their steps in any order; a run is the list of the steps that were taken. *)

From S2P Require Import Prelude GoIO GoNet NetText Writer.

Local Open Scope string_scope.
Local Open Scope list_scope.
Local Open Scope Z_scope.

(** ** Packets: the ARP layer of a captured packet, when it has one *)
Record arp : Type := mkArp {
  Operation : Z; SourceHwAddress : bytes; SourceProtAddress : bytes;
}.
Definition ARPRequest : Z := 1.
Definition ARPReply : Z := 2.
Definition packet : Type := option arp.

(** What [sendARPRequest] asks for. *)
Record arp_request : Type := mkArpRequest {
  req_DstMAC : bytes; req_SrcMAC : bytes; req_SrcIP : option IP; req_DstIP : option IP;
}.
Definition sendARPRequest (srcMAC : bytes) (srcIP dstIP : IP) : arp_request :=
  mkArpRequest (replicate 6 255) srcMAC (To4 srcIP) (To4 dstIP).

(** ** [captureARPReply], one packet: [Some] when it sends an address and ends *)
Definition capture (gwIP : IP) (p : packet) : option bytes :=
  match p with
  | None => None
  | Some a =>
    if negb (Operation a =? ARPReply) then None
    else if IP_Equal (SourceProtAddress a) gwIP then Some (SourceHwAddress a)
    else None
  end.

(** ** [resolveGatewayMAC] *)
Inductive step : Type :=
| SPacket (p : packet)   (* the capture goroutine reads a packet *)
| SClosed                (* its packet source ends *)
| SWake                  (* the 100 ms before the first request are over *)
| STick                  (* every 500 ms *)
| SRecv                  (* the waiting goroutine takes the address *)
| SDone.                 (* the context is done *)

Record arp_state : Type := mkArpState {
  capturing : bool;              (* the capture goroutine still runs *)
  macCh : option bytes;          (* the channel of capacity one *)
  probing : bool;                (* the first request was sent *)
  requests : nat;                (* requests sent *)
}.
Definition arp_start : arp_state := mkArpState true None false 0.

Definition ErrTimedOut : error := ErrText "resolve gateway MAC: timed out".

(** A step that is not enabled in a state changes nothing. *)
Definition arp_step (ctxErr : error) (gwIP : IP) (st : step) (s : arp_state) :
    arp_state + outcome error bytes :=
  match st with
  | SPacket p =>
    if capturing s then
      match capture gwIP p with
      | Some mac => inl (mkArpState false (Some mac) (probing s) (requests s))
      | None => inl s
      end
    else inl s
  | SClosed => inl (mkArpState false (macCh s) (probing s) (requests s))
  | SWake => inl (if probing s then s else mkArpState (capturing s) (macCh s) true (S (requests s)))
  | STick => inl (if probing s then mkArpState (capturing s) (macCh s) true (S (requests s)) else s)
  | SRecv =>
    if probing s then match macCh s with Some mac => inr (Ok mac) | None => inl s end else inl s
  | SDone => inr (Err (if probing s then ErrTimedOut else ctxErr))
  end.

Fixpoint arp_run (ctxErr : error) (gwIP : IP) (steps : list step) (s : arp_state) : outcome error bytes :=
  match steps with
  | [] => Diverge
  | st :: steps =>
    match arp_step ctxErr gwIP st s with
    | inl s => arp_run ctxErr gwIP steps s
    | inr r => r
    end
  end.

Section Discover.
Context {NT : NetText}.

(** An interface of [net.Interfaces] and its addresses. *)
Inductive if_addr : Type := IPNetAddr (ip : IP) | OtherIfAddr.
Record interface : Type := mkInterface {
  Name : string; HardwareAddr : option bytes; Addrs : outcome error (list if_addr);
}.

Record discover_env : Type := mkDiscoverEnv {
  DiscoverGateway : outcome error IP;
  DiscoverInterface : outcome error IP;
  Interfaces : outcome error (list interface);
  NewHandle : interface → option error;
  ctx_err : error;
  steps : list step;
}.
Variable e : discover_env.

Definition resolveGatewayMAC (iface : interface) (localIP gwIP : IP) : outcome error bytes :=
  match To4 localIP, To4 gwIP with
  | Some _, Some gwIP4 =>
    match NewHandle e iface with
    | Some er => Err (ErrWrap ("open pcap handle on " +:+ Name iface +:+ ": ") er)
    | None => arp_run (ctx_err e) gwIP4 (steps e) arp_start
    end
  | _, _ => Err (ErrText "non-IPv4 gateway not supported")
  end.

Definition addr_is (localIP : IP) (a : if_addr) : bool :=
  match a with IPNetAddr ip => IP_Equal ip localIP | OtherIfAddr => false end.

(** An interface whose addresses cannot be read is passed over. *)
Definition has_addr (localIP : IP) (i : interface) : bool :=
  match Addrs i with Ok addrs => existsb (addr_is localIP) addrs | _ => false end.

Definition findIfaceByIP (localIP : IP) : outcome error interface :=
  match Interfaces e with
  | Ok ifaces =>
    match find (has_addr localIP) ifaces with
    | Some i => Ok i
    | None => Err (ErrText ("no interface found for " +:+ IP_String localIP))
    end
  | Err er => Err (ErrWrap "net.Interfaces: " er)
  | Panic => Panic
  | Diverge => Diverge
  end.

(** The route: the interface, the gateway and its hardware address. *)
Record default_route : Type := mkDefaultRoute {
  Iface : interface; Gateway : IP; gw_MAC : option bytes;
}.

Definition wrap_err {A} (msg : string) (m : outcome error A) : outcome error A :=
  match m with Err er => Err (ErrWrap msg er) | r => r end.

Definition DiscoverRoute (needsPcap : bool) : outcome error default_route :=
  gwIP ← wrap_err "discover gateway: " (DiscoverGateway e);
  localIP ← wrap_err "discover interface: " (DiscoverInterface e);
  iface ← findIfaceByIP localIP;
  if needsPcap then
    mac ← resolveGatewayMAC iface localIP gwIP;
    Ok (mkDefaultRoute iface gwIP (Some mac))
  else Ok (mkDefaultRoute iface gwIP None).
End Discover.

(** ** What a run returns *)

(** An answer of the gateway with hardware address [mac]. *)
Definition answers (gwIP : IP) (mac : bytes) (p : packet) : Prop :=
  ∃ a, p = Some a ∧ Operation a = ARPReply ∧ IP_Equal (SourceProtAddress a) gwIP = true ∧
    SourceHwAddress a = mac.

Lemma capture_spec gwIP p mac : capture gwIP p = Some mac ↔ answers gwIP mac p.
Proof.
  unfold capture, answers. destruct p as [a |]; [| split; [done | by intros (? & ? & _)]].
  destruct (Z.eqb_spec (Operation a) ARPReply); simpl; [| split; [done | naive_solver]].
  destruct (IP_Equal _ _) eqn:E; [| split; [done |]; intros (? & [= <-] & _ & ? & _); congruence].
  split; [intros [= <-]; by exists a | by intros (? & [= <-] & _ & _ & <-)].
Qed.

(** A step after the answer is in the channel, until it is taken. *)
Definition keeps (st : step) : bool := match st with SRecv | SDone => false | _ => true end.

Lemma arp_run_sound ctxErr gwIP steps s mac :
  arp_run ctxErr gwIP steps s = Ok mac →
  macCh s = Some mac ∨ ∃ p, SPacket p ∈ steps ∧ answers gwIP mac p.
Proof.
  revert s. induction steps as [| st steps IH]; intros s H; [done |]. cbn [arp_run] in H.
  destruct (arp_step ctxErr gwIP st s) as [s' | r] eqn:E.
  - apply IH in H. destruct H as [H | (p & Hp & Ha)]; [| right; exists p; split; [by right | done]].
    destruct st as [p | | | | |]; simpl in E.
    + destruct (capturing s); [| injection E as <-; by left].
      destruct (capture gwIP p) as [m |] eqn:Ec; injection E as <-; [| by left].
      simpl in H. injection H as ->. right. exists p. split; [by left | by apply capture_spec].
    + injection E as <-. by left.
    + injection E as <-. left. by destruct (probing s).
    + injection E as <-. left. by destruct (probing s).
    + left. destruct (probing s); [destruct (macCh s) eqn:Em; [done |] |]; injection E as <-; congruence.
    + done.
  - subst r. destruct st as [p | | | | |]; simpl in E; try done.
    + by destruct (capturing s); [destruct (capture gwIP p) |].
    + left. destruct (probing s); [| done]. destruct (macCh s); [| done]. by injection E as [= ->].
Qed.

Lemma arp_run_defined ctxErr gwIP steps s :
  SDone ∈ steps → defined (arp_run ctxErr gwIP steps s).
Proof.
  revert s. induction steps as [| st steps IH]; intros s Hd; [by apply elem_of_nil in Hd |]. cbn [arp_run].
  apply elem_of_cons in Hd as [<- | Hd]; [by simpl |].
  destruct (arp_step ctxErr gwIP st s) as [s' | r] eqn:E; [by apply IH |].
  destruct st; simpl in E; repeat case_match; by simplify_eq.
Qed.

(** Once the address is in the channel and a request was sent, it is delivered. *)
Lemma arp_run_recv ctxErr gwIP mid post s mac :
  macCh s = Some mac → capturing s = false → (probing s = true ∨ SWake ∈ mid) → forallb keeps mid = true →
  arp_run ctxErr gwIP (mid ++ SRecv :: post) s = Ok mac.
Proof.
  revert s. induction mid as [| st mid IH]; intros s Hm Hc Hp Hk.
  { destruct Hp as [Hp | Hp%elem_of_nil]; [| done]. simpl. by rewrite Hp, Hm. }
  cbn [forallb] in Hk. apply andb_prop in Hk as [Hk1 Hk]. cbn [arp_run app].
  destruct Hp as [Hp | [<- | Hp]%elem_of_cons].
  - destruct st; try done; simpl; rewrite ?Hc, ?Hp; apply IH; simpl; auto.
  - simpl. destruct (probing s) eqn:Hps; apply IH; simpl; auto.
  - destruct st; try done; simpl; rewrite ?Hc; try destruct (probing s) eqn:?; apply IH; simpl; auto.
Qed.

Lemma arp_run_waits ctxErr gwIP pre rest s :
  capturing s = true → macCh s = None →
  (∀ p, SPacket p ∈ pre → capture gwIP p = None) → SDone ∉ pre → SClosed ∉ pre →
  ∃ s', arp_run ctxErr gwIP (pre ++ rest) s = arp_run ctxErr gwIP rest s' ∧
    capturing s' = true ∧ macCh s' = None ∧ (probing s = true ∨ SWake ∈ pre → probing s' = true).
Proof.
  revert s. induction pre as [| st pre IH]; intros s Hc Hm Hp Hd Hcl.
  { exists s. split_and!; [done | done | done |]. by intros [? | ?%elem_of_nil]. }
  apply not_elem_of_cons in Hd as [Hd1 Hd]. apply not_elem_of_cons in Hcl as [Hc1 Hcl].
  assert (∀ s', capturing s' = true → macCh s' = None → (probing s = true ∨ st = SWake → probing s' = true) →
    arp_step ctxErr gwIP st s = inl s' → ∃ s2,
    arp_run ctxErr gwIP (st :: pre ++ rest) s = arp_run ctxErr gwIP rest s2 ∧
    capturing s2 = true ∧ macCh s2 = None ∧ (probing s = true ∨ SWake ∈ st :: pre → probing s2 = true)) as Hgo.
  { intros s' H1 H2 H3 H4. cbn [arp_run]. rewrite H4.
    destruct (IH s' H1 H2) as (s2 & ? & ? & ? & Hpr); [by intros p ?; apply Hp; right | done | done |].
    exists s2. split; [done |]. split; [done |]. split; [done |].
    intros [? | [? | ?]%elem_of_cons]; auto. }
  cbn [app]. destruct st as [p | | | | |]; try done.
  - apply (Hgo s); [done | done | naive_solver |]. simpl. rewrite Hc.
    by rewrite (Hp p) by by left.
  - apply (Hgo (if probing s then s else mkArpState (capturing s) (macCh s) true (S (requests s))));
      [by destruct (probing s) | by destruct (probing s) | | done].
    by destruct (probing s) eqn:?.
  - apply (Hgo (if probing s then mkArpState (capturing s) (macCh s) true (S (requests s)) else s));
      [by destruct (probing s) | by destruct (probing s) | | done].
    destruct (probing s) eqn:?; naive_solver.
  - apply (Hgo s); [done | done | naive_solver |]. simpl. rewrite Hm. by destruct (probing s).
Qed.

(** C39. Resolving the gateway's hardware address. The context's deadline ends
    it; an address it returns was in an ARP reply whose sender was the gateway,
    never in a request or in another host's reply; and the first such reply
    that is captured is returned, however packets and timers interleave, if
    the deadline does not come first. *)
Theorem gateway_mac_sound ctxErr gwIP :
  (∀ steps, SDone ∈ steps → defined (arp_run ctxErr gwIP steps arp_start)) ∧
  (∀ steps mac, arp_run ctxErr gwIP steps arp_start = Ok mac →
     ∃ p, SPacket p ∈ steps ∧ answers gwIP mac p) ∧
  (∀ pre p mid post mac, answers gwIP mac p →
     (∀ q, SPacket q ∈ pre → ∀ m, ¬ answers gwIP m q) → SDone ∉ pre → SClosed ∉ pre →
     SWake ∈ pre ++ mid → forallb keeps mid = true →
     arp_run ctxErr gwIP (pre ++ SPacket p :: mid ++ SRecv :: post) arp_start = Ok mac).
Proof.
  split; [| split].
  - intros steps. apply arp_run_defined.
  - intros steps mac H. apply arp_run_sound in H as [H | H]; done.
  - intros pre p mid post mac Ha%capture_spec Hpre Hd Hc Hw Hk.
    destruct (arp_run_waits ctxErr gwIP pre (SPacket p :: mid ++ SRecv :: post) arp_start)
      as (s & -> & Hcap & Hm & Hp); [done | done | | done | done |].
    { intros q Hq. destruct (capture gwIP q) as [m |] eqn:E; [| done].
      apply capture_spec in E. by apply Hpre in E. }
    cbn [arp_run arp_step]. rewrite Hcap, Ha. apply arp_run_recv; [done | done | | done].
    simpl. apply elem_of_app in Hw as [Hw | Hw]; auto.
Qed.

Section Route.
Context {NT : NetText}.

(** The route found is the one of the local address: the interface has it, the
    gateway is the one discovered, and its hardware address is known exactly
    when packets are to be captured. *)
Lemma DiscoverRoute_found (e : discover_env) (needsPcap : bool) (r : default_route) :
  DiscoverRoute e needsPcap = Ok r →
  ∃ localIP, DiscoverInterface e = Ok localIP ∧ DiscoverGateway e = Ok (Gateway r) ∧
    has_addr localIP (Iface r) = true ∧
    (if needsPcap then is_Some (gw_MAC r) else gw_MAC r = None).
Proof.
  unfold DiscoverRoute. intros H.
  destruct (DiscoverGateway e) as [gwIP | | |]; try done. cbn [wrap_err mbind outcome_bind] in H.
  destruct (DiscoverInterface e) as [localIP | | |]; try done. cbn [wrap_err mbind outcome_bind] in H.
  destruct (findIfaceByIP e localIP) as [iface | | |] eqn:Hf; try done. cbn [mbind outcome_bind] in H.
  assert (has_addr localIP iface = true) as Hi.
  { unfold findIfaceByIP in Hf. destruct (Interfaces e); try done.
    destruct (find _ _) eqn:Hfind; [| done]. injection Hf as <-. by apply find_some in Hfind as [_ ?]. }
  exists localIP. split; [done |]. destruct needsPcap; [| by injection H as <-].
  destruct (resolveGatewayMAC e iface localIP gwIP); try done. injection H as <-. by split_and!.
Qed.
End Route.

(** ** Witness: a request and another host's reply are passed over *)
Definition router : IP := [192; 168; 0; 1].
Definition router_reply : packet := Some (mkArp ARPReply [1; 2; 3; 4; 5; 6] router).
Definition noise_packets : list step :=
  [SPacket None; SPacket (Some (mkArp ARPRequest [9; 9; 9; 9; 9; 9] router)); SWake;
   SPacket (Some (mkArp ARPReply [7; 7; 7; 7; 7; 7] [192; 168; 0; 9]))].

Lemma gateway_mac_sound_witness :
  arp_run EOF router (noise_packets ++ SPacket router_reply :: [STick] ++ SRecv :: []) arp_start =
    Ok [1; 2; 3; 4; 5; 6].
Proof.
  apply (proj2 (proj2 (gateway_mac_sound EOF router))).
  - by eexists.
  - intros q Hq m (a & -> & Ho & Hs & _). unfold noise_packets in Hq.
    repeat (apply elem_of_cons in Hq as [Hq | Hq];
      [first [discriminate Hq | injection Hq as ->; first [discriminate Ho | discriminate Hs]] |]).
    by apply elem_of_nil in Hq.
  - by vm_compute; intros H; repeat (apply elem_of_cons in H as [H | H]); [.. | apply elem_of_nil in H].
  - by vm_compute; intros H; repeat (apply elem_of_cons in H as [H | H]); [.. | apply elem_of_nil in H].
  - simpl. set_solver.
  - done.
Defined.
