(* ===== verification/ProxySys.v ===== *)
(** * The proxies around their connections: [ListenAndServe],
      [SetupNetworkJobs] and [Addr] of [internal/server/http/http.go] and
      [internal/server/socks5/socks5.go], the system networks of
      [{http,socks5}/*_net_{darwin,stub}.go], and [RunPACServer]
      ([internal/netutil/system.go])

    A proxy's system network is a type class with an instance per system and
    proxy. The two proxies are records of what they were made with. *)

From S2P Require Import Prelude GoIO GoNet GoStrings NetText HostPort Jobs SysNet TunNet Session.

Local Open Scope string_scope.
Local Open Scope list_scope.
Local Open Scope Z_scope.

(** ** [RunPACServer]: [listened] is the port [net.Listen] got *)
Record pac_server : Type := mkPac { pac_body : string; pac_port : Z }.
Definition pac_URL (port : Z) : string := "http://127.0.0.1:" +:+ Itoa port +:+ "/proxy.pac".
Definition RunPACServer (listened : outcome error Z) (content : string) : outcome error (string * pac_server) :=
  port ← listened; Ok (pac_URL port, mkPac content port).

Record http_response : Type := mkResponse { status : Z; content_type : string; body : string }.
(** The answer to any request for a path under [/]. *)
Definition pac_serve (s : pac_server) : http_response :=
  mkResponse 200 "application/x-ns-proxy-autoconfig" (pac_body s).

Section ProxySys.
Context {NT : NetText}.
Variable e : sys_env.
Notation je := (commands e).

(** ** The system networks *)
Class ProxySystemNetwork (T : Type) : Type := {
  px_DefaultRoute : T → option string;           (* the name of its interface *)
  px_BuildJobs : T → Z → string → sys (list NetworkJob);
}.

(** *** HTTP on Darwin *)
Record httpSystemNetworkDarwin : Type := mkHttpDarwin { hd_route : option string }.
(** A nil route is dereferenced. *)
Definition http_BuildJobs (n : httpSystemNetworkDarwin) (port : Z) (pacURL : string) : sys (list NetworkJob) :=
  match hd_route n with
  | None => lift Panic
  | Some name =>
    service ← wrap "failed to get network service: " (getNetworkServiceFromInterface e name);
    mret (proxy_jobs service pacURL)
  end.
#[export] Instance http_darwin : ProxySystemNetwork httpSystemNetworkDarwin := {|
  px_DefaultRoute n := hd_route n; px_BuildJobs := http_BuildJobs |}.

(** *** SOCKS5 on Darwin: the same text in a package of its own *)
Record socks5SystemNetworkDarwin : Type := mkSocksDarwin { sd_route : option string }.
Definition socks5_getNetworkService (ifaceName : string) : sys string :=
  '(out, err) ← Commandf e "networksetup -listnetworkserviceorder";
  match err with
  | Some er => lift (Err er)
  | None =>
    match service_match e ifaceName out with
    | None => fail ("no network service found for interface: " +:+ ifaceName)
    | Some service => mret (TrimSpace service)
    end
  end.
Record socks5NetworkInfoDarwin : Type := mkSocksInfo { Service : string; PACURL : string }.
Definition socks5_collectNetworkInfo (name pacURL : string) : sys socks5NetworkInfoDarwin :=
  service ← wrap "failed to get network service: " (socks5_getNetworkService name);
  mret (mkSocksInfo service pacURL).
Definition socks5_BuildJobs (n : socks5SystemNetworkDarwin) (port : Z) (pacURL : string) :
    sys (list NetworkJob) :=
  match sd_route n with
  | None => lift Panic
  | Some name =>
    info ← socks5_collectNetworkInfo name pacURL;
    let q := ShellQuote (Service info) in
    mret ([mkJob "set auto proxy URL" ("networksetup -setautoproxyurl " +:+ q +:+ " " +:+ PACURL info)
             ("networksetup -setautoproxystate " +:+ q +:+ " off")] ++
          [mkJob "enable proxy auto discovery" ("networksetup -setproxyautodiscovery " +:+ q +:+ " on")
             ("networksetup -setproxyautodiscovery " +:+ q +:+ " off")])
  end.
#[export] Instance socks5_darwin : ProxySystemNetwork socks5SystemNetworkDarwin := {|
  px_DefaultRoute n := sd_route n; px_BuildJobs := socks5_BuildJobs |}.

(** *** The other systems *)
Record httpSystemNetworkStub : Type := mkHttpStub {}.
Record socks5SystemNetworkStub : Type := mkSocksStub {}.
#[export] Instance http_stub : ProxySystemNetwork httpSystemNetworkStub := {|
  px_DefaultRoute _ := None; px_BuildJobs _ _ _ := mret [] |}.
#[export] Instance socks5_stub : ProxySystemNetwork socks5SystemNetworkStub := {|
  px_DefaultRoute _ := None; px_BuildJobs _ _ _ := mret [] |}.

(** Both proxies configure a Darwin system by the same commands. *)
Lemma darwin_networks_agree name port pacURL h :
  px_BuildJobs (mkSocksDarwin (Some name)) port pacURL h =
  px_BuildJobs (mkHttpDarwin (Some name)) port pacURL h.
Proof.
  cbn [px_BuildJobs socks5_darwin http_darwin]. unfold socks5_BuildJobs, http_BuildJobs, socks5_collectNetworkInfo.
  cbn [sd_route hd_route]. change (socks5_getNetworkService name) with (getNetworkServiceFromInterface e name).
  unfold mbind, sys_bind, wrap. by destruct (getNetworkServiceFromInterface e name h) as [[] ?].
Qed.

(** ** The proxies *)
Record HTTPProxy (T : Type) : Type := mkHTTPProxy { hp_sysNet : T; hp_listenAddr : TCPAddr }.
Record SOCKS5Proxy (T : Type) : Type := mkSOCKS5Proxy { sp_sysNet : T; sp_listenAddr : TCPAddr }.
#[global] Arguments mkHTTPProxy {T}. #[global] Arguments mkSOCKS5Proxy {T}.
#[global] Arguments hp_sysNet {T}. #[global] Arguments hp_listenAddr {T}.
#[global] Arguments sp_sysNet {T}. #[global] Arguments sp_listenAddr {T}.

Definition http_Addr {T} (p : HTTPProxy T) : string := TCPAddr_String (hp_listenAddr p).
Definition socks5_Addr {T} (p : SOCKS5Proxy T) : string := TCPAddr_String (sp_listenAddr p).

(** [ListenAndServe]: [listen] is the error of [net.ListenTCP]; the accept loop
    runs in a goroutine until the listener is closed, which another goroutine
    does when the application ends. *)
Definition http_ListenAndServe {T} (p : HTTPProxy T) (listen : option error) (events : list accept_event)
    : outcome error (list serve_act) :=
  match listen with
  | Some er => Err (ErrWrap ("error creating listener on " +:+ http_Addr p +:+ ": ") er)
  | None => Ok (accept_loop true 0 events)
  end.
Definition socks5_ListenAndServe {T} (p : SOCKS5Proxy T) (listen : option error) (events : list accept_event)
    : outcome error (list serve_act) :=
  match listen with
  | Some er => Err (ErrWrap ("error creating listener on " +:+ socks5_Addr p +:+ ": ") er)
  | None => Ok (accept_loop false 0 events)
  end.

(** ** [SetupNetworkJobs]: the result, and the PAC server that is left running *)
Definition setup_jobs {T} `{ProxySystemNetwork T} (kind stateFile : string) (sysNet : T) (port : Z)
    (listened : outcome error Z) : sys (outcome error string * option pac_server) := λ h,
  match RunPACServer listened (pac_content kind port) with
  | Ok (pacURL, pac) =>
    match px_BuildJobs sysNet (u16 port) pacURL h with
    | (Ok jobs, h) =>
      match save e stateFile jobs h with
      | (Err er, h) => (Ok (Err (ErrWrap "failed to save state: " er), None), h)
      | (_, h) => (Ok (Ok stateFile, Some pac), h)
      end
    | (Err er, h) => (Ok (Err er, None), h)
    | (Panic, h) => (Panic, h)
    | (Diverge, h) => (Diverge, h)
    end
  | Err er => (Ok (Err (ErrWrap "error creating pac server: " er), None), h)
  | Panic => (Panic, h)
  | Diverge => (Diverge, h)
  end.

Definition http_SetupNetworkJobs {T} `{ProxySystemNetwork T} (stateFile : string) (p : HTTPProxy T) :=
  setup_jobs "PROXY" stateFile (hp_sysNet p) (addr_Port (hp_listenAddr p)).
Definition socks5_SetupNetworkJobs {T} `{ProxySystemNetwork T} (stateFile : string) (p : SOCKS5Proxy T) :=
  setup_jobs "SOCKS5" stateFile (sp_sysNet p) (addr_Port (sp_listenAddr p)).

Lemma service_ends name h : defined (getNetworkServiceFromInterface e name h).1.
Proof.
  unfold getNetworkServiceFromInterface, mbind, sys_bind, Commandf.
  destruct (Command je _ h) as [[out err] h1]. destruct err; [done |].
  by destruct (service_match e name out).
Qed.

(** The automatic configuration of a proxy on Darwin. When it succeeds, the jobs
    saved in the state file make the system fetch its proxy settings from the
    PAC server that is left running, and what that server serves names the
    proxy's own port; when it fails, for whatever reason, no PAC server is left
    and no state file is written. *)
Theorem setup_jobs_consistent (kind stateFile name : string) (port : Z) (listened : outcome error Z) (h : host) :
  stateFile ≠ "" → defined listened →
  match setup_jobs kind stateFile (mkHttpDarwin (Some name)) port listened h with
  | (Ok (Ok path, Some pac), h') => ∃ service pac_port,
      path = stateFile ∧ listened = Ok pac_port ∧
      body (pac_serve pac) = pac_content kind port ∧
      files h' = <[stateFile := JobsFile (proxy_jobs service (pac_URL pac_port))]> (files h)
  | (Ok (Err _, None), h') => files h' = files h
  | _ => False
  end.
Proof.
  intros Hne Hl. unfold setup_jobs, RunPACServer. destruct listened as [pp | er | |]; try done.
  cbn [mbind outcome_bind px_BuildJobs http_darwin]. unfold http_BuildJobs. cbn [hd_route].
  pose proof (service_ends name h) as Hd. unfold mbind, sys_bind, wrap.
  assert (files (getNetworkServiceFromInterface e name h).2 = files h) as Hf.
  { unfold getNetworkServiceFromInterface, mbind, sys_bind, Commandf, Command.
    destruct (run _ _ _) as [out err]. destruct err; [done |]. by destruct (service_match e name _). }
  destruct (getNetworkServiceFromInterface e name h) as [[service | er | |] h1]; try done.
  cbn [snd] in Hf. unfold mret, sys_ret, save, SaveJobs. rewrite decide_False by done.
  destruct (write_err je stateFile); [done |]. exists service, pp. cbn [files]. by rewrite Hf.
Qed.

(** Elsewhere nothing is run and nothing saved, but the PAC server is started
    all the same and left running. *)
Lemma setup_jobs_stub kind port pp h :
  setup_jobs kind "" mkHttpStub port (Ok pp) h = (Ok (Ok "", Some (mkPac (pac_content kind port) pp)), h).
Proof. done. Qed.
End ProxySys.

(** ** Witness *)
Definition darwin_sys : sys_env :=
  mkSysEnv (mkJobEnv (λ _ _, ("(1) Wi-Fi (Hardware Port: Wi-Fi, Device: en0)", None)) (λ _, None) (λ _, None))
    (Ok []) (Ok "utun4") (IPv4 192 168 0 1) "en0" (λ _, Err EOF) 1
    (λ name out, if decide (name = "en0") then Some "Wi-Fi" else None).

#[local] Instance darwin_sys_network : ProxySystemNetwork httpSystemNetworkDarwin := http_darwin darwin_sys.

Lemma setup_jobs_consistent_witness :
  ∃ pac h', setup_jobs darwin_sys "PROXY" "/tmp/s" (mkHttpDarwin (Some "en0")) 8080 (Ok 5555) (mkHost ∅ []) =
      (Ok (Ok "/tmp/s", Some pac), h') ∧ body (pac_serve pac) = pac_content "PROXY" 8080.
Proof.
  pose proof (setup_jobs_consistent darwin_sys "PROXY" "/tmp/s" "en0" 8080 (Ok 5555) (mkHost ∅ []) ltac:(done) I) as H.
  assert (match (setup_jobs darwin_sys "PROXY" "/tmp/s" (mkHttpDarwin (Some "en0")) 8080 (Ok 5555) (mkHost ∅ [])).1 with
    Ok (Ok _, Some _) => true | _ => false end = true) as Hok by by vm_compute.
  destruct (setup_jobs darwin_sys "PROXY" "/tmp/s" (mkHttpDarwin (Some "en0")) 8080 (Ok 5555) (mkHost ∅ []))
    as [[[[path | | |] [pac |]] | | |] h']; try discriminate Hok.
  destruct H as (service & pp & -> & _ & Hb & _). exists pac, h'. split; [done | exact Hb].
Defined.
