(* ===== verification/Logging.v ===== *)
(** * Log records: [internal/logging/logging.go]

    What a line of the log carries: the fields a logger was made with, the ones
    the hook takes from the request's context, and how [FormatPrepare] rewrites
    them before they are printed. Loggers, events and the console writer belong
    to zerolog; the class [Zerolog] is the one promise of it that is used: the
    fields of an event reach [FormatPrepare] as a map in which the last field of
    a name counts. *)

From S2P Require Import Prelude GoIO GoStrings Session.

Local Open Scope string_scope.
Local Open Scope list_scope.
Local Open Scope Z_scope.

Definition scopeFieldName : string := "scope".
Definition localScopeFieldName : string := "local_scope".
Definition traceIDFieldName : string := "trace_id".
Definition hostInfoFieldName : string := "host_info".

(** A value of a field: a string, or one of another type. *)
Inductive any : Type := AStr (s : string) | AOther (n : Z).
#[export] Instance any_eq_dec : EqDecision any.
Proof. solve_decision. Defined.
Definition fields : Type := list (string * any).

Class Zerolog : Type := {
  decode : fields → gmap string any;
  decode_nil : decode [] = ∅;
  decode_snoc fs k v : decode (fs ++ [(k, v)]) = <[k := v]> (decode fs);
}.

(** ** [FormatPrepare] *)

(** [if v, ok := m[k].(string); ok && v != "" { m[k] = f v } else { m[k] = d }] *)
Definition prepare_field (k : string) (f : string → string) (d : string) (m : gmap string any) :
    gmap string any :=
  <[k := AStr match m !! k with
              | Some (AStr v) => if bool_decide (v ≠ "") then f v else d
              | _ => d
              end]> m.

Definition with_semicolon (v : string) : string := v +:+ ";".

Definition FormatPrepare (m : gmap string any) : gmap string any :=
  let m := prepare_field traceIDFieldName (λ v, v) "" m in
  let m := prepare_field scopeFieldName (λ v, "[" +:+ v +:+ "]") "[app]" m in
  let m := prepare_field localScopeFieldName with_semicolon "" m in
  let m := prepare_field hostInfoFieldName with_semicolon "" m in
  prepare_field "message" with_semicolon "" m.

Definition FieldsExclude : list string :=
  [traceIDFieldName; scopeFieldName; hostInfoFieldName; localScopeFieldName].
Definition PartsOrder : list string :=
  ["level"; "time"; traceIDFieldName; scopeFieldName; hostInfoFieldName; localScopeFieldName; "message"].

(** ** Loggers and events *)
Record Logger : Type := mkLogger { l_fields : fields; l_ctx : option context }.

(** [log.Logger] as [SetGlobalLogger] leaves it; the hook is [Run] below. *)
Definition global_logger (ctx : context) : Logger := mkLogger [] (Some ctx).

Definition WithScope (logger : Logger) (scope : string) : Logger :=
  mkLogger (l_fields logger ++ [(scopeFieldName, AStr scope)]) (l_ctx logger).
Definition WithLocalScope (ctx : context) (logger : Logger) (localScope : string) : Logger :=
  mkLogger (l_fields logger ++ [(localScopeFieldName, AStr localScope)]) (Some ctx).

(** [ctxHook.Run]: the fields it adds. *)
Definition Run (ctx : option context) : fields :=
  match ctx with
  | None => []
  | Some ctx =>
    (traceIDFieldName, AStr (TraceIDFrom ctx).1) ::
    (let '(domain, ok) := HostInfoFrom ctx in if ok : bool then [(hostInfoFieldName, AStr domain)] else [])
  end.

(** The fields of an event: those of the logger, those added for this event,
    the hook's, and the message. *)
Definition event_fields (logger : Logger) (own : fields) (message : string) : fields :=
  l_fields logger ++ own ++ Run (l_ctx logger) ++ [("message", AStr message)].

Section Log.
Context {ZL : Zerolog}.
Definition line (logger : Logger) (own : fields) (message : string) : gmap string any :=
  FormatPrepare (decode (event_fields logger own message)).

Lemma prepare_field_eq k f d m :
  prepare_field k f d m !! k = Some (AStr match m !! k with
    | Some (AStr v) => if bool_decide (v ≠ "") then f v else d | _ => d end).
Proof. apply lookup_insert_eq. Qed.
Lemma prepare_field_ne k k' f d m : k ≠ k' → prepare_field k f d m !! k' = m !! k'.
Proof. apply lookup_insert_ne. Qed.

Lemma decode_app fs gs k : decode (fs ++ gs) !! k =
  match decode gs !! k with Some v => Some v | None => decode fs !! k end.
Proof.
  induction gs as [| [k' v] gs IH] using rev_ind; [by rewrite app_nil_r, decode_nil, lookup_empty |].
  rewrite app_assoc, !decode_snoc. destruct (decide (k' = k)) as [-> |].
  - by rewrite !lookup_insert_eq.
  - by rewrite !lookup_insert_ne.
Qed.

Lemma decode_cons k v gs k' : decode ((k, v) :: gs) !! k' =
  match decode gs !! k' with Some w => Some w | None => if decide (k = k') then Some v else None end.
Proof.
  rewrite (decode_app [(k, v)] gs). case_match; [done |].
  rewrite (decode_snoc [] k v : decode [(k, v)] = _), decode_nil.
  case_decide; subst; [by rewrite lookup_insert_eq | by rewrite lookup_insert_ne].
Qed.

Lemma decode_notin fs k : Forall (λ f, f.1 ≠ k) fs → decode fs !! k = None.
Proof.
  induction 1 as [| [k' v] fs Hk _ IH]; [by rewrite decode_nil, lookup_empty |].
  rewrite decode_cons, IH. by rewrite decide_False.
Qed.

(** What a line says. A component's logger for a request prints the request's
    trace identifier, the component's name in brackets, the request's host if
    the context has one, the function and the message, whatever other fields
    the event has; no part is ever missing. *)
Lemma line_parts (base : context) (ctx : context) (scope localScope message : string) (own : fields) :
  scope ≠ "" → localScope ≠ "" → message ≠ "" → (TraceIDFrom ctx).1 ≠ "" →
  Forall (λ f, f.1 ∉ scopeFieldName :: localScopeFieldName :: hostInfoFieldName :: []) own →
  let m := line (WithLocalScope ctx (WithScope (global_logger base) scope) localScope) own message in
  m !! traceIDFieldName = Some (AStr (TraceIDFrom ctx).1) ∧
  m !! scopeFieldName = Some (AStr ("[" +:+ scope +:+ "]")) ∧
  m !! localScopeFieldName = Some (AStr (localScope +:+ ";")) ∧
  m !! hostInfoFieldName = Some (AStr (let '(d, ok) := HostInfoFrom ctx in
    if ok && bool_decide (d ≠ "") then d +:+ ";" else "")) ∧
  m !! "message" = Some (AStr (message +:+ ";")).
Proof.
  intros Hs Hl Hm Ht Hown m. subst m.
  assert (∀ k, k ∈ [scopeFieldName; localScopeFieldName; hostInfoFieldName] → decode own !! k = None) as Hd.
  { intros k Hk. apply decode_notin. eapply Forall_impl; [exact Hown |]. intros f Hf Heq. apply Hf. by rewrite Heq. }
  unfold line, FormatPrepare, event_fields, WithLocalScope, WithScope, global_logger. cbn [l_fields l_ctx Run app].
  pose proof (Hd scopeFieldName ltac:(by left)) as H1.
  pose proof (Hd localScopeFieldName ltac:(by right; left)) as H2.
  pose proof (Hd hostInfoFieldName ltac:(by right; right; left)) as H3. clear Hd Hown.
  destruct (HostInfoFrom ctx) as [d ok]. split_and!;
    repeat (rewrite prepare_field_ne by done); rewrite prepare_field_eq;
    repeat (rewrite prepare_field_ne by done); destruct ok; cbn [app];
    repeat (rewrite ?decode_cons, ?decode_app, ?decode_nil, ?lookup_empty, ?H1, ?H2, ?H3);
    repeat first [rewrite decide_True by done | rewrite decide_False by done];
    rewrite ?bool_decide_true by done; try done.
Qed.
End Log.

(** ** Errors with several causes *)

(** An error value: one without cause, one that wraps another ([Unwrap() error]),
    or one that joins several ([Unwrap() []error], of [errors.Join]). *)
Inductive err : Type :=
| ELeaf (msg : string)
| EWrap (msg : string) (e : err)
| EJoin (msg : string) (es : list err).
Definition err_text (e : err) : string := match e with ELeaf m | EWrap m _ | EJoin m _ => m end.

(** [errors.As(err, &joinedErrs)] and then [Unwrap()]. *)
Fixpoint as_joinable (e : err) : option (list err) :=
  match e with ELeaf _ => None | EWrap _ e => as_joinable e | EJoin _ es => Some es end.

Inductive Level : Type := TraceLevel | WarnLevel | ErrorLevel.
Record event : Type := mkEvent { ev_level : Level; ev_fields : fields }.

(** [logger.WithLevel(level).Err(err).Msg(msg)]: a nil error adds no field. *)
Definition log_one (logger : Logger) (level : Level) (e : option err) (message : string) : event :=
  mkEvent level (event_fields logger
    match e with Some e => [("error", AStr (err_text e))] | None => [] end message).

(** [logErrs]: the events written. *)
Definition logErrs (logger : Logger) (level : Level) (e : option err) (message : string) : list event :=
  match e ≫= as_joinable with
  | Some es => (λ e, log_one logger level (Some e) message) <$> es
  | None => [log_one logger level e message]
  end.
Definition ErrorErrs (logger : Logger) (e : option err) (message : string) : list event :=
  logErrs logger ErrorLevel e message.
Definition WarnErrs (logger : Logger) (e : option err) (message : string) : list event :=
  logErrs logger WarnLevel e message.
Definition TraceErrs (logger : Logger) (e : option err) (message : string) : list event :=
  logErrs logger TraceLevel e message.

(** Wrapping [e] in the texts [ws], the outermost first. *)
Definition wrap_all (ws : list string) (e : err) : err := foldr EWrap e ws.

Lemma as_joinable_wrap ws e : as_joinable (wrap_all ws e) = as_joinable e.
Proof. by induction ws. Qed.

Lemma as_joinable_Some e es : as_joinable e = Some es ↔ ∃ ws m, e = wrap_all ws (EJoin m es).
Proof.
  split.
  - induction e as [m | m e IH | m es']; cbn; [done | | intros [= ->]; by exists [], m].
    intros (ws & m' & ->)%IH. by exists (m :: ws), m'.
  - intros (ws & m & ->). by rewrite as_joinable_wrap.
Qed.

(** The causes of a joined error are written one line each, in their order and
    at the level asked for, however deep the join is wrapped (the texts wrapped
    around it are in none of the lines); any other error, nil included, is one
    line. *)
Lemma logErrs_lines logger level e message :
  (∀ ws m es, e = Some (wrap_all ws (EJoin m es)) →
     ev_fields <$> logErrs logger level e message =
       (λ c, event_fields logger [("error", AStr (err_text c))] message) <$> es) ∧
  ((∀ ws m es, e ≠ Some (wrap_all ws (EJoin m es))) → length (logErrs logger level e message) = 1%nat) ∧
  Forall (λ ev, ev_level ev = level) (logErrs logger level e message).
Proof.
  unfold logErrs. split; [| split].
  - intros ws m es ->. cbn [mbind option_bind]. rewrite as_joinable_wrap. cbn [as_joinable].
    rewrite <- list_fmap_compose. by apply list_fmap_ext.
  - intros Hno. destruct (e ≫= as_joinable) as [es |] eqn:E; [| done].
    apply bind_Some in E as (e' & -> & (ws & m & ->)%as_joinable_Some). by destruct (Hno ws m es).
  - destruct (e ≫= as_joinable) as [es |]; [| by apply Forall_singleton].
    apply Forall_fmap, Forall_true. done.
Qed.

(** ** An instance, and a line *)
#[export, refine] Instance zerolog_map : Zerolog := {|
  decode := foldl (λ m f, <[f.1 := f.2]> m) ∅;
|}.
Proof. done. intros fs k v. by rewrite foldl_app. Defined.

Example line_example :
  line (WithLocalScope (WithHostInfo [(traceIDCtxKey, VStr "00000000000000ff")] "example.com")
         (WithScope (global_logger []) "https") "dial") [] "done" !! scopeFieldName = Some (AStr "[https]") ∧
  line (global_logger []) [] "" !! scopeFieldName = Some (AStr "[app]") ∧
  line (global_logger []) [] "" !! traceIDFieldName = Some (AStr "0000000000000000").
Proof. by vm_compute. Qed.
