(* ===== verification/Tui.v ===== *)
(** * The terminal interface: the log view of [cmd/spoofdpi/tui.go]

    The model's state without what is drawn: the log lines, the filter and the
    input line. The lines the viewport shows are kept before they are wrapped to
    its width. The transfer rates, the spinner and the layout are left out. *)

From S2P Require Import Prelude GoStrings.

Local Open Scope string_scope.
Local Open Scope list_scope.

Record model : Type := mkModel {
  logs : list string;
  filteredLogs : list string;
  ready : bool;
  filterInput : string;
  activeFilter : string;
  inputMode : bool;
  content : list string;        (* of the viewport *)
}.

Definition initialModel : model := mkModel [] [] false "" "" false [].

Definition filterLogs (logs : list string) (f : string) : list string :=
  if decide (f = "") then logs else filter (λ l, Contains l f = true) logs.

(** A key other than Ctrl+C by its name or text; a log line; the window's size. *)
Inductive msg : Type := KeyMsg (key : string) | LogMsg (line : string) | WindowSizeMsg.

Definition updateViewport (m : model) : model :=
  if ready m
  then mkModel (logs m) (filteredLogs m) true (filterInput m) (activeFilter m) (inputMode m) (filteredLogs m)
  else m.

Definition set_input (input : string) (mode : bool) (m : model) : model :=
  mkModel (logs m) (filteredLogs m) (ready m) input (activeFilter m) mode (content m).
Definition set_filter (f : string) (m : model) : model :=
  mkModel (logs m) (filterLogs (logs m) f) (ready m) (filterInput m) f false (content m).

(** [s[:len(s)-1]] *)
Definition drop_last (s : string) : string := String.substring 0 (String.length s - 1) s.

(** Keys that are not commands are typed while the input line is open. *)
Definition typed (key : string) (m : model) : model :=
  if inputMode m then set_input (filterInput m +:+ key) true m else m.

Definition on_key (key : string) (m : model) : model :=
  if decide (key = "enter") then
    if inputMode m then updateViewport (set_filter (filterInput m) m) else m
  else if decide (key = "esc") then
    if inputMode m then set_input "" false m
    else if decide (activeFilter m ≠ "") then updateViewport (set_filter "" m)
    else m
  else if decide (key = "backspace") then
    if inputMode m && bool_decide (filterInput m ≠ "") then set_input (drop_last (filterInput m)) true m else m
  else if decide (key = "R") then
    if negb (inputMode m) then
      updateViewport (mkModel [] (filterLogs [] (activeFilter m)) (ready m) (filterInput m) (activeFilter m)
                        false (content m))
    else typed key m
  else if decide (key = "f") then
    if negb (inputMode m) then set_input "" true m else typed key m
  else typed key m.

Definition maxLogs : nat := 5000.
(** [l[len(l)-maxLogs:]] when the list is longer *)
Definition keep_last (l : list string) : list string :=
  if decide (maxLogs < length l)%nat then drop (length l - maxLogs) l else l.

Definition on_log (line : string) (m : model) : model :=
  let logs' := logs m ++ [line] in
  let filtered' := if bool_decide (activeFilter m = "") || Contains line (activeFilter m)
                   then filteredLogs m ++ [line] else filteredLogs m in
  updateViewport (mkModel (keep_last logs') (keep_last filtered') (ready m) (filterInput m) (activeFilter m)
                    (inputMode m) (content m)).

(** The first size creates the viewport with the unfiltered lines. *)
Definition on_size (m : model) : model :=
  if negb (ready m)
  then mkModel (logs m) (filteredLogs m) true (filterInput m) (activeFilter m) (inputMode m) (logs m)
  else updateViewport m.

Definition Update (x : msg) (m : model) : model :=
  match x with
  | KeyMsg key => on_key key m
  | LogMsg line => on_log line m
  | WindowSizeMsg => on_size m
  end.

Inductive reachable : model → Prop :=
| Reach_start : reachable initialModel
| Reach_step x m : reachable m → reachable (Update x m).

(** ** The invariant *)
Definition shown (f : string) (l : string) : Prop := Contains l f = true.
#[export] Instance shown_dec f l : Decision (shown f l) := decide (Contains l f = true).

Record tui_inv (m : model) : Prop := {
  inv_nofilter : activeFilter m = "" → filteredLogs m = logs m;
  inv_match : Forall (shown (activeFilter m)) (filteredLogs m);
  inv_recent : ∃ older, filteredLogs m = older ++ filter (shown (activeFilter m)) (logs m);
  inv_logs : (length (logs m) <= maxLogs)%nat;
  inv_filtered : (length (filteredLogs m) <= maxLogs)%nat;
}.

Lemma Contains_empty l : Contains l "" = true.
Proof. by destruct l. Qed.

Lemma filter_shown_empty (l : list string) : filter (shown "") l = l.
Proof.
  induction l as [| x l IH]; [done |]. rewrite filter_cons_True by apply Contains_empty. by rewrite IH.
Qed.

Lemma filterLogs_shown (l : list string) f : filterLogs l f = filter (shown f) l.
Proof. unfold filterLogs. case_decide as H; [by rewrite H, filter_shown_empty | done]. Qed.

Lemma keep_last_length l : (length (keep_last l) <= maxLogs)%nat.
Proof. unfold keep_last. case_decide; [rewrite length_drop |]; lia. Qed.

Lemma keep_last_suffix l : ∃ p, l = p ++ keep_last l.
Proof.
  unfold keep_last. case_decide; [| by exists []]. exists (take (length l - maxLogs) l).
  by rewrite take_drop.
Qed.

(** A short end of a list is an end of the part that is kept. *)
Lemma keep_last_end (older l : list string) : (length l <= maxLogs)%nat → ∃ older', keep_last (older ++ l) = older' ++ l.
Proof.
  intros Hl. unfold keep_last. case_decide; [| by eexists]. rewrite length_app.
  exists (drop (length older + length l - maxLogs) older). rewrite drop_app_le by lia. done.
Qed.

Lemma filter_keep_last f (l older : list string) :
  ∃ older', keep_last (older ++ filter (shown f) l) = older' ++ filter (shown f) (keep_last l).
Proof.
  destruct (keep_last_suffix l) as [p Hp].
  assert (filter (shown f) l = filter (shown f) p ++ filter (shown f) (keep_last l)) as ->
    by (rewrite <- filter_app; by f_equal).
  rewrite app_assoc.
  apply keep_last_end. etrans; [apply length_filter | apply keep_last_length].
Qed.

Lemma set_filter_inv f m : (length (logs m) <= maxLogs)%nat → tui_inv (set_filter f m).
Proof.
  intros Hl. split; cbn [set_filter activeFilter filteredLogs logs]; rewrite ?filterLogs_shown.
  - intros ->. apply filter_shown_empty.
  - apply Forall_forall. by intros x [? _]%list_elem_of_filter.
  - by exists [].
  - done.
  - etrans; [apply length_filter | done].
Qed.

Lemma updateViewport_inv m : tui_inv m → tui_inv (updateViewport m).
Proof. intros [? ? ? ? ?]. unfold updateViewport. destruct (ready m); by split. Qed.

Lemma on_log_inv line m : tui_inv m → tui_inv (on_log line m).
Proof.
  intros [Hn Hm [older Hr] Hl Hf]. apply updateViewport_inv.
  assert ((if bool_decide (activeFilter m = "") || Contains line (activeFilter m)
           then filteredLogs m ++ [line] else filteredLogs m) =
          older ++ filter (shown (activeFilter m)) (logs m ++ [line])) as Heq.
  { rewrite filter_app, app_assoc, <- Hr.
    destruct (Contains line (activeFilter m)) eqn:Hc.
    - rewrite orb_true_r. by rewrite filter_cons_True.
    - rewrite filter_cons_False by (unfold shown; by rewrite Hc). rewrite orb_false_r.
      case_bool_decide as He; [by rewrite He, Contains_empty in Hc | by rewrite app_nil_r]. }
  split; cbn [activeFilter filteredLogs logs]; rewrite ?Heq.
  - intros He. rewrite <- Heq, bool_decide_true by done. simpl. by rewrite Hn.
  - rewrite <- Heq. destruct (keep_last_suffix (if bool_decide (activeFilter m = "") ||
      Contains line (activeFilter m) then filteredLogs m ++ [line] else filteredLogs m)) as [p Hp].
    rewrite Heq in *. assert (Forall (shown (activeFilter m)) (older ++ filter (shown (activeFilter m)) (logs m ++ [line])))
      as Hall.
    { rewrite filter_app, app_assoc, <- Hr. apply Forall_app. split; [done |].
      apply Forall_forall. by intros x [? _]%list_elem_of_filter. }
    rewrite Hp in Hall. by apply Forall_app in Hall as [_ ?].
  - apply filter_keep_last.
  - apply keep_last_length.
  - apply keep_last_length.
Qed.

Lemma on_key_inv key m : tui_inv m → tui_inv (on_key key m).
Proof.
  intros H. assert (∀ i b, tui_inv (set_input i b m)) as Hi by (intros i b; by destruct H; split).
  assert (tui_inv (typed key m)) as Ht by (unfold typed; by destruct (inputMode m)).
  assert (∀ f, tui_inv (updateViewport (set_filter f m))) as Hset
    by (intros f; apply updateViewport_inv, set_filter_inv, H).
  unfold on_key. repeat case_decide; try done; repeat case_match; try done.
  apply updateViewport_inv. split; cbn [activeFilter filteredLogs logs]; rewrite ?filterLogs_shown; try done.
  - by exists [].
  - simpl. unfold maxLogs. lia.
  - simpl. unfold maxLogs. lia.
Qed.

(** The log view. Whatever keys are pressed and lines arrive, the lines that
    are shown match the active filter, all matching lines that are kept are
    shown, in order, at most 5000 lines are kept of either list, and without a
    filter the lines shown are the lines kept; once the window's size is known,
    an update of the filter or of the lines is on the screen. *)
Theorem reachable_inv (m : model) (x : msg) : reachable m →
  tui_inv m ∧ (ready m = true → match x with LogMsg _ => content (Update x m) = filteredLogs (Update x m)
                               | _ => content m = filteredLogs m → content (Update x m) = filteredLogs (Update x m)
                               end).
Proof.
  intros Hm. split.
  - induction Hm as [| y m Hm IH].
    + split; try done; [by exists [] | simpl; unfold maxLogs; lia..].
    + destruct y as [key | line |]; cbn [Update]; [by apply on_key_inv | by apply on_log_inv |].
      unfold on_size. destruct (ready m); simpl; [by apply updateViewport_inv | by destruct IH; split].
  - intros Hr. destruct x as [key | line |]; cbn [Update].
    + intros Hc. unfold on_key, typed, updateViewport, set_input, set_filter. cbn [ready]. rewrite Hr.
      repeat case_decide; try done; by repeat case_match.
    + unfold on_log, updateViewport. cbn [ready]. by rewrite Hr.
    + intros _. unfold on_size, updateViewport. by rewrite Hr.
Qed.

(** ** Witnesses *)
Definition typed_model : model :=
  foldl (λ m x, Update x m) initialModel
    [WindowSizeMsg; LogMsg "dns ok"; KeyMsg "f"; KeyMsg "d"; KeyMsg "n"; KeyMsg "enter"; LogMsg "tcp"].

Lemma reachable_inv_witness :
  reachable typed_model ∧ logs typed_model = ["dns ok"; "tcp"] ∧ filteredLogs typed_model = ["dns ok"] ∧
  tui_inv typed_model.
Proof.
  assert (reachable typed_model) as H by (repeat apply Reach_step; apply Reach_start).
  split; [done |]. split; [by vm_compute |]. split; [by vm_compute |].
  apply (reachable_inv typed_model WindowSizeMsg H).
Defined.

(** The names of keys that are not commands are typed into the filter too. *)
Lemma key_names_typed (m : model) :
  inputMode m = true → filterInput (Update (KeyMsg "up") m) = filterInput m +:+ "up".
Proof. intros H. unfold Update, on_key, typed. by rewrite H. Qed.

(** Backspace cuts one byte, so a two-byte character is left incomplete. *)
Lemma backspace_cuts_byte :
  let e_acute := String (Ascii.ascii_of_nat 195) (String (Ascii.ascii_of_nat 169) "") in
  filterInput (Update (KeyMsg "backspace") (set_input e_acute true initialModel)) =
    String (Ascii.ascii_of_nat 195) "".
Proof. by vm_compute. Qed.
