(* ===== verification/TuiShell.v ===== *)
(** * The frame of the terminal interface: the rest of [cmd/spoofdpi/tui.go]
      and the log writers of [cmd/spoofdpi/main.go]

    The transfer rates of the header (in IEEE double precision, as the
    specification of floating-point numbers of the Standard Library computes
    it), the texts of header and footer without their colours, the goroutine
    that sends log lines to the interface, and starting the interface, as steps
    of the goroutine that runs it and of the one that waits. *)

From Stdlib Require Import SpecFloat.
From S2P Require Import Prelude GoIO GoStrings NetText Tui.

Local Open Scope string_scope.
Local Open Scope list_scope.
Local Open Scope Z_scope.

(** ** [float64] *)
Definition float64 : Type := spec_float.
Definition fadd : float64 → float64 → float64 := SFadd 53 1024.
Definition fsub : float64 → float64 → float64 := SFsub 53 1024.
Definition fmul : float64 → float64 → float64 := SFmul 53 1024.
Definition fdiv : float64 → float64 → float64 := SFdiv 53 1024.
(** [float64(n)] of an integer *)
Definition of_int (n : Z) : float64 := binary_normalize 53 1024 n 0 false.
(** The constant 0.3. *)
Definition alpha : float64 := S754_finite false 5404319552844595 (-54).

(** ** [tickMsg]: the transfer rates *)
Record rates : Type := mkRates {
  lastTxBytes : Z; lastRxBytes : Z;       (* uint64 *)
  lastTickTime : Z;                       (* nanoseconds *)
  avgUpSpeed : float64; avgDownSpeed : float64;
}.

(** [d.Seconds()] *)
Definition Seconds (d : Z) : float64 :=
  fadd (of_int (Z.quot d 1000000000)) (fdiv (of_int (Z.rem d 1000000000)) (of_int 1000000000)).

Definition elapsed (now last : Z) : float64 :=
  let e := Seconds (now - last) in
  if SFleb e (S754_zero false) then of_int 1 else e.

(** The rate of [delta] bytes in [elapsed] seconds, in KB/s. *)
Definition raw_speed (delta : Z) (elapsed : float64) : float64 :=
  fdiv (fdiv (of_int delta) (of_int 1024)) elapsed.
Definition smooth (raw avg : float64) : float64 :=
  fadd (fmul raw alpha) (fmul avg (fsub (of_int 1) alpha)).

Definition on_tick (now currentTx currentRx : Z) (r : rates) : rates :=
  let e := elapsed now (lastTickTime r) in
  let rawUpSpeed := raw_speed (u64 (currentTx - lastTxBytes r)) e in
  let rawDownSpeed := raw_speed (u64 (currentRx - lastRxBytes r)) e in
  mkRates currentTx currentRx now (smooth rawUpSpeed (avgUpSpeed r)) (smooth rawDownSpeed (avgDownSpeed r)).

(** ** [%8.1f] *)

(** The nearest multiple of a tenth to [m * 2^e], as a number of tenths; ties go
    to the even one. *)
Definition tenths (m e : Z) : Z :=
  if 0 <=? e then 10 * m * 2 ^ e
  else
    let d := 2 ^ (- e) in
    let q := 10 * m / d in
    let r := (10 * m) mod d in
    if (d <? 2 * r) || ((2 * r =? d) && Z.odd q) then q + 1 else q.
Definition fmt_f1 (x : float64) : string :=
  match x with
  | S754_nan => "NaN"
  | S754_infinity s => if s : bool then "-Inf" else "+Inf"
  | S754_zero s => (if s : bool then "-" else "") +:+ "0.0"
  | S754_finite s m e =>
    let t := tenths (Z.pos m) e in
    (if s : bool then "-" else "") +:+ Itoa (t / 10) +:+ "." +:+ Itoa (t mod 10)
  end.
Fixpoint pad (n : nat) (s : string) : string :=
  match n with O => s | S n => pad n (" " +:+ s) end.
Definition pad_left (w : nat) (s : string) : string := pad (w - String.length s) s.

Definition formatSpeed (up down : float64) : string :=
  "↑ " +:+ pad_left 8 (fmt_f1 up) +:+ " KB/s ┆ ↓ " +:+ pad_left 8 (fmt_f1 down) +:+ " KB/s".

(** The elapsed time is never zero, so no rate is a division by it. *)
Lemma elapsed_positive now last : SFleb (elapsed now last) (S754_zero false) = false.
Proof. unfold elapsed. destruct (SFleb (Seconds (now - last)) (S754_zero false)) eqn:E; [by vm_compute | done]. Qed.

(** The ticks account for every byte once: over any run of ticks the increments
    the rates are made of add up, modulo 2^64, to the difference of the
    counters at its ends, also when a counter wraps around. *)
Fixpoint increments (cur : list (Z * Z * Z)) (r : rates) : Z * Z * rates :=
  match cur with
  | [] => (0, 0, r)
  | (now, tx, rx) :: cur =>
    let '(up, down, r') := increments cur (on_tick now tx rx r) in
    (u64 (tx - lastTxBytes r) + up, u64 (rx - lastRxBytes r) + down, r')
  end.

Lemma ticks_account cur r :
  let '(up, down, r') := increments cur r in
  u64 up = u64 (lastTxBytes r' - lastTxBytes r) ∧ u64 down = u64 (lastRxBytes r' - lastRxBytes r).
Proof.
  revert r. induction cur as [| [[now tx] rx] cur IH]; intros r; cbn [increments].
  - by rewrite !Z.sub_diag.
  - specialize (IH (on_tick now tx rx r)).
    destruct (increments cur (on_tick now tx rx r)) as [[up down] r'].
    cbn [on_tick lastTxBytes lastRxBytes] in IH. destruct IH as [Hu Hd]. unfold u64 in *.
    rewrite !Zplus_mod_idemp_l. split.
    + rewrite Zplus_mod, Hu, <- Zplus_mod. f_equal. lia.
    + rewrite Zplus_mod, Hd, <- Zplus_mod. f_equal. lia.
Qed.

Example rates_example :
  let r := on_tick 1000000000 (1024 * 100) 512 (mkRates 0 0 0 (S754_zero false) (S754_zero false)) in
  formatSpeed (avgUpSpeed r) (avgDownSpeed r) = "↑     30.0 KB/s ┆ ↓      0.1 KB/s".
Proof. by vm_compute. Qed.

(** ** Header and footer, without colours *)
Definition divider_width (width : Z) : Z := if width =? 0 then 80 else width.

(** The texts at the left and at the right of the footer. *)
Definition footer_texts (m : model) : option (string * string) :=
  if negb (ready m) then None
  else Some
    (if inputMode m then ("filter: " +:+ filterInput m, "enter apply  esc cancel")
     else if bool_decide (activeFilter m ≠ "")
     then ("filter: " +:+ activeFilter m, "esc unfilter  f filter  R clear  ^C quit")
     else ("", "f filter  R clear  ^C quit")).

(** [View]: the lines between header and footer are the viewport's. *)
Definition View (header footer : string) (m : model) : string :=
  if negb (ready m) then String (Ascii.ascii_of_nat 10) "  Initializing..."
  else header +:+ String (Ascii.ascii_of_nat 10)
    (String.concat (String (Ascii.ascii_of_nat 10) "") (content m) +:+
     String (Ascii.ascii_of_nat 10) footer).

(** What the footer offers is what the keys do: with a filter active, [esc]
    removes it, and only then is it offered. *)
Lemma footer_offers (m : model) :
  ready m = true → inputMode m = false →
  (∃ l r, footer_texts m = Some (l, r) ∧ (GoStrings.Contains r "esc unfilter" = true ↔ activeFilter m ≠ "")) ∧
  activeFilter (Update (KeyMsg "esc") m) = "" ∧ inputMode (Update (KeyMsg "f") m) = true ∧
  logs (Update (KeyMsg "R") m) = [].
Proof.
  intros Hr Hi. unfold footer_texts. rewrite Hr, Hi. cbn [negb]. split.
  - destruct (decide (activeFilter m = "")) as [He | He].
    + rewrite bool_decide_false by naive_solver. eexists _, _. split; [done |]. split; [| done].
      intros H. by vm_compute in H.
    + rewrite bool_decide_true by done. eexists _, _. split; [done |]. by split.
  - unfold Update, on_key, updateViewport, set_filter, set_input. cbn [ready]. rewrite Hr, Hi. cbn [negb].
    split; [| split]; repeat case_decide; try done.
Qed.

(** ** [TUIWriter] *)

(** [strings.TrimSpace], on ASCII white space. *)
Definition is_space (c : Ascii.ascii) : bool :=
  let n := Ascii.nat_of_ascii c in (Nat.eqb n 32) || ((Nat.leb 9 n) && (Nat.leb n 13)).
Fixpoint trim_left (s : string) : string :=
  match s with String c s' => if is_space c then trim_left s' else s | EmptyString => s end.
Fixpoint trim_right (s : string) : string :=
  match s with
  | EmptyString => EmptyString
  | String c s' =>
    match trim_right s' with
    | EmptyString => if is_space c then EmptyString else String c EmptyString
    | t => String c t
    end
  end.
Definition TrimSpace (s : string) : string := trim_right (trim_left s).

(** Every write starts a goroutine of its own that sends the line; the
    interface receives them in some order. *)
Definition TUI_sent (started : bool) (writes : list string) : list string :=
  if started then TrimSpace <$> writes else [].
Definition TUI_received (started : bool) (writes received : list string) : Prop :=
  received ≡ₚ TUI_sent started writes.

(** Once the interface runs, no line is lost or made twice; but two lines can
    arrive in the order opposite to the one they were written in. *)
Lemma TUIWriter_delivers writes received :
  TUI_received true writes received →
  length received = length writes ∧ (∀ l, l ∈ received ↔ ∃ w, w ∈ writes ∧ l = TrimSpace w).
Proof.
  unfold TUI_received, TUI_sent. intros H. split; [by rewrite H, length_fmap |].
  intros l. rewrite H, list_elem_of_fmap. naive_solver.
Qed.
Lemma TUIWriter_reorders : TUI_received true ["first"; "second"] ["second"; "first"].
Proof. apply perm_swap. Qed.

(** ** The log writers *)
Inductive wtarget : Type := Direct | Delayed (delay : Z).
Inductive wop : Type := SetWriter (w : wtarget) | LogWrite (line : string).

(** [SwitchableWriter]: the lines that reach the writer behind, each with the
    time slept before it. *)
Fixpoint switchable (target : wtarget) (ops : list wop) : list (string * Z) :=
  match ops with
  | [] => []
  | SetWriter w :: ops => switchable w ops
  | LogWrite l :: ops =>
    (l, match target with Delayed d => if 0 <? d then d else 0 | Direct => 0 end) :: switchable target ops
  end.

Definition log_lines (ops : list wop) : list string :=
  omap (λ o, match o with LogWrite l => Some l | _ => None end) ops.

(** Switching the writer loses no line and keeps their order; only the lines
    before the switch are delayed. *)
Lemma switchable_lines target ops :
  (switchable target ops).*1 = log_lines ops ∧
  (target = Direct → Forall (λ o, o = SetWriter Direct ∨ ∃ l, o = LogWrite l) ops →
   Forall (λ x, x.2 = 0) (switchable target ops)).
Proof.
  revert target. induction ops as [| [w | l] ops IH]; intros target; [by split | |]; cbn [switchable].
  - split; [apply IH |]. intros -> Hall. apply Forall_cons in Hall as [[[= ->] | [? [=]]] Hall']. by apply IH.
  - split; [cbn; f_equal; apply IH |]. intros -> Hall. apply Forall_cons in Hall as [_ Hall'].
    apply Forall_cons. split; [done | by apply IH].
Qed.

(** ** [startTUI] *)
Record shell : Type := mkShell {
  sh_ready : bool;                     (* [readyChan] is closed *)
  sh_errChan : option error;           (* of capacity one *)
  sh_running : bool;                   (* [p.Run()] has not returned *)
  sh_cancelled : bool;                 (* the application's context *)
  sh_ret : option (option error);      (* what [startTUI] returned *)
}.
Definition shell_start : shell := mkShell false None true false None.

Inductive shell_step : shell → shell → Prop :=
| Sh_size s :                          (* the first size of the window *)
    sh_running s = true →
    shell_step s (mkShell true (sh_errChan s) true (sh_cancelled s) (sh_ret s))
| Sh_end s err :                       (* [p.Run()] returns: send an error, cancel *)
    sh_running s = true →
    shell_step s (mkShell (sh_ready s) err false true (sh_ret s))
| Sh_return_ready s :
    sh_ret s = None → sh_ready s = true →
    shell_step s (mkShell true (sh_errChan s) (sh_running s) (sh_cancelled s) (Some None))
| Sh_return_err s er :
    sh_ret s = None → sh_errChan s = Some er →
    shell_step s (mkShell (sh_ready s) None (sh_running s) (sh_cancelled s) (Some (Some er))).

Record shell_inv (s : shell) : Prop := {
  shi_cancel : sh_cancelled s = negb (sh_running s);
  shi_nil : sh_ret s = Some None → sh_ready s = true;
  shi_err : ∀ er, sh_ret s = Some (Some er) → sh_running s = false;
  shi_chan : ∀ er, sh_errChan s = Some er → sh_running s = false;
}.

Lemma shell_reachable_inv s : rtc shell_step shell_start s → shell_inv s.
Proof.
  intros H. remember shell_start as s0 eqn:E. assert (shell_inv s0) as H0 by (by subst; split).
  clear E. induction H as [| s0 s1 s2 Hs _ IH]; [done |]. apply IH.
  destruct H0 as [Hc Hn He Hch], Hs as [s Hr | s err Hr | s Hr Hrd | s er Hr Hch'];
    split; cbn [sh_cancelled sh_running sh_ret sh_ready sh_errChan] in *;
    rewrite ?Hr in *; try done; try naive_solver.
Qed.

(** Starting the interface. [startTUI] reports success only when the window is
    up, and an error only when the interface ended; a failure is never missed:
    while neither a size nor an error has come the interface can still end;
    when the interface is over the application's context is cancelled. If it
    ends without an error before the window's first size, [startTUI] waits for
    ever: no step is left. *)
Lemma startTUI_outcomes s : rtc shell_step shell_start s →
  (sh_ret s = Some None → sh_ready s = true) ∧
  (∀ er, sh_ret s = Some (Some er) → sh_cancelled s = true) ∧
  (sh_running s = false → sh_cancelled s = true) ∧
  (sh_ret s = None → (∃ s', shell_step s s') ∨ (sh_running s = false ∧ sh_ready s = false ∧ sh_errChan s = None)).
Proof.
  intros H. destruct (shell_reachable_inv s H) as [Hc Hn He Hch]. split; [done |].
  split; [intros er Hr; rewrite Hc, (He er Hr); done |]. split; [intros Hr; by rewrite Hc, Hr |].
  intros Hr. destruct (sh_running s) eqn:Hrun; [left; eexists; by apply Sh_size |].
  destruct (sh_ready s) eqn:Hrd; [left; eexists; by apply Sh_return_ready |].
  destruct (sh_errChan s) as [er |] eqn:Hec; [left; eexists; by eapply Sh_return_err | by right].
Qed.

(** Quitting before the first size: the state from which nothing happens. *)
Lemma startTUI_hangs :
  let s := mkShell false None false true None in
  rtc shell_step shell_start s ∧ ∀ s', ¬ shell_step s s'.
Proof.
  split.
  - apply rtc_once. exact (Sh_end shell_start None eq_refl).
  - intros s' H. inversion H; simplify_eq.
Qed.
