(* ===== verification/App.v ===== *)
(** * The program: [cmd/spoofdpi/main.go]

    How the parts are put together: the rules, the recovery from a previous run,
    the route, the packet capture, the server of the configured mode, and the
    network configuration that is applied while the program runs. *)

From S2P Require Import Prelude GoIO GoNet GoStrings NetText ConfigTypes CacheApi LruCache Sniffer Desync Dns CidrTrie RuleSet Jobs SysNet TunNet Discover.

Local Open Scope string_scope.
Local Open Scope list_scope.
Local Open Scope Z_scope.

(** ** The systems the program is built for *)
Inductive os : Type := Linux | Darwin | FreeBSD | OtherOS.

(** The constants [StateFile] of the three server packages. *)
Definition tun_StateFile (s : os) : string :=
  match s with
  | Linux => "/tmp/spoofdpi.linux.tun.state"
  | Darwin => "/tmp/spoofdpi.darwin.tun.state"
  | FreeBSD => "/tmp/spoofdpi.freebsd.tun.state"
  | OtherOS => ""
  end.
Definition http_StateFile (s : os) : string :=
  match s with Darwin => "/tmp/spoofdpi.http.darwin.state" | _ => "" end.
Definition socks5_StateFile (s : os) : string :=
  match s with Darwin => "/tmp/spoofdpi.socks5.darwin.state" | _ => "" end.

Definition hop_cache : Type := LRUCache (list Z) Z.

Section App.
Context {NT : NetText} {PT : Patricia}.

(** What [createServer] hands to the server it makes: the mode, the rules, and
    the desyncers. *)
Record server : Type := mkServer {
  srv_mode : AppModeType;
  srv_rules : RuleSet;
  srv_tls : TLSDesyncer hop_cache;
  srv_udp : UDPDesyncer hop_cache;
}.

Record app_env : Type := mkAppEnv {
  app_os : os;
  app_sys : sys_env;
  discover : bool → host → outcome error default_route;   (* [DiscoverRoute]; it reads the host's routes *)
  open_handle : nat → option error;       (* [NewHandle], after that many *)
  new_sysnet : option error;              (* the TUN device *)
  listen_err : option error;              (* [ListenAndServe] *)
  tui_err : option error;                 (* [startTUI] *)
  run_pac : string → outcome error string;
}.
Variable e : app_env.
Notation je := (commands (app_sys e)).

(** ** [createServer] *)
Definition add_rules (rules : list Rule) : sys RuleSet :=
  let fix go rules rs :=
    match rules with
    | [] => mret rs
    | r :: rules =>
      match RuleSet.Add r rs with
      | (Some er, _) => fail er
      | (None, rs) => go rules rs
      end
    end in
  go rules NewRuleSet.

Definition reset_stale (path : string) : sys unit := λ h, (Ok tt, ResetJobs je path h).

Definition open (n : nat) (msg : string) : sys unit :=
  match open_handle e n with Some er => lift (Err (ErrWrap msg er)) | None => mret tt end.

Definition str_outcome {A} (m : outcome string A) : outcome error A :=
  match m with Ok a => Ok a | Err s => Err (ErrText s) | Panic => Panic | Diverge => Diverge end.

(** The sniffers and whether there are writers, for TCP and for UDP. The cache of
    hop counts starts empty; the two sniffers share it. *)
Definition setupPcapIO (name : string) (cfg : Config) : sys (TLSDesyncer hop_cache * UDPDesyncer hop_cache) :=
  if negb (NeedsPcap cfg) then mret (mkTLSDesyncer false None, mkTLSDesyncer false None)
  else
    hopCache ← lift (str_outcome (NewLRUCache (K := list Z) (V := Z) 16 8192));
    let ttl := DefaultFakeTTL (Conn (Runtime cfg)) in
    tcp ← (if NeedsPcapTCP cfg
           then _ ← open 0 ("tcp pcap handle on " +:+ name +:+ ": ");
                mret (mkTLSDesyncer true (Some (NewTCPSniffer hopCache ttl)))
           else mret (mkTLSDesyncer false None));
    udp ← (if NeedsPcapUDP cfg
           then _ ← open (if NeedsPcapTCP cfg then 1 else 0) ("udp pcap handle on " +:+ name +:+ ": ");
                mret (mkTLSDesyncer true (Some (NewUDPSniffer hopCache ttl)))
           else mret (mkTLSDesyncer false None));
    mret (tcp, udp).

Definition createServer (cfg : Config) : sys server :=
  rs ← add_rules (Rules (Startup cfg));
  _ ← reset_stale (tun_StateFile (app_os e));
  _ ← reset_stale (http_StateFile (app_os e));
  _ ← reset_stale (socks5_StateFile (app_os e));
  defaultRoute ← wrap "failed to find default route: " (λ h, (discover e (NeedsPcap cfg) h, h));
  '(tls, udp) ← setupPcapIO (Name (Iface defaultRoute)) cfg;
  match Mode (App (Startup cfg)) with
  | AppModeHTTP => mret (mkServer AppModeHTTP rs tls udp)
  | AppModeSOCKS5 => mret (mkServer AppModeSOCKS5 rs tls udp)
  | AppModeTUN =>
    match new_sysnet e with
    | Some er => lift (Err (ErrWrap "failed to create sysnet: " er))
    | None => mret (mkServer AppModeTUN rs tls udp)
    end
  end.

(** ** [srv.SetupNetworkJobs]: the state file and the error *)
Definition tun_jobs : sys (list NetworkJob) :=
  match app_os e with
  | Linux => BuildJobs_linux (app_sys e) false 0
  | Darwin => BuildJobs_darwin (app_sys e)
  | FreeBSD => BuildJobs_freebsd (app_sys e)
  | OtherOS => mret []
  end.
Definition proxy_build (pacURL : string) : sys (list NetworkJob) :=
  match app_os e with Darwin => BuildJobs_proxy (app_sys e) pacURL | _ => mret [] end.

Definition proxy_setup (stateFile kind : string) (port : Z) : sys (string * option error) :=
  '(r, _) ← proxy_SetupNetworkJobs (app_sys e) stateFile kind port (run_pac e) proxy_build;
  match r with
  | Ok path => mret (path, None)
  | Err er => mret ("", Some er)
  | Panic => lift Panic
  | Diverge => lift Diverge
  end.

Definition SetupNetworkJobs (cfg : Config) (srv : server) : sys (string * option error) :=
  let port := addr_Port (ListenAddr (App (Startup cfg))) in
  match srv_mode srv with
  | AppModeHTTP => proxy_setup (http_StateFile (app_os e)) "PROXY" port
  | AppModeSOCKS5 => proxy_setup (socks5_StateFile (app_os e)) "SOCKS5" port
  | AppModeTUN => tun_SetupNetworkJobs (app_sys e) (tun_StateFile (app_os e)) tun_jobs
  end.

(** ** [runApp] *)

(** The network configuration while the server runs: it is applied, and reset
    when the program ends if all of it was applied. *)
Definition configure (cfg : Config) (srv : server) : sys unit :=
  if negb (AutoConfigureNetwork (App (Startup cfg))) then mret tt
  else
    '(stateFile, acErr) ← SetupNetworkJobs cfg srv;
    match acErr with
    | Some _ => mret tt
    | None => λ h,
      let '(acErr, h) := ApplyJobs je stateFile h in
      match acErr with
      | Some _ => (Ok tt, h)
      | None => (Ok tt, ResetJobs je stateFile h)
      end
    end.

Definition serve (cfg : Config) : sys unit :=
  srv ← wrap "create server: " (createServer cfg);
  match listen_err e with
  | Some er => lift (Err (ErrWrap "listen and serve: " er))
  | None => configure cfg srv
  end.

(** The error [main] sees. In the terminal interface an error of the start is
    logged and kept from [main]. *)
Definition runApp (cfg : Config) : sys (option error) := λ h,
  let noTUI := NoTUI (App (Startup cfg)) in
  match (if noTUI then None else tui_err e) with
  | Some er => (Ok (Some (ErrWrap "failed to start tui: " er)), h)
  | None =>
    match serve cfg h with
    | (Ok _, h) => (Ok None, h)
    | (Err er, h) => (Ok (if noTUI then Some er else None), h)
    | (Panic, h) => (Panic, h)
    | (Diverge, h) => (Diverge, h)
    end
  end.
End App.

(** ** What the program leaves behind *)
Section Restores.
Context {NT : NetText} {PT : Patricia}.
Variable e : app_env.
Notation je := (commands (app_sys e)).
Notation no_paths := [tun_StateFile (app_os e); http_StateFile (app_os e); socks5_StateFile (app_os e)].

(** [m] writes no file, whatever it returns. *)
Definition asks {A} (m : sys A) : Prop := ∀ h, files (m h).2 = files h.

Lemma asks_ret {A} (a : A) : asks (mret a).
Proof. done. Qed.
Lemma asks_lift {A} (m : outcome error A) : asks (lift m).
Proof. done. Qed.
Lemma asks_fail {A} msg : asks (fail (A := A) msg).
Proof. done. Qed.
Lemma asks_bind {A B} (m : sys A) (f : A → sys B) : asks m → (∀ a, asks (f a)) → asks (m ≫= f).
Proof.
  intros Hm Hf h. unfold mbind, sys_bind. specialize (Hm h). destruct (m h) as [[a | | |] h1]; try done.
  by rewrite (Hf a h1).
Qed.
Lemma asks_wrap {A} msg (m : sys A) : asks m → asks (wrap msg m).
Proof. intros Hm h. specialize (Hm h). unfold wrap. by destruct (m h) as [[] ?]. Qed.
Lemma asks_command cmd : asks (Commandf (app_sys e) cmd).
Proof. intros h. unfold Commandf, Command. by destruct (run _ _ _). Qed.
#[local] Hint Resolve asks_ret asks_lift asks_fail asks_wrap asks_command : asks.
#[local] Hint Extern 1 (asks (_ ≫= _)) => (apply asks_bind; [| intros ?]) : asks.
#[local] Hint Extern 2 (asks _) => case_match : asks.

Lemma asks_find_table ids : asks (find_table (app_sys e) ids).
Proof.
  induction ids as [| id ids IH]; [apply asks_lift |]. cbn [find_table].
  apply asks_bind; [auto with asks | intros [out [er |]]; [auto with asks |]].
  case_decide; [done |].
  apply asks_bind; [auto with asks | intros [? ?]]. apply asks_bind; [auto with asks | intros [? ?]].
  by case_decide.
Qed.

Lemma asks_tun_addrs : asks (tun_addrs (app_sys e)).
Proof. unfold tun_addrs. auto 10 with asks. Qed.

Lemma asks_tun_jobs : asks (tun_jobs e).
Proof.
  unfold tun_jobs. destruct (app_os e).
  - unfold BuildJobs_linux, collect_linux, getInterfaceIP.
    apply asks_bind; [| intros ?; apply asks_ret].
    apply asks_bind; [auto with asks | intros ?].
    apply asks_bind; [apply asks_wrap; unfold getOrAllocateTableID; apply asks_find_table | intros ?].
    apply asks_bind; [| intros ?; apply asks_bind; [apply asks_tun_addrs | intros [[??]?]; apply asks_ret]].
    apply asks_wrap, asks_bind; [auto with asks | intros [? []]; [auto with asks |]]. by destruct (inet_line _).
  - unfold BuildJobs_darwin, collect_darwin. apply asks_bind; [| intros ?; apply asks_ret].
    apply asks_bind; [auto with asks | intros ?].
    apply asks_bind; [apply asks_tun_addrs | intros [[??]?]; apply asks_ret].
  - unfold BuildJobs_freebsd, collect_freebsd, getInterfaceSubnet.
    apply asks_bind; [| intros [? ?]; apply asks_ret].
    apply asks_bind; [auto with asks | intros ?].
    apply asks_bind; [auto with asks | intros [? []]; [| auto with asks]].
    apply asks_bind; [| intros ?; apply asks_bind; [apply asks_tun_addrs | intros [[??]?]; apply asks_ret]].
    apply asks_wrap, asks_bind; [auto with asks | intros ?].
    apply asks_bind; [auto with asks | intros ?]. by destruct (first_subnet _).
  - auto with asks.
Qed.

Lemma asks_proxy_build url : asks (proxy_build e url).
Proof.
  unfold proxy_build. destruct (app_os e); auto with asks.
  unfold BuildJobs_proxy, getNetworkServiceFromInterface.
  apply asks_bind; [apply asks_wrap, asks_bind; [auto with asks | intros [? []]; [auto with asks |]] | auto with asks].
  by destruct (service_match _ _ _).
Qed.

(** ** The state files *)
Definition no_state (fs : gmap string file) : Prop := ∀ p, p ∈ no_paths → p ≠ "" → fs !! p = None.

(** What setting up leaves: the jobs in a state file, or nothing. *)
Lemma setup_files cfg srv h :
  match SetupNetworkJobs e cfg srv h with
  | (Ok (p, None), h') => p ∈ no_paths ∧
      ((p = "" ∧ files h' = files h) ∨
       (p ≠ "" ∧ ∃ jobs, files h' = <[p := JobsFile jobs]> (files h)))
  | (_, h') => files h' = files h
  end.
Proof.
  assert (∀ p jobs h0, match SaveJobs je p jobs h0 with
    | (Some _, h1) => files h1 = files h0
    | (None, h1) => (p = "" ∧ files h1 = files h0) ∨ (p ≠ "" ∧ files h1 = <[p := JobsFile jobs]> (files h0))
    end) as Hsave.
  { intros p jobs h0. unfold SaveJobs. case_decide; [by left |]. destruct (write_err je p); [done |]. by right. }
  assert (∀ p kind port, p ∈ no_paths → match proxy_setup e p kind port h with
    | (Ok (p, None), h') => p ∈ no_paths ∧
        ((p = "" ∧ files h' = files h) ∨ (p ≠ "" ∧ ∃ jobs, files h' = <[p := JobsFile jobs]> (files h)))
    | (_, h') => files h' = files h
    end) as Hproxy.
  { intros p kind port Hp. unfold proxy_setup, mbind, sys_bind, proxy_SetupNetworkJobs.
    destruct (run_pac e _) as [url | | |]; try done. unfold mbind, sys_bind.
    pose proof (asks_proxy_build url h) as Hb. destruct (proxy_build e url h) as [[jobs | | |] h1];
      simpl in Hb; try done.
    unfold wrap, save. pose proof (Hsave p jobs h1) as Hs. destruct (SaveJobs je p jobs h1) as [[er |] h2].
    { simpl. by rewrite Hs. }
    simpl. rewrite Hb in Hs. split; [done |]. naive_solver. }
  unfold SetupNetworkJobs. destruct (srv_mode srv).
  - apply Hproxy. set_solver.
  - apply Hproxy. set_solver.
  - unfold tun_SetupNetworkJobs. pose proof (asks_tun_jobs h) as Hb.
    destruct (tun_jobs e h) as [[jobs | | |] h1]; simpl in Hb; try done.
    pose proof (Hsave (tun_StateFile (app_os e)) jobs h1) as Hs.
    destruct (SaveJobs je _ jobs h1) as [[er |] h2]; [by rewrite Hs |]. rewrite Hb in Hs.
    split; [set_solver | naive_solver].
Qed.

Lemma no_state_delete p x fs : no_state fs → no_state (delete p (<[p := x]> fs)).
Proof.
  intros H q Hq Hne. destruct (decide (q = p)) as [-> | Hn]; [apply lookup_delete_eq |].
  rewrite lookup_delete_ne, lookup_insert_ne by done. by apply H.
Qed.

Lemma configure_files cfg srv h :
  (∀ p, remove_err je p = None) → no_state (files h) → no_state (files (configure e cfg srv h).2).
Proof.
  intros Hr Hn. unfold configure. destruct (negb _); [done |].
  unfold mbind, sys_bind. pose proof (setup_files cfg srv h) as Hs.
  destruct (SetupNetworkJobs e cfg srv h) as [[[p [er |]] | | |] h1]; simpl; try by rewrite Hs.
  destruct Hs as [_ [[-> Hf] | (Hp & jobs & Hf)]].
  - unfold ApplyJobs, ResetJobs. rewrite !decide_True by done. simpl. by rewrite Hf.
  - assert (files h1 !! p = Some (JobsFile jobs)) as Hl by (rewrite Hf; apply lookup_insert_eq).
    unfold ApplyJobs, LoadJobs. rewrite !decide_False, Hl by done.
    pose proof (apply_loop_spec je p jobs jobs h1 Hp Hl) as Ha.
    destruct (apply_loop je p jobs h1) as [err h2].
    destruct Ha as [(-> & _ & Hf2 & _) | ([er ->] & pre & job & post & _ & _ & _ & _ & _ & Hd)]; cbn [snd].
    + assert (files h2 !! p = Some (JobsFile jobs)) as Hl2 by by rewrite Hf2.
      destruct (ResetJobs_done je p jobs h2 Hp Hl2) as [_ ->]. rewrite Hr, Hf2, Hf. by apply no_state_delete.
    + rewrite Hd, Hr. cbn [files]. rewrite Hf. by apply no_state_delete.
Qed.

(** A readable state file, if there is one. *)
Definition readable (fs : gmap string file) (p : string) : Prop := ∀ er, fs !! p ≠ Some (BadFile er).

Lemma ResetJobs_files p h : (∀ p, remove_err je p = None) → p ≠ "" → readable (files h) p →
  files (ResetJobs je p h) = delete p (files h).
Proof.
  intros Hr Hp Hg. destruct (files h !! p) as [[jobs | er] |] eqn:Hl.
  - destruct (ResetJobs_done je p jobs h Hp Hl) as [_ ->]. by rewrite Hr.
  - by destruct (Hg er).
  - unfold ResetJobs, LoadJobs. rewrite !decide_False, Hl by done. by rewrite delete_id.
Qed.

Lemma ResetJobs_empty h : ResetJobs je "" h = h.
Proof. done. Qed.

(** The host on which the route is discovered: the three state files are gone. *)
Definition recovered (h : host) : host :=
  ResetJobs je (socks5_StateFile (app_os e))
    (ResetJobs je (http_StateFile (app_os e)) (ResetJobs je (tun_StateFile (app_os e)) h)).

Lemma recovered_no_state h : (∀ p, remove_err je p = None) →
  (∀ p, p ∈ no_paths → readable (files h) p) → no_state (files (recovered h)).
Proof.
  intros Hr Hg. unfold recovered, no_state, readable in *.
  destruct (app_os e); cbn [tun_StateFile http_StateFile socks5_StateFile] in *;
    rewrite ?ResetJobs_empty.
  - rewrite ResetJobs_files; [| done | done | by intros er; apply Hg; left].
    intros p Hp Hne. repeat (apply elem_of_cons in Hp as [-> | Hp]); try done; [apply lookup_delete_eq |].
    by apply elem_of_nil in Hp.
  - assert (∀ q fs, readable fs q → ∀ p, readable (delete p fs) q) as Hdel.
    { intros q fs Hq p er Hl. apply lookup_delete_Some in Hl as [_ Hl]. by apply (Hq er). }
    assert (files (ResetJobs je "/tmp/spoofdpi.darwin.tun.state" h) =
      delete "/tmp/spoofdpi.darwin.tun.state" (files h)) as H1
      by (apply ResetJobs_files; [done | done | intros er; apply Hg; set_solver]).
    assert (files (ResetJobs je "/tmp/spoofdpi.http.darwin.state"
       (ResetJobs je "/tmp/spoofdpi.darwin.tun.state" h)) =
      delete "/tmp/spoofdpi.http.darwin.state" (delete "/tmp/spoofdpi.darwin.tun.state" (files h))) as H2.
    { rewrite ResetJobs_files; [by rewrite H1 | done | done |].
      rewrite H1. apply Hdel. intros er. apply Hg. set_solver. }
    rewrite ResetJobs_files; [| done | done |].
    2: { rewrite H2. apply Hdel, Hdel. intros er. apply Hg. set_solver. }
    rewrite H2. intros p Hp Hne. repeat (apply elem_of_cons in Hp as [-> | Hp]); simplify_map_eq; try done.
    by apply elem_of_nil in Hp.
  - rewrite ResetJobs_files; [| done | done | by intros er; apply Hg; left].
    intros p Hp Hne. repeat (apply elem_of_cons in Hp as [-> | Hp]); try done; [apply lookup_delete_eq |].
    by apply elem_of_nil in Hp.
  - intros p Hp Hne. repeat (apply elem_of_cons in Hp as [-> | Hp]); try done. by apply elem_of_nil in Hp.
Qed.

(** ** The parts after the recovery *)
Lemma add_rules_added rules h :
  match added rules NewRuleSet with
  | Some rs => add_rules rules h = (Ok rs, h)
  | None => ∃ er, add_rules rules h = (Err er, h)
  end.
Proof.
  unfold add_rules. generalize (@NewRuleSet PT). induction rules as [| r rules IH]; intros rs; [done |].
  cbn [added]. destruct (RuleSet.Add r rs) as [[er |] rs']; [by eexists | apply IH].
Qed.

(** [m] never panics and never runs forever. *)
Definition sys_defined {A} (m : sys A) : Prop := ∀ h, defined (m h).1.

(** The end of [createServer], on the recovered host. *)
Definition assemble (cfg : Config) (rs : RuleSet) : sys server :=
  defaultRoute ← wrap "failed to find default route: " (λ h, (discover e (NeedsPcap cfg) h, h));
  '(tls, udp) ← setupPcapIO e (Name (Iface defaultRoute)) cfg;
  match Mode (App (Startup cfg)) with
  | AppModeHTTP => mret (mkServer AppModeHTTP rs tls udp)
  | AppModeSOCKS5 => mret (mkServer AppModeSOCKS5 rs tls udp)
  | AppModeTUN =>
    match new_sysnet e with
    | Some er => lift (Err (ErrWrap "failed to create sysnet: " er))
    | None => mret (mkServer AppModeTUN rs tls udp)
    end
  end.

Lemma createServer_assemble cfg rs h :
  added (Rules (Startup cfg)) NewRuleSet = Some rs →
  createServer e cfg h = assemble cfg rs (recovered h).
Proof.
  intros Hrs. unfold createServer. pose proof (add_rules_added (Rules (Startup cfg)) h) as Ha.
  rewrite Hrs in Ha. unfold mbind at 1, sys_bind at 1. rewrite Ha. done.
Qed.

Lemma setupPcapIO_host name cfg h : (setupPcapIO e name cfg h).2 = h.
Proof.
  unfold setupPcapIO. destruct (negb (NeedsPcap cfg)); [done |].
  assert (∀ n msg, (open e n msg h).2 = h) as Ho by (intros n msg; unfold open; by destruct (open_handle e n)).
  unfold mbind, sys_bind, lift. destruct (str_outcome _) as [c | | |]; try done.
  destruct (NeedsPcapTCP cfg).
  - pose proof (Ho 0%nat ("tcp pcap handle on " +:+ name +:+ ": ")) as H1.
    destruct (open e 0 _ h) as [[? | | |] h1]; simpl in H1; subst h1; try done. simpl.
    destruct (NeedsPcapUDP cfg); [| done].
    pose proof (Ho 1%nat ("udp pcap handle on " +:+ name +:+ ": ")) as H2.
    by destruct (open e 1 _ h) as [[? | | |] h1]; simpl in H2; subst h1.
  - simpl. destruct (NeedsPcapUDP cfg); [| done].
    pose proof (Ho 0%nat ("udp pcap handle on " +:+ name +:+ ": ")) as H2.
    by destruct (open e 0 _ h) as [[? | | |] h1]; simpl in H2; subst h1.
Qed.

Lemma assemble_host cfg rs h : (assemble cfg rs h).2 = h.
Proof.
  unfold assemble, mbind, sys_bind, wrap. destruct (discover e _ h) as [route | | |]; try done.
  pose proof (setupPcapIO_host (Name (Iface route)) cfg h) as H.
  destruct (setupPcapIO e _ cfg h) as [[[tls udp] | | |] h1]; simpl in H; subst h1; try done.
  destruct (Mode _); try done. by destruct (new_sysnet e).
Qed.


End Restores.

(** ** Witnesses: a start after a crash of the TUN mode on Linux *)
Definition crashed_host : host :=
  mkHost {["/tmp/spoofdpi.linux.tun.state" := JobsFile two_jobs]} [].
Definition sample_app : app_env :=
  mkAppEnv Linux sample_sys (λ _ _, Ok (mkDefaultRoute (mkInterface "eth0" None (Ok [])) (IPv4 192 168 0 1) None))
    (λ _, None) None None None (λ _, Ok "http://127.0.0.1:1/proxy.pac").
Definition tun_config : Config :=
  mkConfig (mkStartupConfig (mkAppOptions true InfoLevel false true AppModeTUN (mkTCPAddr [] 0) 1) [])
    (Runtime DefaultConfig).



(** With the terminal interface an error of the start does not reach [main]. *)
Lemma tui_hides_start_errors {NT : NetText} {PT : Patricia} (e : app_env) cfg h :
  NoTUI (App (Startup cfg)) = false → tui_err e = None →
  match (runApp e cfg h).1 with Ok r => r = None | Err _ => False | _ => True end.
Proof.
  intros H1 H2. unfold runApp. rewrite H1, H2. by destruct (serve e cfg h) as [[] ?].
Qed.
